(* ===== verification/_CoqProject ===== *)
-Q . S2P
Prelude.v
JsString.v
Base64.v
Normalizer.v
Upload.v
Machine.v
Embedding.v
Independence.v
Progress.v
Canvas.v
Media.v
MobileCamera.v
MobileProgress.v
MobileRace.v
MobileView.v
EffectTree.v
MobileGuard.v
GuardRefine.v
Detector.v
DesktopCamera.v
DesktopProgress.v
Analyse.v
PageProgress.v
Fetch.v
UploadTree.v
System.v
SystemView.v
Whole.v
Interleaving.v
Render.v
Typing.v
WholeTyping.v
SystemProgress.v
WholeProgress.v
