(* ===== verification/Prelude.v ===== *)
(** * Verification of the image acquisition pipeline of the "analyse" page

    The program is one React client component file,
    [src/frontend/app/analyse/page.tsx].  It lets a user take a photo with
    the device camera or pick an image file, shows a preview, and posts the
    image to [/api/upload].

    ** The parts of the program and the files that model them

    - [base64ToBlob] (lines 12-23), the conversion of a base64 data URI to a
      binary blob.  [JsString.v] models the string operations it uses
      ([split(",")], [match(/:(.*?);/)], [startsWith], [charCodeAt]) on
      strings as lists of UTF-16 code units, [Base64.v] models the platform's
      [atob] (the forgiving base64 decoder) and the encoder behind
      [canvas.toDataURL], and [Normalizer.v] models [base64ToBlob] itself:
      every statement of the function in order, the two ways it throws, the
      byte-copy loop with its typed-array writes.
    - [handleImageUpload] (lines 178-208) is modelled in [Upload.v]: the
      construction of the form data on its three branches, the endpoint, the
      single [fetch], and the continuation that runs when the request
      settles, with everything it logs.
    - [MobileCamera] (lines 28-105) is [Module Mobile] of [MobileCamera.v]:
      the effect that starts the camera, its cleanup, the switch of the
      facing mode and [capturePhoto].  [Module StreamSpec] of the same file
      is the stream manager that the specification describes.
    - [DesktopCamera] (lines 110-164) is [Module Desktop] of
      [DesktopCamera.v]: the open/close toggle, the webcam widget of the
      [react-webcam] package ([Module Webcam], modelled from the package's
      behaviour since it is not part of the sources), [capturePhoto] and the
      file input.  [Module SnapshotSpec] is the two-state toggle of the
      specification.
    - The device detection (lines 173-176) is [Detector.v]: the test of the
      user agent against [/iPhone|iPad|iPod|Android/i].
    - The page component [Analyse] (lines 169-287) is [Module Page] of
      [Analyse.v]: the detection effect, [handleCapture],
      [handleMobileFile], the calls of [fetch] in flight and what the page
      renders.  [Module SessionSpec] is the capture session of the
      specification.
    - The page with the camera it renders is [Module System] of
      [System.v]: one machine in which a shutter hands the argument of
      [onCapture] to [handleCapture] in the same step, and leaving the page
      unmounts the camera.
    - The video element of [MobileCamera] (lines 46-51 and 85-98) is
      [Media.v] (its playback state: the [autoPlay] attribute, the loading
      of a source, the [onloadedmetadata] handler that calls [play()]) and
      [Module View] of [MobileView.v], which is [Module Mobile] together
      with the element, with the [loadedmetadata] event as an event of the
      machine and [capturePhoto] reading the element.
    - The canvas of both cameras (lines 69-75) is [Canvas.v]: a record for
      the element and one definition per operation that the code calls; the
      JPEG encoder is an interface.
    - The console lines of [handleImageUpload] (lines 200, 204, 206) are
      the output of the page in [PageProgress.v].
    - [MobileRace.v] is the component outside sequential use: the user
      switches the camera while [getUserMedia] is pending, and both
      promises resolve in either order.
    - [MobileGuard.v] holds two variations that are not code of the
      repository: the component after React's double run of the effect in
      strict mode ([strict_remount], the cleanup of [Mobile.cleanup]
      followed by a second run of the effect), and [Module Guarded], the
      component with the guard that the specification asks for.
    - [Typing.v] states the TypeScript types, which the model erases, as
      predicates on the values; [WholeTyping.v] does so for the values
      that the awaits of [handleImageUpload] bring in.
    - The continuation of [handleImageUpload] one [await] at a time
      (lines 193-207) is [Module Fetch] of [Fetch.v]: a call is suspended
      at [fetch], at [response.text()] or at [response.json()], and
      [resume] is the code between two suspensions.
    - The whole page with the video element of [MobileCamera] is
      [Module Full] of [SystemView.v]: the machine of [System.v] in which
      the shutter reads the element that the component feeds.
    - The whole program, the page with its camera, the video element and
      every call of [handleImageUpload] one [await] at a time, is
      [Module Whole] of [Whole.v]; its step has no code of its own, it is
      the event loop running one task, a handler of [Module Full] or the
      resumption of one call of [Module Fetch].  [Module Interleaving] of
      [Interleaving.v] has the pairs of its events that are independent.
    - The element trees that the three components return (lines 84-104,
      121-163 and 231-286) are [Module Render] of [Render.v]: their
      structure, their texts and the handlers of their controls.
    - The two asynchronous functions in direct style, statement by
      statement, are interaction trees: [handleImageUpload] with its
      [try] block and its three awaits is [Module Tree] of [UploadTree.v];
      [startCamera] and the cleanup function of the effect of
      [MobileCamera] (lines 33-65) are [Module Effect] of [EffectTree.v].
    - [GuardRefine.v] completes the stream manager of the specification
      with a switch and a teardown during the acquisition
      ([Module GuardSpec]) and relates the guarded component to it.
    - Shared by the components: [Machine.v] (components as machines: runs,
      reachability, the invariant rule), [Embedding.v] (one machine
      embedded in another by a projection of states and events),
      [Independence.v] (independent events, runs up to their order) and
      [Progress.v] (events that the environment owes, inevitability, the
      rule by a decreasing measure).
    - The progress of the components is in [MobileProgress.v],
      [DesktopProgress.v], [PageProgress.v] and [SystemProgress.v], one file
      per machine; the progress of the whole program is in
      [WholeProgress.v].

    The components interact as in the source: a camera component computes
    the argument of [onCapture] ([Mobile.capturePhoto],
    [Desktop.capturePhoto], [Desktop.onFileChange]); the page receives it as
    the event [Page.OnCapture], sets the preview and calls
    [handleImageUpload_start], which calls [base64ToBlob]; the request
    settles later as the event [Page.FetchSettled], which runs
    [handleImageUpload_settle].

    ** How the model corresponds to the code

    - A JavaScript string is a [list Z] of code units; [js "..."] builds one
      from a literal.  A number that the code keeps at a width (a byte of a
      [Uint8Array], a sextet of the decoder) is a [Z] with the wrap-around
      written out ([ToUint8 v = v mod 256]).
    - A function that can throw returns [result js_error A]; the order of
      the statements of the source is the order of the binds, so which
      exception wins is part of the model.
    - A [for] loop is [for_upto fuel i bound body s]: the guard [i < bound]
      is tested on every iteration and the fuel is only the termination
      device; [for_upto_enough] shows that fuel [bound - i] is enough and
      that more fuel changes nothing.  Every loop of the source is bounded by
      the length of a string, so that is the fuel the models pass.
    - An asynchronous function is split at its [await]: the synchronous
      prefix is one definition (it returns the request it issued), the
      continuation another (it takes the way the request settled).
    - A component is a [Machine]: its React state and the part of the
      platform it acts on (the running streams, the store of object URLs,
      the calls of [fetch]) form the state; an event is a click, a promise
      that settles, a mount or an unmount; the step function runs the
      handler of the event to completion and is undefined where the event
      cannot occur.  A state update, the cleanup of the effects it
      invalidates and the run of the new effects form one step.
    - A variable that a closure shares with a later continuation (the
      [activeStream] of a run of the effect of [MobileCamera]) is a field of
      a record kept per run, so that the continuation and the cleanup can
      execute in either order.
    - A promise that is pending is owed a settlement by the environment.
      Each machine has a relation [owed] (the settlements that are due in a
      state) and a measure (the number of pending promises).
      [inevitable owed P s] is inductive: [P] holds, or some owed event
      exists, every owed event can occur, and [P] is inevitable after each.
      It quantifies over every order of delivery and every outcome, and
      implies that [P] holds after finitely many events; no coinductive
      trace is needed.
    - What a step writes to the console is the output of the step; the
      console of a run is the list of the outputs in order.
    - Where two machines describe the same code at two levels of detail,
      the detailed one is embedded in the coarse one: a state is projected
      to a state, an event to a list of events (none for a step that the
      coarse machine does not see), and the projection of a step is a run.
      The page with one step per [await] is embedded in the page with one
      step per call; the page with the video element is embedded in the
      system without it and in the camera with its element; the whole
      program is embedded in the page with the video element and in the
      page with one step per [await].  The theorems of the coarse machines
      then hold of the detailed ones.
    - The browser decides the order in which promises settle.  Two events
      are independent when in every state they can occur in either order
      with the same result; [reorder R] relates two runs that differ by
      swaps of adjacent events that [R] relates.  It is an equivalence,
      [run] respects it ([Proper]), and the outputs of two such runs are
      permutations of each other.
    - The machines split the asynchronous functions by hand.  As a check,
      the same functions are also translated statement by statement into
      interaction trees: a node is what the function does to its
      environment (an [await], a console line, an assignment to the state
      or to the video element), a leaf is a return.  An [await] inside a
      [try] hands back the value of the promise or the reason of its
      rejection, and the [catch] clause is the continuation of a rejection.
      [UploadTree.v] runs a tree against the settlements of its promises
      ([to_await], [feed], [run]); [EffectTree.v] interprets a tree in the
      state monad with a handler per statement ([interp_state]) and states
      the result up to the library's weak bisimulation.  The trees are
      proved to do what the steps of the machines do.
    - A returned JSX tree is a value of an inductive type of elements with
      a list of children; a component rendered inside another contributes
      its tree with its handlers tagged.  The guards of the step functions
      are checked against the trees.

    ** What the theorems show

    - [Base64.v]: the decoder inverts the encoder on every byte string
      (round trip), the decoder's output is made of bytes, the encoder's
      output is always accepted, and the exact failure conditions of [atob].
    - [Normalizer.v]: [base64ToBlob] returns the bytes that [toDataURL]
      encoded, unchanged, with the MIME type of the prefix; it fails exactly
      when [atob] fails or the prefix does not match, and the [atob] failure
      wins; the copy loop never truncates a value; the function looks only at
      the text between the first and the second comma.
    - [Upload.v]: which form field each kind of capture produces, that
      exactly one request is issued when the form can be built and none when
      [base64ToBlob] throws, and what is logged for each way the request can
      settle.
    - [MobileCamera.v]: every reachable state is well formed; when the user
      waits for the camera before switching or leaving, at most one stream
      is live, none after unmount, and the component refines [StreamSpec];
      a stream that arrives after the cleanup of its run is never stopped,
      and once the component is unmounted no stream is ever stopped.
    - [MobileProgress.v]: no handler cancels a call of [getUserMedia], the
      component comes to rest after as many settlements as calls are
      pending, and under sequential use the chosen camera inevitably
      streams or has failed.
    - [MobileRace.v]: in every well-formed state in which the current call
      of [getUserMedia] is pending, a switch of the camera followed by the
      two resolutions, in either order, leaves two more live streams, which
      stay live while promises settle; when the stream of the old run
      arrives last, the video element shows the camera the user switched
      away from, with a stream that nothing stops.
    - [MobileView.v]: the invariant of the video element; the video
      inevitably plays the stream that is bound to it, which under
      sequential use is the stream of the chosen camera; a photo is the
      current frame at the size of the stream once the metadata has loaded
      and a blank image of 640 by 480 before, also when the camera was
      refused.
    - [MobileGuard.v]: in strict mode the first stream of every mount is
      never stopped (the late stream of [MobileCamera.v] at the state after
      such a mount); with the guard of the specification at most one
      stream is live under every interleaving, none after unmount, and under
      sequential use the guard changes nothing.
    - [DesktopCamera.v]: under every interleaving at most one stream is
      live and none while the webcam is closed; the component refines
      [SnapshotSpec]; when [capturePhoto] calls [onCapture] and with what.
    - [DesktopProgress.v]: an open webcam inevitably becomes ready, under
      every interleaving, and then takes photos.
    - [Detector.v]: the test is "the user agent contains one of the four
      words, compared without regard to ASCII case", first against the
      word list and the comparison of the regular expression, then with the
      four words and the ASCII lower-casing spelled out.
    - [Analyse.v]: the mode is decided once; the preview shows the latest
      capture and does not depend on the uploads; one request per capture,
      none for a malformed data URI, whose exception nobody handles; object
      URLs are never released; an upload is never cancelled, its log is
      final and it settles at most once; and the path from the shutter of either camera to the
      request.
    - [PageProgress.v]: the uploads in flight inevitably all log their
      line while the preview stays; the console of a run is a permutation of
      the lines that the uploads have logged, in the order of settlement.
    - [System.v]: the components of a reachable state of the whole page are
      reachable states of their own machines, so their invariants hold
      inside the system; every string that reaches [handleCapture] is a data
      URI, so every request carries the single field [image]; the whole
      page refines [SessionSpec]; on a phone no capture is rejected, but the
      camera stays on when the user leaves during the acquisition, and once
      the page is gone every stream that arrives is added to the live ones
      and none is stopped; on a desktop at most one
      stream is live and none after the user has left.
    - [SystemProgress.v]: the system comes to rest from every state after
      at most as many settlements as promises are pending, and every
      capture that starts an upload is inevitably answered on the console.
    - [Typing.v]: every operation of the pipeline returns well-typed
      values, and every step of the page and of the system preserves the
      typing of the state when the files and the responses are well typed.
    - [WholeTyping.v]: the whole program, one [await] at a time, preserves
      the typing of the state, and every line it writes to the console is
      well typed; the proof transfers the theorem of [Typing.v] through
      the embedding of [Whole.v].
    - [Embedding.v]: the projection of a run is a run, reachable states
      project to reachable states, invariants of the coarse machine hold of
      the projections, also those that hold under a condition on the
      events, outputs are preserved, embeddings compose.
    - [Fetch.v]: run one [await] at a time the continuation logs the line
      of the one-step continuation; every run of the detailed page is a run
      of the page with the same states and the same console; the console
      follows the order in which the bodies are read; every call
      inevitably logs its line after at most two settlements.
    - [SystemView.v]: the invariants of the system and of the element hold
      in the whole page; a click on the shutter uploads the frame that the
      element shows at the size of the stream, and the blank image of 640
      by 480 while the metadata has not loaded.
    - [Whole.v]: every run of the whole program projects to a run of the
      system and to a run of the page with one step per [await], with the
      same console; from the click on the shutter to the line on the
      console, for every way in which the request can settle.
    - [WholeProgress.v]: everything that the whole program awaits (the
      streams of [getUserMedia], the metadata in the video element, the
      responses of [fetch] and their bodies) can be delivered in every
      reachable state and in every order; after finitely many of these
      events every upload has logged its line, no call holds a response,
      the camera awaits nothing and the video plays; in particular every
      capture that starts an upload is inevitably answered on the console.
    - [Independence.v] and [Interleaving.v]: a settlement for a call is
      independent of the settlements for the other calls, of the events of
      the camera and of the user's leaving, in the page, in the system and
      in the whole program, so runs that differ in these orders end in the
      same state with the same lines on the console in a different order;
      the arrivals of two streams in [MobileCamera] are not independent.
    - [UploadTree.v]: the tree of [handleImageUpload] first awaits [fetch]
      with the request of [handleImageUpload_start]; on every sequence of
      settlements it writes the lines of the coroutine of [Fetch.v], is
      suspended at the same await and refuses the same settlements; it
      writes the one line of the continuation of [Upload.v] however the
      request settles and returns [undefined]; it returns the exception of
      [base64ToBlob] without awaiting anything.
    - [EffectTree.v]: [startCamera], executed statement by statement from
      the state in which its promise settles, performs the step [Resolve]
      or [Reject] of [View.machine]; the cleanup function of the current
      run performs [Mobile.cleanup].
    - [GuardRefine.v]: the guarded component is embedded in the completed
      stream manager under every interleaving, and its live streams are
      the handles of the manager; the component of the repository is not.
    - [Render.v]: a user event can occur exactly when its control is in
      the tree of the page, or it changes nothing; before the detection
      the tree holds the loading text and no control, afterwards exactly
      the controls of the camera of the mode, and the preview image exactly
      when a capture was made; the coarse view of [Analyse.v] is the summary of
      the tree.

    ** Bounds and fuel

    No bound is placed on the length of strings or blobs, on the number of
    events of a run, or on the number of streams or uploads.  The only fuel
    is that of [for_upto], discussed above.  The progress theorems need no
    fuel: they are proved by induction on the measure of the machine, and
    [owed_run_length] gives the bound on the number of settlements (the
    number of pending promises; for [MobileView.v] twice the number of
    pending calls plus one, since each stream also owes its metadata; for
    [Fetch.v] two per call in flight, the response and its body; for
    [WholeProgress.v] the sum of the two).  The trees of [UploadTree.v]
    have no silent steps; the fuel of [to_await] bounds the console lines
    between two awaits, of which there is one at most, and the theorem holds
    for every fuel from two on.  [EffectTree.v] uses no fuel: the trees are
    finite and their interpretation is related to a returned state.

    ** Not modelled

    Of the JSX trees the class names, the inline styles, the sizes and
    variants of the buttons, the animation wrapper's behaviour and the
    pictures of the icons are not modelled: they hold no state and call no
    handler.  The JPEG encoder of the canvas and the JSON parser
    of [response.json()] are parameters of the model (an interface with the
    one law the proofs need: an encoder produces bytes).  The identifier in
    an object URL is a counter in place of the platform's UUID.  Of the
    video element the attribute [playsInline] and the style are not
    modelled, a call of [play()] is taken to succeed, and what the element
    shows once the tracks of its stream are stopped is left to the
    environment (the frame is an input of [capturePhoto]).  The reading of
    the response body ([response.text()], [response.json()]) is a step of
    its own in [Fetch.v] only; the other files take it as part of the step
    in which the request settles, which [Fetch.v] justifies.  The server
    behind [/api/upload] is
    not part of the sources: its responses are inputs of the model.  The
    webcam widget of the [react-webcam] package is library code: its stream
    lifecycle and [getScreenshot] are modelled from the package's
    behaviour, its other props are not.

    ** Plan

    Done: strings, base64 and [base64ToBlob]; [handleImageUpload]; the
    two cameras; the detection; the page; the page with its camera and the
    refinement of the capture session; the video element with its playback
    and the canvas operations; progress of every machine; typing; the
    console as the output of a run; strict mode and the guarded variant of
    [MobileCamera] with its refinement of the stream manager; embeddings;
    the reading of the response body as a step of its own; the page with
    the video element; the returned trees and the conformance of the
    guards; the whole program in one machine; the independence of the
    settlements; progress and typing of the whole program; the two
    asynchronous functions in direct style and their agreement with the
    machines; the race of the switch with the acquisition, for every state
    and both orders.  Left: nothing of the sources; what remains unmapped is the
    directive, the imports, the comment banners and the closing lines.  The
    widget of react-webcam beyond the three operations the page uses and
    the server are outside the repository.

    This file is the prelude: the result monad, the loop combinators, the
    arithmetic reading of the bit operations, and the automation the other
    files share. *)

From Stdlib Require Import ZArith Lia ZifyNat.
From stdpp Require Import prelude.

#[local] Open Scope Z_scope.

(** ** Results: a value or an exception *)

Inductive result (E A : Type) : Type :=
| Ok (a : A)
| Err (e : E).
Arguments Ok {E A} a.
Arguments Err {E A} e.

#[export] Instance result_ret {E} : MRet (result E) := λ A, Ok.
#[export] Instance result_bind {E} : MBind (result E) :=
  λ A B f r, match r with Ok a => f a | Err e => Err e end.
#[export] Instance result_fmap {E} : FMap (result E) :=
  λ A B f r, match r with Ok a => Ok (f a) | Err e => Err e end.

(** [or_throw e o]: the value of [o], or the exception [e] when there is none. *)
Definition or_throw {E A} (e : E) (o : option A) : result E A :=
  match o with Some a => Ok a | None => Err e end.

Definition is_ok {E A} (r : result E A) : bool :=
  match r with Ok _ => true | Err _ => false end.

Definition to_option {E A} (r : result E A) : option A :=
  match r with Ok a => Some a | Err _ => None end.

Declare Scope res_scope.
Delimit Scope res_scope with res.
Notation "o 'else_throw' e" := (or_throw e o)
  (at level 65, no associativity) : res_scope.
#[global] Open Scope res_scope.

(** ** Loops *)

(** [for (i = i0; i < i0 + n; i++) s = body i s] with the trip count known. *)
Fixpoint for_loop {St : Type} (n : nat) (i : nat) (body : nat → St → St) (s : St) : St :=
  match n with
  | O => s
  | S n' => for_loop n' (S i) body (body i s)
  end.

(** [for (; i < bound; i++) s = body i s]: the guard is tested on every
    iteration; the loop stops when it fails or the fuel runs out. *)
Fixpoint for_upto {St : Type} (fuel : nat) (i bound : nat) (body : nat → St → St) (s : St) : St :=
  match fuel with
  | O => s
  | S fuel' =>
      if decide (i < bound)%nat then for_upto fuel' (S i) bound body (body i s) else s
  end.

(** ** Automation *)

(** Linear arithmetic with division and modulo by constants. *)
Ltac zdiv := Z.div_mod_to_equations; lia.

(** The same on natural numbers. *)
Ltac ndiv := zify; Z.div_mod_to_equations; lia.

(** Inverts equations between results and between options in the context. *)
Ltac simplify_result :=
  repeat match goal with
  | H : Ok _ = Ok _ |- _ => injection H as H; subst
  | H : Err _ = Err _ |- _ => injection H as H; subst
  | H : Ok _ = Err _ |- _ => discriminate H
  | H : Err _ = Ok _ |- _ => discriminate H
  | H : or_throw _ ?o = Ok _ |- _ => destruct o eqn:?; simpl in H
  | _ => progress simplify_eq
  end.

Create HintDb js discriminated.
Create Rewrite HintDb js.

(** ** Lemmas on results *)

Section result_lemmas.
Context {E A B : Type}.
Implicit Types (r : result E A) (f : A → result E B) (o : option A).

Lemma bind_Ok r f b : r ≫= f = Ok b ↔ ∃ a, r = Ok a ∧ f a = Ok b.
Proof.
  destruct r as [a|e]; simpl; split.
  - eauto.
  - by intros (? & [= <-] & ?).
  - done.
  - by intros (? & [=] & ?).
Qed.

Lemma bind_Err r f e :
  r ≫= f = Err e ↔ r = Err e ∨ ∃ a, r = Ok a ∧ f a = Err e.
Proof.
  destruct r as [a|e']; simpl; split.
  - intros. right. eauto.
  - by intros [[=]|(? & [= <-] & ?)].
  - intros [= ->]. by left.
  - by intros [[= ->]|(? & [=] & ?)].
Qed.

Lemma or_throw_Ok (e : E) o a : or_throw e o = Ok a ↔ o = Some a.
Proof. destruct o; simpl; split; congruence. Qed.

Lemma or_throw_Err (e e' : E) o : or_throw e o = Err e' ↔ o = None ∧ e' = e.
Proof.
  destruct o; simpl; split; try done.
  - by intros [? _].
  - by intros [= ->].
  - by intros [_ ->].
Qed.

Lemma is_ok_true r : is_ok r = true ↔ ∃ a, r = Ok a.
Proof. destruct r; simpl; split; eauto; try done. by intros [? ?]. Qed.

End result_lemmas.

(** ** Lemmas on loops *)

Section loop_lemmas.
Context {St : Type}.
Implicit Types (body : nat → St → St) (s : St) (n i fuel bound : nat).

Lemma for_loop_snoc n i body s :
  for_loop (S n) i body s = body (i + n)%nat (for_loop n i body s).
Proof.
  revert i s. induction n as [|n IH]; intros i s.
  - simpl. by rewrite Nat.add_0_r.
  - change (for_loop (S (S n)) i body s)
      with (for_loop (S n) (S i) body (body i s)).
    rewrite IH. simpl. f_equal. lia.
Qed.

(** Enough fuel: the guarded loop makes exactly [bound - i] iterations. *)
Lemma for_upto_enough fuel i bound body s :
  (bound - i ≤ fuel)%nat →
  for_upto fuel i bound body s = for_loop (bound - i) i body s.
Proof.
  revert i s. induction fuel as [|fuel IH]; intros i s Hf.
  - replace (bound - i)%nat with 0%nat by lia. done.
  - simpl. case_decide as Hlt.
    + rewrite IH by lia.
      replace (bound - i)%nat with (S (bound - S i)) by lia. done.
    + replace (bound - i)%nat with 0%nat by lia. done.
Qed.

(** A loop that has passed its bound does nothing, whatever the fuel. *)
Lemma for_upto_done fuel i bound body s :
  (bound ≤ i)%nat → for_upto fuel i bound body s = s.
Proof. intros. destruct fuel; simpl; [done|]. case_decide; [lia|done]. Qed.

End loop_lemmas.

(** Writing [g (src[i])] at index [i] of a filled array, for every [i],
    builds the image of [src]: the shape of a typed-array copy loop.  Here
    [src !! i] is the read, which has no value past the end. *)
Lemma for_loop_fill {A B} (g : option A → B) (src : list A) (d : B) (k : nat) :
  (k ≤ length src)%nat →
  for_loop k 0 (λ i dst, <[i := g (src !! i)]> dst) (replicate (length src) d)
  = ((g ∘ Some) <$> take k src) ++ replicate (length src - k) d.
Proof.
  induction k as [|k IH]; intros Hk.
  - simpl. by rewrite Nat.sub_0_r.
  - rewrite for_loop_snoc, IH by lia. simpl.
    destruct (lookup_lt_is_Some_2 src k) as [a Ha]; [lia|]. rewrite Ha.
    rewrite (take_S_r _ _ _ Ha), fmap_app, <-app_assoc. simpl.
    replace (length src - k)%nat with (S (length src - S k)) by lia.
    simpl. rewrite insert_app_r_alt by (rewrite length_fmap, length_take; lia).
    rewrite length_fmap, length_take.
    replace (k - k `min` length src)%nat with 0%nat by lia. done.
Qed.

(** The whole loop. *)
Lemma for_upto_fill {A B} (g : option A → B) (src : list A) (d : B) (fuel : nat) :
  (length src ≤ fuel)%nat →
  for_upto fuel 0 (length src) (λ i dst, <[i := g (src !! i)]> dst)
    (replicate (length src) d)
  = (g ∘ Some) <$> src.
Proof.
  intros Hf. rewrite for_upto_enough by lia. rewrite Nat.sub_0_r.
  rewrite for_loop_fill by done. rewrite firstn_all, Nat.sub_diag. apply app_nil_r.
Qed.

(** Induction on a list three elements at a time, for code that consumes
    its input in groups of three. *)
Lemma list_ind3 {A} (P : list A → Prop) :
  P [] → (∀ a, P [a]) → (∀ a b, P [a; b]) →
  (∀ a b c l, P l → P (a :: b :: c :: l)) →
  ∀ l, P l.
Proof.
  intros H0 H1 H2 H3 l.
  cut (P l ∧ (∀ a, P (a :: l)) ∧ (∀ a b, P (a :: b :: l))); [by intros [? _]|].
  induction l as [|x l (IH0 & IH1 & IH2)]; [done|].
  split; [apply IH1|]. split; [intros; apply IH2|intros; by apply H3].
Qed.

(** The same four elements at a time. *)
Lemma list_ind4 {A} (P : list A → Prop) :
  P [] → (∀ a, P [a]) → (∀ a b, P [a; b]) → (∀ a b c, P [a; b; c]) →
  (∀ a b c d l, P l → P (a :: b :: c :: d :: l)) →
  ∀ l, P l.
Proof.
  intros H0 H1 H2 H3 H4 l.
  cut (P l ∧ (∀ a, P (a :: l)) ∧ (∀ a b, P (a :: b :: l)) ∧ (∀ a b c, P (a :: b :: c :: l)));
    [by intros [? _]|].
  induction l as [|x l (IH0 & IH1 & IH2 & IH3)]; [done|].
  split; [apply IH1|]. split; [intros; apply IH2|]. split; [intros; apply IH3|].
  intros. by apply H4.
Qed.

(** ** Bit operations as arithmetic *)

Lemma Z_testbit_small a n i : 0 ≤ a < 2 ^ n → n ≤ i → Z.testbit a i = false.
Proof.
  intros Ha Hi. destruct (decide (0 ≤ n)) as [Hn|Hn].
  - rewrite <-(Z.mod_small a (2 ^ n)) by lia. apply Z.mod_pow2_bits_high. lia.
  - rewrite Z.pow_neg_r in Ha by lia. lia.
Qed.

(** Or-ing a value below [2^n] into a value shifted left by [n] adds them. *)
Lemma Z_lor_shiftl_add a b n :
  0 ≤ n → 0 ≤ b < 2 ^ n → Z.lor (a ≪ n) b = a * 2 ^ n + b.
Proof.
  intros Hn Hb. rewrite <-Z.shiftl_mul_pow2 by lia.
  symmetry. apply Z.add_nocarry_lor. apply Z.bits_inj'. intros i Hi.
  rewrite Z.land_spec, Z.bits_0.
  destruct (decide (i < n)).
  - by rewrite Z.shiftl_spec_low.
  - rewrite (Z_testbit_small b n i) by lia. apply andb_false_r.
Qed.

Lemma Z_land_ones_mod a n : 0 ≤ n → Z.land a (2 ^ n - 1) = a mod 2 ^ n.
Proof. intros. rewrite <-Z.land_ones by lia. f_equal. rewrite Z.ones_equiv. lia. Qed.

Lemma Z_land_255 a : Z.land a 255 = a mod 256.
Proof. apply (Z_land_ones_mod a 8). lia. Qed.

Lemma Z_land_63 a : Z.land a 63 = a mod 64.
Proof. apply (Z_land_ones_mod a 6). lia. Qed.

Lemma Z_land_15 a : Z.land a 15 = a mod 16.
Proof. apply (Z_land_ones_mod a 4). lia. Qed.

Lemma Z_land_3 a : Z.land a 3 = a mod 4.
Proof. apply (Z_land_ones_mod a 2). lia. Qed.

Lemma Z_shiftr_div a n : 0 ≤ n → a ≫ n = a / 2 ^ n.
Proof. apply Z.shiftr_div_pow2. Qed.

Create Rewrite HintDb bits2arith.
#[export] Hint Rewrite Z_land_255 Z_land_63 Z_land_15 Z_land_3 : bits2arith.
#[export] Hint Rewrite Z_shiftr_div Z.shiftl_mul_pow2 using lia : bits2arith.
#[export] Hint Rewrite Z_lor_shiftl_add using (try apply Z.mod_pos_bound; lia) : bits2arith.

(** Turns shifts and masks by constants into [*], [/] and [mod], then calls
    linear arithmetic. *)
Ltac bits_lia :=
  autorewrite with bits2arith; simpl Z.pow; zdiv.

(** ** Lemmas on lists of numbers *)

(** [in_range lo hi l]: every element of [l] is in [lo, hi). *)
Definition in_range (lo hi : Z) (l : list Z) : Prop := Forall (λ x, lo ≤ x < hi) l.

#[export] Instance in_range_dec lo hi l : Decision (in_range lo hi l).
Proof. unfold in_range. apply _. Defined.

Lemma in_range_nil lo hi : in_range lo hi [].
Proof. constructor. Qed.

Lemma in_range_cons lo hi x l :
  in_range lo hi (x :: l) ↔ lo ≤ x < hi ∧ in_range lo hi l.
Proof. unfold in_range. by rewrite Forall_cons. Qed.

Lemma in_range_app lo hi l1 l2 :
  in_range lo hi (l1 ++ l2) ↔ in_range lo hi l1 ∧ in_range lo hi l2.
Proof. unfold in_range. by rewrite Forall_app. Qed.

Lemma in_range_weaken lo hi lo' hi' l :
  lo' ≤ lo → hi ≤ hi' → in_range lo hi l → in_range lo' hi' l.
Proof. intros ?? Hl. eapply Forall_impl; [exact Hl|]. simpl. intros. lia. Qed.

(** Reducing modulo [m] does nothing to a list already below [m]. *)
Lemma fmap_mod_in_range m l : in_range 0 m l → (λ x, x mod m) <$> l = l.
Proof.
  induction 1 as [|x l Hx _ IH]; csimpl; [done|].
  by rewrite IH, Z.mod_small.
Qed.

(** Reducing modulo a positive [m] puts a list in [0, m). *)
Lemma fmap_mod_range m l : 0 < m → in_range 0 m ((λ x, x mod m) <$> l).
Proof.
  intros. unfold in_range. apply Forall_fmap, Forall_true. intros x. simpl.
  by apply Z.mod_pos_bound.
Qed.

#[export] Hint Resolve in_range_nil : js.
