(* ===== verification/JsString.v ===== *)
(** JavaScript strings as the source uses them.

    A string is the list of its UTF-16 code units, each a [Z] in
    [0, 65536).  This file models the string methods that
    [src/frontend/app/analyse/page.tsx] calls, specialised to the arguments
    the source passes: [base64.split(",")] (line 13), the indexing
    [parts[1]] with its [undefined] case (line 14), the regular expression
    match [parts[0].match(/:(.*?);/)] (line 15), [charCodeAt] (line 20) and
    [image.startsWith("data:")] (line 181).  It also declares the exceptions
    the modelled code can throw. *)

From Stdlib Require Import ZArith Lia.
From Stdlib Require Ascii String.
From stdpp Require Import prelude.
From S2P Require Import Prelude.
Export String.StringSyntax.
#[global] Bind Scope string_scope with String.string.

#[local] Open Scope Z_scope.

Abbreviation jsstring := (list Z).

(** The code units of an ASCII literal. *)
Definition js (s : String.string) : jsstring :=
  (λ a, Z.of_N (Ascii.N_of_ascii a)) <$> String.list_ascii_of_string s.

(** A string of the language: every element is a 16-bit code unit. *)
Definition is_string (s : jsstring) : Prop := in_range 0 65536 s.

(** A "binary string": every code unit is a byte. *)
Definition is_binary (s : jsstring) : Prop := in_range 0 256 s.

(** The exceptions of the modelled code: the [DOMException] that [atob]
    throws, and the [TypeError] of reading a property of [null]. *)
Inductive js_error : Type :=
| InvalidCharacterError
| TypeError.

#[export] Instance js_error_eq_dec : EqDecision js_error.
Proof. solve_decision. Defined.

Definition COMMA : Z := 44.
Definition COLON : Z := 58.
Definition SEMICOLON : Z := 59.

(** ** [s.split(sep)] for a one-character separator *)

(** The pieces of [s] between the occurrences of [sep]; the empty string
    splits into one empty piece, as in JavaScript. *)
Fixpoint split_on (sep : Z) (s : jsstring) : list jsstring :=
  match s with
  | [] => [[]]
  | c :: r =>
      if decide (c = sep) then [] :: split_on sep r
      else match split_on sep r with
           | p :: ps => (c :: p) :: ps
           | [] => [[c]]
           end
  end.

(** [s.split(",")] *)
Definition split_comma (s : jsstring) : list jsstring := split_on COMMA s.

(** [Array.prototype.join] with a one-character separator. *)
Fixpoint join_with (sep : Z) (ps : list jsstring) : jsstring :=
  match ps with
  | [] => []
  | [p] => p
  | p :: ps' => p ++ sep :: join_with sep ps'
  end.

(** [parts[i]] passed where a string is expected: an index past the end
    reads [undefined], which converts to the string "undefined". *)
Definition index_to_string (parts : list jsstring) (i : nat) : jsstring :=
  default (js "undefined") (parts !! i).

(** ** [s.startsWith(p)] and [s.charCodeAt(i)] *)

Definition startsWith (p s : jsstring) : bool := bool_decide (p `prefix_of` s).

(** [None] stands for the [NaN] of an index out of range. *)
Definition charCodeAt (s : jsstring) (i : nat) : option Z := s !! i.

(** ** [s.match(/:(.*?);/)] *)

(** The line terminators, which [.] does not match. *)
Definition is_line_terminator (c : Z) : bool :=
  bool_decide (c = 10 ∨ c = 13 ∨ c = 8232 ∨ c = 8233).

(** [(.*?);] anchored at the start of [s]: the lazy star takes as few
    characters as possible, so the group ends at the first [;]; a line
    terminator before it makes the attempt fail. *)
Fixpoint lazy_until_semicolon (s : jsstring) : option jsstring :=
  match s with
  | [] => None
  | c :: r =>
      if decide (c = SEMICOLON) then Some []
      else if is_line_terminator c then None
      else (c ::.) <$> lazy_until_semicolon r
  end.

(** The first capture group of the leftmost match of [/:(.*?);/] in [s], or
    [None] when [match] returns [null]. *)
Fixpoint match_colon_semicolon (s : jsstring) : option jsstring :=
  match s with
  | [] => None
  | c :: r =>
      if decide (c = COLON) then
        match lazy_until_semicolon r with
        | Some g => Some g
        | None => match_colon_semicolon r
        end
      else match_colon_semicolon r
  end.

(** A text that [(.*?)] can capture before a [;]: no [;] and no line
    terminator in it. *)
Definition plain (g : jsstring) : Prop :=
  Forall (λ c, c ≠ SEMICOLON ∧ is_line_terminator c = false) g.

(** * Properties *)

(** ** Literals *)

Lemma js_app s1 s2 : js (String.append s1 s2) = js s1 ++ js s2.
Proof.
  unfold js. induction s1 as [|a s1 IH]; csimpl; [done|]. by rewrite IH.
Qed.

Lemma js_is_string s : is_string (js s).
Proof.
  unfold is_string, in_range, js. induction s as [|a s IH]; csimpl; constructor; [|done].
  pose proof (Ascii.N_ascii_bounded a). lia.
Qed.

(** Distinct literals are distinct strings. *)
Lemma js_inj s1 s2 : js s1 = js s2 → s1 = s2.
Proof.
  assert (Hi : Inj (=) (=) (λ a, Z.of_N (Ascii.N_of_ascii a))).
  { intros a b Hab. apply N2Z.inj in Hab.
    rewrite <-(Ascii.ascii_N_embedding a), <-(Ascii.ascii_N_embedding b). by rewrite Hab. }
  unfold js. intros Hs. apply (list_fmap_eq_inj _ Hi) in Hs.
  rewrite <-(String.string_of_list_ascii_of_string s1),
    <-(String.string_of_list_ascii_of_string s2). by rewrite Hs.
Qed.


(** ** [split_on] *)

Section split.
Context (sep : Z).
Implicit Types (s p : jsstring) (ps : list jsstring).

Lemma split_on_nonempty s : split_on sep s ≠ [].
Proof. destruct s as [|c r]; simpl; [done|]. case_decide; [done|]. by destruct (split_on sep r). Qed.

Lemma split_on_cons s : ∃ p ps, split_on sep s = p :: ps.
Proof. pose proof (split_on_nonempty s). destruct (split_on sep s); naive_solver. Qed.

(** A piece that holds no separator is split off whole. *)
Lemma split_on_app_sep p s :
  sep ∉ p → split_on sep (p ++ sep :: s) = p :: split_on sep s.
Proof.
  induction p as [|c p IH]; intros Hp; simpl.
  - by rewrite decide_True.
  - rewrite decide_False by set_solver. rewrite IH by set_solver. done.
Qed.

Lemma split_on_no_sep p : sep ∉ p → split_on sep p = [p].
Proof.
  induction p as [|c p IH]; intros Hp; simpl; [done|].
  rewrite decide_False by set_solver. rewrite IH by set_solver. done.
Qed.

Lemma join_with_cons p q ps :
  join_with sep (p :: q :: ps) = p ++ sep :: join_with sep (q :: ps).
Proof. done. Qed.

(** Joining the pieces with the separator gives the string back. *)
Lemma join_split_on s : join_with sep (split_on sep s) = s.
Proof.
  induction s as [|c r IH]; [done|].
  destruct (split_on_cons r) as (p & ps & Hr). simpl. rewrite Hr in *.
  case_decide as Hc.
  - subst c. by rewrite join_with_cons, IH.
  - destruct ps as [|q ps]; [by simplify_eq/=|].
    rewrite join_with_cons in *. by rewrite <-IH.
Qed.

(** No piece holds the separator. *)
Lemma split_on_pieces s : Forall (λ p, sep ∉ p) (split_on sep s).
Proof.
  induction s as [|c r IH]; simpl.
  - repeat constructor. set_solver.
  - case_decide as Hc.
    + constructor; [set_solver|done].
    + destruct (split_on sep r) as [|p ps]; [repeat constructor; set_solver|].
      apply Forall_cons in IH as [Hp Hps]. constructor; [set_solver|done].
Qed.

(** The decomposition that [split_on] computes is the only one. *)
Lemma split_on_unique s p s' :
  sep ∉ p → s = p ++ sep :: s' →
  split_on sep s !! 0%nat = Some p ∧
  split_on sep s !! 1%nat = split_on sep s' !! 0%nat.
Proof. intros Hp ->. by rewrite split_on_app_sep. Qed.

End split.

(** ** [startsWith] *)

Lemma startsWith_app p s : startsWith p (p ++ s) = true.
Proof. apply bool_decide_eq_true. by apply prefix_app_r. Qed.

Lemma startsWith_spec p s : startsWith p s = true ↔ ∃ r, s = p ++ r.
Proof. unfold startsWith. by rewrite bool_decide_eq_true. Qed.

(** ** The regular expression *)

Section regexp.
Implicit Types (s g r : jsstring).

(** What an anchored match returns: the text up to the first [;], which
    holds no line terminator. *)
Lemma lazy_until_semicolon_Some s g :
  lazy_until_semicolon s = Some g ↔ plain g ∧ ∃ r, s = g ++ SEMICOLON :: r.
Proof.
  revert g. induction s as [|c s IH]; intros g; simpl.
  - split; [done|]. intros [_ [r Hr]]. by destruct g.
  - case_decide as Hc.
    + subst c. split.
      * intros [= <-]. split; [constructor|by eexists].
      * intros [Hg [r Hr]]. destruct g as [|c g]; [done|].
        apply Forall_cons in Hg as [[Hc _] _]. simplify_eq/=.
    + destruct (is_line_terminator c) eqn:Hlt.
      * split; [done|]. intros [Hg [r Hr]]. destruct g as [|c' g]; simplify_eq/=.
        apply Forall_cons in Hg as [[_ Hc'] _]. congruence.
      * rewrite fmap_Some. split.
        -- intros (g' & Hg' & ->). apply IH in Hg' as [Hg' [r ->]].
           split; [by constructor|by eexists].
        -- intros [Hg [r Hr]]. destruct g as [|c' g]; simplify_eq/=.
           apply Forall_cons in Hg as [_ Hg]. exists g. split; [|done].
           apply IH. split; [done|by eexists].
Qed.

(** When the anchored match fails, no [;] follows on the same line. *)
Lemma lazy_until_semicolon_None s :
  lazy_until_semicolon s = None ↔ ∀ g r, s = g ++ SEMICOLON :: r → ¬ plain g.
Proof.
  split.
  - intros Hn g r Hs Hg.
    assert (lazy_until_semicolon s = Some g) as Heq; [|congruence].
    apply lazy_until_semicolon_Some. eauto.
  - intros Hall. destruct (lazy_until_semicolon s) as [g|] eqn:Hs; [|done].
    apply lazy_until_semicolon_Some in Hs as [Hg [r ->]]. by destruct (Hall g r).
Qed.

(** A match of the whole expression yields a group delimited by a [:] and
    the first [;] after it. *)
Lemma match_colon_semicolon_sound s g :
  match_colon_semicolon s = Some g →
  plain g ∧ ∃ pre post, s = pre ++ COLON :: g ++ SEMICOLON :: post.
Proof.
  induction s as [|c s IH]; simpl; [done|]. case_decide as Hc.
  - subst c. destruct (lazy_until_semicolon s) as [g'|] eqn:Hl.
    + intros [= ->]. apply lazy_until_semicolon_Some in Hl as [Hg [r ->]].
      split; [done|]. by exists [], r.
    + intros [Hg (pre & post & ->)]%IH. split; [done|]. by exists (COLON :: pre), post.
  - intros [Hg (pre & post & ->)]%IH. split; [done|]. by exists (c :: pre), post.
Qed.

(** The leftmost [:] that is followed by a [;] on its line decides. *)
Lemma match_colon_semicolon_first pre g post :
  COLON ∉ pre → plain g →
  match_colon_semicolon (pre ++ COLON :: g ++ SEMICOLON :: post) = Some g.
Proof.
  intros Hpre Hg. induction pre as [|c pre IH]; simpl.
  - rewrite (proj2 (lazy_until_semicolon_Some _ g)); [done|]. eauto.
  - rewrite decide_False by set_solver. apply IH. set_solver.
Qed.

(** Without a [:] there is no match. *)
Lemma match_colon_semicolon_no_colon s :
  COLON ∉ s → match_colon_semicolon s = None.
Proof.
  induction s as [|c s IH]; intros Hs; simpl; [done|].
  rewrite decide_False by set_solver. apply IH. set_solver.
Qed.

End regexp.

#[export] Hint Resolve js_is_string : js.
#[export] Hint Rewrite split_on_app_sep split_on_no_sep using set_solver : js.
