(* ===== verification/Base64.v ===== *)
(** Base64 as the browser implements it.

    [atob] is the platform function that [base64ToBlob] calls on line 14 of
    [src/frontend/app/analyse/page.tsx]; it is the "forgiving-base64 decode"
    of the WHATWG Infra standard: ASCII whitespace is removed, one or two
    trailing [=] are removed when the length is a multiple of four, a length
    of [1 mod 4] or a character outside the alphabet is an
    [InvalidCharacterError], and the remaining characters are decoded six
    bits at a time through a bit buffer.  [b64_encode] is the encoder that
    [canvas.toDataURL] (line 75) applies to the image bytes.  Both are
    platform code, modelled from their standards.

    The theorems: the decoder inverts the encoder on every list of bytes,
    the decoder returns bytes, and when exactly it throws. *)

From Stdlib Require Import ZArith Lia.
From stdpp Require Import prelude.
From S2P Require Import Prelude JsString.

#[local] Open Scope Z_scope.

(** ** The alphabet *)

Definition PAD : Z := 61.

Definition is_ascii_whitespace (c : Z) : bool :=
  bool_decide (c = 9 ∨ c = 10 ∨ c = 12 ∨ c = 13 ∨ c = 32).

(** The value of a character of the alphabet [A-Za-z0-9+/]. *)
Definition b64_value (c : Z) : option Z :=
  if decide (65 ≤ c ≤ 90) then Some (c - 65)
  else if decide (97 ≤ c ≤ 122) then Some (c - 71)
  else if decide (48 ≤ c ≤ 57) then Some (c + 4)
  else if decide (c = 43) then Some 62
  else if decide (c = 47) then Some 63
  else None.

(** The character of a six-bit value. *)
Definition b64_char (v : Z) : Z :=
  if decide (v < 26) then v + 65
  else if decide (v < 52) then v + 71
  else if decide (v < 62) then v - 4
  else if decide (v = 62) then 43
  else 47.

(** ** Decoding *)

Definition remove_whitespace (s : jsstring) : jsstring :=
  filter (λ c, is_ascii_whitespace c = false) s.

Definition ends_with_pad (s : jsstring) : bool := bool_decide (last s = Some PAD).

Definition drop_last (s : jsstring) : jsstring := take (length s - 1) s.

(** "If the length is divisible by four and the data ends with one or two
    [=], remove them." *)
Definition strip_padding (s : jsstring) : jsstring :=
  if decide (length s `mod` 4 = 0)%nat then
    if ends_with_pad s then
      if ends_with_pad (drop_last s) then drop_last (drop_last s) else drop_last s
    else s
  else s.

(** The bit buffer after the six bits of [v] are appended to it. *)
Definition push6 (buffer v : Z) : Z := Z.lor (buffer ≪ 6) v.

(** The bytes of a sequence of six-bit values: every 24 bits of the buffer
    give three bytes; 12 left-over bits give one byte and 18 give two, the
    last four or two bits being discarded. *)
Fixpoint decode_sextets (vs : list Z) : list Z :=
  match vs with
  | a :: b :: c :: d :: r =>
      let n := push6 (push6 (push6 a b) c) d in
      Z.land (n ≫ 16) 255 :: Z.land (n ≫ 8) 255 :: Z.land n 255 :: decode_sextets r
  | [a; b; c] =>
      let n := push6 (push6 a b) c ≫ 2 in
      [Z.land (n ≫ 8) 255; Z.land n 255]
  | [a; b] =>
      let n := push6 a b ≫ 4 in
      [Z.land n 255]
  | _ => []
  end.

(** [atob(data)]: the decoded binary string, or the exception. *)
Definition atob (data : jsstring) : result js_error jsstring :=
  let data := strip_padding (remove_whitespace data) in
  if decide (length data `mod` 4 = 1)%nat then Err InvalidCharacterError
  else
    vs ← mapM b64_value data else_throw InvalidCharacterError;
    Ok (decode_sextets vs).

(** ** Encoding *)

(** The four six-bit values of the 24 bits [a b c]: the top six bits of
    [a]; the low two of [a] with the top four of [b]; the low four of [b]
    with the top two of [c]; the low six of [c]. *)
Definition sextet0 (a : Z) : Z := a ≫ 2.
Definition sextet1 (a b : Z) : Z := Z.lor (Z.land a 3 ≪ 4) (b ≫ 4).
Definition sextet2 (b c : Z) : Z := Z.lor (Z.land b 15 ≪ 2) (c ≫ 6).
Definition sextet3 (c : Z) : Z := Z.land c 63.

(** The six-bit values of a sequence of bytes, three bytes to four values;
    a last group of one or two bytes is completed with zero bits and gives
    two or three values. *)
Fixpoint encode_sextets (bs : list Z) : list Z :=
  match bs with
  | a :: b :: c :: r =>
      sextet0 a :: sextet1 a b :: sextet2 b c :: sextet3 c :: encode_sextets r
  | [a; b] => [sextet0 a; sextet1 a b; sextet2 b 0]
  | [a] => [sextet0 a; sextet1 a 0]
  | [] => []
  end.

(** The [=] signs that complete the last group of [n] bytes. *)
Definition b64_padding (n : nat) : jsstring :=
  replicate ((3 - n `mod` 3) `mod` 3) PAD.

Definition b64_encode (bs : list Z) : jsstring :=
  (b64_char <$> encode_sextets bs) ++ b64_padding (length bs).

Arguments push6 : simpl never.
Arguments sextet0 : simpl never.
Arguments sextet1 : simpl never.
Arguments sextet2 : simpl never.
Arguments sextet3 : simpl never.

(** * Properties *)

Example atob_hello : atob (js "aGVsbG8=") = Ok (js "hello").
Proof. vm_compute. reflexivity. Qed.

Example atob_spaces_no_padding : atob (js " aGVs bG8 ") = Ok (js "hello").
Proof. vm_compute. reflexivity. Qed.

Example b64_encode_hello : b64_encode (js "hello") = js "aGVsbG8=".
Proof. vm_compute. reflexivity. Qed.

(** ** The alphabet *)

Lemma b64_value_char v : 0 ≤ v < 64 → b64_value (b64_char v) = Some v.
Proof.
  intros Hv. unfold b64_value, b64_char.
  repeat case_decide; try lia; f_equal; lia.
Qed.

Lemma b64_char_value c v : b64_value c = Some v → b64_char v = c.
Proof.
  unfold b64_value, b64_char. intros Hc.
  repeat case_decide; simplify_eq; lia.
Qed.

Lemma b64_value_range c v : b64_value c = Some v → 0 ≤ v < 64.
Proof. unfold b64_value. intros Hc. repeat case_decide; simplify_eq; lia. Qed.

Lemma b64_value_char_range c v : b64_value c = Some v → 43 ≤ c ≤ 122 ∧ c ≠ PAD.
Proof. unfold b64_value, PAD. intros Hc. repeat case_decide; simplify_eq; lia. Qed.

Lemma b64_char_range v : 0 ≤ v < 64 → 43 ≤ b64_char v ≤ 122 ∧ b64_char v ≠ PAD.
Proof. intros Hv. unfold b64_char, PAD. repeat case_decide; lia. Qed.

Lemma b64_char_not_comma v : 0 ≤ v → b64_char v ≠ COMMA.
Proof. intros. unfold b64_char, COMMA. repeat case_decide; lia. Qed.

Lemma not_whitespace_ge c : 33 ≤ c → is_ascii_whitespace c = false.
Proof. intros. apply bool_decide_eq_false. lia. Qed.

(** ** The arithmetic of a group *)

Lemma push6_add buffer v : 0 ≤ v < 64 → push6 buffer v = buffer * 64 + v.
Proof. intros. unfold push6. by rewrite Z_lor_shiftl_add. Qed.

Lemma sextet0_div a : sextet0 a = a / 4.
Proof. unfold sextet0. by rewrite Z_shiftr_div. Qed.

Lemma sextet1_div a b :
  0 ≤ b < 256 → sextet1 a b = a `mod` 4 * 16 + b / 16.
Proof.
  intros. unfold sextet1. rewrite Z_shiftr_div by lia.
  rewrite Z_lor_shiftl_add by zdiv. by rewrite Z_land_3.
Qed.

Lemma sextet2_div b c :
  0 ≤ c < 256 → sextet2 b c = b `mod` 16 * 4 + c / 64.
Proof.
  intros. unfold sextet2. rewrite Z_shiftr_div by lia.
  rewrite Z_lor_shiftl_add by zdiv. by rewrite Z_land_15.
Qed.

Lemma sextet3_mod c : sextet3 c = c `mod` 64.
Proof. apply Z_land_63. Qed.

Create Rewrite HintDb sextets.
#[local] Hint Rewrite sextet0_div sextet3_mod Z_land_255 : sextets.
#[local] Hint Rewrite sextet1_div sextet2_div push6_add Z_shiftr_div using zdiv : sextets.

(** Rewrites the sextets and the bit buffer of the goal into arithmetic. *)
Ltac sextets := autorewrite with sextets; simpl Z.pow.

Lemma encode_sextets_range bs : in_range 0 256 bs → in_range 0 64 (encode_sextets bs).
Proof.
  induction bs as [|a|a b|a b c bs IH] using list_ind3; intros Hbs;
    repeat (apply in_range_cons in Hbs as [? Hbs]); simpl; sextets;
    repeat (apply in_range_cons; split; [zdiv|]); auto with js.
Qed.

Lemma decode_encode_sextets bs :
  in_range 0 256 bs → decode_sextets (encode_sextets bs) = bs.
Proof.
  induction bs as [|a|a b|a b c bs IH] using list_ind3; intros Hbs;
    repeat (apply in_range_cons in Hbs as [? Hbs]); simpl; [done|..].
  - sextets. f_equal. zdiv.
  - sextets. f_equal; [|f_equal]; zdiv.
  - rewrite IH by done. sextets. f_equal; [|f_equal; [|f_equal]]; zdiv.
Qed.

(** ** The shape of the encoder's output *)

Lemma b64_padding_cons3 n : b64_padding (S (S (S n))) = b64_padding n.
Proof. unfold b64_padding. f_equal. ndiv. Qed.

(** The number of six-bit values is [0], [2] or [3] modulo four, and the
    padding completes it to a multiple of four. *)
Lemma encode_shape bs :
  ∃ k : nat,
    (length (encode_sextets bs) = 4 * k ∧ b64_padding (length bs) = [])%nat ∨
    (length (encode_sextets bs) = 4 * k + 2 ∧ b64_padding (length bs) = [PAD; PAD])%nat ∨
    (length (encode_sextets bs) = 4 * k + 3 ∧ b64_padding (length bs) = [PAD])%nat.
Proof.
  induction bs as [|a|a b|a b c bs [k IH]] using list_ind3;
    [exists 0%nat; auto..|].
  exists (S k). cbn [encode_sextets length]. rewrite b64_padding_cons3.
  destruct IH as [[-> ->]|[[-> ->]|[-> ->]]]; [left|right; left|right; right];
    (split; [lia|done]).
Qed.

Lemma chars_valid vs :
  in_range 0 64 vs → mapM b64_value (b64_char <$> vs) = Some vs.
Proof.
  intros Hvs. apply mapM_Some. apply Forall2_fmap_l, Forall_Forall2_diag.
  eapply Forall_impl; [exact Hvs|]. intros v Hv. by apply b64_value_char.
Qed.

(** ** Whitespace and padding *)

Lemma remove_whitespace_id s :
  Forall (λ c, 33 ≤ c) s → remove_whitespace s = s.
Proof.
  intros Hs. unfold remove_whitespace.
  induction Hs as [|c s Hc _ IH]; [done|].
  rewrite filter_cons_True by by apply not_whitespace_ge. by rewrite IH.
Qed.

Lemma drop_last_snoc s c : drop_last (s ++ [c]) = s.
Proof.
  unfold drop_last. rewrite length_app. simpl.
  replace (length s + 1 - 1)%nat with (length s) by lia. by rewrite take_app_length.
Qed.

Section strip.
Implicit Types s : jsstring.

Lemma strip_padding_none s : last s ≠ Some PAD → strip_padding s = s.
Proof.
  intros Hl. unfold strip_padding, ends_with_pad.
  case_decide; [|done]. by rewrite bool_decide_eq_false_2.
Qed.

Lemma strip_padding_one s :
  (length (s ++ [PAD]) `mod` 4 = 0)%nat → last s ≠ Some PAD →
  strip_padding (s ++ [PAD]) = s.
Proof.
  intros Hlen Hl. unfold strip_padding, ends_with_pad.
  rewrite decide_True by done. rewrite last_snoc, bool_decide_eq_true_2 by done.
  rewrite drop_last_snoc. by rewrite bool_decide_eq_false_2.
Qed.

Lemma strip_padding_two s :
  (length (s ++ [PAD; PAD]) `mod` 4 = 0)%nat →
  strip_padding (s ++ [PAD; PAD]) = s.
Proof.
  intros Hlen. unfold strip_padding, ends_with_pad.
  rewrite decide_True by done.
  change (s ++ [PAD; PAD]) with (s ++ [PAD] ++ [PAD]). rewrite !app_assoc.
  rewrite last_snoc, bool_decide_eq_true_2 by done.
  rewrite !drop_last_snoc. by rewrite last_snoc, bool_decide_eq_true_2.
Qed.

End strip.

Lemma chars_last vs : in_range 0 64 vs → last (b64_char <$> vs) ≠ Some PAD.
Proof.
  intros Hvs Hl. apply last_Some in Hl as [l Hl].
  assert (PAD ∈ b64_char <$> vs) as Hin by (rewrite Hl; set_solver).
  apply list_elem_of_fmap in Hin as (v & Hv & Hin).
  eapply Forall_forall in Hvs; [|done]. by destruct (b64_char_range v).
Qed.

Lemma chars_printable vs : in_range 0 64 vs → Forall (λ c, 33 ≤ c) (b64_char <$> vs).
Proof.
  intros Hvs. apply Forall_fmap. eapply Forall_impl; [exact Hvs|].
  intros v Hv. simpl in *. destruct (b64_char_range v); lia.
Qed.

(** The encoder's output holds no comma. *)
Lemma b64_encode_no_comma bs : in_range 0 256 bs → COMMA ∉ b64_encode bs.
Proof.
  intros Hvs%encode_sextets_range.
  unfold b64_encode, b64_padding. rewrite elem_of_app, list_elem_of_fmap.
  intros [(v & Hv & Hin)|[Hc _]%elem_of_replicate]; [|done].
  eapply Forall_forall in Hvs; [|done]. destruct (b64_char_not_comma v); [lia|done].
Qed.

(** ** The round trip *)

Theorem atob_b64_encode bs : in_range 0 256 bs → atob (b64_encode bs) = Ok bs.
Proof.
  intros Hbs. pose proof (encode_sextets_range bs Hbs) as Hvs.
  unfold atob, b64_encode.
  rewrite remove_whitespace_id.
  2:{ apply Forall_app. split; [by apply chars_printable|].
      apply Forall_replicate. unfold PAD. lia. }
  assert (strip_padding ((b64_char <$> encode_sextets bs) ++ b64_padding (length bs))
          = b64_char <$> encode_sextets bs ∧
          (length (encode_sextets bs) `mod` 4 ≠ 1)%nat) as [-> Hlen].
  { destruct (encode_shape bs) as [k [[Hk ->]|[[Hk ->]|[Hk ->]]]].
    - rewrite app_nil_r. split; [|ndiv]. apply strip_padding_none. by apply chars_last.
    - split; [|ndiv]. apply strip_padding_two. rewrite length_app, length_fmap, Hk. cbn [length]. ndiv.
    - split; [|ndiv]. apply strip_padding_one; [|by apply chars_last].
      rewrite length_app, length_fmap, Hk. cbn [length]. ndiv. }
  rewrite length_fmap, decide_False by done.
  rewrite chars_valid by done. simpl. by rewrite decode_encode_sextets.
Qed.

(** ** What the decoder returns *)

Lemma decode_sextets_binary vs : is_binary (decode_sextets vs).
Proof.
  unfold is_binary.
  induction vs as [|a|a b|a b c|a b c d vs IH] using list_ind4; simpl;
    rewrite ?Z_land_255; repeat (apply in_range_cons; split; [zdiv|]);
    auto with js.
Qed.

Lemma length_decode_sextets vs :
  length (decode_sextets vs) = (3 * length vs / 4)%nat.
Proof.
  induction vs as [|a|a b|a b c|a b c d vs IH] using list_ind4; try done.
  cbn [decode_sextets length]. rewrite IH. ndiv.
Qed.

(** The decoder's only exception. *)
Lemma atob_Err s e : atob s = Err e → e = InvalidCharacterError.
Proof.
  unfold atob. case_decide; [congruence|].
  destruct (mapM b64_value _); simpl; congruence.
Qed.

(** [atob] returns a binary string: every code unit is below 256. *)
Lemma atob_binary s r : atob s = Ok r → is_binary r.
Proof.
  unfold atob. case_decide; [done|].
  destruct (mapM b64_value _); simpl; [|done].
  intros [= <-]. apply decode_sextets_binary.
Qed.

(** When exactly [atob] throws: the text that is left after the whitespace
    and the padding are removed has a length of [1] modulo [4], or holds a
    character outside the alphabet. *)
Lemma atob_throws s :
  let data := strip_padding (remove_whitespace s) in
  atob s = Err InvalidCharacterError ↔
  (length data `mod` 4 = 1)%nat ∨ Exists (λ c, b64_value c = None) data.
Proof.
  intros data. unfold atob. fold data.
  case_decide as Hlen; [split; auto|].
  rewrite <-mapM_None. destruct (mapM b64_value data); simpl; split; try done.
  - by intros [?|?].
  - auto.
Qed.

(** Whitespace in the argument is ignored. *)
Lemma atob_whitespace s : atob (remove_whitespace s) = atob s.
Proof.
  unfold atob, remove_whitespace. by rewrite list_filter_filter_l by done.
Qed.

(** [undefined], converted to a string, is not base64: its nine characters
    are one more than a multiple of four. *)
Lemma atob_undefined : atob (js "undefined") = Err InvalidCharacterError.
Proof. vm_compute. reflexivity. Qed.
