(* ===== verification/Normalizer.v ===== *)
(** [base64ToBlob], lines 12-23 of [src/frontend/app/analyse/page.tsx]: the
    conversion of a data URI to a blob.

    The model follows the function statement by statement: the split at the
    commas, [atob] of the second piece (of the string "undefined" when there
    is none), the regular-expression match on the first piece and the
    [TypeError] of indexing [null], the zero-filled [ArrayBuffer], the loop
    that writes [charCodeAt(i)] into the [Uint8Array] (a write converts to
    eight bits), and the [Blob] constructor, which normalises the type.

    The theorems: the function inverts [canvas.toDataURL] on every image; it
    never truncates a value; when and with which exception it throws; what
    part of its argument it reads. *)

From Stdlib Require Import ZArith Lia.
From stdpp Require Import prelude.
From S2P Require Import Prelude JsString Base64.

#[local] Open Scope Z_scope.

(** ** Blobs and typed arrays *)

(** A [Blob]: its bytes and its type.  A [File] is a blob with a name. *)
Record blob : Type := mkBlob {
  blob_bytes : list Z;
  blob_type : jsstring;
  blob_name : option jsstring;
}.

#[export] Instance blob_eq_dec : EqDecision blob.
Proof. solve_decision. Defined.

(** [new ArrayBuffer(n)]: [n] bytes, all zero. *)
Definition ArrayBuffer_new (n : nat) : list Z := replicate n 0.

(** The conversion of a number to an unsigned 8-bit value; [None] is [NaN],
    which converts to [0]. *)
Definition ToUint8 (v : option Z) : Z :=
  match v with Some c => c `mod` 256 | None => 0 end.

(** [ia[i] = v] on a [Uint8Array]: the value is converted; a write past the
    end is ignored. *)
Definition Uint8Array_set (ia : list Z) (i : nat) (v : option Z) : list Z :=
  <[i := ToUint8 v]> ia.

Definition ascii_lowercase (c : Z) : Z :=
  if decide (65 ≤ c ≤ 90) then c + 32 else c.

(** The type of a new blob: the empty string when the given type holds a
    character outside [U+0020 .. U+007E], else the type in lower case. *)
Definition normalize_type (t : jsstring) : jsstring :=
  if decide (Forall (λ c, 32 ≤ c ≤ 126) t) then ascii_lowercase <$> t else [].

(** [new Blob([ab], { type })] *)
Definition Blob_new (ab : list Z) (type : jsstring) : blob :=
  {| blob_bytes := ab; blob_type := normalize_type type; blob_name := None |}.

(** ** The function *)

(** Lines 19-21: [for (let i = 0; i < byteString.length; i++)
    ia[i] = byteString.charCodeAt(i)]. *)
Definition copy_bytes (fuel : nat) (byteString : jsstring) (ia : list Z) : list Z :=
  for_upto fuel 0 (length byteString)
    (λ i ia, Uint8Array_set ia i (charCodeAt byteString i)) ia.

Definition base64ToBlob (base64 : jsstring) : result js_error blob :=
  let parts := split_comma base64 in
  byteString ← atob (index_to_string parts 1);
  mimeString ← match_colon_semicolon (index_to_string parts 0) else_throw TypeError;
  let ab := ArrayBuffer_new (length byteString) in
  let ia := copy_bytes (length byteString) byteString ab in
  Ok (Blob_new ia mimeString).

(** The two pieces of its argument that the function reads: [parts[1]] and
    [parts[0]]. *)
Definition payload (s : jsstring) : jsstring := index_to_string (split_comma s) 1.
Definition prefix (s : jsstring) : jsstring := index_to_string (split_comma s) 0.

(** ** [canvas.toDataURL(type)] *)

(** The data URI of encoded image bytes, as line 75 obtains it. *)
Definition toDataURL (type : String.string) (bytes : list Z) : jsstring :=
  js "data:" ++ js type ++ js ";base64," ++ b64_encode bytes.

(** A MIME type as it may stand in the prefix of a data URI: printable
    lower-case ASCII without [,] and [;]. *)
Definition is_mime (t : jsstring) : Prop :=
  Forall (λ c, 32 ≤ c ≤ 126 ∧ ¬ (65 ≤ c ≤ 90) ∧ c ≠ COMMA ∧ c ≠ SEMICOLON) t.

#[export] Instance is_mime_dec t : Decision (is_mime t).
Proof. unfold is_mime. apply _. Defined.

(** * Properties *)

Example base64ToBlob_jpeg :
  base64ToBlob (js "data:image/jpeg;base64,/9j/4AAQSkZJRg==")
  = Ok (mkBlob [255; 216; 255; 224; 0; 16; 74; 70; 73; 70] (js "image/jpeg") None).
Proof. vm_compute. reflexivity. Qed.

Example base64ToBlob_malformed :
  base64ToBlob (js "data:image/jpeg;base64,***invalid***") = Err InvalidCharacterError.
Proof. vm_compute. reflexivity. Qed.

Example base64ToBlob_no_prefix_match :
  base64ToBlob (js "data:text/plain,aGVsbG8=") = Err TypeError.
Proof. vm_compute. reflexivity. Qed.

(** ** The copy loop *)

(** The loop writes the code units reduced to eight bits, with any fuel from
    the length of the string on. *)
Lemma copy_bytes_spec fuel s :
  (length s ≤ fuel)%nat →
  copy_bytes fuel s (ArrayBuffer_new (length s)) = (λ c, c `mod` 256) <$> s.
Proof.
  intros Hf. unfold copy_bytes, Uint8Array_set, charCodeAt, ArrayBuffer_new.
  by rewrite (for_upto_fill ToUint8).
Qed.

(** On a binary string the loop copies the code units unchanged. *)
Lemma copy_bytes_binary s :
  is_binary s → copy_bytes (length s) s (ArrayBuffer_new (length s)) = s.
Proof. intros Hs. rewrite copy_bytes_spec by done. by apply fmap_mod_in_range. Qed.

(** ** The blob constructor *)

Lemma ascii_lowercase_id c : ¬ (65 ≤ c ≤ 90) → ascii_lowercase c = c.
Proof. intros. unfold ascii_lowercase. by rewrite decide_False. Qed.

Lemma normalize_type_mime t : is_mime t → normalize_type t = t.
Proof.
  intros Ht. unfold normalize_type. rewrite decide_True.
  - induction Ht as [|c t (_ & Hc & _) _ IH]; csimpl; [done|].
    by rewrite IH, ascii_lowercase_id.
  - eapply Forall_impl; [exact Ht|]. naive_solver.
Qed.

Lemma is_mime_plain t : is_mime t → plain t.
Proof.
  intros Ht. eapply Forall_impl; [exact Ht|]. intros c (Hc & _ & _ & Hs).
  split; [done|]. apply bool_decide_eq_false. lia.
Qed.

Lemma is_mime_no_comma t : is_mime t → COMMA ∉ t.
Proof. intros Ht Hin. eapply Forall_forall in Ht; [|done]. naive_solver. Qed.

Lemma is_mime_js_jpeg : is_mime (js "image/jpeg").
Proof. apply (bool_decide_unpack _). by vm_compute. Qed.

(** ** The function, branch by branch *)

Section branches.
Implicit Types (s p d : jsstring) (b : blob) (e : js_error).

(** The result in terms of the two pieces. *)
Lemma base64ToBlob_unfold s :
  base64ToBlob s =
    byteString ← atob (payload s);
    mimeString ← match_colon_semicolon (prefix s) else_throw TypeError;
    Ok (Blob_new ((λ c, c `mod` 256) <$> byteString) mimeString).
Proof.
  unfold base64ToBlob, payload, prefix. destruct (atob _) as [bs|]; simpl; [|done].
  by rewrite copy_bytes_spec.
Qed.

Lemma payload_split p d r :
  COMMA ∉ p → COMMA ∉ d → payload (p ++ COMMA :: d ++ COMMA :: r) = d.
Proof.
  intros Hp Hd. unfold payload, split_comma. by rewrite !split_on_app_sep.
Qed.

Lemma payload_last p d : COMMA ∉ p → COMMA ∉ d → payload (p ++ COMMA :: d) = d.
Proof.
  intros Hp Hd. unfold payload, split_comma.
  by rewrite split_on_app_sep, split_on_no_sep.
Qed.

Lemma payload_none s : COMMA ∉ s → payload s = js "undefined".
Proof. intros Hs. unfold payload, split_comma. by rewrite split_on_no_sep. Qed.

Lemma prefix_split p r : COMMA ∉ p → prefix (p ++ COMMA :: r) = p.
Proof. intros Hp. unfold prefix, split_comma. by rewrite split_on_app_sep. Qed.

Lemma prefix_none s : COMMA ∉ s → prefix s = s.
Proof. intros Hs. unfold prefix, split_comma. by rewrite split_on_no_sep. Qed.

End branches.

(** ** The data URIs of the canvas *)

Section data_uri.
Implicit Types (mime : jsstring) (bs : list Z).

Lemma data_uri_prefix mime :
  is_mime mime → COMMA ∉ js "data:" ++ mime ++ js ";base64".
Proof.
  intros Hm%is_mime_no_comma. rewrite !elem_of_app.
  intros [Hin|[Hin|Hin]]; [|done|]; revert Hin; apply (bool_decide_unpack _); by vm_compute.
Qed.

Lemma data_uri_match mime :
  is_mime mime → match_colon_semicolon (js "data:" ++ mime ++ js ";base64") = Some mime.
Proof.
  intros Hm%is_mime_plain.
  apply (match_colon_semicolon_first (js "data") mime (js "base64")); [|done].
  apply (bool_decide_unpack _). by vm_compute.
Qed.

(** A data URI with a MIME type and a base64 payload decodes to the bytes
    that were encoded, with that type. *)
Lemma base64ToBlob_data_uri mime bs :
  is_mime mime → in_range 0 256 bs →
  base64ToBlob (js "data:" ++ mime ++ js ";base64," ++ b64_encode bs)
  = Ok (mkBlob bs mime None).
Proof.
  intros Hm Hbs. rewrite base64ToBlob_unfold.
  replace (js "data:" ++ mime ++ js ";base64," ++ b64_encode bs)
    with ((js "data:" ++ mime ++ js ";base64") ++ COMMA :: b64_encode bs)
    by by rewrite <-!app_assoc.
  rewrite payload_last, prefix_split
    by auto using data_uri_prefix, b64_encode_no_comma.
  rewrite atob_b64_encode, data_uri_match by done. simpl.
  unfold Blob_new. by rewrite normalize_type_mime, fmap_mod_in_range.
Qed.

End data_uri.

(** C1.  [base64ToBlob] inverts [canvas.toDataURL]: for every list of bytes
    and every MIME type, decoding the data URI that the canvas produces gives
    a blob with exactly those bytes and that type. *)
Theorem base64ToBlob_toDataURL type bs :
  is_mime (js type) → in_range 0 256 bs →
  base64ToBlob (toDataURL type bs) = Ok (mkBlob bs (js type) None).
Proof. apply base64ToBlob_data_uri. Qed.

Lemma base64ToBlob_toDataURL_witness :
  base64ToBlob (toDataURL "image/jpeg" [255; 216; 255; 224; 0])
  = Ok (mkBlob [255; 216; 255; 224; 0] (js "image/jpeg") None).
Proof.
  apply base64ToBlob_toDataURL; [exact is_mime_js_jpeg|].
  apply (bool_decide_unpack _). by vm_compute.
Defined.

(** ** What a successful call returns *)

Lemma base64ToBlob_Ok s b :
  base64ToBlob s = Ok b ↔
  ∃ bs g, atob (payload s) = Ok bs ∧ match_colon_semicolon (prefix s) = Some g ∧
          b = Blob_new bs g.
Proof.
  rewrite base64ToBlob_unfold, bind_Ok. split.
  - intros (bs & Hbs & (g & Hg%or_throw_Ok & [= <-])%bind_Ok).
    exists bs, g. by rewrite (fmap_mod_in_range 256 bs) by by eapply atob_binary.
  - intros (bs & g & Hbs & Hg & ->). exists bs. split; [done|].
    rewrite Hg. simpl. by rewrite (fmap_mod_in_range 256 bs) by by eapply atob_binary.
Qed.

(** C36.  The copy into the [Uint8Array] loses nothing: the bytes of the
    returned blob are the code units that [atob] returned, none reduced
    modulo 256, and each is a byte. *)
Theorem base64ToBlob_lossless s b :
  base64ToBlob s = Ok b →
  atob (payload s) = Ok (blob_bytes b) ∧ is_binary (blob_bytes b).
Proof.
  intros (bs & g & Hbs & _ & ->)%base64ToBlob_Ok. simpl.
  split; [done|]. by eapply atob_binary.
Qed.

Lemma base64ToBlob_lossless_witness :
  atob (payload (js "data:image/png;base64,iVBORw0KGgo="))
    = Ok (blob_bytes (mkBlob [137; 80; 78; 71; 13; 10; 26; 10] (js "image/png") None)) ∧
  is_binary (blob_bytes (mkBlob [137; 80; 78; 71; 13; 10; 26; 10] (js "image/png") None)).
Proof. apply base64ToBlob_lossless. by vm_compute. Defined.

(** The type of the returned blob is the text between the first [:]
    of the prefix and the first [;] after it, normalised by the [Blob]
    constructor; the blob has no file name. *)
Theorem base64ToBlob_type s b :
  base64ToBlob s = Ok b →
  ∃ g, match_colon_semicolon (prefix s) = Some g ∧
       blob_type b = normalize_type g ∧ blob_name b = None.
Proof. intros (bs & g & _ & Hg & ->)%base64ToBlob_Ok. by exists g. Qed.

Lemma base64ToBlob_type_witness :
  ∃ g, match_colon_semicolon (prefix (js "data:IMAGE/PNG;base64,iVBORw0KGgo=")) = Some g ∧
       blob_type (mkBlob [137; 80; 78; 71; 13; 10; 26; 10] (js "image/png") None)
         = normalize_type g ∧
       blob_name (mkBlob [137; 80; 78; 71; 13; 10; 26; 10] (js "image/png") None) = None.
Proof. apply base64ToBlob_type. by vm_compute. Defined.

(** ** When the function throws *)

(** C7.  The function throws exactly when [atob] rejects the second piece
    (an [InvalidCharacterError]) or, [atob] having succeeded, the first
    piece has no match for [/:(.*?);/] (a [TypeError]).  The order is that
    of the statements: when both fail, the exception is the one of [atob]. *)
Theorem base64ToBlob_throws s e :
  base64ToBlob s = Err e ↔
  (atob (payload s) = Err e ∧ e = InvalidCharacterError) ∨
  (is_ok (atob (payload s)) = true ∧ match_colon_semicolon (prefix s) = None ∧
   e = TypeError).
Proof.
  rewrite base64ToBlob_unfold. destruct (atob (payload s)) as [bs|e'] eqn:Ha; simpl.
  - destruct (match_colon_semicolon (prefix s)); simpl; split; try done.
    + by intros [[? _]|(_ & ? & _)].
    + intros [= <-]. by right.
    + by intros [[? _]|(_ & _ & ->)].
  - apply atob_Err in Ha as ->. split.
    + intros [= <-]. by left.
    + by intros [[[= <-] _]|[? _]].
Qed.

(** A string without a comma always throws an [InvalidCharacterError]:
    [parts[1]] is [undefined], and [atob] is applied to the string
    "undefined". *)
Theorem base64ToBlob_no_comma s :
  COMMA ∉ s → base64ToBlob s = Err InvalidCharacterError.
Proof.
  intros Hs. rewrite base64ToBlob_unfold, payload_none by done.
  by rewrite atob_undefined.
Qed.

Lemma base64ToBlob_no_comma_witness :
  base64ToBlob (js "data:image/jpeg;base64") = Err InvalidCharacterError.
Proof.
  apply base64ToBlob_no_comma. apply (bool_decide_unpack _). by vm_compute.
Defined.

(** C39.  The function reads only the text before the second comma: whatever
    follows it, valid or not, is ignored. *)
Theorem base64ToBlob_ignores_rest p d r :
  COMMA ∉ p → COMMA ∉ d →
  base64ToBlob (p ++ COMMA :: d ++ COMMA :: r) = base64ToBlob (p ++ COMMA :: d).
Proof.
  intros Hp Hd. rewrite !base64ToBlob_unfold.
  by rewrite payload_split, payload_last, !prefix_split.
Qed.

Lemma base64ToBlob_ignores_rest_witness :
  base64ToBlob (js "data:image/jpeg;base64" ++ COMMA :: js "/9j/" ++ COMMA :: js "***")
  = base64ToBlob (js "data:image/jpeg;base64" ++ COMMA :: js "/9j/").
Proof.
  apply base64ToBlob_ignores_rest; apply (bool_decide_unpack _); by vm_compute.
Defined.

(** C40.  The copy loop terminates after one iteration per code unit: with
    any fuel from the length of the string on, it returns the code units
    reduced to eight bits, in an array of the same length. *)
Theorem copy_bytes_terminates fuel s :
  (length s ≤ fuel)%nat →
  copy_bytes fuel s (ArrayBuffer_new (length s))
    = copy_bytes (length s) s (ArrayBuffer_new (length s)) ∧
  copy_bytes fuel s (ArrayBuffer_new (length s)) = (λ c, c `mod` 256) <$> s ∧
  length (copy_bytes fuel s (ArrayBuffer_new (length s))) = length s.
Proof.
  intros Hf. rewrite !copy_bytes_spec by lia. by rewrite length_fmap.
Qed.

Lemma copy_bytes_terminates_witness :
  copy_bytes 9 [65; 300; 66] (ArrayBuffer_new 3) = copy_bytes 3 [65; 300; 66] (ArrayBuffer_new 3) ∧
  copy_bytes 9 [65; 300; 66] (ArrayBuffer_new 3) = (λ c, c `mod` 256) <$> [65; 300; 66] ∧
  length (copy_bytes 9 [65; 300; 66] (ArrayBuffer_new 3)) = 3%nat.
Proof. apply (copy_bytes_terminates 9 [65; 300; 66]). simpl. lia. Defined.
