(* ===== verification/Upload.v ===== *)
(** [handleImageUpload], lines 178-208 of
    [src/frontend/app/analyse/page.tsx].

    The function is asynchronous.  Its synchronous prefix (lines 179-197)
    builds the form data on one of three branches, computes the endpoint and
    calls [fetch]; an exception of [base64ToBlob] is thrown before the [try]
    and rejects the function's promise, so no request is issued.  Its
    continuation (lines 198-207) runs when the request settles and logs one
    line: the server's answer, an upload error with the status and the body,
    or the exception that the [catch] clause received.

    The JSON parser of [response.json()] is a parameter of the model. *)

From Stdlib Require Import ZArith Lia.
From stdpp Require Import prelude.
From S2P Require Import Prelude JsString Base64 Normalizer.

#[local] Open Scope Z_scope.

(** ** Data *)

(** The argument of [onCapture] and [handleImageUpload]: [Blob | string]. *)
Inductive capture : Type :=
| CapString (s : jsstring)
| CapBlob (b : blob).

#[export] Instance capture_eq_dec : EqDecision capture.
Proof. solve_decision. Defined.

(** An entry of a [FormData]: a file (a blob with a file name) or a string. *)
Inductive form_value : Type :=
| FormFile (b : blob) (filename : jsstring)
| FormString (s : jsstring).

#[export] Instance form_value_eq_dec : EqDecision form_value.
Proof. solve_decision. Defined.

Abbreviation form_data := (list (jsstring * form_value)).

(** [formData.append(name, blob, filename)]: without a file name the entry
    takes the name of the file, or "blob" when the blob is not a file. *)
Definition FormData_append_blob (fd : form_data) (name : jsstring) (b : blob)
    (filename : option jsstring) : form_data :=
  fd ++ [(name, FormFile b (default (default (js "blob") (blob_name b)) filename))].

(** [formData.append(name, string)] *)
Definition FormData_append_string (fd : form_data) (name s : jsstring) : form_data :=
  fd ++ [(name, FormString s)].

(** The request that [fetch] is called with. *)
Record request : Type := mkRequest {
  req_url : jsstring;
  req_method : jsstring;
  req_body : form_data;
}.

#[export] Instance request_eq_dec : EqDecision request.
Proof. solve_decision. Defined.

(** A response: its status and its body; [None] is a body that cannot be
    read (the promise of [text()] or [json()] rejects). *)
Record response : Type := mkResponse {
  resp_status : Z;
  resp_body : option jsstring;
}.

(** How the promise of [fetch] settles. *)
Inductive settled : Type :=
| Fulfilled (r : response)
| Rejected (reason : jsstring).

(** What the [catch] clause can receive. *)
Inductive upload_exn : Type :=
| NetworkError (reason : jsstring)
| BodyReadError
| JsonSyntaxError.

(** The line that the continuation logs; [J] is the type of parsed JSON. *)
Inductive log_entry (J : Type) : Type :=
| LogServerResponse (data : J)
| LogUploadError (status : Z) (errorText : jsstring)
| LogUploadException (error : upload_exn).
Arguments LogServerResponse {J} data.
Arguments LogUploadError {J} status errorText.
Arguments LogUploadException {J} error.

(** The outcome of an upload as the specification names it. *)
Inductive upload_outcome (J : Type) : Type :=
| Success (body : J)
| Failure.
Arguments Success {J} body.
Arguments Failure {J}.

(** ** The synchronous prefix *)

(** Lines 179-190: the form data for an image. *)
Definition build_form (image : capture) : result js_error form_data :=
  let formData : form_data := [] in
  match image with
  | CapString s =>
      if startsWith (js "data:") s then
        blob ← base64ToBlob s;
        Ok (FormData_append_blob formData (js "image") blob (Some (js "captured.jpg")))
      else
        Ok (FormData_append_string formData (js "imageUrl") s)
  | CapBlob b =>
      Ok (FormData_append_blob formData (js "image") b None)
  end.

(** Lines 191-192: the endpoint; [origin] is [window.location.origin], or
    [None] where there is no [window]. *)
Definition apiEndpoint (origin : option jsstring) : jsstring :=
  match origin with
  | Some o => o ++ js "/api/upload"
  | None => js "/api/upload"
  end.

(** Lines 179-197 up to the [await]: the request passed to [fetch], or the
    exception that rejects the promise of [handleImageUpload]. *)
Definition handleImageUpload_start (origin : option jsstring) (image : capture)
    : result js_error request :=
  formData ← build_form image;
  Ok {| req_url := apiEndpoint origin; req_method := js "POST"; req_body := formData |}.

(** ** The continuation *)

(** [response.ok] *)
Definition response_ok (r : response) : bool :=
  bool_decide (200 ≤ resp_status r ≤ 299).

Section continuation.
Context {J : Type} (JSON_parse : jsstring → option J).

(** Lines 198-207: what is logged once the request has settled. *)
Definition handleImageUpload_settle (o : settled) : log_entry J :=
  match o with
  | Rejected reason => LogUploadException (NetworkError reason)
  | Fulfilled r =>
      if negb (response_ok r) then
        match resp_body r with
        | Some errorText => LogUploadError (resp_status r) errorText
        | None => LogUploadException BodyReadError
        end
      else
        match resp_body r with
        | Some text =>
            match JSON_parse text with
            | Some data => LogServerResponse data
            | None => LogUploadException JsonSyntaxError
            end
        | None => LogUploadException BodyReadError
        end
  end.

(** The outcome that a logged line stands for. *)
Definition outcome_of_log (l : log_entry J) : upload_outcome J :=
  match l with
  | LogServerResponse data => Success data
  | LogUploadError _ _ | LogUploadException _ => Failure
  end.

End continuation.

(** The JSON text [{"ok":true}]. *)
Definition json_ok_true : jsstring :=
  [123; 34; 111; 107; 34; 58; 116; 114; 117; 101; 125].

(** A parser that accepts only that text, for the examples. *)
Definition parse_ok_true (s : jsstring) : option bool :=
  if decide (s = json_ok_true) then Some true else None.

(** * Properties *)

Example settle_200 :
  handleImageUpload_settle parse_ok_true (Fulfilled (mkResponse 200 (Some json_ok_true)))
  = LogServerResponse true.
Proof. reflexivity. Qed.

Example settle_500 :
  handleImageUpload_settle parse_ok_true (Fulfilled (mkResponse 500 (Some (js "server error"))))
  = LogUploadError 500 (js "server error").
Proof. reflexivity. Qed.

Example build_form_ten_bytes :
  build_form (CapString (js "data:image/jpeg;base64,/9j/4AAQSkZJRg=="))
  = Ok [(js "image",
         FormFile (mkBlob [255; 216; 255; 224; 0; 16; 74; 70; 73; 70] (js "image/jpeg") None)
                  (js "captured.jpg"))].
Proof. vm_compute. reflexivity. Qed.

(** ** The form data *)

Section form.
Implicit Types (image : capture) (fd : form_data) (s : jsstring) (b : blob).

Lemma build_form_data_uri s :
  startsWith (js "data:") s = true →
  build_form (CapString s) =
    blob ← base64ToBlob s;
    Ok [(js "image", FormFile blob (js "captured.jpg"))].
Proof. intros Hs. unfold build_form. by rewrite Hs. Qed.

Lemma build_form_other_string s :
  startsWith (js "data:") s = false →
  build_form (CapString s) = Ok [(js "imageUrl", FormString s)].
Proof. intros Hs. unfold build_form. by rewrite Hs. Qed.

Lemma build_form_blob b :
  build_form (CapBlob b) =
    Ok [(js "image", FormFile b (default (js "blob") (blob_name b)))].
Proof. done. Qed.

Lemma toDataURL_startsWith type bs : startsWith (js "data:") (toDataURL type bs) = true.
Proof. apply startsWith_app. Qed.

End form.

(** A canvas capture is uploaded as one form field named [image],
    holding the bytes of the image unchanged, its MIME type, and the file
    name "captured.jpg". *)
Theorem build_form_canvas type bs :
  is_mime (js type) → in_range 0 256 bs →
  build_form (CapString (toDataURL type bs))
  = Ok [(js "image", FormFile (mkBlob bs (js type) None) (js "captured.jpg"))].
Proof.
  intros Hm Hbs. rewrite build_form_data_uri by apply toDataURL_startsWith.
  unfold toDataURL. by rewrite base64ToBlob_data_uri.
Qed.

Lemma build_form_canvas_witness :
  build_form (CapString (toDataURL "image/jpeg" [255; 216; 255]))
  = Ok [(js "image", FormFile (mkBlob [255; 216; 255] (js "image/jpeg") None)
                              (js "captured.jpg"))].
Proof.
  apply build_form_canvas; [exact is_mime_js_jpeg|].
  apply (bool_decide_unpack _). by vm_compute.
Defined.

(** C38.  The form always has exactly one field, and which one is determined
    by the kind of capture: a blob goes under [image] with its own file
    name ("blob" when it has none); a data URI goes under [image] as the
    blob that [base64ToBlob] returns, named "captured.jpg"; any other string
    goes under [imageUrl] as it is. *)
Theorem build_form_field image fd :
  build_form image = Ok fd →
  ∃ name v, fd = [(name, v)] ∧
    match image with
    | CapBlob b =>
        name = js "image" ∧ v = FormFile b (default (js "blob") (blob_name b))
    | CapString s =>
        if startsWith (js "data:") s then
          name = js "image" ∧
          ∃ blob, base64ToBlob s = Ok blob ∧ v = FormFile blob (js "captured.jpg")
        else name = js "imageUrl" ∧ v = FormString s
    end.
Proof.
  destruct image as [s|b].
  - destruct (startsWith (js "data:") s) eqn:Hs.
    + rewrite build_form_data_uri by done.
      intros (blob & Hb & [= <-])%bind_Ok. eexists _, _. eauto.
    + rewrite build_form_other_string by done. intros [= <-]. by eexists _, _.
  - rewrite build_form_blob. intros [= <-]. by eexists _, _.
Qed.

Lemma build_form_field_witness :
  ∃ name v,
    [(js "image", FormFile (mkBlob [1; 2] (js "image/png") (Some (js "a.png"))) (js "a.png"))]
      = [(name, v)] ∧
    name = js "image" ∧
    v = FormFile (mkBlob [1; 2] (js "image/png") (Some (js "a.png")))
          (default (js "blob") (blob_name (mkBlob [1; 2] (js "image/png") (Some (js "a.png"))))).
Proof.
  exact (build_form_field (CapBlob (mkBlob [1; 2] (js "image/png") (Some (js "a.png")))) _ eq_refl).
Defined.

(** ** The request *)

(** C6.  No request is issued exactly when the image is a data URI that
    [base64ToBlob] rejects; the promise of [handleImageUpload] is then
    rejected with that exception. *)
Theorem handleImageUpload_start_throws origin image e :
  handleImageUpload_start origin image = Err e ↔
  ∃ s, image = CapString s ∧ startsWith (js "data:") s = true ∧ base64ToBlob s = Err e.
Proof.
  unfold handleImageUpload_start. rewrite bind_Err. split.
  - intros [Hf|(fd & _ & [=])]. destruct image as [s|b]; [|done].
    destruct (startsWith (js "data:") s) eqn:Hs.
    + rewrite build_form_data_uri in Hf by done.
      apply bind_Err in Hf as [Hf|(? & _ & [=])]. eauto.
    + by rewrite build_form_other_string in Hf.
  - intros (s & -> & Hs & He). left. rewrite build_form_data_uri by done. by rewrite He.
Qed.

(** Every request is a [POST] to the upload endpoint of the page's
    origin, with the one-field form of the image as its body. *)
Theorem handleImageUpload_start_request origin image req :
  handleImageUpload_start origin image = Ok req →
  req_method req = js "POST" ∧
  (∃ base, req_url req = base ++ js "/api/upload" ∧ base = default [] origin) ∧
  build_form image = Ok (req_body req) ∧ length (req_body req) = 1%nat.
Proof.
  unfold handleImageUpload_start. intros (fd & Hfd & [= <-])%bind_Ok. simpl.
  split; [done|]. split; [destruct origin as [o|]; [by exists o|by exists []]|].
  split; [done|].
  by destruct (build_form_field _ _ Hfd) as (name & v & -> & _).
Qed.

Lemma handleImageUpload_start_request_witness :
  req_method (mkRequest (js "https://h/api/upload") (js "POST") [(js "imageUrl", FormString (js "x"))])
    = js "POST" ∧
  (∃ base,
     req_url (mkRequest (js "https://h/api/upload") (js "POST") [(js "imageUrl", FormString (js "x"))])
       = base ++ js "/api/upload" ∧ base = default [] (Some (js "https://h"))) ∧
  build_form (CapString (js "x"))
    = Ok (req_body (mkRequest (js "https://h/api/upload") (js "POST")
                      [(js "imageUrl", FormString (js "x"))])) ∧
  length (req_body (mkRequest (js "https://h/api/upload") (js "POST")
                      [(js "imageUrl", FormString (js "x"))])) = 1%nat.
Proof.
  exact (handleImageUpload_start_request (Some (js "https://h")) (CapString (js "x")) _ eq_refl).
Defined.

(** ** The continuation *)

Section settle.
Context {J : Type} (JSON_parse : jsstring → option J).
Implicit Types (o : settled) (r : response) (d : J).

(** The upload succeeds exactly when the request is fulfilled with a
    status from 200 to 299 and a body that parses as JSON; the parsed body is
    what is logged. *)
Theorem handleImageUpload_settle_success o d :
  handleImageUpload_settle JSON_parse o = LogServerResponse d ↔
  ∃ r text, o = Fulfilled r ∧ 200 ≤ resp_status r ≤ 299 ∧
            resp_body r = Some text ∧ JSON_parse text = Some d.
Proof.
  unfold handleImageUpload_settle, response_ok. split.
  - destruct o as [r|?]; [|done]. case_bool_decide; simpl; [|by destruct (resp_body r)].
    destruct (resp_body r) as [text|] eqn:Hb; [|done].
    destruct (JSON_parse text) eqn:Hp; [|done]. intros [= <-]. eauto 6.
  - intros (r & text & -> & Hs & -> & ->). by rewrite bool_decide_eq_true_2.
Qed.

(** A response with any other status is logged as an upload error
    with that status and the response text, and is a failure; it is never
    parsed. *)
Theorem handleImageUpload_settle_error r text :
  ¬ (200 ≤ resp_status r ≤ 299) → resp_body r = Some text →
  handleImageUpload_settle JSON_parse (Fulfilled r) = LogUploadError (resp_status r) text ∧
  outcome_of_log (handleImageUpload_settle JSON_parse (Fulfilled r)) = Failure.
Proof.
  intros Hs Hb. unfold handleImageUpload_settle, response_ok.
  by rewrite bool_decide_eq_false_2, Hb.
Qed.

(** Every way of settling other than a parsed 2xx response is a failure. *)
Lemma handleImageUpload_settle_failure o :
  outcome_of_log (handleImageUpload_settle JSON_parse o) = Failure ↔
  ∀ d, handleImageUpload_settle JSON_parse o ≠ LogServerResponse d.
Proof.
  destruct (handleImageUpload_settle JSON_parse o); simpl; split; try done.
  intros H. by destruct (H data).
Qed.

End settle.

Lemma handleImageUpload_settle_error_witness :
  handleImageUpload_settle parse_ok_true (Fulfilled (mkResponse 500 (Some (js "server error"))))
    = LogUploadError (resp_status (mkResponse 500 (Some (js "server error")))) (js "server error") ∧
  outcome_of_log
    (handleImageUpload_settle parse_ok_true (Fulfilled (mkResponse 500 (Some (js "server error")))))
    = Failure.
Proof.
  apply (handleImageUpload_settle_error parse_ok_true (mkResponse 500 (Some (js "server error"))));
    [simpl; lia|done].
Defined.
