(* ===== verification/Machine.v ===== *)
(** Event-driven components as machines.

    Each React component of [src/frontend/app/analyse/page.tsx] reacts to
    events (a click, a promise that settles, a mount or unmount) by running
    one handler to completion.  A component is modelled as a [Machine]: a
    state, an initial state and a partial step function, which is undefined
    on an event that cannot occur in the state.  This file holds what is
    common to all of them: runs over a list of events, reachability, and the
    proof rule for invariants. *)

From stdpp Require Import prelude.
From S2P Require Import Prelude.

(** The interface of a component. *)
Class Machine (St Ev : Type) : Type := {
  m_init : St;
  m_step : St → Ev → option St;
}.

Section machine.
Context {St Ev : Type} `{!Machine St Ev}.
Implicit Types (s : St) (e : Ev) (evs : list Ev) (P : St → Prop).

(** The state after the events of [evs], in order; [None] when one of them
    cannot occur. *)
Fixpoint run (evs : list Ev) (s : St) : option St :=
  match evs with
  | [] => Some s
  | e :: evs' => m_step s e ≫= run evs'
  end.

(** One step, as a relation. *)
Definition steps (s s' : St) : Prop := ∃ e, m_step s e = Some s'.

Definition reachable_from (s s' : St) : Prop := ∃ evs, run evs s = Some s'.

Definition reachable (s : St) : Prop := reachable_from m_init s.

(** A predicate that every step preserves. *)
Definition stable (P : St → Prop) : Prop :=
  ∀ s e s', P s → m_step s e = Some s' → P s'.

Lemma run_app evs1 evs2 s :
  run (evs1 ++ evs2) s = run evs1 s ≫= run evs2.
Proof.
  revert s. induction evs1 as [|e evs1 IH]; intros s; simpl; [done|].
  destruct (m_step s e); simpl; [apply IH|done].
Qed.

Lemma run_snoc evs e s :
  run (evs ++ [e]) s = run evs s ≫= λ s', m_step s' e.
Proof.
  rewrite run_app. destruct (run evs s) as [s'|]; simpl; [|done].
  by destruct (m_step s' e).
Qed.

Lemma run_cons_Some e evs s s' :
  run (e :: evs) s = Some s' ↔ ∃ s1, m_step s e = Some s1 ∧ run evs s1 = Some s'.
Proof. simpl. by rewrite bind_Some. Qed.

Lemma reachable_from_refl s : reachable_from s s.
Proof. by exists []. Qed.

Lemma reachable_from_step s e s' s'' :
  m_step s e = Some s' → reachable_from s' s'' → reachable_from s s''.
Proof. intros Hs [evs Hr]. exists (e :: evs). simpl. by rewrite Hs. Qed.

Lemma reachable_from_trans s1 s2 s3 :
  reachable_from s1 s2 → reachable_from s2 s3 → reachable_from s1 s3.
Proof.
  intros [evs1 H1] [evs2 H2]. exists (evs1 ++ evs2). rewrite run_app, H1. done.
Qed.

Lemma reachable_from_rtc s s' : reachable_from s s' ↔ rtc steps s s'.
Proof.
  split.
  - intros [evs Hr]. revert s Hr. induction evs as [|e evs IH]; intros s Hr.
    + by simplify_eq/=.
    + apply run_cons_Some in Hr as (s1 & Hs & Hr).
      eapply rtc_l; [by exists e|by apply IH].
  - induction 1 as [|s1 s2 s3 [e He] _ IH]; [apply reachable_from_refl|].
    by eapply reachable_from_step.
Qed.

(** A stable predicate holds along every run. *)
Lemma stable_run P evs s s' :
  stable P → P s → run evs s = Some s' → P s'.
Proof.
  intros HP. revert s. induction evs as [|e evs IH]; intros s Hs Hr.
  - by simplify_eq/=.
  - apply run_cons_Some in Hr as (s1 & Hs1 & Hr). eauto.
Qed.

(** The proof rule for invariants: a stable predicate of the initial state
    holds in every reachable state. *)
Lemma invariant P s : P m_init → stable P → reachable s → P s.
Proof. intros Hi HP [evs Hr]. by eapply stable_run. Qed.

(** A reflexive and transitive relation that every step respects relates
    the two ends of every run. *)
Lemma reachable_from_preorder (R : relation St) `{!PreOrder R} s s' :
  (∀ s1 e s2, m_step s1 e = Some s2 → R s1 s2) → reachable_from s s' → R s s'.
Proof.
  intros HR [evs Hr]. revert s Hr. induction evs as [|e evs IH]; intros s Hr.
  - by simplify_eq/=.
  - apply run_cons_Some in Hr as (s1 & Hs & Hr). etrans; eauto.
Qed.

Lemma reachable_step s e s' : reachable s → m_step s e = Some s' → reachable s'.
Proof. intros [evs Hr] Hs. exists (evs ++ [e]). by rewrite run_snoc, Hr. Qed.

Lemma reachable_init : reachable m_init.
Proof. apply reachable_from_refl. Qed.

(** What is reachable from a reachable state is reachable. *)
Lemma reachable_trans s s' : reachable s → reachable_from s s' → reachable s'.
Proof. apply reachable_from_trans. Qed.

(** A predicate that the steps on events of [G] preserve holds along
    every run of such events. *)
Lemma guarded_run (G : Ev → Prop) P evs s s' :
  (∀ s1 e s2, P s1 → G e → m_step s1 e = Some s2 → P s2) →
  P s → Forall G evs → run evs s = Some s' → P s'.
Proof.
  intros HP. revert s. induction evs as [|e evs IH]; intros s Hs Hevs Hr.
  - by simplify_eq/=.
  - apply Forall_cons in Hevs as [He Hevs].
    apply run_cons_Some in Hr as (s1 & Hs1 & Hr). eauto.
Qed.

Lemma stable_and P Q : stable P → stable Q → stable (λ s, P s ∧ Q s).
Proof. intros HP HQ s e s' [??] ?. split; eauto. Qed.

End machine.

Arguments run : simpl nomatch.
