(* ===== verification/Embedding.v ===== *)
(** Embeddings of one machine in another.

    Several machines of the development describe the same code of
    [src/frontend/app/analyse/page.tsx] at two levels of detail: the
    continuation of [handleImageUpload] as one step or as one step per
    [await], the mobile camera with or without its video element, a
    component and the state machine that the specification asks for.  The
    detailed machine [X] is embedded in the coarse machine [Y] by a
    projection of the states and a projection of each event to a list of
    events of [Y]: the empty list for a step that [Y] does not see, one
    event for a step that both take.  The projection may depend on an
    invariant of [X].

    The file holds the definition and what it gives: the projection of a run
    of [X] is a run of [Y] between the projected states, so a reachable state
    projects to a reachable state and every invariant of [Y] holds of the
    projections of the reachable states of [X]; an embedding that preserves
    the output of each step preserves the output of every run; embeddings
    compose. *)

From stdpp Require Import prelude.
From S2P Require Import Prelude Machine.

Section outputs.
Context {St Ev O : Type} `{!Machine St Ev}.

(** The output of a run: what each step writes, in order.  [out s e] is
    what the step on [e] writes in [s]. *)
Fixpoint outputs (out : St → Ev → list O) (evs : list Ev) (s : St) : list O :=
  match evs with
  | [] => []
  | e :: evs' =>
      match m_step s e with
      | Some s' => out s e ++ outputs out evs' s'
      | None => []
      end
  end.

End outputs.

Section embedding.
Context {X EX Y EY : Type} (MX : Machine X EX) (MY : Machine Y EY).
Context (I : X → Prop) (state_project : X → Y) (event_project : X → EX → list EY).

(** The projection of a run from [s]: the projections of its events, each
    in the state in which it occurs. *)
Fixpoint trace_project (evs : list EX) (s : X) : list EY :=
  match evs with
  | [] => []
  | e :: evs' =>
      match @m_step _ _ MX s e with
      | Some s' => event_project s e ++ trace_project evs' s'
      | None => []
      end
  end.

(** [X] is embedded in [Y]: the initial states correspond, [I] is an
    invariant of [X], and under [I] the projection of a step of [X] is a
    run of [Y] between the projections of its two states. *)
Record embedding : Prop := mkEmbedding {
  embed_init : state_project (@m_init _ _ MX) = @m_init _ _ MY;
  embed_inv_init : I (@m_init _ _ MX);
  embed_inv_step : ∀ s e s', I s → @m_step _ _ MX s e = Some s' → I s';
  embed_step : ∀ s e s', I s → @m_step _ _ MX s e = Some s' →
    @run _ _ MY (event_project s e) (state_project s) = Some (state_project s');
}.

(** The embedding preserves what the steps write: [out_X] is the output of
    the steps of [X], [out_Y] that of the steps of [Y]. *)
Definition preserves_outputs {O : Type} (out_X : X → EX → list O)
    (out_Y : Y → EY → list O) : Prop :=
  ∀ s e s', I s → @m_step _ _ MX s e = Some s' →
    @outputs _ _ _ MY out_Y (event_project s e) (state_project s) = out_X s e.

End embedding.

(** * Properties *)

Section outputs_props.
Context {St Ev O : Type} `{!Machine St Ev}.
Implicit Types (s : St) (e : Ev) (evs : list Ev) (out : St → Ev → list O).

Lemma outputs_cons out e evs s s' :
  m_step s e = Some s' → outputs out (e :: evs) s = out s e ++ outputs out evs s'.
Proof. intros Hs. simpl. by rewrite Hs. Qed.

Lemma outputs_cons_None out e evs s :
  m_step s e = None → outputs out (e :: evs) s = [].
Proof. intros Hs. simpl. by rewrite Hs. Qed.

Lemma outputs_app out evs1 evs2 s s' :
  run evs1 s = Some s' →
  outputs out (evs1 ++ evs2) s = outputs out evs1 s ++ outputs out evs2 s'.
Proof.
  revert s. induction evs1 as [|e evs1 IH]; intros s Hr; [by simplify_eq/=|].
  apply run_cons_Some in Hr as (s1 & Hs1 & Hr).
  rewrite <-app_comm_cons, !(outputs_cons out e _ s s1) by done.
  by rewrite (IH s1 Hr), app_assoc.
Qed.

(** What every step on an event of [G] writes, every run of such events
    writes. *)
Lemma outputs_Forall (G : Ev → Prop) (T : O → Prop) out evs s :
  (∀ s e, G e → Forall T (out s e)) → Forall G evs → Forall T (outputs out evs s).
Proof.
  intros Hout Hevs. revert s. induction Hevs as [|e evs He _ IH]; intros s; simpl; [done|].
  destruct (m_step s e) as [s'|]; [|done]. apply Forall_app. eauto.
Qed.

End outputs_props.

Section embedding_props.
Context {X EX Y EY : Type} (MX : Machine X EX) (MY : Machine Y EY).
Context (I : X → Prop) (state_project : X → Y) (event_project : X → EX → list EY).
Context (Hemb : embedding MX MY I state_project event_project).
Implicit Types (s : X) (e : EX) (evs : list EX).

#[local] Abbreviation trace_project := (trace_project MX event_project).

(** The invariant of the embedding holds along every run. *)
Lemma embedding_inv_run evs s s' : I s → @run _ _ MX evs s = Some s' → I s'.
Proof. apply (@stable_run _ _ MX I). intros s1 e s2. apply (embed_inv_step _ _ _ _ _ Hemb). Qed.

Lemma embedding_inv s : @reachable _ _ MX s → I s.
Proof. intros [evs Hr]. eapply embedding_inv_run; [|done]. apply (embed_inv_init _ _ _ _ _ Hemb). Qed.

(** The projection of a run of [X] is a run of [Y]. *)
Lemma embedding_run evs s s' :
  I s → @run _ _ MX evs s = Some s' →
  @run _ _ MY (trace_project evs s) (state_project s) = Some (state_project s').
Proof.
  revert s. induction evs as [|e evs IH]; intros s Hs Hr; [by simplify_eq/=|].
  apply run_cons_Some in Hr as (s1 & Hs1 & Hr). simpl. rewrite Hs1, run_app.
  rewrite (embed_step _ _ _ _ _ Hemb s e s1 Hs Hs1). simpl.
  apply IH; [|done]. by eapply (embed_inv_step _ _ _ _ _ Hemb).
Qed.

(** A reachable state of [X] projects to a reachable state of [Y]. *)
Lemma embedding_reachable s :
  @reachable _ _ MX s → @reachable _ _ MY (state_project s).
Proof.
  intros [evs Hr]. exists (trace_project evs m_init).
  rewrite <-(embed_init _ _ _ _ _ Hemb).
  apply embedding_run; [apply (embed_inv_init _ _ _ _ _ Hemb)|done].
Qed.

(** Every invariant of [Y] holds of the projection of the reachable states
    of [X]. *)
Lemma embedding_invariant (P : Y → Prop) s :
  (∀ y, @reachable _ _ MY y → P y) → @reachable _ _ MX s → P (state_project s).
Proof. intros HP Hs. by apply HP, embedding_reachable. Qed.

(** The projection of a run of events of [GX] is a run of events of [GY],
    when the projection of each such event is. *)
Lemma trace_project_Forall (GX : EX → Prop) (GY : EY → Prop) evs s :
  (∀ s e, GX e → Forall GY (event_project s e)) →
  Forall GX evs → Forall GY (trace_project evs s).
Proof.
  intros HG Hevs. revert s. induction Hevs as [|e evs He _ IH]; intros s; simpl; [done|].
  destruct (@m_step _ _ MX s e) as [s'|]; [|done]. apply Forall_app. eauto.
Qed.

(** What holds of [Y] after every run of events of [GY] holds of the
    projection of [X] after every run of events of [GX]. *)
Lemma embedding_guarded (GX : EX → Prop) (GY : EY → Prop) (P : Y → Prop) evs s :
  (∀ s e, GX e → Forall GY (event_project s e)) →
  (∀ (ys : list EY) y, Forall GY ys → @run _ _ MY ys m_init = Some y → P y) →
  Forall GX evs → @run _ _ MX evs m_init = Some s → P (state_project s).
Proof.
  intros HG HP Hevs Hr. apply (HP (trace_project evs m_init)).
  - by apply (trace_project_Forall GX).
  - rewrite <-(embed_init _ _ _ _ _ Hemb).
    apply embedding_run; [apply (embed_inv_init _ _ _ _ _ Hemb)|done].
Qed.

(** A step that [Y] does not see leaves the projection as it is. *)
Lemma embedding_stutter s e s' :
  I s → @m_step _ _ MX s e = Some s' → event_project s e = [] →
  state_project s' = state_project s.
Proof.
  intros Hs Hstep He. pose proof (embed_step _ _ _ _ _ Hemb s e s' Hs Hstep) as Hr.
  rewrite He in Hr. by simplify_eq/=.
Qed.

(** An embedding that preserves the output of each step preserves the
    output of each run. *)
Lemma embedding_outputs {O} (out_X : X → EX → list O) (out_Y : Y → EY → list O) evs s s' :
  preserves_outputs MX MY I state_project event_project out_X out_Y →
  I s → @run _ _ MX evs s = Some s' →
  @outputs _ _ _ MY out_Y (trace_project evs s) (state_project s)
  = @outputs _ _ _ MX out_X evs s.
Proof.
  intros Hout. revert s. induction evs as [|e evs IH]; intros s Hs Hr; [done|].
  apply run_cons_Some in Hr as (s1 & Hs1 & Hr). simpl. rewrite Hs1.
  rewrite (outputs_app out_Y _ _ _ (state_project s1))
    by by apply (embed_step _ _ _ _ _ Hemb).
  rewrite (Hout s e s1 Hs Hs1). f_equal.
  apply IH; [|done]. by eapply (embed_inv_step _ _ _ _ _ Hemb).
Qed.

End embedding_props.

(** ** Composition *)

Section embedding_compose.
Context {X EX Y EY Z EZ : Type}.
Context (MX : Machine X EX) (MY : Machine Y EY) (MZ : Machine Z EZ).
Context (I : X → Prop) (f : X → Y) (ef : X → EX → list EY).
Context (K : Y → Prop) (g : Y → Z) (eg : Y → EY → list EZ).

(** Embeddings compose when the invariant of the first implies that of the
    second on the projections: an event is projected to the projection of
    its projection. *)
Lemma embedding_compose :
  (∀ s, I s → K (f s)) →
  embedding MX MY I f ef → embedding MY MZ K g eg →
  embedding MX MZ I (g ∘ f) (λ s e, trace_project MY eg (ef s e) (f s)).
Proof.
  intros HIK H1 H2. split.
  - simpl. by rewrite (embed_init _ _ _ _ _ H1), (embed_init _ _ _ _ _ H2).
  - apply (embed_inv_init _ _ _ _ _ H1).
  - apply (embed_inv_step _ _ _ _ _ H1).
  - intros s e s' Hs Hstep. simpl. apply (embedding_run MY MZ K g eg H2); [by apply HIK|].
    by apply (embed_step _ _ _ _ _ H1).
Qed.

End embedding_compose.
