(* ===== verification/Independence.v ===== *)
(** Independent events, and runs up to the order of independent events.

    The handlers of [src/frontend/app/analyse/page.tsx] run one at a time,
    in the order in which the browser delivers the events: the order of the
    user's actions is the user's, but the order in which promises settle
    (the calls of [fetch], the reading of the response bodies, the calls of
    [getUserMedia]) is not under the control of the page.  Two events are
    independent when in every state they can occur in either order, with the
    same result; two runs are equal up to the order of independent events
    when one is obtained from the other by swapping adjacent independent
    events.

    The file holds the two notions for any [Machine] and what they give:
    [reorder R] is an equivalence, finer than permutation, and a congruence
    for the concatenation of runs; [run] takes runs that are equal up to the
    order of independent events to the same state; the output of a run is
    preserved up to permutation when independent events do not change what
    the other writes.  The components instantiate [R] with a relation on
    their events that is decided by looking at the two events. *)

From stdpp Require Import prelude.
From S2P Require Import Prelude Machine Embedding.

Section independence.
Context {St Ev : Type} `{!Machine St Ev}.

(** [e1] and [e2] are independent: in every state they can occur in either
    order, with the same result (and cannot, in one order, exactly when they
    cannot in the other). *)
Definition independent (e1 e2 : Ev) : Prop :=
  ∀ s, run [e1; e2] s = run [e2; e1] s.

(** [e1] does not change what [e2] writes. *)
Definition silent_to {O : Type} (out : St → Ev → list O) (e1 e2 : Ev) : Prop :=
  ∀ s s1, m_step s e1 = Some s1 → out s1 e2 = out s e2.

(** Runs up to the order of adjacent events that [R] relates. *)
Inductive reorder (R : relation Ev) : relation (list Ev) :=
| reorder_nil : reorder R [] []
| reorder_skip e evs evs' : reorder R evs evs' → reorder R (e :: evs) (e :: evs')
| reorder_swap e1 e2 evs : R e1 e2 → reorder R (e1 :: e2 :: evs) (e2 :: e1 :: evs)
| reorder_trans evs1 evs2 evs3 :
    reorder R evs1 evs2 → reorder R evs2 evs3 → reorder R evs1 evs3.

End independence.

(** * Properties *)

Section independence_props.
Context {St Ev : Type} `{!Machine St Ev}.
Implicit Types (s : St) (e : Ev) (evs : list Ev) (R : relation Ev).

#[export] Instance independent_sym : Symmetric (independent (Ev := Ev)).
Proof. intros e1 e2 Hi s. by rewrite Hi. Qed.

#[export] Instance reorder_refl R : Reflexive (reorder R).
Proof. intros evs. induction evs; by constructor. Qed.

#[export] Instance reorder_sym R `{!Symmetric R} : Symmetric (reorder R).
Proof. induction 1; [constructor|by constructor|by constructor|by econstructor]. Qed.

#[export] Instance reorder_transitive R : Transitive (reorder R).
Proof. intros evs1 evs2 evs3. apply reorder_trans. Qed.

#[export] Instance reorder_equivalence R `{!Symmetric R} : Equivalence (reorder R).
Proof. split; apply _. Qed.

Lemma reorder_mono R R' evs evs' :
  (∀ e1 e2, R e1 e2 → R' e1 e2) → reorder R evs evs' → reorder R' evs evs'.
Proof. intros HR. induction 1; [constructor|by constructor|constructor; auto|by econstructor]. Qed.

(** Reordering permutes. *)
Lemma reorder_Permutation R evs evs' : reorder R evs evs' → evs ≡ₚ evs'.
Proof. induction 1; [done|by constructor|constructor|by etrans]. Qed.

Lemma reorder_length R evs evs' : reorder R evs evs' → length evs = length evs'.
Proof. by intros ->%reorder_Permutation. Qed.

Lemma reorder_app_l R evs evs1 evs2 :
  reorder R evs1 evs2 → reorder R (evs ++ evs1) (evs ++ evs2).
Proof. intros Hr. induction evs; [done|by constructor]. Qed.

Lemma reorder_app_r R evs evs1 evs2 :
  reorder R evs1 evs2 → reorder R (evs1 ++ evs) (evs2 ++ evs).
Proof.
  induction 1; simpl; [done|by constructor|by constructor|by etrans].
Qed.

#[export] Instance reorder_app_proper R :
  Proper (reorder R ==> reorder R ==> reorder R) (++).
Proof.
  intros evs1 evs1' H1 evs2 evs2' H2.
  etrans; [by apply reorder_app_r|by apply reorder_app_l].
Qed.

(** An event moves to the front of the events before it when [R] relates
    each of them to it. *)
Lemma reorder_to_front R e evs1 evs2 :
  Forall (λ e', R e' e) evs1 → reorder R (evs1 ++ e :: evs2) (e :: evs1 ++ evs2).
Proof.
  induction 1 as [|e' evs1 He _ IH]; simpl; [done|].
  etrans; [apply reorder_skip, IH|by apply reorder_swap].
Qed.

Lemma run_two e1 e2 s : run [e1; e2] s = m_step s e1 ≫= λ s1, m_step s1 e2.
Proof. simpl. destruct (m_step s e1) as [s1|]; simpl; [by destruct (m_step s1 e2)|done]. Qed.

Lemma independent_steps e1 e2 :
  independent e1 e2 ↔
  ∀ s, m_step s e1 ≫= (λ s1, m_step s1 e2) = m_step s e2 ≫= (λ s2, m_step s2 e1).
Proof. unfold independent. by setoid_rewrite run_two. Qed.

(** The same, after the events of [pre]. *)
Lemma reorder_move R pre e evs1 evs2 :
  Forall (λ e', R e' e) evs1 →
  reorder R (pre ++ evs1 ++ e :: evs2) (pre ++ e :: evs1 ++ evs2).
Proof. intros He. by apply reorder_app_l, reorder_to_front. Qed.

(** The rule for independence: neither event enables or disables the other,
    and when both can occur the two orders give the same state. *)
Lemma independent_intro e1 e2 :
  (∀ s s1, m_step s e1 = Some s1 → is_Some (m_step s1 e2) ↔ is_Some (m_step s e2)) →
  (∀ s s2, m_step s e2 = Some s2 → is_Some (m_step s2 e1) ↔ is_Some (m_step s e1)) →
  (∀ s s1 s2 s12 s21,
     m_step s e1 = Some s1 → m_step s e2 = Some s2 →
     m_step s1 e2 = Some s12 → m_step s2 e1 = Some s21 → s12 = s21) →
  independent e1 e2.
Proof.
  intros H12 H21 Heq s. simpl.
  destruct (m_step s e1) as [s1|] eqn:Hs1, (m_step s e2) as [s2|] eqn:Hs2; simpl; [| | |done].
  - destruct (proj2 (H12 s s1 Hs1)) as [s12 Hs12]; [by rewrite Hs2|].
    destruct (proj2 (H21 s s2 Hs2)) as [s21 Hs21]; [by rewrite Hs1|].
    rewrite Hs12, Hs21. simpl. f_equal. eauto.
  - destruct (m_step s1 e2) eqn:Hs12; [|done].
    destruct (proj1 (H12 s s1 Hs1)) as [? ?]; [by rewrite Hs12|congruence].
  - destruct (m_step s2 e1) eqn:Hs21; [|done].
    destruct (proj1 (H21 s s2 Hs2)) as [? ?]; [by rewrite Hs21|congruence].
Qed.

(** Independent events in either order, followed by the same events. *)
Lemma independent_run e1 e2 evs s :
  independent e1 e2 → run (e1 :: e2 :: evs) s = run (e2 :: e1 :: evs) s.
Proof.
  intros Hi. change (run ([e1; e2] ++ evs) s = run ([e2; e1] ++ evs) s).
  by rewrite !run_app, Hi.
Qed.

(** Runs that are equal up to the order of independent events end in the
    same state. *)
#[export] Instance run_reorder_proper :
  Proper (reorder independent ==> (=) ==> (=)) (run (St := St)).
Proof.
  intros evs evs' Hr s ? <-. revert s.
  induction Hr as [|e evs evs' _ IH|e1 e2 evs Hi|evs1 evs2 evs3 _ IH1 _ IH2]; intros s.
  - done.
  - simpl. destruct (m_step s e); simpl; [apply IH|done].
  - by apply independent_run.
  - by rewrite IH1.
Qed.

Lemma run_reorder R evs evs' s :
  (∀ e1 e2, R e1 e2 → independent e1 e2) →
  reorder R evs evs' → run evs s = run evs' s.
Proof. intros HR Hr%(reorder_mono _ independent); [by rewrite Hr|done]. Qed.

(** A state is reachable by a run exactly when it is by a reordered run. *)
Lemma reorder_reachable R evs evs' s :
  (∀ e1 e2, R e1 e2 → independent e1 e2) →
  reorder R evs evs' → run evs m_init = Some s → run evs' m_init = Some s.
Proof. intros HR Hr <-. symmetry. by eapply run_reorder. Qed.

Section outputs.
Context {O : Type} (out : St → Ev → list O) (R : relation Ev).
Context (Hind : ∀ e1 e2, R e1 e2 → independent e1 e2).
Context (Hout : ∀ e1 e2, R e1 e2 → silent_to out e1 e2 ∧ silent_to out e2 e1).

(** The output of two related events in either order. *)
Lemma outputs_swap e1 e2 evs s :
  R e1 e2 → is_Some (run (e1 :: e2 :: evs) s) →
  outputs out (e1 :: e2 :: evs) s ≡ₚ outputs out (e2 :: e1 :: evs) s.
Proof.
  intros HR [s' Hr]. pose proof Hr as Hr'.
  rewrite (independent_run e1 e2) in Hr' by auto.
  apply run_cons_Some in Hr as (s1 & Hs1 & (s12 & Hs12 & Hr)%run_cons_Some).
  apply run_cons_Some in Hr' as (s2 & Hs2 & (s21 & Hs21 & Hr')%run_cons_Some).
  assert (s21 = s12) as ->.
  { pose proof (Hind e1 e2 HR s) as Hi. simpl in Hi.
    rewrite Hs1, Hs2 in Hi. simpl in Hi. rewrite Hs12, Hs21 in Hi. by simplify_eq/=. }
  destruct (Hout e1 e2 HR) as [H12 H21].
  rewrite (outputs_cons out e1 _ s s1), (outputs_cons out e2 _ s1 s12) by done.
  rewrite (outputs_cons out e2 _ s s2), (outputs_cons out e1 _ s2 s12) by done.
  rewrite (H12 s s1 Hs1), (H21 s s2 Hs2), !app_assoc.
  by rewrite (comm (++) (out s e1)).
Qed.

(** A run and a reordered run write the same, up to the order. *)
Lemma outputs_reorder evs evs' s :
  reorder R evs evs' → is_Some (run evs s) → outputs out evs s ≡ₚ outputs out evs' s.
Proof.
  intros Hr. revert s.
  induction Hr as [|e evs evs' _ IH|e1 e2 evs HR|evs1 evs2 evs3 H1 IH1 _ IH2];
    intros s Hs.
  - done.
  - destruct Hs as [s' (s1 & Hs1 & Hr)%run_cons_Some].
    rewrite !(outputs_cons out e _ s s1) by done. f_equiv. apply IH. eauto.
  - by apply outputs_swap.
  - etrans; [by apply IH1|]. apply IH2. by rewrite <-(run_reorder R evs1 evs2).
Qed.

End outputs.

End independence_props.
