(* ===== verification/Progress.v ===== *)
(** Progress of event-driven components.

    Some events are owed by the environment: a promise that is pending will
    settle.  [inevitable owed P s] says that [P] comes to hold from [s]
    whatever owed events are delivered and in whatever order: either [P]
    holds now, or some event is owed, every owed event can occur, and [P] is
    inevitable after each of them.  The definition is inductive, so [P] holds
    after finitely many events.  The file holds the definition, its
    combinators and the proof rule by a measure that the owed events
    decrease. *)

From Stdlib Require Import Lia.
From stdpp Require Import prelude.
From S2P Require Import Prelude Machine.

Section progress.
Context {St Ev : Type} `{!Machine St Ev}.
Context (owed : St → Ev → Prop).
Implicit Types (s : St) (e : Ev) (P Q I : St → Prop).

Inductive inevitable (P : St → Prop) (s : St) : Prop :=
| inevitable_now : P s → inevitable P s
| inevitable_later :
    (∃ e, owed s e) →
    (∀ e, owed s e → is_Some (m_step s e)) →
    (∀ e s', owed s e → m_step s e = Some s' → inevitable P s') →
    inevitable P s.

(** No event is owed: the environment has nothing left to deliver. *)
Definition quiescent (s : St) : Prop := ∀ e, ¬ owed s e.

(** The events of [evs] are owed one after the other from [s]. *)
Fixpoint owed_run (evs : list Ev) (s : St) : Prop :=
  match evs with
  | [] => True
  | e :: evs' => owed s e ∧ ∃ s', m_step s e = Some s' ∧ owed_run evs' s'
  end.

End progress.

(** The number of elements of a list that satisfy [P]: the measure of the
    components is the number of their pending promises. *)
Definition count {A} (P : A → Prop) `{!∀ x, Decision (P x)} (l : list A) : nat :=
  length (filter P l).

Section progress_lemmas.
Context {St Ev : Type} `{!Machine St Ev}.
Context (owed : St → Ev → Prop).
Implicit Types (s : St) (e : Ev) (P Q I : St → Prop).
#[local] Abbreviation inevitable := (inevitable owed).
#[local] Abbreviation quiescent := (quiescent owed).
#[local] Abbreviation owed_run := (owed_run owed).

Lemma inevitable_mono P Q s :
  (∀ s', P s' → Q s') → inevitable P s → inevitable Q s.
Proof.
  intros HPQ. induction 1 as [s HP|s Hex Hen _ IH].
  - by apply inevitable_now, HPQ.
  - by apply inevitable_later.
Qed.

(** What is inevitable once [P] holds is inevitable. *)
Lemma inevitable_trans P Q s :
  inevitable P s → (∀ s', P s' → inevitable Q s') → inevitable Q s.
Proof.
  intros HP HPQ. induction HP as [s HP|s Hex Hen _ IH].
  - by apply HPQ.
  - by apply inevitable_later.
Qed.

(** What is inevitable is possible: some run of owed events leads to a
    state where [P] holds. *)
Lemma inevitable_run P s :
  inevitable P s → ∃ evs s', owed_run evs s ∧ run evs s = Some s' ∧ P s'.
Proof.
  induction 1 as [s HP|s [e He] Hen _ IH].
  - by exists [], s.
  - destruct (Hen e He) as [s1 Hs1].
    destruct (IH e s1 He Hs1) as (evs & s' & Ho & Hr & HP).
    exists (e :: evs), s'. split; [by split; eauto|]. simpl. by rewrite Hs1.
Qed.

(** An invariant of the owed steps can be assumed of the goal. *)
Lemma inevitable_invariant I P s :
  (∀ s e s', I s → owed s e → m_step s e = Some s' → I s') →
  I s → inevitable P s → inevitable (λ s', I s' ∧ P s') s.
Proof.
  intros HI Hs HP. induction HP as [s HP|s Hex Hen _ IH].
  - by apply inevitable_now.
  - apply inevitable_later; eauto.
Qed.

(** The proof rule: a measure that every owed event decreases, on the
    states of an invariant in which owed events can occur.  Quiescence is
    then inevitable, after at most as many events as the measure counts. *)
Lemma inevitable_measure (μ : St → nat) I s :
  (∀ s e, I s → owed s e → ∃ s', m_step s e = Some s' ∧ I s' ∧ μ s' < μ s) →
  (∀ s, I s → Decision (∃ e, owed s e)) →
  I s → inevitable (λ s', I s' ∧ quiescent s') s.
Proof.
  intros Hstep Hdec. remember (μ s) as n eqn:Hn. revert s Hn.
  induction (lt_wf n) as [n _ IH]. intros s -> Hs.
  destruct (Hdec s Hs) as [Hex|Hno].
  - apply inevitable_later; [done|..].
    + intros e He. destruct (Hstep s e Hs He) as (s' & -> & _). by eexists.
    + intros e s' He Hs'. destruct (Hstep s e Hs He) as (s1 & ? & ? & ?).
      simplify_eq. by eapply IH.
  - apply inevitable_now. split; [done|]. intros e He. apply Hno. by exists e.
Qed.

(** Every run of owed events is at most as long as the measure. *)
Lemma owed_run_length (μ : St → nat) I evs s :
  (∀ s e, I s → owed s e → ∃ s', m_step s e = Some s' ∧ I s' ∧ μ s' < μ s) →
  I s → owed_run evs s → length evs ≤ μ s.
Proof.
  intros Hstep. revert s. induction evs as [|e evs IH]; intros s Hs; simpl; [lia|].
  intros (He & s' & Hs' & Hr). destruct (Hstep s e Hs He) as (s1 & ? & ? & ?).
  simplify_eq. specialize (IH s' ltac:(done) Hr). lia.
Qed.

End progress_lemmas.

#[export] Hint Constructors inevitable : core.

Section count.
Context {A : Type} (P : A → Prop) `{!∀ x, Decision (P x)}.
Implicit Types (l : list A) (x y : A) (k : nat).

Lemma count_nil : count P [] = 0.
Proof. done. Qed.

Lemma count_app l1 l2 : count P (l1 ++ l2) = count P l1 + count P l2.
Proof. unfold count. by rewrite filter_app, length_app. Qed.

Lemma count_cons x l : count P (x :: l) = (if decide (P x) then 1 else 0) + count P l.
Proof. unfold count. rewrite filter_cons. by case_decide. Qed.

Lemma count_snoc l x : count P (l ++ [x]) = count P l + if decide (P x) then 1 else 0.
Proof. rewrite count_app, count_cons, count_nil. lia. Qed.

(** Replacing an element that satisfies [P] by one that does not takes one
    off the count; replacing it by one of the same kind keeps the count. *)
Lemma count_insert l k x y :
  l !! k = Some x →
  count P (<[k:=y]> l) + (if decide (P x) then 1 else 0)
  = count P l + if decide (P y) then 1 else 0.
Proof.
  intros Hk. rewrite <-(take_drop_middle l k x Hk) at 2.
  rewrite insert_take_drop by by eapply lookup_lt_Some.
  rewrite !count_app, !count_cons. lia.
Qed.

Lemma count_insert_settle l k x y :
  l !! k = Some x → P x → ¬ P y → S (count P (<[k:=y]> l)) = count P l.
Proof.
  intros Hk Hx Hy. pose proof (count_insert l k x y Hk) as Hc.
  rewrite decide_True, decide_False in Hc by done. lia.
Qed.

Lemma count_0 l : count P l = 0 ↔ Forall (λ x, ¬ P x) l.
Proof.
  induction l as [|x l IH]; [done|]. rewrite count_cons, Forall_cons.
  case_decide; [|rewrite <-IH]; naive_solver lia.
Qed.

Lemma count_pos l : 0 < count P l ↔ ∃ k x, l !! k = Some x ∧ P x.
Proof.
  destruct (decide (count P l = 0)) as [H0|Hn].
  - split; [lia|]. intros (k & x & Hk & Hx). apply count_0 in H0.
    by destruct (Forall_lookup_1 _ _ _ _ H0 Hk).
  - split; [intros _|lia]. rewrite count_0 in Hn.
    apply not_Forall_Exists, Exists_exists in Hn as (x & [k Hk]%list_elem_of_lookup & Hx); [|apply _].
    exists k, x. split; [done|]. by apply dec_stable.
Qed.

#[export] Instance count_pos_dec l : Decision (∃ k x, l !! k = Some x ∧ P x).
Proof.
  refine (cast_if (decide (0 < count P l))); by rewrite <-count_pos.
Defined.

End count.

(** ** Measures that are sums

    A machine whose promises await more than one settlement has the sum of
    what they await as its measure; a settlement lowers one summand. *)
Lemma sum_list_insert_lt (l : list nat) k w w' :
  l !! k = Some w → w' < w → sum_list (<[k := w']> l) < sum_list l.
Proof.
  revert k. induction l as [|x l IH]; intros [|k] Hk Hw; simplify_eq/=; [lia|].
  specialize (IH k Hk Hw). lia.
Qed.

(** The summands after a step that changes the summand of index [k] only. *)
Lemma imap_insert_update {A} (f g : nat → A → nat) (l l' : list A) k w' :
  length l' = length l →
  (∀ i y, l' !! i = Some y →
     if decide (i = k) then g i y = w' else ∃ x, l !! i = Some x ∧ g i y = f i x) →
  imap g l' = <[k := w']> (imap f l).
Proof.
  intros Hlen Hl. apply list_eq. intros i. rewrite list_lookup_imap.
  destruct (decide (i = k)) as [->|Hi].
  - destruct (l' !! k) as [y|] eqn:Hy; simpl.
    + specialize (Hl k y Hy). rewrite decide_True in Hl by done. rewrite Hl.
      symmetry. apply list_lookup_insert_eq. rewrite length_imap, <-Hlen.
      by eapply lookup_lt_Some.
    + symmetry. apply lookup_ge_None. rewrite length_insert, length_imap, <-Hlen.
      by apply lookup_ge_None.
  - rewrite list_lookup_insert_ne, list_lookup_imap by done.
    destruct (l' !! i) as [y|] eqn:Hy; simpl.
    + specialize (Hl i y Hy). rewrite decide_False in Hl by done.
      destruct Hl as (x & -> & ->). done.
    + apply lookup_ge_None in Hy. rewrite Hlen in Hy. apply lookup_ge_None in Hy.
      by rewrite Hy.
Qed.
