(* ===== verification/Canvas.v ===== *)
(** The canvas, as both camera components use it.

    [MobileCamera.capturePhoto] creates a canvas, sizes it, draws the video
    frame on it and calls [canvas.toDataURL("image/jpeg")] (lines 69-75 of
    [src/frontend/app/analyse/page.tsx]); the webcam widget of
    [DesktopCamera] does the same inside [getScreenshot] (line 115).  The
    canvas is a record of its size and the frame on it, with one definition
    per operation the code calls.  The JPEG encoder is platform code: it is
    a parameter of the model, given as an interface with the frame of a
    canvas on which nothing was drawn and the one law the pipeline depends
    on, that an encoder returns bytes. *)

From Stdlib Require Import ZArith Lia.
From stdpp Require Import prelude.
From S2P Require Import Prelude JsString Base64 Normalizer Upload.

#[local] Open Scope Z_scope.

(** An image encoder for frames of type [Frame]: the encoded bytes of a
    frame drawn at a width and a height. *)
Class Canvas (Frame : Type) : Type := {
  blank : Frame;
  encode_jpeg : Frame → Z → Z → list Z;
  encode_jpeg_bytes f w h : in_range 0 256 (encode_jpeg f w h);
}.

(** [a || b] on numbers: [0] is falsy. *)
Definition or_number (a b : Z) : Z := if decide (a = 0) then b else a.

(** [canvas.toDataURL("image/jpeg")] for a canvas of [w] by [h] pixels on
    which [frame] was drawn: a canvas without pixels gives ["data:,"]. *)
Definition canvas_toDataURL `{Canvas Frame} (frame : Frame) (w h : Z) : jsstring :=
  if decide (w = 0 ∨ h = 0) then js "data:,"
  else toDataURL "image/jpeg" (encode_jpeg frame w h).

(** The canvas element: its size and the frame that was drawn on it. *)
Record canvas_element (Frame : Type) : Type := mkCanvas {
  cv_width : Z;
  cv_height : Z;
  cv_bitmap : Frame;
}.
Arguments mkCanvas {Frame} _ _ _.
Arguments cv_width {Frame} _.
Arguments cv_height {Frame} _.
Arguments cv_bitmap {Frame} _.

(** [document.createElement("canvas")]: a canvas of 300 by 150 pixels with
    nothing on it. *)
Definition createCanvas `{Canvas Frame} : canvas_element Frame :=
  mkCanvas 300 150 blank.

(** [canvas.width = w] and [canvas.height = h]: setting a dimension clears
    the canvas. *)
Definition set_width `{Canvas Frame} (w : Z) (c : canvas_element Frame) : canvas_element Frame :=
  mkCanvas w (cv_height c) blank.

Definition set_height `{Canvas Frame} (h : Z) (c : canvas_element Frame) : canvas_element Frame :=
  mkCanvas (cv_width c) h blank.

(** [ctx.drawImage(video, 0, 0, canvas.width, canvas.height)]: the frame
    covers the whole canvas. *)
Definition drawImage {Frame} (frame : Frame) (c : canvas_element Frame) : canvas_element Frame :=
  mkCanvas (cv_width c) (cv_height c) frame.

(** [canvas.toDataURL("image/jpeg")] on the element. *)
Definition canvas_data_url `{Canvas Frame} (c : canvas_element Frame) : jsstring :=
  canvas_toDataURL (cv_bitmap c) (cv_width c) (cv_height c).

(** An encoder for the examples: a frame is its own list of samples, each
    reduced to a byte; the blank frame has no sample. *)
#[export] Instance list_canvas : Canvas (list Z) := {|
  blank := [];
  encode_jpeg f _ _ := (λ c, c `mod` 256) <$> f;
  encode_jpeg_bytes f _ _ := fmap_mod_range 256 f eq_refl;
|}.

(** * Properties *)

Section canvas.
Context `{Canvas Frame}.
Implicit Types (frame : Frame) (w h : Z).

Lemma or_number_nonzero a b : b ≠ 0 → or_number a b ≠ 0.
Proof. intros. unfold or_number. by case_decide. Qed.

Lemma canvas_toDataURL_pixels frame w h :
  w ≠ 0 → h ≠ 0 →
  canvas_toDataURL frame w h = toDataURL "image/jpeg" (encode_jpeg frame w h).
Proof. intros. unfold canvas_toDataURL. rewrite decide_False; [done|lia]. Qed.

(** The data URI of a canvas with pixels decodes to the encoder's bytes. *)
Lemma base64ToBlob_canvas frame w h :
  w ≠ 0 → h ≠ 0 →
  base64ToBlob (canvas_toDataURL frame w h)
  = Ok (mkBlob (encode_jpeg frame w h) (js "image/jpeg") None).
Proof.
  intros. rewrite canvas_toDataURL_pixels by done.
  apply base64ToBlob_data_uri; [exact is_mime_js_jpeg|apply encode_jpeg_bytes].
Qed.

(** The data URI of a canvas without pixels is rejected: its payload is
    empty, which [atob] accepts, but its prefix has no [;]. *)
Lemma base64ToBlob_canvas_empty frame w h :
  w = 0 ∨ h = 0 →
  base64ToBlob (canvas_toDataURL frame w h) = Err TypeError.
Proof. intros. unfold canvas_toDataURL. rewrite decide_True by done. by vm_compute. Qed.

Lemma canvas_toDataURL_startsWith frame w h :
  startsWith (js "data:") (canvas_toDataURL frame w h) = true.
Proof. unfold canvas_toDataURL. case_decide; [done|apply startsWith_app]. Qed.

(** The upload form of a frame taken from a canvas with pixels. *)
Lemma build_form_canvas_frame frame w h :
  w ≠ 0 → h ≠ 0 →
  build_form (CapString (canvas_toDataURL frame w h))
  = Ok [(js "image",
         FormFile (mkBlob (encode_jpeg frame w h) (js "image/jpeg") None) (js "captured.jpg"))].
Proof.
  intros. rewrite build_form_data_uri by apply canvas_toDataURL_startsWith.
  by rewrite base64ToBlob_canvas.
Qed.

Lemma canvas_toDataURL_nonempty frame w h : canvas_toDataURL frame w h ≠ [].
Proof. unfold canvas_toDataURL. by case_decide. Qed.

(** The four operations of a capture in a row: the data URI is the one of
    the frame at the size that was set, whatever the canvas was before. *)
Lemma canvas_data_url_drawn frame w h (c : canvas_element Frame) :
  canvas_data_url (drawImage frame (set_height h (set_width w c)))
  = canvas_toDataURL frame w h.
Proof. done. Qed.

(** A canvas on which nothing is drawn after it was sized encodes the blank
    frame. *)
Lemma canvas_data_url_cleared w h (c : canvas_element Frame) :
  canvas_data_url (set_height h (set_width w c)) = canvas_toDataURL blank w h.
Proof. done. Qed.

End canvas.
