(* ===== verification/Media.v ===== *)
(** Media streams and the video element, as both camera components of
    [src/frontend/app/analyse/page.tsx] use them.

    A stream is identified by a number; the camera hardware is the set of
    the streams whose tracks are running.  [getUserMedia] hands out a fresh
    number; stopping the tracks of a stream removes it from the set
    (line 62).  The video element is what [capturePhoto] reads from it
    (lines 70-74): its intrinsic size and the frame it shows; and what the
    continuation of [startCamera] does to it (lines 47-50): a new source is
    loaded, and the handler of the [loadedmetadata] event starts playback.
    A call of [play()] is taken to succeed: a page that captures from the
    camera is allowed to start playback. *)

From Stdlib Require Import ZArith Lia.
From stdpp Require Import prelude gmap.
From S2P Require Import Prelude JsString Base64 Normalizer Upload Canvas.

#[local] Open Scope Z_scope.

(** [stream.getTracks().forEach((track) => track.stop())] on a stream that
    may be [null]. *)
Definition stop_stream (o : option nat) (l : gset nat) : gset nat :=
  match o with Some sid => l ∖ {[sid]} | None => l end.

(** The streams that a variable holding a stream or [null] refers to. *)
Definition held (o : option nat) : gset nat :=
  match o with Some sid => {[sid]} | None => ∅ end.

(** The video element: its intrinsic size, which is [0] until the metadata
    has loaded, and the frame it shows. *)
Record video (Frame : Type) : Type := mkVideo {
  videoWidth : Z;
  videoHeight : Z;
  video_frame : Frame;
}.
Arguments mkVideo {Frame} _ _ _.
Arguments videoWidth {Frame} _.
Arguments videoHeight {Frame} _.
Arguments video_frame {Frame} _.

(** What the video element keeps beside the stream that is bound to it:
    the [autoPlay] attribute; its intrinsic size, known once the metadata of
    the stream has loaded; whether a handler is installed in
    [onloadedmetadata]; whether playback is paused. *)
Record playback : Type := mkPlayback {
  autoPlay : bool;
  metadata : option (Z * Z);
  onloadedmetadata : bool;
  paused : bool;
}.

#[export] Instance playback_eq_dec : EqDecision playback.
Proof. solve_decision. Defined.

(** The element of lines 85-98, [<video ref={videoRef} autoPlay playsInline
    ... />], as it is created: no source, no handler, paused.  The
    attribute [playsInline] and the style are presentation. *)
Definition new_video : playback :=
  {| autoPlay := true; metadata := None; onloadedmetadata := false; paused := true |}.

(** [video.srcObject = mediaStream] (line 47): the element loads the new
    source; the size of the previous one is forgotten and playback is
    paused until it is started again. *)
Definition set_srcObject (p : playback) : playback :=
  {| autoPlay := autoPlay p; metadata := None; onloadedmetadata := onloadedmetadata p;
     paused := true |}.

(** [video.onloadedmetadata = () => { ... }] (line 48) *)
Definition set_onloadedmetadata (p : playback) : playback :=
  {| autoPlay := autoPlay p; metadata := metadata p; onloadedmetadata := true;
     paused := paused p |}.

(** [video.play()] *)
Definition play (p : playback) : playback :=
  {| autoPlay := autoPlay p; metadata := metadata p; onloadedmetadata := onloadedmetadata p;
     paused := false |}.

(** The metadata of the source has loaded and its data arrives: the
    element has the size [w] by [h]; an element with the [autoPlay]
    attribute starts playback by itself; and the handler runs if one is
    installed.  The handler of lines 48-50 calls [play()] unless the
    reference is cleared by then ([ref_set] false). *)
Definition loadedmetadata (w h : Z) (ref_set : bool) (p : playback) : playback :=
  let p1 := {| autoPlay := autoPlay p; metadata := Some (w, h);
               onloadedmetadata := onloadedmetadata p;
               paused := if autoPlay p then false else paused p |} in
  if onloadedmetadata p && ref_set then play p1 else p1.

(** What [capturePhoto] reads from the element while the source shows
    [current]: before the metadata has loaded the size is [0] by [0] and
    there is no frame to draw. *)
Definition snapshot `{Canvas Frame} (p : playback) (current : Frame) : video Frame :=
  match metadata p with
  | Some (w, h) => mkVideo w h current
  | None => mkVideo 0 0 blank
  end.

(** * Properties *)

Lemma elem_of_stop_stream sid o l : sid ∈ stop_stream o l ↔ sid ∈ l ∧ o ≠ Some sid.
Proof. destruct o; simpl; set_solver. Qed.

Lemma stop_stream_held o : stop_stream o (held o) = ∅.
Proof. destruct o; simpl; set_solver. Qed.

Lemma stop_stream_empty o : stop_stream o ∅ = ∅.
Proof. destruct o; simpl; set_solver. Qed.

Lemma size_held o : (size (held o) ≤ 1)%nat.
Proof. unfold held. destruct o; rewrite ?size_singleton, ?size_empty; lia. Qed.

(** Replacing the last element of a list. *)
Lemma insert_last {A} (l : list A) (x y : A) :
  <[pred (length (l ++ [x])) := y]> (l ++ [x]) = l ++ [y].
Proof.
  rewrite length_app. simpl. replace (pred (length l + 1)) with (length l + 0)%nat by lia.
  by rewrite insert_app_r.
Qed.
