(* ===== verification/MobileCamera.v ===== *)
(** [MobileCamera], lines 28-105 of [src/frontend/app/analyse/page.tsx]: the
    camera of the mobile layout, with its switch between the rear and the
    front camera.

    The component keeps the React state [stream] and [facingMode] and a
    reference to the video element.  Its effect (lines 33-65) depends on
    [facingMode]: each run calls [startCamera], which awaits
    [getUserMedia]; the cleanup of a run stops the tracks of the stream that
    the run has stored in its local variable [activeStream] by then.  The
    model keeps one record per run of the effect, because a run's
    continuation and its cleanup share that variable and can execute in
    either order.

    Events: the promise of a run resolves or rejects, the user switches the
    camera, the component unmounts.  A switch is one step: the state update,
    the cleanup of the current run and the start of the next run.

    The theorems: well-formedness of every reachable state; under
    sequential use (no switch or unmount while [getUserMedia] is pending) at
    most one stream is live and none after unmount, and the component
    implements the stream manager of the specification; a stream that
    arrives after its run was cleaned up is never stopped; once the
    component is unmounted no stream is ever stopped; what [capturePhoto]
    passes to [onCapture].  The race between a switch of the camera and the
    pending request is in [MobileRace.v]. *)

From Stdlib Require Import ZArith Lia.
From stdpp Require Import prelude gmap.
From S2P Require Import Prelude JsString Base64 Normalizer Upload Machine Canvas Media.

(** [facingMode]: ["environment"] is the rear camera, ["user"] the front. *)
Inductive facing : Type :=
| Environment
| User.

#[export] Instance facing_eq_dec : EqDecision facing.
Proof. solve_decision. Defined.

(** Line 81: the other camera. *)
Definition flip (f : facing) : facing :=
  match f with Environment => User | User => Environment end.

(** * The stream manager of the specification

    What the component promises: it is acquiring a stream for a facing
    mode, or it holds exactly one stream handle, or the acquisition failed,
    or it is torn down; a switch of the facing mode releases the handle
    before the next acquisition starts. *)
Module StreamSpec.

Inductive state : Type :=
| Acquiring (f : facing)
| Streaming (f : facing) (h : nat)
| Failed (f : facing)
| Closed.

#[export] Instance state_eq_dec : EqDecision state.
Proof. solve_decision. Defined.

Inductive op : Type :=
| Started (h : nat)
| StartFailed
| ToggleFacing
| Teardown.

(** The handles that are live in a state: at most one. *)
Definition handles (s : state) : gset nat :=
  match s with Streaming _ h => {[h]} | _ => ∅ end.

Definition step (s : state) (o : op) : option state :=
  match s, o with
  | Acquiring f, Started h => Some (Streaming f h)
  | Acquiring f, StartFailed => Some (Failed f)
  | Streaming f _, ToggleFacing | Failed f, ToggleFacing => Some (Acquiring (flip f))
  | Streaming _ _, Teardown | Failed _, Teardown => Some Closed
  | _, _ => None
  end.

End StreamSpec.

(** * The component *)
Module Mobile.

(** One run of the effect: the [facingMode] it closed over, its local
    variable [activeStream], whether its cleanup has run, and whether its
    [getUserMedia] promise has settled. *)
Record effect : Type := mkEffect {
  eff_facing : facing;
  activeStream : option nat;
  cleaned : bool;
  settled : bool;
}.

#[export] Instance effect_eq_dec : EqDecision effect.
Proof. solve_decision. Defined.

(** The component and the camera hardware: [stream] and [facingMode] are
    the React state, [srcObject] is the stream bound to the video element,
    [effects] the runs of the effect in order (the last is the current one),
    [live] the streams whose tracks are running, [errors] the number of
    errors logged. *)
Record state : Type := mkState {
  mounted : bool;
  facingMode : facing;
  stream : option nat;
  srcObject : option nat;
  effects : list effect;
  live : gset nat;
  next_stream : nat;
  errors : nat;
}.

Inductive event : Type :=
| Resolve (k : nat)
| Reject (k : nat)
| Toggle
| Unmount.

#[export] Instance event_eq_dec : EqDecision event.
Proof. solve_decision. Defined.

(** Lines 34-58: a run of the effect declares [activeStream = null] and
    calls [startCamera], which suspends at [getUserMedia]. *)
Definition start_effect (f : facing) : effect :=
  {| eff_facing := f; activeStream := None; cleaned := false; settled := false |}.

(** The component after its first render and the first run of the effect. *)
Definition init : state :=
  {| mounted := true; facingMode := Environment; stream := None; srcObject := None;
     effects := [start_effect Environment]; live := ∅; next_stream := 0; errors := 0 |}.

(** The three things that happen to a run: its cleanup function is
    called; its promise resolves and line 45 stores the stream; its promise
    rejects. *)
Definition mark_cleaned (e : effect) : effect :=
  {| eff_facing := eff_facing e; activeStream := activeStream e;
     cleaned := true; settled := settled e |}.

Definition mark_resolved (sid : nat) (e : effect) : effect :=
  {| eff_facing := eff_facing e; activeStream := Some sid;
     cleaned := cleaned e; settled := true |}.

Definition mark_rejected (e : effect) : effect :=
  {| eff_facing := eff_facing e; activeStream := activeStream e;
     cleaned := cleaned e; settled := true |}.

(** The current run of the effect. *)
Definition current (s : state) : option effect := last (effects s).

(** Lines 60-64: the cleanup of the current run stops the stream that the
    run has stored so far, if any. *)
Definition cleanup (s : state) : state :=
  match current s with
  | Some e =>
      {| mounted := mounted s; facingMode := facingMode s; stream := stream s;
         srcObject := srcObject s;
         effects := <[pred (length (effects s)) := mark_cleaned e]> (effects s);
         live := stop_stream (activeStream e) (live s);
         next_stream := next_stream s; errors := errors s |}
  | None => s
  end.

(** Lines 45-52: the continuation of run [k] after [getUserMedia] resolved
    with the new stream [sid]: the stream is stored in the run's variable,
    bound to the video element if the reference is set, and put in the
    state. *)
Definition on_resolved (s : state) (k : nat) (e : effect) : state :=
  let sid := next_stream s in
  {| mounted := mounted s; facingMode := facingMode s;
     stream := if mounted s then Some sid else stream s;
     srcObject := if mounted s then Some sid else srcObject s;
     effects := <[k := mark_resolved sid e]> (effects s);
     live := {[sid]} ∪ live s;
     next_stream := S sid; errors := errors s |}.

(** Lines 53-55: the promise rejected; the error is logged. *)
Definition on_rejected (s : state) (k : nat) (e : effect) : state :=
  {| mounted := mounted s; facingMode := facingMode s; stream := stream s;
     srcObject := srcObject s;
     effects := <[k := mark_rejected e]> (effects s);
     live := live s; next_stream := next_stream s; errors := S (errors s) |}.

(** Lines 80-82 and the effect's dependency on [facingMode]: the state is
    updated, the current run is cleaned up, the next run starts. *)
Definition toggleCamera (s : state) : state :=
  let s1 := cleanup s in
  {| mounted := mounted s1; facingMode := flip (facingMode s1); stream := stream s1;
     srcObject := srcObject s1;
     effects := effects s1 ++ [start_effect (flip (facingMode s1))];
     live := live s1; next_stream := next_stream s1; errors := errors s1 |}.

(** Unmount: the current run is cleaned up and the reference is cleared. *)
Definition unmount (s : state) : state :=
  let s1 := cleanup s in
  {| mounted := false; facingMode := facingMode s1; stream := stream s1;
     srcObject := None; effects := effects s1;
     live := live s1; next_stream := next_stream s1; errors := errors s1 |}.

(** The promise of run [k] is pending. *)
Definition pending (s : state) (k : nat) : option effect :=
  e ← effects s !! k; if settled e then None else Some e.

Definition step (s : state) (ev : event) : option state :=
  match ev with
  | Resolve k => on_resolved s k <$> pending s k
  | Reject k => on_rejected s k <$> pending s k
  | Toggle => if mounted s then Some (toggleCamera s) else None
  | Unmount => if mounted s then Some (unmount s) else None
  end.

#[export] Instance machine : Machine state event := {| m_init := init; m_step := step |}.

(** ** Sequential use *)

(** The user waits for the camera: no switch and no unmount while the
    current run's promise is pending. *)
Definition idle (s : state) : bool :=
  match current s with Some e => settled e | None => true end.

Definition seq_step (s : state) (ev : event) : option state :=
  match ev with
  | Toggle | Unmount => if idle s then step s ev else None
  | _ => step s ev
  end.

Definition sequential : Machine state event := {| m_init := init; m_step := seq_step |}.

(** ** [capturePhoto] *)

(** Lines 67-78: the argument that [capturePhoto] passes to [onCapture], or
    [None] when it returns without calling it: the reference is not set, or
    the canvas gives no 2d context ([ctx] false). *)
Definition capturePhoto `{Canvas Frame} (s : state) (v : video Frame) (ctx : bool)
    : option capture :=
  if negb (mounted s) then None
  else
    let canvas := createCanvas in
    let canvas := set_width (or_number (videoWidth v) 640) canvas in
    let canvas := set_height (or_number (videoHeight v) 480) canvas in
    if ctx then
      let canvas := drawImage (video_frame v) canvas in
      let imageData := canvas_data_url canvas in
      Some (CapString imageData)
    else None.

(** ** The component as a stream manager *)

(** The state of the specification that a state of the component stands
    for, read off the current run. *)
Definition abs (s : state) : StreamSpec.state :=
  match current s with
  | Some e =>
      if cleaned e then StreamSpec.Closed
      else if settled e then
        match activeStream e with
        | Some h => StreamSpec.Streaming (eff_facing e) h
        | None => StreamSpec.Failed (eff_facing e)
        end
      else StreamSpec.Acquiring (eff_facing e)
  | None => StreamSpec.Closed
  end.

(** The operation of the specification that an event stands for. *)
Definition abs_event (s : state) (ev : event) : StreamSpec.op :=
  match ev with
  | Resolve _ => StreamSpec.Started (next_stream s)
  | Reject _ => StreamSpec.StartFailed
  | Toggle => StreamSpec.ToggleFacing
  | Unmount => StreamSpec.Teardown
  end.

(** The state after a switch during the acquisition, followed by the
    arrival of both streams. *)
Definition race_state : state :=
  default init (run [Toggle; Resolve 0; Resolve 1] init).

(** The state after a sequential session: the camera starts, the user
    switches once, the second camera starts, the component unmounts. *)
Definition seq_state : state :=
  default init (@run _ _ sequential [Resolve 0; Toggle; Resolve 1; Unmount] init).

(** ** Well-formed states *)

(** What holds of every reachable state, whatever the interleaving: there
    is a current run, it is the only one that may not be cleaned up, and it
    is cleaned up exactly when the component is unmounted; it closed over
    the current [facingMode]; a run that holds a stream has settled; stream
    identifiers are fresh; the stream of a run that is not cleaned up is
    live; no two runs hold the same stream; every live stream is held by a
    run. *)
Record wf (s : state) : Prop := mkWf {
  wf_current : ∃ e, current s = Some e ∧ cleaned e = negb (mounted s) ∧
                    eff_facing e = facingMode s;
  wf_old : ∀ k e, effects s !! k = Some e → S k < length (effects s) → cleaned e = true;
  wf_stream : ∀ k e sid, effects s !! k = Some e → activeStream e = Some sid →
                         sid < next_stream s ∧ settled e = true;
  wf_fresh : ∀ sid, sid ∈ live s → sid < next_stream s;
  wf_live : ∀ k e sid, effects s !! k = Some e → activeStream e = Some sid →
                       cleaned e = false → sid ∈ live s;
  wf_distinct : ∀ k1 k2 e1 e2 sid,
      effects s !! k1 = Some e1 → effects s !! k2 = Some e2 →
      activeStream e1 = Some sid → activeStream e2 = Some sid → k1 = k2;
  wf_owned : ∀ sid, sid ∈ live s →
                    ∃ k e, effects s !! k = Some e ∧ activeStream e = Some sid;
}.

(** What holds in addition under sequential use: a run that is cleaned up
    has settled, and a live stream is the stream of the current run. *)
Record seq_inv (s : state) : Prop := mkSeqInv {
  seq_settled : ∀ k e, effects s !! k = Some e → cleaned e = true → settled e = true;
  seq_live : ∀ sid, sid ∈ live s →
                    ∃ e, current s = Some e ∧ cleaned e = false ∧ activeStream e = Some sid;
}.

(** Run [k] is cleaned up and holds the live stream [sid]. *)
Definition leaked (k sid : nat) (s : state) : Prop :=
  wf s ∧ ∃ e, effects s !! k = Some e ∧ cleaned e = true ∧
              activeStream e = Some sid ∧ sid ∈ live s.

(** The number of streams that an event adds: the promise of a run
    resolves with a new stream (line 45). *)
Definition arrives (ev : event) : nat :=
  match ev with Resolve _ => 1 | _ => 0 end.

(** * Properties *)

Section wf.
Implicit Types (s : state) (e cur : effect) (olds : list effect) (k sid : nat).

Lemma pending_Some s k e :
  pending s k = Some e ↔ effects s !! k = Some e ∧ settled e = false.
Proof.
  unfold pending. destruct (effects s !! k) as [e'|]; simpl; [|split; [done|by intros [? _]]].
  destruct (settled e') eqn:He'; split; try done.
  - intros [[= ->] ?]. congruence.
  - by intros [= ->].
  - by intros [[= ->] _].
Qed.

Lemma current_snoc s olds cur : effects s = olds ++ [cur] → current s = Some cur.
Proof. unfold current. intros ->. apply last_snoc. Qed.

Lemma current_Some s e : current s = Some e ↔ ∃ olds, effects s = olds ++ [e].
Proof. apply last_Some. Qed.

Lemma current_lookup s : current s = effects s !! pred (length (effects s)).
Proof. apply last_lookup. Qed.

Lemma effects_cleanup s olds cur :
  effects s = olds ++ [cur] → effects (cleanup s) = olds ++ [mark_cleaned cur].
Proof.
  intros Hs. unfold cleanup. rewrite (current_snoc s olds cur Hs). simpl.
  rewrite Hs. apply insert_last.
Qed.

Lemma live_cleanup s olds cur :
  effects s = olds ++ [cur] → live (cleanup s) = stop_stream (activeStream cur) (live s).
Proof. intros Hs. unfold cleanup. by rewrite (current_snoc s olds cur Hs). Qed.

Lemma cleanup_fields s :
  mounted (cleanup s) = mounted s ∧ facingMode (cleanup s) = facingMode s ∧
  stream (cleanup s) = stream s ∧ srcObject (cleanup s) = srcObject s ∧
  next_stream (cleanup s) = next_stream s ∧ errors (cleanup s) = errors s.
Proof. unfold cleanup. by destruct (current s). Qed.

Lemma wf_init : wf init.
Proof.
  split; simpl.
  - by eexists.
  - intros [|k] e; simpl; [lia|done].
  - intros [|[|k]] e sid; simpl; naive_solver.
  - set_solver.
  - intros [|[|k]] e sid; simpl; naive_solver.
  - intros [|[|k1]] [|[|k2]]; simpl; naive_solver.
  - set_solver.
Qed.

Lemma wf_on_resolved s k e :
  wf s → pending s k = Some e → wf (on_resolved s k e).
Proof.
  intros [(cur & [olds Hs]%current_Some & Hc & Hf) Hold Hstr Hfresh Hlive Hdist Hown]
    [Hk He]%pending_Some.
  pose proof (lookup_lt_Some _ _ _ Hk) as Hlt.
  split; simpl.
  - rewrite current_lookup. simpl. rewrite length_insert.
    rewrite list_lookup_insert. rewrite Hs, length_app in *. simpl in *.
    replace (pred (length olds + 1)) with (length olds) by lia.
    rewrite lookup_app_r, Nat.sub_diag by lia. simpl.
    case_decide as Hd; [|by eauto].
    destruct Hd as [-> _]. rewrite lookup_app_r, Nat.sub_diag in Hk by lia.
    simplify_eq/=. by eexists.
  - intros k' e'. rewrite length_insert, list_lookup_insert_Some.
    intros [(-> & <- & _)|[_ Hk']] ?; simpl; eauto.
  - intros k' e' sid. rewrite list_lookup_insert_Some.
    intros [(-> & <- & _)|[_ Hk']]; simpl.
    + intros [= <-]. split; [lia|done].
    + intros Hsid. destruct (Hstr _ _ _ Hk' Hsid). split; [lia|done].
  - intros sid [->%elem_of_singleton|?%Hfresh]%elem_of_union; lia.
  - intros k' e' sid. rewrite list_lookup_insert_Some.
    intros [(-> & <- & _)|[_ Hk']]; simpl; [set_solver|]. intros. set_solver.
  - intros k1 k2 e1 e2 sid. rewrite !list_lookup_insert_Some.
    intros [(-> & <- & _)|[? Hk1]] [(-> & <- & _)|[? Hk2]]; simpl; intros; simplify_eq; eauto.
    + destruct (Hstr _ _ _ Hk2 ltac:(done)). lia.
    + destruct (Hstr _ _ _ Hk1 ltac:(done)). lia.
  - intros sid [->%elem_of_singleton|(k' & e' & Hk' & Hsid)%Hown]%elem_of_union.
    + exists k, (mark_resolved (next_stream s) e). by rewrite list_lookup_insert_eq.
    + destruct (decide (k = k')) as [->|].
      * destruct (Hstr _ _ _ Hk' Hsid). congruence.
      * exists k', e'. by rewrite list_lookup_insert_ne.
Qed.

Lemma wf_on_rejected s k e :
  wf s → pending s k = Some e → wf (on_rejected s k e).
Proof.
  intros [(cur & Hcur & Hc & Hf) Hold Hstr Hfresh Hlive Hdist Hown] [Hk He]%pending_Some.
  assert (∀ k' e', <[k:=mark_rejected e]> (effects s) !! k' = Some e' →
            ∃ e0, effects s !! k' = Some e0 ∧ eff_facing e' = eff_facing e0 ∧
                  activeStream e' = activeStream e0 ∧ cleaned e' = cleaned e0 ∧
                  (settled e0 = true → settled e' = true)) as Hup.
  { intros k' e'. rewrite list_lookup_insert_Some.
    intros [(-> & <- & _)|[_ Hk']]; eauto 10. }
  split; simpl.
  - rewrite current_lookup in *. simpl. rewrite length_insert.
    destruct (lookup_lt_is_Some_2 (<[k:=mark_rejected e]> (effects s)) (pred (length (effects s))))
      as [e' He']; [rewrite length_insert; apply lookup_lt_Some in Hk; lia|].
    destruct (Hup _ _ He') as (e0 & ? & ? & ? & ? & ?). exists e'. simplify_eq. naive_solver congruence.
  - intros k' e' (e0 & ? & ? & ? & -> & ?)%Hup. rewrite length_insert. eauto.
  - intros k' e' sid (e0 & ? & ? & -> & ? & ?)%Hup ?. naive_solver.
  - done.
  - intros k' e' sid (e0 & ? & ? & -> & -> & ?)%Hup. eauto.
  - intros k1 k2 e1 e2 sid (? & ? & ? & -> & ? & ?)%Hup (? & ? & ? & -> & ? & ?)%Hup. eauto.
  - intros sid (k' & e' & Hk' & Hsid)%Hown. destruct (decide (k = k')) as [->|].
    + simplify_eq. exists k', (mark_rejected e). by rewrite list_lookup_insert_eq by by eapply lookup_lt_Some.
    + exists k', e'. by rewrite list_lookup_insert_ne.
Qed.

(** After the cleanup: every run is cleaned up, and the rest of the
    well-formedness is kept. *)
Lemma wf_cleanup s :
  wf s →
  let s1 := cleanup s in
  (∃ olds cur, effects s1 = olds ++ [mark_cleaned cur] ∧ eff_facing cur = facingMode s) ∧
  (∀ k e, effects s1 !! k = Some e → cleaned e = true) ∧
  (∀ k e sid, effects s1 !! k = Some e → activeStream e = Some sid →
              sid < next_stream s1 ∧ settled e = true) ∧
  (∀ sid, sid ∈ live s1 → sid < next_stream s1) ∧
  (∀ k1 k2 e1 e2 sid, effects s1 !! k1 = Some e1 → effects s1 !! k2 = Some e2 →
      activeStream e1 = Some sid → activeStream e2 = Some sid → k1 = k2) ∧
  (∀ sid, sid ∈ live s1 → ∃ k e, effects s1 !! k = Some e ∧ activeStream e = Some sid).
Proof.
  intros [(cur & [olds Hs]%current_Some & Hc & Hf) Hold Hstr Hfresh Hlive Hdist Hown] s1.
  destruct (cleanup_fields s) as (_ & _ & _ & _ & Hn & _). subst s1. rewrite Hn.
  rewrite (effects_cleanup s olds cur Hs), (live_cleanup s olds cur Hs).
  split; [by eauto|]. split; [|split; [|split; [|split]]].
  - intros k e. rewrite lookup_snoc_Some. intros [[Hlt Hk]|[-> <-]]; [|done].
    apply (Hold k e); rewrite Hs; [by apply lookup_app_l_Some|]. rewrite length_app. simpl. lia.
  - intros k e sid. rewrite lookup_snoc_Some. intros [[Hlt Hk]|[-> <-]]; simpl.
    + apply (Hstr k). rewrite Hs. by apply lookup_app_l_Some.
    + apply (Hstr (length olds)). rewrite Hs. by rewrite lookup_app_r, Nat.sub_diag by lia.
  - intros sid [? _]%elem_of_stop_stream. eauto.
  - intros k1 k2 e1 e2 sid. rewrite !lookup_snoc_Some.
    intros [[? Hk1]|[-> <-]] [[? Hk2]|[-> <-]] H1 H2; simpl in *; [|exfalso..|done].
    + apply (Hdist k1 k2 e1 e2 sid); rewrite ?Hs; auto using lookup_app_l_Some.
    + assert (k1 = length olds); [|lia]. apply (Hdist k1 _ e1 cur sid); rewrite ?Hs; auto using lookup_app_l_Some.
      by rewrite lookup_app_r, Nat.sub_diag by lia.
    + assert (k2 = length olds); [|lia]. apply (Hdist k2 _ e2 cur sid); rewrite ?Hs; auto using lookup_app_l_Some.
      by rewrite lookup_app_r, Nat.sub_diag by lia.
  - intros sid [(k & e & Hk & Hsid)%Hown Hne]%elem_of_stop_stream.
    rewrite Hs in Hk. apply lookup_snoc_Some in Hk as [[Hlt Hk]|[-> <-]]; [|done].
    exists k, e. split; [|done]. by apply lookup_app_l_Some.
Qed.

Lemma wf_toggleCamera s : wf s → mounted s = true → wf (toggleCamera s).
Proof.
  intros Hwf Hm. destruct (wf_cleanup s Hwf) as ((olds & cur & Hs & Hf) & Hcl & Hstr & Hfresh & Hdist & Hown).
  destruct (cleanup_fields s) as (Hm1 & Hf1 & _).
  unfold toggleCamera. split; simpl.
  - exists (start_effect (flip (facingMode (cleanup s)))). unfold current. simpl.
    rewrite last_snoc, Hm1, Hm. done.
  - intros k e. rewrite length_app, lookup_snoc_Some. simpl.
    intros [[_ Hk]|[-> _]] ?; [eauto|lia].
  - intros k e sid. rewrite lookup_snoc_Some. intros [[_ Hk]|[_ <-]]; [eauto|done].
  - done.
  - intros k e sid. rewrite lookup_snoc_Some. intros [[_ Hk]|[_ <-]]; [|done].
    intros _ Hc. by rewrite (Hcl _ _ Hk) in Hc.
  - intros k1 k2 e1 e2 sid. rewrite !lookup_snoc_Some.
    intros [[_ Hk1]|[_ <-]] [[_ Hk2]|[_ <-]]; [eauto|done..].
  - intros sid (k & e & Hk & Hsid)%Hown. exists k, e. split; [|done].
    by apply lookup_app_l_Some.
Qed.

Lemma wf_unmount s : wf s → wf (unmount s).
Proof.
  intros Hwf. destruct (wf_cleanup s Hwf) as ((olds & cur & Hs & Hf) & Hcl & Hstr & Hfresh & Hdist & Hown).
  destruct (cleanup_fields s) as (_ & Hf1 & _).
  unfold unmount. split; simpl; eauto.
  - exists (mark_cleaned cur). unfold current. simpl. rewrite Hs, last_snoc, Hf1. done.
  - intros k e sid Hk _ Hc. by rewrite (Hcl _ _ Hk) in Hc.
Qed.

(** Every step preserves well-formedness. *)
Lemma wf_stable : stable wf.
Proof.
  intros s [k|k| |] s' Hwf; simpl.
  - intros (e & He & ->)%fmap_Some. by apply wf_on_resolved.
  - intros (e & He & ->)%fmap_Some. by apply wf_on_rejected.
  - destruct (mounted s) eqn:Hm; [|done]. intros [= <-]. by apply wf_toggleCamera.
  - destruct (mounted s) eqn:Hm; [|done]. intros [= <-]. by apply wf_unmount.
Qed.

(** ** Sequential use *)

Lemma idle_true s e : idle s = true → current s = Some e → settled e = true.
Proof. unfold idle. intros Hi Hc. by rewrite Hc in Hi. Qed.

Lemma seq_step_step s ev s' : seq_step s ev = Some s' → step s ev = Some s'.
Proof. destruct ev; simpl; try done; by destruct (idle s). Qed.

Lemma seq_inv_init : seq_inv init.
Proof. split; simpl; [|set_solver]. intros [|[|k]] e; simpl; naive_solver. Qed.

(** Settling a pending run under sequential use: the run is the current
    one, since every other run is cleaned up and so has settled. *)
Lemma seq_pending_current s k e :
  wf s → seq_inv s → pending s k = Some e →
  current s = Some e ∧ cleaned e = false ∧ k = pred (length (effects s)).
Proof.
  intros Hwf [Hset _] [Hk He]%pending_Some.
  destruct (cleaned e) eqn:Hc; [rewrite (Hset _ _ Hk Hc) in He; done|].
  pose proof (lookup_lt_Some _ _ _ Hk).
  destruct (decide (S k < length (effects s))) as [Hlt|].
  { rewrite (wf_old s Hwf _ _ Hk Hlt) in Hc. done. }
  assert (k = pred (length (effects s))) as -> by lia.
  by rewrite current_lookup.
Qed.

Lemma seq_inv_settle s k e e' s' :
  wf s → seq_inv s → pending s k = Some e →
  effects s' = <[k := e']> (effects s) → settled e' = true → cleaned e' = cleaned e →
  (∀ sid, sid ∈ live s' → sid ∈ live s ∨ activeStream e' = Some sid) →
  (∀ sid, activeStream e = Some sid → activeStream e' = Some sid) →
  seq_inv s'.
Proof.
  intros Hwf Hseq Hp Heff Hset Hcl Hlive Hact.
  destruct (seq_pending_current s k e Hwf Hseq Hp) as (Hcur & Hc & ->).
  destruct Hseq as [Hs Hl]. apply pending_Some in Hp as [Hk He].
  assert (current s' = Some e') as Hcur'.
  { rewrite current_lookup, Heff, length_insert. apply list_lookup_insert_eq.
    by eapply lookup_lt_Some. }
  split.
  - intros k' e0. rewrite Heff, list_lookup_insert_Some.
    intros [(_ & <- & _)|[_ Hk']]; eauto.
  - intros sid [(e0 & He0 & Hc0 & Hsid)%Hl|Hsid]%Hlive; exists e'.
    + simplify_eq. split; [done|]. split; [congruence|eauto].
    + split; [done|]. split; [congruence|done].
Qed.

(** The cleanup under sequential use: every run has settled afterwards
    and no stream is live. *)
Lemma seq_inv_cleanup s :
  wf s → seq_inv s → idle s = true →
  (∀ k e, effects (cleanup s) !! k = Some e → settled e = true) ∧
  live (cleanup s) = ∅.
Proof.
  intros Hwf [Hset Hl] Hi. destruct (wf_current s Hwf) as (cur & Hcur & _).
  pose proof (idle_true s cur Hi Hcur) as Hcs.
  apply current_Some in Hcur as [olds Hs].
  rewrite (effects_cleanup s olds cur Hs), (live_cleanup s olds cur Hs). split.
  - intros k e. rewrite lookup_snoc_Some. intros [[Hlt Hk]|[_ <-]]; [|done].
    assert (effects s !! k = Some e) as Hk' by (rewrite Hs; by apply lookup_app_l_Some).
    apply (Hset k e Hk'), (wf_old s Hwf k e Hk'). rewrite Hs, length_app. simpl. lia.
  - apply set_eq. intros sid. rewrite elem_of_stop_stream. split; [|set_solver].
    intros [(e0 & He0 & _ & Hsid)%Hl Hne].
    rewrite (current_snoc s olds cur Hs) in He0. congruence.
Qed.

Lemma seq_inv_stable s ev s' :
  wf s → seq_inv s → seq_step s ev = Some s' → seq_inv s'.
Proof.
  intros Hwf Hseq. destruct ev as [k|k| |]; simpl.
  - intros (e & He & ->)%fmap_Some.
    eapply (seq_inv_settle s k e (mark_resolved (next_stream s) e)); eauto; simpl.
    + set_solver.
    + intros sid Hsid. apply pending_Some in He as [Hk He].
      destruct (wf_stream s Hwf _ _ _ Hk Hsid). congruence.
  - intros (e & He & ->)%fmap_Some.
    eapply (seq_inv_settle s k e (mark_rejected e)); eauto.
  - destruct (idle s) eqn:Hi; [|done]. destruct (mounted s); [|done]. intros [= <-].
    destruct (seq_inv_cleanup s Hwf Hseq Hi) as [Hset Hl].
    split; unfold toggleCamera; simpl; [|rewrite Hl; set_solver].
    intros k e. rewrite lookup_snoc_Some. intros [[_ Hk]|[_ <-]]; [eauto|done].
  - destruct (idle s) eqn:Hi; [|done]. destruct (mounted s); [|done]. intros [= <-].
    destruct (seq_inv_cleanup s Hwf Hseq Hi) as [Hset Hl].
    split; unfold unmount; simpl; [eauto|rewrite Hl; set_solver].
Qed.

(** Well-formedness and the sequential invariant hold of every state that
    sequential use reaches. *)
Lemma seq_reachable s :
  @reachable _ _ sequential s → wf s ∧ seq_inv s.
Proof.
  apply (@invariant _ _ sequential (λ s, wf s ∧ seq_inv s)).
  - split; [apply wf_init|apply seq_inv_init].
  - intros s0 ev s1 [Hwf Hseq] Hstep. split.
    + eapply wf_stable; [done|]. by apply seq_step_step.
    + by eapply seq_inv_stable.
Qed.


(** ** Streams that outlive their run *)

Lemma leaked_not_pending k sid s k' e' :
  leaked k sid s → pending s k' = Some e' → k ≠ k'.
Proof.
  intros (Hwf & e & Hk & _ & Hsid & _) [Hk' He']%pending_Some <-.
  destruct (wf_stream s Hwf _ _ _ Hk Hsid). congruence.
Qed.

(** The cleanup of the current run leaves a leaked stream alone: the
    current run is another run, and holds another stream. *)
Lemma leaked_cleanup k sid s :
  leaked k sid s → mounted s = true →
  ∃ e, effects (cleanup s) !! k = Some e ∧ cleaned e = true ∧
       activeStream e = Some sid ∧ sid ∈ live (cleanup s).
Proof.
  intros (Hwf & e & Hk & Hc & Hsid & Hl) Hm.
  destruct (wf_current s Hwf) as (cur & Hcur & Hcc & _). rewrite Hm in Hcc. simpl in Hcc.
  pose proof Hcur as [olds Hs]%current_Some.
  assert (effects s !! length olds = Some cur) as Hlast
    by by rewrite Hs, lookup_app_r, Nat.sub_diag by lia.
  assert (k ≠ length olds) as Hne by (intros ->; congruence).
  exists e. rewrite (effects_cleanup s olds cur Hs), (live_cleanup s olds cur Hs).
  rewrite Hs in Hk. apply lookup_snoc_Some in Hk as [[Hlt Hk]|[? _]]; [|done].
  split; [by apply lookup_app_l_Some|]. split; [done|]. split; [done|].
  apply elem_of_stop_stream. split; [done|]. intros Hcs.
  apply Hne, (wf_distinct s Hwf k (length olds) e cur sid); auto.
  rewrite Hs. by apply lookup_app_l_Some.
Qed.

Lemma leaked_stable k sid : stable (leaked k sid).
Proof.
  intros s ev s' Hleak Hstep. split; [by eapply wf_stable; [apply Hleak|]|].
  destruct ev as [k'|k'| |]; simpl in Hstep.
  - apply fmap_Some in Hstep as (e' & He' & ->).
    pose proof (leaked_not_pending _ _ _ _ _ Hleak He').
    destruct Hleak as (_ & e & ? & ? & ? & ?). exists e. simpl.
    rewrite list_lookup_insert_ne by done. set_solver.
  - apply fmap_Some in Hstep as (e' & He' & ->).
    pose proof (leaked_not_pending _ _ _ _ _ Hleak He').
    destruct Hleak as (_ & e & ? & ? & ? & ?). exists e. simpl.
    by rewrite list_lookup_insert_ne.
  - destruct (mounted s) eqn:Hm; [|done]. simplify_eq.
    destruct (leaked_cleanup k sid s Hleak Hm) as (e & Hk & ? & ? & ?).
    exists e. unfold toggleCamera. simpl. split; [by apply lookup_app_l_Some|done].
  - destruct (mounted s) eqn:Hm; [|done]. simplify_eq.
    by destruct (leaked_cleanup k sid s Hleak Hm) as (e & Hk & ? & ? & ?); exists e.
Qed.

(** ** The component as a stream manager *)

Lemma current_insert s k e' :
  k = pred (length (effects s)) → k < length (effects s) →
  last (<[k := e']> (effects s)) = Some e'.
Proof. intros -> Hk. rewrite last_lookup, length_insert. by apply list_lookup_insert_eq. Qed.

(** Under sequential use the live streams are the handles of the abstract
    state. *)
Lemma abs_live s : wf s → seq_inv s → live s = StreamSpec.handles (abs s).
Proof.
  intros Hwf [_ Hl]. apply set_eq. intros sid. unfold abs.
  destruct (wf_current s Hwf) as (cur & Hcur & _). rewrite Hcur.
  pose proof Hcur as Hk. rewrite current_lookup in Hk. split.
  - intros (e & He & Hc & Hsid)%Hl. simplify_eq. rewrite Hc, Hsid.
    destruct (wf_stream s Hwf _ _ _ Hk Hsid) as [_ ->]. set_solver.
  - destruct (cleaned cur) eqn:Hc; [set_solver|].
    destruct (settled cur); [|set_solver].
    destruct (activeStream cur) as [h|] eqn:Hh; [|set_solver].
    simpl. intros ->%elem_of_singleton. by eapply wf_live.
Qed.

Lemma abs_settle s k e e' :
  wf s → seq_inv s → pending s k = Some e →
  settled e' = true → cleaned e' = cleaned e → eff_facing e' = eff_facing e →
  abs s = StreamSpec.Acquiring (eff_facing e) ∧
  ∀ s', effects s' = <[k := e']> (effects s) →
    abs s' = match activeStream e' with
             | Some h => StreamSpec.Streaming (eff_facing e) h
             | None => StreamSpec.Failed (eff_facing e)
             end.
Proof.
  intros Hwf Hseq Hp Hset Hcl Hf.
  destruct (seq_pending_current s k e Hwf Hseq Hp) as (Hcur & Hc & Hk).
  pose proof Hp as [Hlk He]%pending_Some. split.
  - unfold abs. by rewrite Hcur, Hc, He.
  - intros s' Heff. unfold abs, current.
    rewrite Heff, (current_insert s k e') by (done || by eapply lookup_lt_Some).
    by rewrite Hcl, Hc, Hset, Hf.
Qed.

(** A step of sequential use is a step of the specification. *)
Lemma abs_step s ev s' :
  wf s → seq_inv s → seq_step s ev = Some s' →
  StreamSpec.step (abs s) (abs_event s ev) = Some (abs s').
Proof.
  intros Hwf Hseq. destruct ev as [k|k| |]; simpl.
  - intros (e & He & ->)%fmap_Some.
    destruct (abs_settle s k e (mark_resolved (next_stream s) e)) as [-> Hs']; auto.
    by rewrite (Hs' (on_resolved s k e)).
  - intros (e & He & ->)%fmap_Some.
    destruct (abs_settle s k e (mark_rejected e)) as [-> Hs']; auto.
    rewrite (Hs' (on_rejected s k e)) by done. simpl.
    apply pending_Some in He as [Hk He].
    destruct (activeStream e) as [h|] eqn:Hh; [|done].
    destruct (wf_stream s Hwf _ _ _ Hk Hh). congruence.
  - destruct (idle s) eqn:Hi; [|done]. destruct (mounted s) eqn:Hm; [|done]. intros [= <-].
    destruct (wf_current s Hwf) as (cur & Hcur & Hc & Hf). rewrite Hm in Hc. simpl in Hc.
    unfold abs at 1. rewrite Hcur, Hc, (idle_true s cur Hi Hcur).
    unfold abs, current, toggleCamera. simpl. rewrite last_snoc. simpl.
    destruct (cleanup_fields s) as (_ & -> & _). rewrite <-Hf.
    by destruct (activeStream cur).
  - destruct (idle s) eqn:Hi; [|done]. destruct (mounted s) eqn:Hm; [|done]. intros [= <-].
    destruct (wf_current s Hwf) as (cur & Hcur & Hc & Hf). rewrite Hm in Hc. simpl in Hc.
    unfold abs at 1. rewrite Hcur, Hc, (idle_true s cur Hi Hcur).
    pose proof Hcur as [olds Hs]%current_Some.
    unfold abs, current, unmount. simpl.
    rewrite (effects_cleanup s olds cur Hs), last_snoc. simpl.
    by destruct (activeStream cur).
Qed.

(** The specification holds at most one handle. *)
Lemma handles_size a : size (StreamSpec.handles a) ≤ 1.
Proof.
  destruct a; unfold StreamSpec.handles; rewrite ?size_empty, ?size_singleton; lia.
Qed.

(** A leaked stream stays live along every run. *)
Lemma leaked_run k sid evs s s' :
  leaked k sid s → run evs s = Some s' → sid ∈ live s'.
Proof.
  intros Hl Hr. by destruct (stable_run _ evs s s' (leaked_stable k sid) Hl Hr) as (_ & ? & _ & _ & _ & ?).
Qed.

(** A stream that arrives after the cleanup of its run is leaked. *)
Lemma leaked_on_resolved s k e :
  wf s → pending s k = Some e → cleaned e = true →
  leaked k (next_stream s) (on_resolved s k e).
Proof.
  intros Hwf Hp Hc. split; [by apply wf_on_resolved|].
  apply pending_Some in Hp as [Hk _]. exists (mark_resolved (next_stream s) e). simpl.
  rewrite list_lookup_insert_eq by by eapply lookup_lt_Some. set_solver.
Qed.

(** Once the component is unmounted no stream is ever stopped: there is no
    cleanup left to run, and every stream that arrives is added to the live
    ones. *)
Lemma unmounted_step s ev s' :
  wf s → mounted s = false → step s ev = Some s' →
  mounted s' = false ∧ live s ⊆ live s' ∧ size (live s') = size (live s) + arrives ev.
Proof.
  intros Hwf Hm. destruct ev as [k|k| |]; simpl; rewrite ?Hm; [| |done..].
  - intros (e & _ & ->)%fmap_Some. simpl. split; [done|]. split; [set_solver|].
    rewrite size_union, size_singleton; [lia|].
    apply disjoint_singleton_l. intros Hl%(wf_fresh s Hwf). lia.
  - intros (e & _ & ->)%fmap_Some. simpl. split; [done|]. split; [done|lia].
Qed.

End wf.

(** ** The theorems of the component *)

(** C34.  Every state that the component can reach, under any interleaving
    of its events, is well formed: the current run of the effect is the only
    one not cleaned up, it closed over the current facing mode, stream
    identifiers are fresh and held by one run each, and every live stream is
    held by some run. *)
Theorem mobile_reachable_wf s : reachable s → wf s.
Proof. apply invariant; [apply wf_init|apply wf_stable]. Qed.

Lemma mobile_reachable_wf_witness : wf race_state.
Proof.
  apply mobile_reachable_wf. exists [Toggle; Resolve 0; Resolve 1]. by vm_compute.
Defined.

(** C2.  Under sequential use (the user switches the camera or leaves the
    page only when [getUserMedia] has settled) at most one stream is live
    at any time, and none once the component is unmounted. *)
Theorem mobile_sequential_one_stream s :
  @reachable _ _ sequential s →
  size (live s) ≤ 1 ∧ (mounted s = false → live s = ∅).
Proof.
  intros [Hwf Hseq]%seq_reachable. rewrite (abs_live s Hwf Hseq). split.
  - apply handles_size.
  - intros Hm. unfold abs. destruct (wf_current s Hwf) as (cur & -> & Hc & _).
    rewrite Hm in Hc. simpl in Hc. by rewrite Hc.
Qed.

Lemma mobile_sequential_one_stream_witness :
  size (live seq_state) ≤ 1 ∧ (mounted seq_state = false → live seq_state = ∅).
Proof.
  apply mobile_sequential_one_stream.
  exists [Resolve 0; Toggle; Resolve 1; Unmount]. by vm_compute.
Defined.

(** C3.  A stream that arrives after the cleanup of its run is never
    stopped: it is live in every state that follows, whatever the events,
    including the unmount of the component. *)
Theorem mobile_late_stream_never_stopped s k e evs s' :
  wf s → pending s k = Some e → cleaned e = true →
  run (Resolve k :: evs) s = Some s' → next_stream s ∈ live s'.
Proof.
  intros Hwf Hp Hc (s1 & Hs1 & Hr)%run_cons_Some. simpl in Hs1.
  rewrite Hp in Hs1. simplify_eq/=.
  eapply leaked_run; [by apply leaked_on_resolved|done].
Qed.

Lemma mobile_late_stream_never_stopped_witness :
  next_stream (unmount init) ∈
    live (on_resolved (unmount init) 0 (mark_cleaned (start_effect Environment))).
Proof.
  apply (mobile_late_stream_never_stopped (unmount init) 0
           (mark_cleaned (start_effect Environment)) []); [|done..].
  apply wf_unmount, wf_init.
Defined.

(** C23.  Under sequential use the component implements the stream manager
    of the specification: every step of the component is the corresponding
    step of the specification on the abstract states, and the live streams
    are exactly the handles the specification holds (at most one). *)
Theorem mobile_refines_stream_spec s ev s' :
  @reachable _ _ sequential s → seq_step s ev = Some s' →
  StreamSpec.step (abs s) (abs_event s ev) = Some (abs s') ∧
  live s' = StreamSpec.handles (abs s').
Proof.
  intros [Hwf Hseq]%seq_reachable Hstep. split; [by apply abs_step|].
  apply abs_live; [|by eapply seq_inv_stable].
  eapply wf_stable; [done|]. by apply seq_step_step.
Qed.

Lemma mobile_refines_stream_spec_witness :
  StreamSpec.step (abs init) (abs_event init (Resolve 0)) = Some (abs (on_resolved init 0 (start_effect Environment))) ∧
  live (on_resolved init 0 (start_effect Environment))
    = StreamSpec.handles (abs (on_resolved init 0 (start_effect Environment))).
Proof.
  apply (mobile_refines_stream_spec init (Resolve 0)); [by exists []|done].
Defined.

(** What [capturePhoto] passes on: the data URI of a canvas that is never
    empty. *)
Lemma mobile_capture_Some `{Canvas Frame} s (v : video Frame) ctx c :
  capturePhoto s v ctx = Some c ↔
  mounted s = true ∧ ctx = true ∧
  c = CapString (canvas_toDataURL (video_frame v) (or_number (videoWidth v) 640)
                   (or_number (videoHeight v) 480)).
Proof. unfold capturePhoto. destruct (mounted s), ctx; naive_solver. Qed.

(** [capturePhoto] calls [onCapture] unless the component is
    unmounted or the canvas gives no drawing context, and what it passes is
    always a data URI. *)
Theorem mobile_capture_calls `{Canvas Frame} s (v : video Frame) ctx :
  (capturePhoto s v ctx = None ↔ mounted s = false ∨ ctx = false) ∧
  (∀ c, capturePhoto s v ctx = Some c →
        ∃ uri, c = CapString uri ∧ startsWith (js "data:") uri = true).
Proof.
  unfold capturePhoto. destruct (mounted s), ctx; simpl; split; try naive_solver.
  intros c [= <-]. eexists. split; [done|]. apply canvas_toDataURL_startsWith.
Qed.

End Mobile.
