(* ===== verification/MobileProgress.v ===== *)
(** Progress of [MobileCamera]: what the user gets once the promises of
    [getUserMedia] settle.

    The browser owes the component the settlement of every call of
    [getUserMedia] that is pending (lines 39-42 of
    [src/frontend/app/analyse/page.tsx] await it).  No handler of the
    component cancels a call, so a pending run stays pending until its
    promise settles, and every settlement can be delivered.  The file proves
    that the component then comes to rest after as many settlements as there
    are pending runs, in whatever order and with whatever outcome; that under
    sequential use the camera of the chosen facing mode inevitably streams
    into the video element, or has failed with no stream left.  What
    happens without that discipline is in [MobileRace.v]. *)

From Stdlib Require Import ZArith Lia.
From stdpp Require Import prelude gmap.
From S2P Require Import Prelude Machine Progress Media MobileCamera.

Import Mobile.

(** The events that the browser owes: the promise of a pending run
    resolves or rejects. *)
Definition settles (s : state) (ev : event) : Prop :=
  match ev with
  | Resolve k | Reject k => is_Some (pending s k)
  | Toggle | Unmount => False
  end.

#[export] Instance settles_dec s ev : Decision (settles s ev).
Proof. destruct ev; apply _. Defined.

(** The number of calls of [getUserMedia] that have not settled. *)
Definition pending_runs (s : state) : nat :=
  count (λ e, settled e = false) (effects s).

(** The video element shows the stream of the current run: lines 46-51
    bind the stream that the run obtained to the element and put it in the
    state. *)
Definition shows_current (s : state) : Prop :=
  ∀ e h, current s = Some e → cleaned e = false → activeStream e = Some h →
         srcObject s = Some h ∧ stream s = Some h.

(** The camera that faces [f] has started, and its stream is the only live
    one and the one in the video element; or it has failed, and no stream
    is live. *)
Definition ready (f : facing) (s : state) : Prop :=
  (∃ h, abs s = StreamSpec.Streaming f h ∧ live s = {[h]} ∧ srcObject s = Some h) ∨
  (abs s = StreamSpec.Failed f ∧ live s = ∅).

(** * Properties *)

Section progress.
Implicit Types (s : state) (e : effect) (ev : event) (k h : nat).

Lemma settles_inv s ev :
  settles s ev → ∃ k e, pending s k = Some e ∧ (ev = Resolve k ∨ ev = Reject k).
Proof. destruct ev as [k|k| |]; simpl; try done; intros [e He]; eauto. Qed.

Lemma pending_runs_pos s : 0 < pending_runs s ↔ ∃ k e, pending s k = Some e.
Proof.
  unfold pending_runs. rewrite count_pos. by setoid_rewrite pending_Some.
Qed.

Lemma settles_exists s : (∃ ev, settles s ev) ↔ 0 < pending_runs s.
Proof.
  rewrite pending_runs_pos. split.
  - intros [ev (k & e & He & _)%settles_inv]. eauto.
  - intros (k & e & He). exists (Resolve k). simpl. by rewrite He.
Qed.

#[export] Instance settles_exists_dec s : Decision (∃ ev, settles s ev).
Proof. refine (cast_if (decide (0 < pending_runs s))); by rewrite settles_exists. Defined.

Lemma pending_runs_on_resolved s k e :
  pending s k = Some e → S (pending_runs (on_resolved s k e)) = pending_runs s.
Proof.
  intros [Hk He]%pending_Some. by apply (count_insert_settle _ (effects s) k e).
Qed.

Lemma pending_runs_on_rejected s k e :
  pending s k = Some e → S (pending_runs (on_rejected s k e)) = pending_runs s.
Proof.
  intros [Hk He]%pending_Some. by apply (count_insert_settle _ (effects s) k e).
Qed.

(** Every owed settlement can be delivered, and leaves one pending run
    less. *)
Lemma settles_step s ev :
  settles s ev → ∃ s', step s ev = Some s' ∧ S (pending_runs s') = pending_runs s.
Proof.
  intros (k & e & He & [->| ->])%settles_inv; simpl; rewrite He; simpl; eexists;
    eauto using pending_runs_on_resolved, pending_runs_on_rejected.
Qed.

Lemma settles_seq_step s ev : settles s ev → seq_step s ev = step s ev.
Proof. by destruct ev. Qed.

(** The settlement of one run leaves the other pending runs pending. *)
Lemma pending_insert s k e e' k' :
  k ≠ k' → pending s k' = Some e' →
  ∀ s', effects s' = <[k := e]> (effects s) → pending s' k' = Some e'.
Proof.
  intros Hne [Hk He]%pending_Some s' Hs'. apply pending_Some.
  by rewrite Hs', list_lookup_insert_ne.
Qed.

(** The cleanup marks the current run and changes nothing else of it: a
    pending run is still pending. *)
Lemma pending_cleanup s k e :
  pending s k = Some e →
  ∃ e', pending (cleanup s) k = Some e' ∧ eff_facing e' = eff_facing e.
Proof.
  intros [Hk He]%pending_Some. unfold cleanup.
  destruct (current s) as [cur|] eqn:Hcur; [|exists e; by rewrite pending_Some].
  setoid_rewrite pending_Some. simpl.
  destruct (decide (k = pred (length (effects s)))) as [->|Hne].
  - rewrite current_lookup in Hcur. simplify_eq.
    exists (mark_cleaned e). by rewrite list_lookup_insert_eq by by eapply lookup_lt_Some.
  - exists e. by rewrite list_lookup_insert_ne.
Qed.

Lemma shows_current_init : shows_current init.
Proof. intros e h [= <-]. done. Qed.

(** Under sequential use every step keeps the stream of the current run in
    the video element. *)
Lemma shows_current_stable s ev s' :
  wf s → seq_inv s → seq_step s ev = Some s' → shows_current s'.
Proof.
  intros Hwf Hseq. destruct ev as [k|k| |]; simpl.
  - intros (e & He & ->)%fmap_Some e' h.
    destruct (seq_pending_current s k e Hwf Hseq He) as (Hcur & Hc & ->).
    destruct (wf_current s Hwf) as (cur & ? & Hm & _). simplify_eq.
    unfold current. simpl. apply pending_Some in He as [Hk _].
    rewrite current_insert by (done || by eapply lookup_lt_Some).
    rewrite Hc in Hm. destruct (mounted s); [|done]. by intros [= <-] _ [= <-].
  - intros (e & He & ->)%fmap_Some e' h.
    destruct (seq_pending_current s k e Hwf Hseq He) as (Hcur & Hc & ->).
    unfold current. simpl. pose proof He as [Hk Hs]%pending_Some.
    rewrite current_insert by (done || by eapply lookup_lt_Some).
    intros [= <-] _ Hh. simpl in Hh.
    destruct (wf_stream s Hwf _ _ _ Hk Hh). congruence.
  - destruct (idle s); [|done]. destruct (mounted s); [|done]. intros [= <-] e h.
    unfold current, toggleCamera. simpl. rewrite last_snoc. by intros [= <-].
  - destruct (idle s); [|done]. destruct (mounted s) eqn:Hm; [|done]. intros [= <-] e h.
    destruct (wf_current s Hwf) as (cur & [olds Hs]%current_Some & _).
    unfold current, unmount. simpl. rewrite (effects_cleanup s olds cur Hs), last_snoc.
    by intros [= <-].
Qed.

Lemma seq_reachable_shows s :
  @reachable _ _ sequential s → wf s ∧ seq_inv s ∧ shows_current s.
Proof.
  apply (@invariant _ _ sequential (λ s, wf s ∧ seq_inv s ∧ shows_current s)).
  - split; [apply wf_init|]. split; [apply seq_inv_init|apply shows_current_init].
  - intros s0 ev s1 (Hwf & Hseq & _) Hstep. split; [|split].
    + eapply wf_stable; [done|]. by apply seq_step_step.
    + by eapply seq_inv_stable.
    + by eapply shows_current_stable.
Qed.

(** A state of sequential use whose current run has settled is ready. *)
Lemma ready_settled s cur :
  wf s → seq_inv s → shows_current s →
  current s = Some cur → cleaned cur = false → settled cur = true →
  ready (eff_facing cur) s.
Proof.
  intros Hwf Hseq Hshow Hcur Hc Hs. unfold ready.
  rewrite (abs_live s Hwf Hseq). unfold abs. rewrite Hcur, Hc, Hs.
  destruct (activeStream cur) as [h|] eqn:Hh; [left|by right].
  exists h. by destruct (Hshow cur h).
Qed.

End progress.

(** * The theorems of the file *)

(** Whatever the user has done, the component comes to rest: when the
    promises of [getUserMedia] that are pending settle, in whatever order and
    each with whatever outcome, every settlement can be delivered, no run is
    pending after finitely many of them, and no sequence of settlements is
    longer than the number of pending runs. *)
Theorem mobile_camera_settles (s : state) :
  inevitable settles (λ s', ∀ k, pending s' k = None) s ∧
  ∀ evs, owed_run settles evs s → length evs ≤ pending_runs s.
Proof.
  assert (∀ s0 ev, True → settles s0 ev →
            ∃ s', m_step s0 ev = Some s' ∧ True ∧ pending_runs s' < pending_runs s0) as Hstep.
  { intros s0 ev _ (s' & Hs' & Hn)%settles_step. exists s'. repeat split; [done|lia]. }
  split.
  - eapply inevitable_mono; [|by apply (inevitable_measure settles pending_runs (λ _, True)); [|apply _|]].
    intros s' [_ Hq] k. destruct (pending s' k) as [e|] eqn:He; [|done].
    destruct (Hq (Resolve k)). simpl. by rewrite He.
  - intros evs. by apply (owed_run_length settles pending_runs (λ _, True)).
Qed.

(** No handler of the component cancels a call of [getUserMedia]: a
    run that is pending stays pending, with the facing mode it asked for,
    through every event other than its own settlement; its settlement is
    therefore owed until it is delivered. *)
Theorem mobile_pending_persists (s s' : state) ev k e :
  pending s k = Some e → step s ev = Some s' → ev ≠ Resolve k → ev ≠ Reject k →
  ∃ e', pending s' k = Some e' ∧ eff_facing e' = eff_facing e ∧ settles s' (Resolve k).
Proof.
  intros Hp Hstep Hres Hrej.
  cut (∃ e', pending s' k = Some e' ∧ eff_facing e' = eff_facing e).
  { intros (e' & He' & ?). exists e'. simpl. rewrite He'. eauto. }
  destruct ev as [k'|k'| |]; simpl in Hstep.
  - apply fmap_Some in Hstep as (e0 & He0 & ->). exists e. split; [|done].
    eapply (pending_insert s k'); [congruence|done..].
  - apply fmap_Some in Hstep as (e0 & He0 & ->). exists e. split; [|done].
    eapply (pending_insert s k'); [congruence|done..].
  - destruct (mounted s); simplify_eq.
    destruct (pending_cleanup s k e Hp) as (e' & [Hk He']%pending_Some & Hf).
    exists e'. split; [|done]. apply pending_Some. unfold toggleCamera. simpl.
    split; [by apply lookup_app_l_Some|done].
  - destruct (mounted s); simplify_eq.
    destruct (pending_cleanup s k e Hp) as (e' & Hk & Hf). by exists e'.
Qed.

Lemma mobile_pending_persists_witness :
  ∃ e', pending (toggleCamera init) 0 = Some e' ∧
        eff_facing e' = eff_facing (start_effect Environment) ∧
        settles (toggleCamera init) (Resolve 0).
Proof.
  by apply (mobile_pending_persists init (toggleCamera init) Toggle 0 (start_effect Environment)).
Defined.

(** Under sequential use the camera inevitably starts or fails: from
    every state of a mounted component, once the pending promise of
    [getUserMedia] settles, the camera that faces the chosen way streams
    into the video element and its stream is the only live one, or the
    acquisition has failed and no stream is live. *)
Theorem mobile_camera_starts (s : state) :
  @reachable _ _ sequential s → mounted s = true →
  @inevitable _ _ sequential settles (ready (facingMode s)) s.
Proof.
  intros (Hwf & Hseq & Hshow)%seq_reachable_shows Hm.
  destruct (wf_current s Hwf) as (cur & Hcur & Hc & <-). rewrite Hm in Hc. simpl in Hc.
  destruct (settled cur) eqn:Hs; [by apply inevitable_now, ready_settled|].
  assert (pending s (pred (length (effects s))) = Some cur) as Hp.
  { apply pending_Some. by rewrite <-current_lookup. }
  apply inevitable_later.
  - exists (Resolve (pred (length (effects s)))). simpl. by rewrite Hp.
  - intros ev Hev. destruct (settles_step s ev Hev) as (s' & Hs' & _).
    exists s'. simpl. by rewrite settles_seq_step.
  - intros ev s' Hev Hstep. change (seq_step s ev = Some s') in Hstep.
    apply settles_inv in Hev as (k & e & He & Hev).
    destruct (seq_pending_current s k e Hwf Hseq He) as (Hce & _ & ->).
    rewrite Hcur in Hce. injection Hce as <-.
    assert (wf s') by (eapply wf_stable; [done|]; by apply seq_step_step).
    assert (seq_inv s') by exact (seq_inv_stable s ev s' Hwf Hseq Hstep).
    assert (shows_current s') by exact (shows_current_stable s ev s' Hwf Hseq Hstep).
    pose proof Hp as [Hk _]%pending_Some. pose proof (lookup_lt_Some _ _ _ Hk).
    apply inevitable_now.
    destruct Hev as [-> | ->]; simpl in Hstep; rewrite Hp in Hstep; simplify_eq/=.
    + apply (ready_settled _ (mark_resolved (next_stream s) cur)); try done.
      by apply current_insert.
    + apply (ready_settled _ (mark_rejected cur)); try done.
      by apply current_insert.
Qed.

Lemma mobile_camera_starts_witness :
  @inevitable _ _ sequential settles (ready (facingMode (toggleCamera (on_resolved init 0 (start_effect Environment)))))
    (toggleCamera (on_resolved init 0 (start_effect Environment))).
Proof.
  apply mobile_camera_starts; [|done]. exists [Resolve 0; Toggle]. by vm_compute.
Defined.
