(* ===== verification/MobileRace.v ===== *)
(** The race of [MobileCamera]: the user switches the camera while
    [getUserMedia] is pending.

    Lines 33-65 of [src/frontend/app/analyse/page.tsx]: the cleanup of a
    run of the effect stops the stream in the run's variable [activeStream],
    which is assigned on line 45 only once the promise has resolved.  A
    switch of the camera (lines 80-82) while the promise of the current run
    is pending therefore cleans up a run that holds no stream yet, and
    starts the next run.  Both promises then resolve, in either order, and
    each continuation binds its stream to the video element and puts it in
    the state (lines 46-51), whether its run was cleaned up or not.

    The file proves, for every well-formed state in which the current run is
    pending and for both orders of the two resolutions, that two more
    streams are live afterwards and stay live as long as promises settle;
    and, when the stream of the old run arrives last, that the video element
    shows the camera the user switched away from, with a stream that no
    later event stops. *)

From Stdlib Require Import ZArith Lia.
From stdpp Require Import prelude gmap.
From S2P Require Import Prelude Machine Progress Media MobileCamera MobileProgress.

Import Mobile.

(** A promise of [getUserMedia] settles. *)
Definition settlement (ev : event) : Prop :=
  match ev with Resolve _ | Reject _ => True | Toggle | Unmount => False end.

(** The events that do not touch the video element: a rejection, and the
    switch of the camera, which only starts the next request. *)
Definition keeps_element (ev : event) : Prop :=
  match ev with Reject _ | Toggle => True | Resolve _ | Unmount => False end.

(** The run whose stream the video element shows is run [k], which closed
    over the facing mode [f]. *)
Definition shows_run (s : state) (k : nat) (f : facing) : Prop :=
  ∃ e h, effects s !! k = Some e ∧ activeStream e = Some h ∧ srcObject s = Some h ∧
         stream s = Some h ∧ eff_facing e = f.

(** The two streams that arrive after the switch. *)
Definition race_streams (s : state) : gset nat := {[next_stream s; S (next_stream s)]}.

#[export] Instance settlement_dec ev : Decision (settlement ev).
Proof. destruct ev; apply _. Defined.

#[export] Instance keeps_element_dec ev : Decision (keeps_element ev).
Proof. destruct ev; apply _. Defined.

(** * Properties *)

Section race.
Implicit Types (s t : state) (e : effect) (ev : event) (k i h : nat) (olds rest : list effect).

(** ** What settles and what it keeps *)

Lemma settlement_live s ev s' : step s ev = Some s' → settlement ev → live s ⊆ live s'.
Proof.
  destruct ev as [k|k| |]; simpl; [| |done..];
    intros (e & _ & ->)%fmap_Some _; simpl; set_solver.
Qed.

Lemma settlements_live evs s s' :
  run evs s = Some s' → Forall settlement evs → live s ⊆ live s'.
Proof.
  revert s. induction evs as [|ev evs IH]; intros s; [by intros [= ->]|].
  intros (s1 & Hs1 & Hr)%run_cons_Some [Hev Hevs]%Forall_cons.
  etrans; [by eapply settlement_live|by apply IH].
Qed.

Lemma keeps_element_step s ev s' :
  step s ev = Some s' → keeps_element ev → srcObject s' = srcObject s ∧ stream s' = stream s.
Proof.
  destruct ev as [k|k| |]; simpl; [done| | |done].
  - by intros (e & _ & ->)%fmap_Some _.
  - destruct (mounted s); [|done]. intros [= <-] _. unfold toggleCamera. simpl.
    by destruct (cleanup_fields s) as (_ & _ & -> & -> & _).
Qed.

Lemma keeps_element_run evs s s' :
  run evs s = Some s' → Forall keeps_element evs →
  srcObject s' = srcObject s ∧ stream s' = stream s.
Proof.
  revert s. induction evs as [|ev evs IH]; intros s; [by intros [= ->]|].
  intros (s1 & Hs1 & Hr)%run_cons_Some [Hev Hevs]%Forall_cons.
  destruct (keeps_element_step s ev s1 Hs1 Hev) as [<- <-]. by apply IH.
Qed.

(** ** The state in which the race starts *)

(** A mounted state whose current run is pending: the run holds no stream,
    is not cleaned up and closed over the current facing mode. *)
Lemma pending_current s :
  wf s → mounted s = true → idle s = false →
  ∃ olds e, effects s = olds ++ [e] ∧ pred (length (effects s)) = length olds ∧
            settled e = false ∧ activeStream e = None ∧ cleaned e = false ∧
            eff_facing e = facingMode s.
Proof.
  intros Hwf Hm Hidle. destruct (wf_current s Hwf) as (e & Hcur & Hc & Hf).
  unfold idle in Hidle. rewrite Hcur in Hidle. rewrite Hm in Hc.
  pose proof Hcur as [olds Hs]%current_Some. exists olds, e.
  split_and!; [done|rewrite Hs, length_app; simpl; lia|done| |done..].
  destruct (activeStream e) as [h|] eqn:Hh; [|done].
  rewrite current_lookup in Hcur. destruct (wf_stream s Hwf _ _ _ Hcur Hh). congruence.
Qed.

(** The switch in such a state stops nothing and appends the next run. *)
Lemma toggle_pending s olds e :
  effects s = olds ++ [e] → activeStream e = None →
  effects (toggleCamera s) = olds ++ [mark_cleaned e; start_effect (flip (facingMode s))] ∧
  live (toggleCamera s) = live s ∧ next_stream (toggleCamera s) = next_stream s ∧
  mounted (toggleCamera s) = mounted s ∧ facingMode (toggleCamera s) = flip (facingMode s).
Proof.
  intros Hs He. unfold toggleCamera. simpl.
  rewrite (effects_cleanup s olds e Hs), (live_cleanup s olds e Hs), He.
  destruct (cleanup_fields s) as (-> & -> & _ & _ & -> & _).
  by rewrite <-app_assoc.
Qed.

(** The promise of the run at position [i] after [olds] resolves. *)
Lemma resolve_at s olds rest i e :
  effects s = olds ++ rest → rest !! i = Some e → settled e = false →
  step s (Resolve (length olds + i)) = Some (on_resolved s (length olds + i) e) ∧
  effects (on_resolved s (length olds + i) e)
    = olds ++ <[i := mark_resolved (next_stream s) e]> rest.
Proof.
  intros Hs Hi He. split.
  - simpl. assert (pending s (length olds + i) = Some e) as ->; [|done].
    apply pending_Some. split; [|done]. by rewrite Hs, lookup_app_r, Nat.add_comm, Nat.add_sub by lia.
  - simpl. by rewrite Hs, insert_app_r.
Qed.

(** Two pending runs resolve one after the other. *)
Lemma resolve_two s olds rest i j ei ej :
  effects s = olds ++ rest → rest !! i = Some ei → rest !! j = Some ej → i ≠ j →
  settled ei = false → settled ej = false →
  ∃ s', run [Resolve (length olds + i); Resolve (length olds + j)] s = Some s' ∧
        effects s' = olds ++ <[j := mark_resolved (S (next_stream s)) ej]>
                               (<[i := mark_resolved (next_stream s) ei]> rest) ∧
        live s' = {[S (next_stream s)]} ∪ ({[next_stream s]} ∪ live s) ∧
        mounted s' = mounted s ∧ facingMode s' = facingMode s ∧
        (mounted s = true → srcObject s' = Some (S (next_stream s)) ∧
                            stream s' = Some (S (next_stream s))).
Proof.
  intros Hs Hi Hj Hne Hei Hej.
  destruct (resolve_at s olds rest i ei Hs Hi Hei) as [H1 Hs1].
  destruct (resolve_at _ olds _ j ej Hs1) as [H2 Hs2]; [by rewrite list_lookup_insert_ne|done|].
  eexists. split; [apply run_cons_Some; eexists; split; [exact H1|]; by apply run_cons_Some; eexists|].
  split; [exact Hs2|]. simpl. split_and!; try done. by intros ->.
Qed.

(** The two streams of the race are new. *)
Lemma race_streams_fresh s : wf s → race_streams s ## live s.
Proof.
  intros Hwf h Hh Hl%(wf_fresh s Hwf).
  apply elem_of_union in Hh as [Hh|Hh]; apply elem_of_singleton in Hh; lia.
Qed.

Lemma race_streams_size s : size (race_streams s) = 2.
Proof.
  unfold race_streams. rewrite size_union, !size_singleton; [done|].
  apply disjoint_singleton_l. rewrite elem_of_singleton. lia.
Qed.

(** ** The race *)

(** After the switch the two promises resolve in either order; the final
    state holds both runs with their streams, the second to resolve bound to
    the element. *)
Lemma race_run s olds e (old_first : bool) :
  wf s → mounted s = true → effects s = olds ++ [e] →
  settled e = false → activeStream e = None →
  ∃ s', run (Toggle :: if old_first then [Resolve (length olds); Resolve (S (length olds))]
                       else [Resolve (S (length olds)); Resolve (length olds)]) s = Some s' ∧
        wf s' ∧ mounted s' = true ∧ facingMode s' = flip (facingMode s) ∧
        live s' = race_streams s ∪ live s ∧
        srcObject s' = Some (S (next_stream s)) ∧ stream s' = Some (S (next_stream s)) ∧
        effects s' = olds ++
          [mark_resolved (if old_first then next_stream s else S (next_stream s)) (mark_cleaned e);
           mark_resolved (if old_first then S (next_stream s) else next_stream s)
             (start_effect (flip (facingMode s)))].
Proof.
  intros Hwf Hm Hs He Ha.
  destruct (toggle_pending s olds e Hs Ha) as (Ht & Hl & Hn & Hmt & Hf).
  assert (step s Toggle = Some (toggleCamera s)) as H0 by (simpl; by rewrite Hm).
  destruct (resolve_two (toggleCamera s) olds _
              (if old_first then 0 else 1) (if old_first then 1 else 0)
              (if old_first then mark_cleaned e else start_effect (flip (facingMode s)))
              (if old_first then start_effect (flip (facingMode s)) else mark_cleaned e) Ht)
    as (s' & Hrun & Heff & Hl' & Hm' & Hf' & Hsrc); [by destruct old_first..|].
  rewrite Hn, Hl in *. rewrite Hmt, Hm in *. destruct (Hsrc eq_refl) as [Hso Hst].
  assert (run (Toggle :: if old_first then [Resolve (length olds); Resolve (S (length olds))]
                         else [Resolve (S (length olds)); Resolve (length olds)]) s = Some s')
    as Hrun'.
  { apply run_cons_Some. exists (toggleCamera s). split; [exact H0|].
    destruct old_first; by rewrite Nat.add_0_r, Nat.add_1_r in Hrun. }
  exists s'. split; [done|]. split; [by eapply (stable_run wf), Hrun'; [apply wf_stable|]|].
  split_and!; try done; [congruence|rewrite Hl'; unfold race_streams; set_solver|].
  rewrite Heff. by destruct old_first.
Qed.

End race.

(** * The theorems of the file *)

(** C25.  Without the discipline of sequential use two streams are live at
    once.  In every well-formed state in which the component is mounted and
    the current call of [getUserMedia] is pending, the user can switch the
    camera; the cleanup of the current run finds no stream to stop; both
    promises can then resolve, in either order, and afterwards both new
    streams are live beside the streams that were live before, which is more
    than the one handle the stream manager of the specification holds; both
    stay live for as long as only promises settle. *)
Theorem mobile_race_two_streams (s : state) (order : list event) :
  wf s → mounted s = true → idle s = false →
  order ≡ₚ [Resolve (pred (length (effects s))); Resolve (length (effects s))] →
  ∃ s', run (Toggle :: order) s = Some s' ∧ mounted s' = true ∧
        live s' = race_streams s ∪ live s ∧ size (live s') = 2 + size (live s) ∧
        StreamSpec.handles (abs s') ≠ live s' ∧
        ∀ evs s'', run evs s' = Some s'' → Forall settlement evs →
                   race_streams s ⊆ live s''.
Proof.
  intros Hwf Hm Hidle Hperm.
  destruct (pending_current s Hwf Hm Hidle) as (olds & e & Hs & Hk & He & Ha & _).
  assert (length (effects s) = S (length olds)) as Hlen by (rewrite Hs, length_app; simpl; lia).
  rewrite Hk, Hlen in Hperm. symmetry in Hperm.
  assert (∃ b : bool, order = if b then [Resolve (length olds); Resolve (S (length olds))]
                                 else [Resolve (S (length olds)); Resolve (length olds)])
    as [b ->] by (apply Permutation_length_2_inv in Hperm as [-> | ->]; [by exists true|by exists false]).
  destruct (race_run s olds e b Hwf Hm Hs He Ha) as (s' & Hrun & _ & Hm' & _ & Hl & _).
  assert (size (live s') = 2 + size (live s)) as Hsz
    by by rewrite Hl, size_union, race_streams_size by by apply race_streams_fresh.
  exists s'. split_and!; try done.
  - intros Heq. pose proof (handles_size (abs s')). rewrite Heq in *. lia.
  - intros evs s'' Hr Hevs. etrans; [|by eapply settlements_live]. set_solver.
Qed.

Lemma mobile_race_two_streams_witness :
  ∃ s', run (Toggle :: [Resolve 1; Resolve 0]) init = Some s' ∧ mounted s' = true ∧
        live s' = race_streams init ∪ live init ∧ size (live s') = 2 + size (live init) ∧
        StreamSpec.handles (abs s') ≠ live s' ∧
        ∀ evs s'', run evs s' = Some s'' → Forall settlement evs →
                   race_streams init ⊆ live s''.
Proof.
  apply (mobile_race_two_streams init [Resolve 1; Resolve 0] wf_init eq_refl eq_refl).
  apply perm_swap.
Defined.

(** C26.  Without the discipline the video element can show the wrong
    camera.  In every well-formed state in which the component is mounted and
    the current call of [getUserMedia] is pending: when the user switches
    the camera and the stream of the new run arrives before the stream of
    the old run, the component is in the new facing mode and the current run
    holds the new camera's stream, but the video element and the state hold
    the stream of the old run, which closed over the facing mode the user
    switched away from.  That stream is live in every state that follows,
    and it stays in the video element until another stream arrives or the
    component unmounts. *)
Theorem mobile_race_wrong_camera (s : state) :
  wf s → mounted s = true → idle s = false →
  ∃ s', run [Toggle; Resolve (length (effects s)); Resolve (pred (length (effects s)))] s
          = Some s' ∧
        facingMode s' = flip (facingMode s) ∧
        abs s' = StreamSpec.Streaming (flip (facingMode s)) (next_stream s) ∧
        shows_run s' (pred (length (effects s))) (facingMode s) ∧
        srcObject s' = Some (S (next_stream s)) ∧ ¬ shows_current s' ∧
        ∀ evs s'', run evs s' = Some s'' →
          S (next_stream s) ∈ live s'' ∧
          (Forall keeps_element evs → srcObject s'' = Some (S (next_stream s))).
Proof.
  intros Hwf Hm Hidle.
  destruct (pending_current s Hwf Hm Hidle) as (olds & e & Hs & Hk & He & Ha & Hc & Hf).
  assert (length (effects s) = S (length olds)) as Hlen by (rewrite Hs, length_app; simpl; lia).
  destruct (race_run s olds e false Hwf Hm Hs He Ha)
    as (s' & Hrun & Hwf' & Hm' & Hf' & Hl & Hsrc & Hst & Heff).
  rewrite Hk, Hlen. exists s'.
  assert (effects s' !! length olds = Some (mark_resolved (S (next_stream s)) (mark_cleaned e)))
    as Hold by by rewrite Heff, list_lookup_middle.
  assert (current s' = Some (mark_resolved (next_stream s) (start_effect (flip (facingMode s)))))
    as Hcur by (unfold current; by rewrite Heff, last_app_cons).
  split_and!; try done.
  - unfold abs. by rewrite Hcur.
  - by eexists _, _.
  - intros Hshow. destruct (Hshow _ (next_stream s) Hcur eq_refl eq_refl) as [? _].
    rewrite Hsrc in *. simplify_eq. lia.
  - intros evs s'' Hr. split.
    + eapply (leaked_run (length olds)); [|done]. split; [done|].
      eexists. split_and!; [done..|]. rewrite Hl. unfold race_streams. set_solver.
    + intros Hevs. destruct (keeps_element_run evs s' s'' Hr Hevs) as [-> _]. done.
Qed.

Lemma mobile_race_wrong_camera_witness :
  ∃ s', run [Toggle; Resolve (length (effects init)); Resolve (pred (length (effects init)))] init
          = Some s' ∧
        facingMode s' = flip (facingMode init) ∧
        abs s' = StreamSpec.Streaming (flip (facingMode init)) (next_stream init) ∧
        shows_run s' (pred (length (effects init))) (facingMode init) ∧
        srcObject s' = Some (S (next_stream init)) ∧ ¬ shows_current s' ∧
        ∀ evs s'', run evs s' = Some s'' →
          S (next_stream init) ∈ live s'' ∧
          (Forall keeps_element evs → srcObject s'' = Some (S (next_stream init))).
Proof. exact (mobile_race_wrong_camera init wf_init eq_refl eq_refl). Defined.
