(* ===== verification/MobileView.v ===== *)
(** [MobileCamera] with its video element: lines 46-51, 67-78 and 85-98 of
    [src/frontend/app/analyse/page.tsx].

    [Module Mobile] keeps the stream that is bound to the video element.
    This file adds the rest of the element: the continuation of
    [startCamera] loads the new stream into the element and installs a
    handler that starts playback once the metadata of the stream has loaded
    (lines 47-50), and [capturePhoto] reads the size and the frame of the
    element (lines 70-74).  The state is the state of the component and the
    playback state of the element; the events are the events of the
    component and the [loadedmetadata] event of the element, which the
    browser delivers for a live stream whose size it does not know yet.

    The theorems: the invariant of the element (a size is positive, a bound
    stream has the handler installed, a mounted component whose element has
    its metadata is playing, by the [autoPlay] attribute or by the handler);
    the video inevitably plays the stream that is
    bound to it, and under sequential use that is the stream of the camera
    the user chose; the size and the content of a photo, which is a blank
    image of 640 by 480 pixels while the element has no metadata, also when
    the camera was refused. *)

From Stdlib Require Import ZArith Lia.
From stdpp Require Import prelude gmap.
From S2P Require Import Prelude JsString Base64 Normalizer Upload Machine Progress.
From S2P Require Import Canvas Media MobileCamera MobileProgress.

#[local] Open Scope Z_scope.

Module View.

Record state : Type := mkState {
  camera : Mobile.state;
  video_el : playback;
}.

Inductive event : Type :=
| Camera (e : Mobile.event)
| LoadedMetadata (w h : Z).

(** The component after its first render: the element has no source. *)
Definition init : state := {| camera := Mobile.init; video_el := new_video |}.

(** Lines 46-51: if the reference is set, the stream is bound to the
    element and the handler is installed. *)
Definition bind_stream (c : Mobile.state) (p : playback) : playback :=
  if Mobile.mounted c then set_onloadedmetadata (set_srcObject p) else p.

(** The browser has a [loadedmetadata] event to deliver: the stream that is
    bound to the element is live and its size is not known yet. *)
Definition awaiting_metadata (s : state) : bool :=
  match Mobile.srcObject (camera s) with
  | Some sid =>
      bool_decide (sid ∈ Mobile.live (camera s)) &&
      bool_decide (metadata (video_el s) = None)
  | None => false
  end.

(** A step, for a given step of the component: an event of the component
    acts on the element when it is the arrival of a stream; the metadata of
    a live stream loads with a positive size, and the handler of line 49
    runs. *)
Definition step_with (camera_step : Mobile.state → Mobile.event → option Mobile.state)
    (s : state) (ev : event) : option state :=
  match ev with
  | Camera e =>
      c' ← camera_step (camera s) e;
      Some {| camera := c';
              video_el := match e with
                          | Mobile.Resolve _ => bind_stream (camera s) (video_el s)
                          | _ => video_el s
                          end |}
  | LoadedMetadata w h =>
      if awaiting_metadata s && bool_decide (0 < w ∧ 0 < h) then
        Some {| camera := camera s;
                video_el := loadedmetadata w h (Mobile.mounted (camera s)) (video_el s) |}
      else None
  end.

Definition step : state → event → option state := step_with Mobile.step.

(** Sequential use of the component, as in [Mobile.sequential]. *)
Definition seq_step : state → event → option state := step_with Mobile.seq_step.

#[export] Instance machine : Machine state event := {| m_init := init; m_step := step |}.

Definition sequential : Machine state event := {| m_init := init; m_step := seq_step |}.

(** Lines 67-78 on the element: the photo of the frame [current] that the
    source shows. *)
Definition capturePhoto `{Canvas Frame} (s : state) (current : Frame) (ctx : bool)
    : option capture :=
  Mobile.capturePhoto (camera s) (snapshot (video_el s) current) ctx.

(** The events that the browser owes: the settlement of a pending call of
    [getUserMedia], and the metadata of a live stream. *)
Definition owed (s : state) (ev : event) : Prop :=
  match ev with
  | Camera e => settles (camera s) e
  | LoadedMetadata w h => awaiting_metadata s = true ∧ 0 < w ∧ 0 < h
  end.

(** The number of owed events that are left at most. *)
Definition work (s : state) : nat :=
  2 * pending_runs (camera s) + (if awaiting_metadata s then 1 else 0).

(** What holds of the element in every reachable state. *)
Record inv (s : state) : Prop := mkInv {
  inv_size : ∀ w h, metadata (video_el s) = Some (w, h) → 0 < w ∧ 0 < h;
  inv_handler : is_Some (Mobile.srcObject (camera s)) → onloadedmetadata (video_el s) = true;
  inv_playing : (autoPlay (video_el s) = true ∨ Mobile.mounted (camera s) = true) →
                is_Some (metadata (video_el s)) → paused (video_el s) = false;
}.

(** No call of [getUserMedia] is pending, and a live stream in the element
    has its size and is playing. *)
Definition at_rest (s : state) : Prop :=
  (∀ k, Mobile.pending (camera s) k = None) ∧
  ∀ sid, Mobile.srcObject (camera s) = Some sid → sid ∈ Mobile.live (camera s) →
         is_Some (metadata (video_el s)) ∧
         (autoPlay (video_el s) = true ∨ Mobile.mounted (camera s) = true →
          paused (video_el s) = false).

(** The camera that faces [f] plays in the element, and its stream is the
    only live one; or it has failed, and no stream is live. *)
Definition showing (f : facing) (s : state) : Prop :=
  (∃ sid w h, Mobile.abs (camera s) = StreamSpec.Streaming f sid ∧
              Mobile.live (camera s) = {[sid]} ∧
              Mobile.srcObject (camera s) = Some sid ∧
              metadata (video_el s) = Some (w, h) ∧ paused (video_el s) = false) ∨
  (Mobile.abs (camera s) = StreamSpec.Failed f ∧ Mobile.live (camera s) = ∅).

(** What holds in addition under sequential use, of a mounted component
    whose camera faces [f]. *)
Definition seq_inv (f : facing) (s : state) : Prop :=
  inv s ∧ Mobile.wf (camera s) ∧ Mobile.seq_inv (camera s) ∧ shows_current (camera s) ∧
  Mobile.mounted (camera s) = true ∧ Mobile.facingMode (camera s) = f.

(** The camera is refused; the camera starts and its metadata loads. *)
Definition refused : state := default init (run [Camera (Mobile.Reject 0)] init).

Definition started : state :=
  default init (run [Camera (Mobile.Resolve 0); LoadedMetadata 1280 720] init).

(** * Properties *)

Section view.
Implicit Types (s : state) (ev : event) (c : Mobile.state) (e : Mobile.event) (p : playback).

(** What a step of the component does to the fields that the element
    depends on. *)
Lemma mobile_step_video c e c' :
  Mobile.step c e = Some c' →
  match e with
  | Mobile.Resolve _ =>
      Mobile.mounted c' = Mobile.mounted c ∧
      Mobile.srcObject c' = if Mobile.mounted c then Some (Mobile.next_stream c)
                            else Mobile.srcObject c
  | Mobile.Unmount => Mobile.mounted c' = false ∧ Mobile.srcObject c' = None
  | _ => Mobile.mounted c' = Mobile.mounted c ∧ Mobile.srcObject c' = Mobile.srcObject c
  end.
Proof.
  destruct e as [k|k| |]; simpl.
  - by intros (? & _ & ->)%fmap_Some.
  - by intros (? & _ & ->)%fmap_Some.
  - destruct (Mobile.mounted c) eqn:Hm; [|done]. intros [= <-].
    destruct (Mobile.cleanup_fields c) as (Hm' & _ & _ & Hs & _).
    unfold Mobile.toggleCamera. simpl. by rewrite Hm', Hs.
  - destruct (Mobile.mounted c); [|done]. by intros [= <-].
Qed.

Lemma view_seq_step s ev s' : seq_step s ev = Some s' → step s ev = Some s'.
Proof.
  destruct ev as [e|w h]; [|done]. unfold seq_step, step. simpl.
  intros (c' & Hc'%Mobile.seq_step_step & [= <-])%bind_Some. by rewrite Hc'.
Qed.

Lemma owed_seq_step s ev : owed s ev → seq_step s ev = step s ev.
Proof.
  destruct ev as [e|w h]; [|done]. unfold seq_step, step. simpl.
  intros He. by rewrite settles_seq_step.
Qed.

Lemma step_camera s e s' :
  step s (Camera e) = Some s' ↔
  ∃ c', Mobile.step (camera s) e = Some c' ∧
        s' = {| camera := c';
                video_el := match e with
                            | Mobile.Resolve _ => bind_stream (camera s) (video_el s)
                            | _ => video_el s
                            end |}.
Proof. unfold step. simpl. rewrite bind_Some. naive_solver. Qed.

Lemma step_metadata s w h s' :
  step s (LoadedMetadata w h) = Some s' ↔
  (awaiting_metadata s = true ∧ 0 < w ∧ 0 < h) ∧
  s' = {| camera := camera s;
          video_el := loadedmetadata w h (Mobile.mounted (camera s)) (video_el s) |}.
Proof.
  unfold step. simpl. destruct (awaiting_metadata s); simpl; [|naive_solver].
  case_bool_decide; naive_solver.
Qed.

Lemma awaiting_metadata_true s :
  awaiting_metadata s = true ↔
  ∃ sid, Mobile.srcObject (camera s) = Some sid ∧ sid ∈ Mobile.live (camera s) ∧
         metadata (video_el s) = None.
Proof.
  unfold awaiting_metadata. destruct (Mobile.srcObject (camera s)) as [sid|]; [|naive_solver].
  rewrite andb_true_iff, !bool_decide_eq_true. naive_solver.
Qed.

Lemma view_inv_init : inv init.
Proof. split; simpl; [done|by intros [? [=]]|by intros _ [? [=]]]. Qed.

Lemma view_inv_stable : stable inv.
Proof.
  intros s ev s' [Hsize Hh Hp]. destruct ev as [e|w h].
  - intros (c' & Hc' & ->)%step_camera. apply mobile_step_video in Hc'.
    destruct e as [k|k| |]; destruct Hc' as [Hm Hs]; split; simpl; rewrite ?Hm, ?Hs;
      try done; try (by intros [? [=]]); try (intros [?|[=]]; by auto);
      unfold bind_stream; destruct (Mobile.mounted (camera s)); simpl; try done;
      by intros _ [? [=]].
  - intros [(Ha & ? & ?) ->]%step_metadata.
    apply awaiting_metadata_true in Ha as (sid & Hsrc & _ & _).
    assert (onloadedmetadata (video_el s) = true) as Hon by (apply Hh; by rewrite Hsrc).
    split; simpl; unfold loadedmetadata; rewrite Hon; simpl.
    + intros w' h'. destruct (Mobile.mounted (camera s)); simpl; by intros [= <- <-].
    + by destruct (Mobile.mounted (camera s)).
    + destruct (Mobile.mounted (camera s)); simpl; [done|]. by intros [->|[=]].
Qed.

Lemma reachable_inv s : reachable s → inv s.
Proof. apply invariant; [apply view_inv_init|apply view_inv_stable]. Qed.

(** ** Progress *)

Lemma owed_exists s : (∃ ev, owed s ev) ↔ (0 < work s)%nat.
Proof.
  unfold work. split.
  - intros [[e|w h] Hev]; simpl in Hev.
    + assert (0 < pending_runs (camera s))%nat by (apply settles_exists; eauto). lia.
    + destruct Hev as [-> _]. lia.
  - intros Hw. destruct (awaiting_metadata s) eqn:Ha.
    + by exists (LoadedMetadata 1 1).
    + assert (0 < pending_runs (camera s))%nat as [e He]%settles_exists by lia.
      by exists (Camera e).
Qed.

#[export] Instance owed_exists_dec s : Decision (∃ ev, owed s ev).
Proof. refine (cast_if (decide (0 < work s)%nat)); by rewrite owed_exists. Defined.

(** Every owed event can be delivered and leaves less work. *)
Lemma owed_step s ev :
  owed s ev → ∃ s', step s ev = Some s' ∧ (work s' < work s)%nat.
Proof.
  destruct ev as [e|w h]; simpl.
  - intros (c' & Hc' & Hn)%settles_step. eexists. split; [apply step_camera; eauto|].
    unfold work. simpl. rewrite <-Hn.
    destruct (awaiting_metadata _), (awaiting_metadata s); lia.
  - intros Hev. eexists. split; [by apply step_metadata|].
    destruct Hev as [Ha _]. unfold work. rewrite Ha.
    unfold awaiting_metadata, loadedmetadata. simpl.
    destruct (Mobile.srcObject (camera s)); [|lia].
    rewrite (bool_decide_eq_false_2 (_ = None)); [rewrite andb_false_r; lia|].
    by destruct (onloadedmetadata (video_el s) && Mobile.mounted (camera s)).
Qed.

Lemma at_rest_quiescent s : inv s → quiescent owed s → at_rest s.
Proof.
  intros Hinv Hq. split.
  - intros k. destruct (Mobile.pending (camera s) k) as [e|] eqn:He; [|done].
    destruct (Hq (Camera (Mobile.Resolve k))). simpl. by rewrite He.
  - intros sid Hsrc Hlive.
    assert (is_Some (metadata (video_el s))) as Hmeta.
    { destruct (metadata (video_el s)) eqn:Hm; [done|].
      destruct (Hq (LoadedMetadata 1 1)). split; [|done].
      apply awaiting_metadata_true. eauto. }
    split; [done|]. intros Hm. by apply (inv_playing s Hinv).
Qed.

(** ** Sequential use *)

Lemma seq_inv_owed f s ev s' :
  seq_inv f s → owed s ev → step s ev = Some s' → seq_inv f s'.
Proof.
  intros (Hinv & Hwf & Hseq & Hshow & Hm & Hf) Hev Hstep.
  split; [by eapply view_inv_stable|]. destruct ev as [e|w h].
  - apply step_camera in Hstep as (c' & Hc' & ->). simpl in *.
    assert (Mobile.seq_step (camera s) e = Some c') as Hs by by rewrite settles_seq_step.
    split_and!.
    + by eapply Mobile.wf_stable.
    + by eapply Mobile.seq_inv_stable.
    + by eapply shows_current_stable.
    + apply mobile_step_video in Hc'.
      apply settles_inv in Hev as (k & e0 & _ & [-> | ->]); destruct Hc'; congruence.
    + apply settles_inv in Hev as (k & e0 & He0 & [-> | ->]); simpl in Hc';
        rewrite He0 in Hc'; by simplify_eq/=.
  - apply step_metadata in Hstep as [_ ->]. by split_and!.
Qed.

(** At rest under sequential use the chosen camera shows or has failed. *)
Lemma showing_at_rest f s : seq_inv f s → at_rest s → showing f s.
Proof.
  intros (Hinv & Hwf & Hseq & Hshow & Hm & <-) [Hq Hrest].
  destruct (Mobile.wf_current _ Hwf) as (cur & Hcur & Hc & <-).
  rewrite Hm in Hc. simpl in Hc.
  assert (Mobile.settled cur = true) as Hs.
  { destruct (Mobile.settled cur) eqn:Hs; [done|].
    specialize (Hq (pred (length (Mobile.effects (camera s))))).
    rewrite (proj2 (Mobile.pending_Some _ _ cur)) in Hq; [done|].
    by rewrite <-Mobile.current_lookup. }
  destruct (ready_settled _ cur Hwf Hseq Hshow Hcur Hc Hs) as [(sid & Ha & Hl & Hsrc)|?];
    [left|by right].
  destruct (Hrest sid Hsrc) as [[[w h] Hmeta] Hp]; [set_solver|].
  exists sid, w, h. split_and!; auto.
Qed.

Lemma seq_reachable_inv s :
  @reachable _ _ sequential s →
  inv s ∧ Mobile.wf (camera s) ∧ Mobile.seq_inv (camera s) ∧ shows_current (camera s).
Proof.
  apply (@invariant _ _ sequential
           (λ s, inv s ∧ Mobile.wf (camera s) ∧ Mobile.seq_inv (camera s) ∧
                 shows_current (camera s))).
  - split_and!; [apply view_inv_init|apply Mobile.wf_init|apply Mobile.seq_inv_init|
                 apply shows_current_init].
  - intros s0 ev s1 (Hinv & Hwf & Hseq & Hshow) Hstep.
    change (seq_step s0 ev = Some s1) in Hstep.
    split; [eapply view_inv_stable; [done|by apply view_seq_step]|].
    destruct ev as [e|w h].
    + unfold seq_step in Hstep. simpl in Hstep.
      apply bind_Some in Hstep as (c' & Hc' & [= <-]). simpl. split_and!.
      * eapply Mobile.wf_stable; [done|by apply Mobile.seq_step_step].
      * by eapply Mobile.seq_inv_stable.
      * by eapply shows_current_stable.
    + apply view_seq_step, step_metadata in Hstep as [_ ->]. by split_and!.
Qed.

(** ** The photo *)

(** The photo of an element: the frame at the size of the stream once the
    metadata has loaded, and the blank frame at 640 by 480 before. *)
Lemma capturePhoto_Some `{Canvas Frame} s (current : Frame) ctx d :
  inv s →
  capturePhoto s current ctx = Some d ↔
  Mobile.mounted (camera s) = true ∧ ctx = true ∧
  d = CapString match metadata (video_el s) with
                | Some (w, h) => canvas_toDataURL current w h
                | None => canvas_toDataURL blank 640 480
                end.
Proof.
  intros Hinv. unfold capturePhoto. rewrite Mobile.mobile_capture_Some. unfold snapshot.
  destruct (metadata (video_el s)) as [[w h]|] eqn:Hmeta; simpl; [|done].
  destruct (inv_size s Hinv w h Hmeta). unfold or_number.
  by rewrite !decide_False by lia.
Qed.

End view.

(** * The theorems of the file *)

(** The video inevitably plays what is bound to it: from every
    reachable state, when the pending calls of [getUserMedia] settle and the
    metadata of the bound stream loads, in whatever order, no call is
    pending after finitely many events, and a live stream in the video
    element has its size and is playing while the component is mounted.  No
    sequence of such events is longer than twice the number of pending calls
    plus one. *)
Theorem view_video_plays (s : View.state) :
  reachable s →
  inevitable View.owed View.at_rest s ∧
  ∀ evs, owed_run View.owed evs s → (length evs ≤ View.work s)%nat.
Proof.
  intros Hinv%View.reachable_inv.
  assert (∀ s0 ev, View.inv s0 → View.owed s0 ev →
            ∃ s', m_step s0 ev = Some s' ∧ View.inv s' ∧ (View.work s' < View.work s0)%nat)
    as Hstep.
  { intros s0 ev H0 (s' & Hs' & Hw)%View.owed_step. exists s'.
    split_and!; [done|by eapply View.view_inv_stable|done]. }
  split.
  - eapply inevitable_mono;
      [|by apply (inevitable_measure View.owed View.work View.inv); [|intros; apply _|]].
    intros s' [??]. by apply View.at_rest_quiescent.
  - intros evs. by apply (owed_run_length View.owed View.work View.inv).
Qed.

Lemma view_video_plays_witness :
  inevitable View.owed View.at_rest View.init ∧
  ∀ evs, owed_run View.owed evs View.init → (length evs ≤ View.work View.init)%nat.
Proof. apply view_video_plays. by exists []. Defined.

(** C16.  Under sequential use the user inevitably sees the camera that was
    chosen: from every state of a mounted component, once the pending call
    of [getUserMedia] settles and the metadata loads, the stream of the
    camera that faces the chosen way is the only live stream, is bound to
    the video element with its size known, and is playing; or the
    acquisition has failed and no stream is live. *)
Theorem view_camera_shows (s : View.state) :
  @reachable _ _ View.sequential s → Mobile.mounted (View.camera s) = true →
  @inevitable _ _ View.sequential View.owed
    (View.showing (Mobile.facingMode (View.camera s))) s.
Proof.
  intros (Hinv & Hwf & Hseq & Hshow)%View.seq_reachable_inv Hm.
  set (f := Mobile.facingMode (View.camera s)).
  assert (View.seq_inv f s) as HI by done.
  assert (∀ s0 ev, View.seq_inv f s0 → View.owed s0 ev →
            ∃ s', View.seq_step s0 ev = Some s' ∧ View.seq_inv f s' ∧
                  (View.work s' < View.work s0)%nat) as Hstep.
  { intros s0 ev H0 Hev. destruct (View.owed_step s0 ev Hev) as (s' & Hs' & Hw).
    exists s'. split_and!; [by rewrite View.owed_seq_step|by eapply View.seq_inv_owed|done]. }
  eapply inevitable_mono;
    [|by apply (inevitable_measure (Machine0 := View.sequential) View.owed View.work
                  (View.seq_inv f)); [|intros; apply _|]].
  intros s' [Hs' Hq]. apply View.showing_at_rest; [done|].
  apply View.at_rest_quiescent; [apply Hs'|done].
Qed.

Lemma view_camera_shows_witness :
  @inevitable _ _ View.sequential View.owed
    (View.showing (Mobile.facingMode (View.camera View.init))) View.init.
Proof. apply view_camera_shows; [by exists []|done]. Defined.

(** The size and the content of a photo: once the metadata of the
    stream has loaded the photo is the current frame at the size of the
    stream, and before that it is the blank frame at 640 by 480 pixels; in
    both cases the canvas has pixels, so the photo normalises and is
    uploaded as the image it encodes. *)
Theorem view_capture_size `{Canvas Frame} (s : View.state) (current : Frame) (ctx : bool) d :
  reachable s → View.capturePhoto s current ctx = Some d →
  ∃ frame w h,
    (frame, w, h) = match metadata (View.video_el s) with
                    | Some (w, h) => (current, w, h)
                    | None => (blank, 640, 480)
                    end ∧
    d = CapString (canvas_toDataURL frame w h) ∧
    build_form d = Ok [(js "image",
                        FormFile (mkBlob (encode_jpeg frame w h) (js "image/jpeg") None)
                                 (js "captured.jpg"))].
Proof.
  intros Hinv%View.reachable_inv (_ & _ & ->)%View.capturePhoto_Some; [|done].
  destruct (metadata (View.video_el s)) as [[w h]|] eqn:Hmeta.
  - destruct (View.inv_size s Hinv w h Hmeta). exists current, w, h.
    split_and!; [done..|]. apply build_form_canvas_frame; lia.
  - exists blank, 640, 480. split_and!; [done..|]. by apply build_form_canvas_frame.
Qed.

Lemma view_capture_size_witness :
  ∃ frame w h,
    (frame, w, h) = match metadata (View.video_el View.started) with
                    | Some (w, h) => ([300; 7], w, h)
                    | None => (blank, 640, 480)
                    end ∧
    CapString (canvas_toDataURL [300; 7] 1280 720) = CapString (canvas_toDataURL frame w h) ∧
    build_form (CapString (canvas_toDataURL [300; 7] 1280 720))
    = Ok [(js "image",
           FormFile (mkBlob (encode_jpeg frame w h) (js "image/jpeg") None) (js "captured.jpg"))].
Proof.
  apply (view_capture_size View.started [300; 7] true
           (CapString (canvas_toDataURL [300; 7] 1280 720))); [|done].
  exists [View.Camera (Mobile.Resolve 0); View.LoadedMetadata 1280 720]. by vm_compute.
Defined.

(** A photo can be taken without a camera: when the camera was
    refused, the button of [capturePhoto] is still there, and a click
    uploads a blank image of 640 by 480 pixels. *)
Theorem view_capture_refused `{Canvas Frame} (current : Frame) :
  run [View.Camera (Mobile.Reject 0)] View.init = Some View.refused ∧
  Mobile.live (View.camera View.refused) = ∅ ∧
  View.capturePhoto View.refused current true
    = Some (CapString (canvas_toDataURL blank 640 480)) ∧
  build_form (CapString (canvas_toDataURL blank 640 480))
    = Ok [(js "image",
           FormFile (mkBlob (encode_jpeg blank 640 480) (js "image/jpeg") None)
                    (js "captured.jpg"))].
Proof.
  split_and!; [by vm_compute..| |by apply build_form_canvas_frame].
  apply View.capturePhoto_Some; [|done].
  apply View.reachable_inv. exists [View.Camera (Mobile.Reject 0)]. by vm_compute.
Qed.

End View.
