(* ===== verification/EffectTree.v ===== *)
(** The effect of [MobileCamera] in direct style: lines 33-65 of
    [src/frontend/app/analyse/page.tsx] as interaction trees.

    [MobileCamera.v] and [MobileView.v] model the arrival of a stream, the
    refusal of the camera and the cleanup of a run of the effect as one
    update of the state each ([Mobile.on_resolved], [View.bind_stream],
    [Mobile.on_rejected], [Mobile.cleanup]).  This file translates the two
    functions of the effect statement by statement: [startCamera] and the
    cleanup function are trees whose nodes are the assignments and calls of
    the source, and a handler gives each of them its meaning on the state of
    the component and its video element.  The variable [activeStream] is
    local to a run of the effect and shared by its two functions: the
    handler is that of run [k], and reads and writes the variable of that
    run.

    The theorems relate the two models.  [startCamera] awaits once, at the
    very start, and neither reads nor writes the state before; so its tree
    is interpreted from the state in which the promise of [getUserMedia]
    settles, and the handler of the await delivers the settlement.  The
    statements of lines 45-51 then perform the step [Resolve k] of
    [View.machine], line 54 the step [Reject k], and lines 61-63 followed by
    React's bookkeeping the cleanup of [Mobile.v].  So the steps of the
    machines are the source, statement by statement. *)

From Stdlib Require Import ZArith Lia.
From stdpp Require Import prelude gmap.
From ITree Require Import ITree ITreeFacts Events.State Events.StateFacts.
From S2P Require Import Prelude JsString Base64 Normalizer Upload Machine Progress.
From S2P Require Import Canvas Media MobileCamera MobileProgress MobileView.

Module Effect.

(** What the two functions of the effect do, indexed by what they get
    back.  [getUserMedia] resolves to a stream or rejects. *)
Variant effectE : Type → Type :=
| GetUserMedia (facingMode : facing) (width height : Z) : effectE (unit + nat)
| SetActiveStream (mediaStream : nat) : effectE unit
| GetActiveStream : effectE (option nat)
| VideoRefCurrent : effectE bool
| SetSrcObject (mediaStream : nat) : effectE unit
| SetOnloadedmetadata : effectE unit
| SetStream (mediaStream : nat) : effectE unit
| ConsoleError : effectE unit
| StopTracks (stream : nat) : effectE unit.

(** [t; u] *)
Definition seq {R} (t : itree effectE unit) (u : itree effectE R) : itree effectE R :=
  ITree.bind t (λ _, u).

(** Lines 36-56. *)
Definition startCamera (facingMode : facing) : itree effectE unit :=
  ITree.bind (ITree.trigger (GetUserMedia facingMode 640 480)) (λ r,
    match r with
    | inr mediaStream =>
        seq (ITree.trigger (SetActiveStream mediaStream))
          (seq (ITree.bind (ITree.trigger VideoRefCurrent) (λ current,
                  if current : bool then
                    seq (ITree.trigger (SetSrcObject mediaStream))
                        (ITree.trigger SetOnloadedmetadata)
                  else Ret tt))
             (ITree.trigger (SetStream mediaStream)))
    | inl _ => ITree.trigger ConsoleError
    end).

(** Lines 60-64: the function that the effect returns. *)
Definition cleanup_function : itree effectE unit :=
  ITree.bind (ITree.trigger GetActiveStream) (λ activeStream,
    match activeStream with
    | Some stream => ITree.trigger (StopTracks stream)
    | None => Ret tt
    end).

(** ** The meaning of the statements *)

Definition set_activeStream (a : option nat) (e : Mobile.effect) : Mobile.effect :=
  {| Mobile.eff_facing := Mobile.eff_facing e; Mobile.activeStream := a;
     Mobile.cleaned := Mobile.cleaned e; Mobile.settled := Mobile.settled e |}.

Definition set_settled (e : Mobile.effect) : Mobile.effect :=
  {| Mobile.eff_facing := Mobile.eff_facing e; Mobile.activeStream := Mobile.activeStream e;
     Mobile.cleaned := Mobile.cleaned e; Mobile.settled := true |}.

(** The component with other runs of the effect, other streams, another
    bound stream, other live streams, another count of errors. *)
Definition with_effects (effects : list Mobile.effect) (c : Mobile.state) : Mobile.state :=
  {| Mobile.mounted := Mobile.mounted c; Mobile.facingMode := Mobile.facingMode c;
     Mobile.stream := Mobile.stream c; Mobile.srcObject := Mobile.srcObject c;
     Mobile.effects := effects; Mobile.live := Mobile.live c;
     Mobile.next_stream := Mobile.next_stream c; Mobile.errors := Mobile.errors c |}.

Definition with_stream (stream : option nat) (c : Mobile.state) : Mobile.state :=
  {| Mobile.mounted := Mobile.mounted c; Mobile.facingMode := Mobile.facingMode c;
     Mobile.stream := stream; Mobile.srcObject := Mobile.srcObject c;
     Mobile.effects := Mobile.effects c; Mobile.live := Mobile.live c;
     Mobile.next_stream := Mobile.next_stream c; Mobile.errors := Mobile.errors c |}.

Definition with_srcObject (srcObject : option nat) (c : Mobile.state) : Mobile.state :=
  {| Mobile.mounted := Mobile.mounted c; Mobile.facingMode := Mobile.facingMode c;
     Mobile.stream := Mobile.stream c; Mobile.srcObject := srcObject;
     Mobile.effects := Mobile.effects c; Mobile.live := Mobile.live c;
     Mobile.next_stream := Mobile.next_stream c; Mobile.errors := Mobile.errors c |}.

Definition with_live (live : gset nat) (next_stream : nat) (c : Mobile.state) : Mobile.state :=
  {| Mobile.mounted := Mobile.mounted c; Mobile.facingMode := Mobile.facingMode c;
     Mobile.stream := Mobile.stream c; Mobile.srcObject := Mobile.srcObject c;
     Mobile.effects := Mobile.effects c; Mobile.live := live;
     Mobile.next_stream := next_stream; Mobile.errors := Mobile.errors c |}.

Definition with_errors (errors : nat) (c : Mobile.state) : Mobile.state :=
  {| Mobile.mounted := Mobile.mounted c; Mobile.facingMode := Mobile.facingMode c;
     Mobile.stream := Mobile.stream c; Mobile.srcObject := Mobile.srcObject c;
     Mobile.effects := Mobile.effects c; Mobile.live := Mobile.live c;
     Mobile.next_stream := Mobile.next_stream c; Mobile.errors := errors |}.

Definition on_camera (f : Mobile.state → Mobile.state) (s : View.state) : View.state :=
  {| View.camera := f (View.camera s); View.video_el := View.video_el s |}.

Definition on_video (f : playback → playback) (s : View.state) : View.state :=
  {| View.camera := View.camera s; View.video_el := f (View.video_el s) |}.

(** The promise of run [k] settles: the browser has started the stream
    that it hands over, which is the next fresh one, or it has refused. *)
Definition promise_settles (k : nat) (r : unit + nat) (c : Mobile.state) : Mobile.state :=
  let c1 := with_effects (alter set_settled k (Mobile.effects c)) c in
  match r with
  | inr mediaStream => with_live ({[mediaStream]} ∪ Mobile.live c1) (S mediaStream) c1
  | inl _ => c1
  end.

(** The statements in run [k] of the effect, whose promise settles as [r].
    [videoRef.current] is set while the component is mounted; a state
    update of an unmounted component is dropped. *)
Definition handle (k : nat) (r : unit + nat) : effectE ~> Monads.stateT View.state (itree void1) :=
  λ _ e s,
    match e with
    | GetUserMedia _ _ _ => Ret (on_camera (promise_settles k r) s, r)
    | SetActiveStream mediaStream =>
        Ret (on_camera (λ c, with_effects
                               (alter (set_activeStream (Some mediaStream)) k (Mobile.effects c))
                               c) s, tt)
    | GetActiveStream => Ret (s, Mobile.effects (View.camera s) !! k ≫= Mobile.activeStream)
    | VideoRefCurrent => Ret (s, Mobile.mounted (View.camera s))
    | SetSrcObject mediaStream =>
        Ret (on_video set_srcObject (on_camera (with_srcObject (Some mediaStream)) s), tt)
    | SetOnloadedmetadata => Ret (on_video set_onloadedmetadata s, tt)
    | SetStream mediaStream =>
        Ret (on_camera (λ c, if Mobile.mounted c then with_stream (Some mediaStream) c else c) s,
             tt)
    | ConsoleError => Ret (on_camera (λ c, with_errors (S (Mobile.errors c)) c) s, tt)
    | StopTracks stream =>
        Ret (on_camera (λ c, with_live (Mobile.live c ∖ {[stream]}) (Mobile.next_stream c) c) s,
             tt)
    end.

(** React calls the cleanup function of a run once: afterwards the run is
    not the current one any more. *)
Definition react_cleaned (k : nat) (c : Mobile.state) : Mobile.state :=
  with_effects (alter Mobile.mark_cleaned k (Mobile.effects c)) c.

(** The event of [View.machine] that a settlement of run [k] is. *)
Definition settlement_event (k : nat) (r : unit + nat) : View.event :=
  View.Camera (match r with inr _ => Mobile.Resolve k | inl _ => Mobile.Reject k end).

(** Lines 45-51 from the state in which the stream arrives. *)
Definition after_stream (k mediaStream : nat) (s : View.state) : View.state :=
  let s1 := on_camera (promise_settles k (inr mediaStream)) s in
  let s2 := on_camera (λ c, with_effects
                              (alter (set_activeStream (Some mediaStream)) k (Mobile.effects c))
                              c) s1 in
  let s3 := if Mobile.mounted (View.camera s2) then
              on_video set_onloadedmetadata
                (on_video set_srcObject (on_camera (with_srcObject (Some mediaStream)) s2))
            else s2 in
  on_camera (λ c, if Mobile.mounted c then with_stream (Some mediaStream) c else c) s3.

(** Line 54 from the state in which the promise rejects. *)
Definition after_refusal (k : nat) (s : View.state) : View.state :=
  on_camera (λ c, with_errors (S (Mobile.errors c)) c)
    (on_camera (promise_settles k (inl tt)) s).

(** Lines 61-63 in run [k]. *)
Definition after_cleanup (k : nat) (s : View.state) : View.state :=
  match Mobile.effects (View.camera s) !! k ≫= Mobile.activeStream with
  | Some stream =>
      on_camera (λ c, with_live (Mobile.live c ∖ {[stream]}) (Mobile.next_stream c) c) s
  | None => s
  end.

(** * Properties *)

Section effect_props.
Implicit Types (s : View.state) (c : Mobile.state) (e : Mobile.effect) (k : nat).

(** ** Running a statement *)

Lemma run_trigger {X R} k r (ev : effectE X) (u : X → itree effectE R) s s' x :
  handle k r _ ev s = Ret (s', x) →
  interp_state (handle k r) (ITree.bind (ITree.trigger ev) u) s
  ≈ interp_state (handle k r) (u x) s'.
Proof.
  intros Hev. rewrite interp_state_bind, interp_state_trigger, Hev, bind_ret_l. reflexivity.
Qed.

Lemma run_last {X} k r (ev : effectE X) s s' x :
  handle k r _ ev s = Ret (s', x) →
  interp_state (handle k r) (ITree.trigger ev) s ≈ Ret (s', x).
Proof. intros Hev. rewrite interp_state_trigger, Hev. reflexivity. Qed.

(** One statement is executed. *)
#[local] Ltac statement := etrans; [by apply run_trigger|]; cbv beta.

(** ** The updates of a run *)

Lemma alter_pending c k e (f : Mobile.effect → Mobile.effect) :
  Mobile.pending c k = Some e → alter f k (Mobile.effects c) = <[k := f e]> (Mobile.effects c).
Proof.
  intros [He _]%Mobile.pending_Some. rewrite list_insert_alter.
  apply list_alter_ext; [|done]. intros e' He'. congruence.
Qed.

Lemma alter_current c e (f : Mobile.effect → Mobile.effect) :
  Mobile.current c = Some e →
  alter f (pred (length (Mobile.effects c))) (Mobile.effects c)
  = <[pred (length (Mobile.effects c)) := f e]> (Mobile.effects c).
Proof.
  rewrite Mobile.current_lookup. intros He. rewrite list_insert_alter.
  apply list_alter_ext; [|done]. intros e' He'. congruence.
Qed.

(** ** The states that the statements reach *)

Lemma settled_rejected s k e :
  Mobile.pending (View.camera s) k = Some e →
  View.step s (settlement_event k (inl tt))
  = Some (after_refusal k s).
Proof.
  intros He. unfold View.step, View.step_with, settlement_event. cbn [Mobile.step].
  rewrite He. cbn [fmap option_fmap option_map mbind option_bind].
  unfold after_refusal, on_camera, promise_settles, with_errors, with_effects, Mobile.on_rejected. cbn.
  by rewrite (alter_pending _ _ e).
Qed.

Lemma settled_resolved s k e :
  Mobile.pending (View.camera s) k = Some e →
  View.step s (settlement_event k (inr (Mobile.next_stream (View.camera s))))
  = Some (after_stream k (Mobile.next_stream (View.camera s)) s).
Proof.
  intros He. unfold View.step, View.step_with, settlement_event. cbn [Mobile.step].
  rewrite He. cbn [fmap option_fmap option_map mbind option_bind].
  unfold after_stream, on_camera, on_video, promise_settles, with_live, with_effects,
    with_stream, with_srcObject, Mobile.on_resolved, View.bind_stream. cbn.
  rewrite list_alter_alter_eq, (alter_pending _ _ e) by done.
  by destruct (Mobile.mounted (View.camera s)).
Qed.

(** The cleanup of [Mobile.v] is the cleanup function of the current run,
    and React's bookkeeping. *)
Lemma cleaned_up s e :
  Mobile.current (View.camera s) = Some e →
  on_camera (react_cleaned (pred (length (Mobile.effects (View.camera s)))))
    (after_cleanup (pred (length (Mobile.effects (View.camera s)))) s)
  = on_camera Mobile.cleanup s.
Proof.
  intros He. unfold after_cleanup, on_camera, react_cleaned, Mobile.cleanup. rewrite He.
  pose proof He as Hk. rewrite Mobile.current_lookup in Hk. rewrite Hk. cbn [mbind option_bind].
  destruct (Mobile.activeStream e) as [stream|] eqn:Ha;
    unfold with_effects, with_live; cbn [View.camera View.video_el Mobile.effects];
    by rewrite (alter_current (View.camera s) e Mobile.mark_cleaned He).
Qed.

(** ** Running the functions *)

Lemma startCamera_resolved k mediaStream f s :
  interp_state (handle k (inr mediaStream)) (startCamera f) s
  ≈ Ret (after_stream k mediaStream s, tt).
Proof.
  unfold startCamera, seq. do 2 statement. rewrite bind_bind. statement.
  unfold after_stream. cbn [on_camera View.camera].
  destruct (Mobile.mounted _) eqn:Hm.
  - rewrite bind_bind. do 2 statement. by apply run_last.
  - rewrite bind_ret_l. by apply run_last.
Qed.

Lemma startCamera_rejected k f s :
  interp_state (handle k (inl tt)) (startCamera f) s ≈ Ret (after_refusal k s, tt).
Proof. unfold startCamera. statement. by apply run_last. Qed.

Lemma cleanup_function_run k r s :
  interp_state (handle k r) cleanup_function s ≈ Ret (after_cleanup k s, tt).
Proof.
  unfold cleanup_function, after_cleanup. statement.
  destruct (_ ≫= _) as [stream|]; [by apply run_last|]. by rewrite interp_state_ret.
Qed.

End effect_props.

(** * The theorems of the file *)

(** C17.  The steps of the machine of [MobileCamera] are the statements of
    its effect.  For every run of the effect: when its promise of
    [getUserMedia] settles, with the stream that the browser has started or
    with a refusal, executing [startCamera] statement by statement from the
    state in which the promise settles terminates and reaches exactly the
    state of the step [Resolve] or [Reject] of [View.machine], for the
    component and for its video element; and executing the cleanup function
    of the current run, after which React retires the run, reaches exactly
    the state of [Mobile.cleanup]. *)
Theorem effect_statements (s : View.state) (k : nat) (e : Mobile.effect) (r : unit + nat) :
  Mobile.effects (View.camera s) !! k = Some e →
  (Mobile.settled e = false →
   match r with
   | inr mediaStream => mediaStream = Mobile.next_stream (View.camera s)
   | inl _ => True
   end →
   ∃ s', View.step s (settlement_event k r) = Some s' ∧
         interp_state (handle k r) (startCamera (Mobile.eff_facing e)) s ≈ Ret (s', tt)) ∧
  (k = pred (length (Mobile.effects (View.camera s))) →
   ∃ s1, interp_state (handle k r) cleanup_function s ≈ Ret (s1, tt) ∧
         on_camera (react_cleaned k) s1 = on_camera Mobile.cleanup s).
Proof.
  intros He. split.
  - intros Hs Hr. assert (Mobile.pending (View.camera s) k = Some e) as Hp
      by (by apply Mobile.pending_Some).
    destruct r as [[]|mediaStream]; [|subst mediaStream].
    + exists (after_refusal k s).
      split; [exact (settled_rejected s k e Hp)|exact (startCamera_rejected k _ s)].
    + exists (after_stream k (Mobile.next_stream (View.camera s)) s).
      split; [exact (settled_resolved s k e Hp)|exact (startCamera_resolved k _ _ s)].
  - intros ->. exists (after_cleanup (pred (length (Mobile.effects (View.camera s)))) s).
    split; [exact (cleanup_function_run _ r s)|]. apply (cleaned_up s e).
    by rewrite Mobile.current_lookup.
Qed.

Lemma effect_statements_witness :
  (Mobile.settled (Mobile.start_effect Environment) = false →
   0 = Mobile.next_stream (View.camera View.init) →
   ∃ s', View.step View.init (settlement_event 0 (inr 0)) = Some s' ∧
         interp_state (handle 0 (inr 0))
           (startCamera (Mobile.eff_facing (Mobile.start_effect Environment))) View.init
         ≈ Ret (s', tt)) ∧
  (0 = pred (length (Mobile.effects (View.camera View.init))) →
   ∃ s1, interp_state (handle 0 (inr 0)) cleanup_function View.init ≈ Ret (s1, tt) ∧
         on_camera (react_cleaned 0) s1 = on_camera Mobile.cleanup View.init).
Proof.
  exact (effect_statements View.init 0 (Mobile.start_effect Environment) (inr 0) eq_refl).
Defined.

End Effect.
