(* ===== verification/MobileGuard.v ===== *)
(** [MobileCamera] under React's strict mode, and with the guard that the
    specification asks for.

    Two variations on [Module Mobile] of [MobileCamera.v], which models
    lines 28-82 of [src/frontend/app/analyse/page.tsx].

    - In strict mode React runs every effect twice on mount: the first run,
      its cleanup, and the second run.  The first call of [getUserMedia] is
      then pending when its cleanup executes, with no action of the user:
      [strict_init] is the component after such a mount.
    - The specification asks for an explicit guard: release before
      reacquire.  [Module Guarded] is the component with the continuation of
      [startCamera] changed in one place: a stream that arrives after the
      cleanup of its run is stopped at once and bound to nothing.  Everything
      else is the code as it is.

    The theorems: in strict mode the first stream of every mount is never
    stopped; the guarded component has at most one live stream under every
    interleaving, none after unmount, and the live stream is the one in the
    video element; and under sequential use the guard changes nothing. *)

From Stdlib Require Import ZArith Lia.
From stdpp Require Import prelude gmap.
From S2P Require Import Prelude Machine Media MobileCamera.

Import Mobile.

(** React's strict mode on mount: after the first run of the effect React
    calls the cleanup of that run (lines 60-64) and runs the effect again
    (lines 34-58), with the same [facingMode]. *)
Definition strict_remount (s : state) : state :=
  let s1 := cleanup s in
  {| mounted := mounted s1; facingMode := facingMode s1; stream := stream s1;
     srcObject := srcObject s1;
     effects := effects s1 ++ [start_effect (facingMode s1)];
     live := live s1; next_stream := next_stream s1; errors := errors s1 |}.

(** The component after a mount in strict mode: the first run of the effect
    is cleaned up while its promise is pending, and the second run is the
    current one. *)
Definition strict_init : state := strict_remount init.

Module Guarded.

(** Lines 45-52 with the guard: if the cleanup of the run has executed, the
    tracks of the stream are stopped and the continuation returns. *)
Definition on_resolved (s : state) (k : nat) (e : effect) : state :=
  if cleaned e then
    {| mounted := mounted s; facingMode := facingMode s; stream := stream s;
       srcObject := srcObject s;
       effects := <[k := mark_rejected e]> (effects s);
       live := live s; next_stream := S (next_stream s); errors := errors s |}
  else Mobile.on_resolved s k e.

Definition step (s : state) (ev : event) : option state :=
  match ev with
  | Resolve k => on_resolved s k <$> pending s k
  | _ => Mobile.step s ev
  end.

#[export] Instance machine : Machine state event := {| m_init := init; m_step := step |}.

(** The component after a mount in strict mode. *)
Definition strict : Machine state event := {| m_init := strict_init; m_step := step |}.

(** The stream that the current run holds and has not released. *)
Definition held_now (s : state) : gset nat :=
  from_option (λ e, if cleaned e then ∅ else held (activeStream e)) ∅ (current s).

(** What holds of every reachable state of the guarded component: the
    current run is the only one that may not be cleaned up, and it is
    cleaned up exactly when the component is unmounted; the live streams are
    the stream of the current run; a run whose promise is pending holds no
    stream; while the component is mounted the stream of the current run is
    the one in the video element. *)
Record inv (s : state) : Prop := mkInv {
  g_current : ∃ e, current s = Some e ∧ cleaned e = negb (mounted s);
  g_old : ∀ k e, effects s !! k = Some e → S k < length (effects s) → cleaned e = true;
  g_live : live s = held_now s;
  g_pending : ∀ k e, effects s !! k = Some e → settled e = false → activeStream e = None;
  g_shown : ∀ e sid, current s = Some e → cleaned e = false → activeStream e = Some sid →
                     srcObject s = Some sid;
}.

End Guarded.

(** * Properties *)

Section strict.

(** The cleanup of the first run finds no stream: the first run is marked
    and stays pending, the second run is appended. *)
Lemma strict_init_effects :
  strict_init =
  {| mounted := true; facingMode := Environment; stream := None; srcObject := None;
     effects := [mark_cleaned (start_effect Environment); start_effect Environment];
     live := ∅; next_stream := 0; errors := 0 |}.
Proof. reflexivity. Qed.

Lemma wf_strict_init : wf strict_init.
Proof.
  rewrite strict_init_effects. split; simpl.
  - by eexists.
  - intros [|[|k]] e; simpl; [by intros [= <-]|lia|done].
  - intros [|[|[|k]]] e sid; simpl; naive_solver.
  - set_solver.
  - intros [|[|[|k]]] e sid; simpl; naive_solver.
  - intros [|[|[|k1]]] [|[|[|k2]]]; simpl; naive_solver.
  - set_solver.
Qed.

End strict.

Section guarded.
Import Guarded.
Implicit Types (s : state) (e cur : effect) (k sid : nat).

Lemma held_now_snoc s olds cur :
  effects s = olds ++ [cur] →
  held_now s = if cleaned cur then ∅ else held (activeStream cur).
Proof. intros Hs. unfold held_now. by rewrite (current_snoc s olds cur Hs). Qed.

Lemma guard_inv_init : inv init.
Proof.
  split; simpl; [by eexists| |done| |].
  - intros [|k] e; simpl; [lia|done].
  - intros [|[|k]] e; simpl; naive_solver.
  - by intros e sid [= <-].
Qed.

Lemma inv_strict_init : inv strict_init.
Proof.
  rewrite strict_init_effects. split; simpl; [by eexists| |done| |].
  - intros [|[|k]] e; simpl; [by intros [= <-]|lia|done].
  - intros [|[|[|k]]] e; simpl; naive_solver.
  - by intros e sid [= <-].
Qed.

(** A run other than the last one is cleaned up, so a run that is not
    cleaned up is the current one. *)
Lemma inv_not_cleaned_current s k e :
  inv s → effects s !! k = Some e → cleaned e = false →
  k = pred (length (effects s)) ∧ current s = Some e.
Proof.
  intros Hinv Hk Hc. pose proof (lookup_lt_Some _ _ _ Hk).
  destruct (decide (S k < length (effects s))) as [Hlt|].
  { rewrite (g_old s Hinv _ _ Hk Hlt) in Hc. done. }
  assert (k = pred (length (effects s))) as -> by lia.
  by rewrite current_lookup.
Qed.

(** The settling of a run that is cleaned up changes nothing that the
    invariant reads. *)
Lemma inv_settle_cleaned s k e s' :
  inv s → pending s k = Some e → cleaned e = true →
  effects s' = <[k := mark_rejected e]> (effects s) →
  mounted s' = mounted s → live s' = live s → srcObject s' = srcObject s → inv s'.
Proof.
  intros [(cur & Hcur & Hcc) Hold Hlive Hpend Hshown] [Hk He]%pending_Some Hc Heff Hm Hl Hsrc.
  pose proof (lookup_lt_Some _ _ _ Hk) as Hlt.
  assert (∀ k' e', effects s' !! k' = Some e' →
            ∃ e0, effects s !! k' = Some e0 ∧ cleaned e' = cleaned e0 ∧
                  activeStream e' = activeStream e0 ∧
                  (settled e' = false → settled e0 = false)) as Hup.
  { intros k' e'. rewrite Heff, list_lookup_insert_Some.
    intros [(-> & <- & _)|[_ Hk']]; [exists e|exists e']; by rewrite ?He. }
  assert (∃ cur', current s' = Some cur' ∧ cleaned cur' = cleaned cur ∧
                  activeStream cur' = activeStream cur) as (cur' & Hcur' & Hcc' & Hca').
  { rewrite current_lookup in Hcur |- *. rewrite Heff, length_insert.
    destruct (lookup_lt_is_Some_2 (effects s') (pred (length (effects s)))) as [c Hc'];
      [rewrite Heff, length_insert; lia|].
    rewrite <-Heff, Hc'. destruct (Hup _ _ Hc') as (e0 & ? & ? & ? & _).
    exists c. by simplify_eq. }
  split.
  - exists cur'. by rewrite Hm, Hcc'.
  - intros k' e' (e0 & Hk' & -> & _)%Hup. rewrite Heff, length_insert. eauto.
  - rewrite Hl, Hlive. unfold held_now. rewrite Hcur, Hcur'. simpl. by rewrite Hcc', Hca'.
  - intros k' e' (e0 & Hk' & _ & -> & Hs)%Hup Hs'. eauto.
  - intros e' sid. rewrite Hcur', Hsrc. intros [= <-]. rewrite Hcc', Hca'. eauto.
Qed.

Lemma inv_on_rejected s k e : inv s → pending s k = Some e → inv (Mobile.on_rejected s k e).
Proof.
  intros Hinv Hp. destruct (cleaned e) eqn:Hc; [by eapply inv_settle_cleaned|].
  pose proof Hp as [Hk He]%pending_Some.
  destruct (inv_not_cleaned_current s k e Hinv Hk Hc) as [-> Hcur].
  assert (mounted s = true) as Hm.
  { destruct (g_current s Hinv) as (c & Hc' & Hcc). destruct (mounted s); [done|].
    rewrite Hcur in Hc'. injection Hc' as <-. by rewrite Hc in Hcc. }
  destruct Hinv as [_ Hold Hlive Hpend Hshown].
  pose proof (lookup_lt_Some _ _ _ Hk) as Hlt.
  assert (current (Mobile.on_rejected s (pred (length (effects s))) e) = Some (mark_rejected e))
    as Hnew by (by apply current_insert).
  split; simpl.
  - exists (mark_rejected e). by rewrite Hm.
  - intros k' e'. rewrite length_insert, list_lookup_insert_Some.
    intros [(<- & <- & _)|[_ Hk']] ?; [lia|eauto].
  - rewrite Hlive. unfold held_now. by rewrite Hcur, Hnew.
  - intros k' e'. rewrite list_lookup_insert_Some. intros [(_ & <- & _)|[_ Hk']]; [done|eauto].
  - intros e' sid. rewrite Hnew. intros [= <-]. simpl. eauto.
Qed.

Lemma inv_on_resolved s k e : inv s → pending s k = Some e → inv (on_resolved s k e).
Proof.
  intros Hinv Hp. unfold on_resolved.
  destruct (cleaned e) eqn:Hc; [by eapply inv_settle_cleaned|].
  pose proof Hp as [Hk He]%pending_Some.
  destruct (inv_not_cleaned_current s k e Hinv Hk Hc) as [-> Hcur].
  assert (mounted s = true) as Hm.
  { destruct (g_current s Hinv) as (c & Hc' & Hcc). destruct (mounted s); [done|].
    rewrite Hcur in Hc'. injection Hc' as <-. by rewrite Hc in Hcc. }
  destruct Hinv as [_ Hold Hlive Hpend Hshown].
  pose proof (lookup_lt_Some _ _ _ Hk) as Hlt.
  assert (current (Mobile.on_resolved s (pred (length (effects s))) e)
          = Some (mark_resolved (next_stream s) e)) as Hnew by (by apply current_insert).
  split; simpl.
  - exists (mark_resolved (next_stream s) e). by rewrite Hm.
  - intros k' e'. rewrite length_insert, list_lookup_insert_Some.
    intros [(<- & <- & _)|[_ Hk']] ?; [lia|eauto].
  - rewrite Hlive. unfold held_now. rewrite Hcur, Hnew. simpl.
    rewrite Hc, (Hpend _ _ Hk He). simpl. set_solver.
  - intros k' e'. rewrite list_lookup_insert_Some. intros [(_ & <- & _)|[_ Hk']]; [done|eauto].
  - intros e' sid. rewrite Hnew, Hm. by intros [= <-] _ [= <-].
Qed.

(** After the cleanup no stream is live and every run is cleaned up. *)
Lemma inv_cleanup s :
  inv s →
  live (cleanup s) = ∅ ∧
  (∃ olds cur, effects (cleanup s) = olds ++ [mark_cleaned cur]) ∧
  (∀ k e, effects (cleanup s) !! k = Some e → cleaned e = true) ∧
  (∀ k e, effects (cleanup s) !! k = Some e → settled e = false → activeStream e = None).
Proof.
  intros [(cur & Hcur & Hcc) Hold Hlive Hpend Hshown].
  pose proof Hcur as [olds Hs]%current_Some.
  rewrite (effects_cleanup s olds cur Hs), (live_cleanup s olds cur Hs), Hlive.
  rewrite (held_now_snoc s olds cur Hs). split_and!.
  - destruct (cleaned cur); [apply stop_stream_empty|apply stop_stream_held].
  - eauto.
  - intros k e. rewrite lookup_snoc_Some. intros [[Hlt Hk]|[_ <-]]; [|done].
    apply (Hold k e); rewrite Hs; [by apply lookup_app_l_Some|]. rewrite length_app. simpl. lia.
  - intros k e. rewrite lookup_snoc_Some. intros [[Hlt Hk]|[_ <-]]; simpl.
    + apply (Hpend k). rewrite Hs. by apply lookup_app_l_Some.
    + apply (Hpend (length olds)). rewrite Hs. by rewrite lookup_app_r, Nat.sub_diag by lia.
Qed.

Lemma inv_toggleCamera s : inv s → mounted s = true → inv (toggleCamera s).
Proof.
  intros Hinv Hmt. destruct (inv_cleanup s Hinv) as (Hl & _ & Hcl & Hpend).
  destruct (cleanup_fields s) as (Hm & _).
  assert (current (toggleCamera s) = Some (start_effect (flip (facingMode (cleanup s)))))
    as Hnew by apply last_snoc.
  split.
  - eexists. split; [exact Hnew|]. unfold toggleCamera. simpl. by rewrite Hm, Hmt.
  - intros k e. unfold toggleCamera. simpl. rewrite length_app, lookup_snoc_Some. simpl.
    intros [[_ Hk]|[-> _]] ?; [eauto|lia].
  - unfold held_now. rewrite Hnew. unfold toggleCamera. simpl. by rewrite Hl.
  - intros k e. unfold toggleCamera. simpl. rewrite lookup_snoc_Some.
    intros [[_ Hk]|[_ <-]]; [eauto|done].
  - intros e sid. rewrite Hnew. by intros [= <-].
Qed.

Lemma inv_unmount s : inv s → inv (unmount s).
Proof.
  intros Hinv. destruct (inv_cleanup s Hinv) as (Hl & (olds & cur & Hs) & Hcl & Hpend).
  assert (current (unmount s) = Some (mark_cleaned cur)) as Hnew.
  { unfold current, unmount. simpl. by rewrite Hs, last_snoc. }
  split.
  - by exists (mark_cleaned cur).
  - intros k e Hk _. exact (Hcl k e Hk).
  - unfold held_now. rewrite Hnew. exact Hl.
  - exact Hpend.
  - intros e sid. rewrite Hnew. by intros [= <-].
Qed.

Lemma guard_inv_stable s ev s' : inv s → step s ev = Some s' → inv s'.
Proof.
  intros Hinv. destruct ev as [k|k| |]; simpl.
  - intros (e & He & ->)%fmap_Some. by apply inv_on_resolved.
  - intros (e & He & ->)%fmap_Some. by apply inv_on_rejected.
  - destruct (mounted s) eqn:Hm; [|done]. intros [= <-]. by apply inv_toggleCamera.
  - destruct (mounted s) eqn:Hm; [|done]. intros [= <-]. by apply inv_unmount.
Qed.

(** The consequences of the invariant. *)
Lemma inv_one_stream s :
  inv s →
  size (live s) ≤ 1 ∧ (mounted s = false → live s = ∅) ∧
  ∀ sid, sid ∈ live s → srcObject s = Some sid.
Proof.
  intros [(cur & Hcur & Hcc) _ Hlive _ Hshown]. rewrite Hlive. unfold held_now.
  rewrite Hcur. simpl. split_and!.
  - destruct (cleaned cur); [rewrite size_empty; lia|apply size_held].
  - intros Hm. by rewrite Hcc, Hm.
  - destruct (cleaned cur) eqn:Hc; [set_solver|].
    destruct (activeStream cur) as [h|] eqn:Hh; simpl; [|set_solver].
    intros sid ->%elem_of_singleton. eauto.
Qed.

(** Under sequential use a run whose promise settles is not cleaned up, so
    the guard is not taken. *)
Lemma seq_guard_idle s k e :
  wf s → seq_inv s → pending s k = Some e → on_resolved s k e = Mobile.on_resolved s k e.
Proof.
  intros Hwf Hseq Hp. destruct (seq_pending_current s k e Hwf Hseq Hp) as (_ & Hc & _).
  unfold on_resolved. by rewrite Hc.
Qed.

End guarded.

(** * The theorems of the file *)

(** In strict mode the camera stays on after every mount: the first run of
    the effect is cleaned up while its call of [getUserMedia] is pending, so
    its stream, once it arrives, is live in every state that follows: the
    late stream of [MobileCamera.v] with no action of the user. *)
Corollary strict_mode_leaks (evs : list event) (s' : state) :
  run (Resolve 0 :: evs) strict_init = Some s' → 0 ∈ live s'.
Proof.
  intros (s1 & Hs1 & Hr)%run_cons_Some. injection Hs1 as <-.
  eapply (leaked_run 0 0), Hr.
  by apply (leaked_on_resolved strict_init 0); [apply wf_strict_init|..].
Qed.

(** C19.  The guard of the specification closes the leak: the component
    with the guarded continuation has at most one live stream in every
    reachable state, under every interleaving of the user's actions with the
    settling of the promises, no live stream once it is unmounted, and a live
    stream is the one in the video element.  The same holds after a mount in
    strict mode. *)
Theorem guarded_one_stream (s : state) :
  @reachable _ _ Guarded.machine s ∨ @reachable _ _ Guarded.strict s →
  size (live s) ≤ 1 ∧ (mounted s = false → live s = ∅) ∧
  ∀ sid, sid ∈ live s → srcObject s = Some sid.
Proof.
  intros Hr. apply inv_one_stream. destruct Hr as [Hr|Hr]; revert Hr.
  - apply (@invariant _ _ Guarded.machine Guarded.inv); [apply guard_inv_init|].
    intros s0 ev s1. apply guard_inv_stable.
  - apply (@invariant _ _ Guarded.strict Guarded.inv); [apply inv_strict_init|].
    intros s0 ev s1. apply guard_inv_stable.
Qed.

Lemma guarded_one_stream_witness :
  size (live (default init (@run _ _ Guarded.machine [Toggle; Resolve 0; Resolve 1; Unmount] init))) ≤ 1 ∧
  (mounted (default init (@run _ _ Guarded.machine [Toggle; Resolve 0; Resolve 1; Unmount] init)) = false →
   live (default init (@run _ _ Guarded.machine [Toggle; Resolve 0; Resolve 1; Unmount] init)) = ∅) ∧
  ∀ sid, sid ∈ live (default init (@run _ _ Guarded.machine [Toggle; Resolve 0; Resolve 1; Unmount] init)) →
         srcObject (default init (@run _ _ Guarded.machine [Toggle; Resolve 0; Resolve 1; Unmount] init))
         = Some sid.
Proof.
  apply guarded_one_stream. left. exists [Toggle; Resolve 0; Resolve 1; Unmount]. by vm_compute.
Defined.

(** The guard changes nothing under sequential use: in every state
    that sequential use of the component reaches, every event that the
    discipline allows has the same effect with and without the guard. *)
Theorem guarded_agrees_sequential (s : state) (ev : event) :
  @reachable _ _ sequential s → Guarded.step s ev = Mobile.step s ev.
Proof.
  intros [Hwf Hseq]%seq_reachable. destruct ev as [k|k| |]; try done. simpl.
  destruct (pending s k) as [e|] eqn:He; [|done]. simpl.
  by rewrite (seq_guard_idle s k e).
Qed.

Lemma guarded_agrees_sequential_witness :
  Guarded.step init (Resolve 0) = Mobile.step init (Resolve 0).
Proof. apply guarded_agrees_sequential. by exists []. Defined.
