(* ===== verification/GuardRefine.v ===== *)
(** The guarded [MobileCamera] implements the stream manager of the
    specification under every interleaving.

    [MobileCamera.v] shows that the component of
    [src/frontend/app/analyse/page.tsx] (lines 28-82) implements the stream
    manager only under sequential use: a switch of the camera while
    [getUserMedia] is pending leaves two streams live.  [MobileGuard.v] has
    the component with the guard that the specification asks for.  This
    file shows that the guard is enough: the guarded component is embedded
    in the stream manager, with no condition on the order of the events.

    The specification does not say what a switch or a teardown does while
    the stream is being acquired; [GuardSpec.step] adds the two transitions
    (the acquisition restarts with the other camera; the manager closes).
    An event of the component is an operation of the manager, except the
    settling of a superseded call of [getUserMedia], which the manager does
    not see. *)

From Stdlib Require Import ZArith Lia.
From stdpp Require Import prelude gmap.
From S2P Require Import Prelude Machine Embedding Media MobileCamera MobileGuard.

Import Mobile.

Module GuardSpec.

(** The stream manager with a switch and a teardown during the
    acquisition. *)
Definition step (a : StreamSpec.state) (o : StreamSpec.op) : option StreamSpec.state :=
  match a, o with
  | StreamSpec.Acquiring f, StreamSpec.ToggleFacing => Some (StreamSpec.Acquiring (flip f))
  | StreamSpec.Acquiring _, StreamSpec.Teardown => Some StreamSpec.Closed
  | _, _ => StreamSpec.step a o
  end.

Definition machine : Machine StreamSpec.state StreamSpec.op :=
  {| m_init := StreamSpec.Acquiring Environment; m_step := step |}.

(** The operations of the manager that an event of the component stands
    for: the settling of a call whose run has been cleaned up is none. *)
Definition op_of (s : state) (ev : event) : list StreamSpec.op :=
  match ev with
  | Resolve k =>
      match pending s k with
      | Some e => if cleaned e then [] else [StreamSpec.Started (next_stream s)]
      | None => []
      end
  | Reject k =>
      match pending s k with
      | Some e => if cleaned e then [] else [StreamSpec.StartFailed]
      | None => []
      end
  | Toggle => [StreamSpec.ToggleFacing]
  | Unmount => [StreamSpec.Teardown]
  end.

(** The current run closed over the current [facingMode]. *)
Definition facing_current (s : state) : Prop :=
  ∀ e, current s = Some e → eff_facing e = facingMode s.

Definition inv (s : state) : Prop := Guarded.inv s ∧ facing_current s.

End GuardSpec.

(** The guarded component when the user switches the camera twice before
    any stream has arrived, and leaves before the last one has. *)
Definition impatient : list event :=
  [Toggle; Toggle; Resolve 1; Resolve 0; Resolve 2; Toggle; Unmount; Resolve 3].

(** * Properties *)

Section guard_refine.
Import Guarded GuardSpec.
Implicit Types (s : state) (e cur : effect) (k sid : nat).

#[local] Abbreviation guarded := Guarded.machine.

(** ** The abstract state after each handler *)

(** A run that is updated in place, keeping whether it is cleaned up. *)
Lemma current_update s s' k e e' :
  effects s !! k = Some e → effects s' = <[k := e']> (effects s) →
  (k = pred (length (effects s)) ∧ current s = Some e ∧ current s' = Some e') ∨
  (k ≠ pred (length (effects s)) ∧ current s' = current s).
Proof.
  intros Hk Heff. pose proof (lookup_lt_Some _ _ _ Hk) as Hlt.
  rewrite !current_lookup, Heff, length_insert.
  destruct (decide (k = pred (length (effects s)))) as [->|Hne]; [left|right].
  - by rewrite list_lookup_insert_eq.
  - by rewrite list_lookup_insert_ne.
Qed.

(** The settling of a run that is cleaned up is not seen. *)
Lemma abs_settle_cleaned s s' k e :
  effects s !! k = Some e → cleaned e = true →
  effects s' = <[k := mark_rejected e]> (effects s) → abs s' = abs s.
Proof.
  intros Hk Hc Heff. unfold abs.
  destruct (current_update s s' k e _ Hk Heff) as [(_ & -> & ->)|[_ ->]]; [|done].
  simpl. by rewrite Hc.
Qed.

(** The settling of the current run, which is being acquired. *)
Lemma abs_settle_current s s' k e e' :
  Guarded.inv s → pending s k = Some e → cleaned e = false →
  effects s' = <[k := e']> (effects s) →
  abs s = StreamSpec.Acquiring (eff_facing e) ∧ current s' = Some e'.
Proof.
  intros Hinv [Hk He]%pending_Some Hc Heff.
  destruct (inv_not_cleaned_current s k e Hinv Hk Hc) as [Hlast Hcur].
  destruct (current_update s s' k e _ Hk Heff) as [(_ & _ & ->)|[? _]]; [|done].
  split; [|done]. unfold abs. by rewrite Hcur, Hc, He.
Qed.

(** While the component is mounted the manager is not closed. *)
Lemma abs_mounted s :
  GuardSpec.inv s → mounted s = true →
  ∃ cur, current s = Some cur ∧ cleaned cur = false ∧ eff_facing cur = facingMode s ∧
         (abs s = StreamSpec.Acquiring (facingMode s) ∨
          (∃ h, abs s = StreamSpec.Streaming (facingMode s) h) ∨
          abs s = StreamSpec.Failed (facingMode s)).
Proof.
  intros [Hinv Hf] Hm. destruct (g_current s Hinv) as (cur & Hcur & Hc).
  rewrite Hm in Hc. exists cur. split_and!; [done..|by apply Hf|].
  unfold abs. rewrite Hcur, Hc, <-(Hf cur Hcur).
  destruct (settled cur); [|by left]. destruct (activeStream cur); eauto.
Qed.

Lemma abs_toggleCamera s : abs (toggleCamera s) = StreamSpec.Acquiring (flip (facingMode s)).
Proof.
  unfold abs, current, toggleCamera. simpl. rewrite last_snoc. simpl.
  by destruct (cleanup_fields s) as (_ & -> & _).
Qed.

Lemma abs_unmount s cur : current s = Some cur → abs (unmount s) = StreamSpec.Closed.
Proof.
  intros [olds Hs]%current_Some. unfold abs, current, unmount. simpl.
  by rewrite (effects_cleanup s olds cur Hs), last_snoc.
Qed.

(** ** The invariant *)

Lemma facing_current_init : facing_current init.
Proof. by intros e [= <-]. Qed.

Lemma facing_current_settle s s' k e e' :
  facing_current s → effects s !! k = Some e → effects s' = <[k := e']> (effects s) →
  eff_facing e' = eff_facing e → facingMode s' = facingMode s → facing_current s'.
Proof.
  intros Hf Hk Heff He Hfm cur. rewrite Hfm.
  destruct (current_update s s' k e _ Hk Heff) as [(_ & Hcur & ->)|[_ ->]]; [|apply Hf].
  intros [= <-]. rewrite He. by apply Hf.
Qed.

Lemma facing_current_step s ev s' :
  facing_current s → Guarded.step s ev = Some s' → facing_current s'.
Proof.
  intros Hf. destruct ev as [k|k| |]; simpl.
  - intros (e & [Hk _]%pending_Some & ->)%fmap_Some. unfold Guarded.on_resolved.
    destruct (cleaned e); by eapply (facing_current_settle s _ k e).
  - intros (e & [Hk _]%pending_Some & ->)%fmap_Some.
    by eapply (facing_current_settle s _ k e).
  - destruct (mounted s); [|done]. intros [= <-] e.
    unfold current, toggleCamera. simpl. rewrite last_snoc. by intros [= <-].
  - destruct (mounted s); [|done]. intros [= <-] e.
    destruct (current s) as [cur|] eqn:Hcur.
    + pose proof Hcur as [olds Hs]%current_Some. unfold current, unmount. simpl.
      rewrite (effects_cleanup s olds cur Hs), last_snoc. intros [= <-]. simpl.
      destruct (cleanup_fields s) as (_ & -> & _). by apply Hf.
    + assert (current (unmount s) = None) as -> ; [|done].
      unfold unmount, cleanup. rewrite Hcur. exact Hcur.
Qed.

Lemma guard_spec_inv_init : GuardSpec.inv init.
Proof. split; [apply guard_inv_init|apply facing_current_init]. Qed.

Lemma guard_spec_inv_step s ev s' :
  GuardSpec.inv s → Guarded.step s ev = Some s' → GuardSpec.inv s'.
Proof.
  intros [Hinv Hf] Hs. split; [by eapply guard_inv_stable|by eapply facing_current_step].
Qed.

(** ** The embedding *)

Lemma guard_embeds_step s ev s' :
  GuardSpec.inv s → Guarded.step s ev = Some s' →
  @run _ _ GuardSpec.machine (op_of s ev) (abs s) = Some (abs s').
Proof.
  intros HI. pose proof HI as [Hinv Hf]. destruct ev as [k|k| |]; simpl.
  - intros (e & He & ->)%fmap_Some. rewrite He. pose proof He as [Hk _]%pending_Some.
    unfold Guarded.on_resolved. destruct (cleaned e) eqn:Hc.
    + simpl. f_equal. symmetry. by apply (abs_settle_cleaned s _ k e).
    + destruct (abs_settle_current s (Mobile.on_resolved s k e) k e _ Hinv He Hc eq_refl)
        as [Ha Hcur].
      simpl. rewrite Ha. simpl. f_equal. unfold abs. rewrite Hcur. simpl. by rewrite Hc.
  - intros (e & He & ->)%fmap_Some. rewrite He. pose proof He as [Hk Hs]%pending_Some.
    destruct (cleaned e) eqn:Hc.
    + simpl. f_equal. symmetry. by apply (abs_settle_cleaned s _ k e).
    + destruct (abs_settle_current s (Mobile.on_rejected s k e) k e _ Hinv He Hc eq_refl)
        as [Ha Hcur].
      simpl. rewrite Ha. simpl. f_equal. unfold abs. rewrite Hcur. simpl.
      by rewrite Hc, (g_pending s Hinv k e Hk Hs).
  - destruct (mounted s) eqn:Hm; [|done]. intros [= <-]. rewrite abs_toggleCamera.
    destruct (abs_mounted s HI Hm) as (_ & _ & _ & _ & [->|[[h ->]| ->]]); done.
  - destruct (mounted s) eqn:Hm; [|done]. intros [= <-].
    destruct (abs_mounted s HI Hm) as (cur & Hcur & _ & _ & Ha).
    rewrite (abs_unmount s cur Hcur). by destruct Ha as [->|[[h ->]| ->]].
Qed.

Lemma guard_embedding : embedding guarded GuardSpec.machine GuardSpec.inv abs op_of.
Proof.
  split; [done|apply guard_spec_inv_init|apply guard_spec_inv_step|apply guard_embeds_step].
Qed.

(** The live streams are the handles of the manager. *)
Lemma guard_abs_live s : Guarded.inv s → live s = StreamSpec.handles (abs s).
Proof.
  intros Hinv. rewrite (g_live s Hinv). unfold held_now, abs.
  destruct (current s) as [cur|] eqn:Hcur; [|done]. simpl.
  destruct (cleaned cur); [done|]. destruct (settled cur) eqn:Hs.
  - by destruct (activeStream cur).
  - rewrite current_lookup in Hcur. by rewrite (g_pending s Hinv _ cur Hcur Hs).
Qed.

End guard_refine.

(** * The theorems of the file *)

(** The guarded component implements the stream manager under every
    interleaving of the user's actions with the settling of the calls of
    [getUserMedia]: every run of the component projects to a run of the
    manager that ends in the abstract state of the component, and the live
    streams are the handles of that state, at most one. *)
Theorem guarded_refines_stream_spec (evs : list event) (s : state) :
  @run _ _ Guarded.machine evs init = Some s →
  @run _ _ GuardSpec.machine (trace_project Guarded.machine GuardSpec.op_of evs init)
    (StreamSpec.Acquiring Environment) = Some (abs s) ∧
  live s = StreamSpec.handles (abs s).
Proof.
  intros Hr. split.
  - exact (embedding_run _ _ _ _ _ guard_embedding evs init s guard_spec_inv_init Hr).
  - apply guard_abs_live.
    exact (proj1 (embedding_inv_run _ _ _ _ _ guard_embedding evs init s
                    guard_spec_inv_init Hr)).
Qed.

Lemma guarded_refines_stream_spec_witness :
  @run _ _ GuardSpec.machine (trace_project Guarded.machine GuardSpec.op_of impatient init)
    (StreamSpec.Acquiring Environment)
  = Some (abs (default init (@run _ _ Guarded.machine impatient init))) ∧
  live (default init (@run _ _ Guarded.machine impatient init))
  = StreamSpec.handles (abs (default init (@run _ _ Guarded.machine impatient init))).
Proof. apply guarded_refines_stream_spec. by vm_compute. Defined.

(** The session [impatient]: the manager sees three switches, the start of
    the third stream and the teardown; the two superseded streams and the
    stream that arrives after the unmount are not seen, and none is live in
    the end. *)
Lemma impatient_ops :
  trace_project Guarded.machine GuardSpec.op_of impatient init
  = [StreamSpec.ToggleFacing; StreamSpec.ToggleFacing; StreamSpec.Started 2;
     StreamSpec.ToggleFacing; StreamSpec.Teardown] ∧
  live (default init (@run _ _ Guarded.machine impatient init)) = ∅.
Proof. split; by vm_compute. Qed.

(** The component of the repository is not embedded: after a switch during
    the acquisition both streams are live, and the manager holds one. *)
Lemma unguarded_not_embedded :
  ∃ s, @reachable _ _ Mobile.machine s ∧ live s ≠ StreamSpec.handles (abs s).
Proof.
  exists race_state. split; [exists [Toggle; Resolve 0; Resolve 1]; by vm_compute|].
  intros Heq. assert (size (live race_state) ≤ 1) as Hsz
    by (rewrite Heq; apply handles_size).
  by vm_compute in Hsz.
Qed.
