(* ===== verification/Detector.v ===== *)
(** The device detection of the page.

    The effect of [Analyse] (lines 173-176 of
    [src/frontend/app/analyse/page.tsx]) reads [navigator.userAgent], with
    the empty string in place of a missing one, and tests it against
    [/iPhone|iPad|iPod|Android/i]: the page is in mobile mode when one of the
    four words occurs somewhere in the string, compared without regard to
    case.  The regular expression has no [u] flag, so a code unit outside
    ASCII never equals an ASCII letter of the pattern: the comparison is the
    ASCII one. *)

From Stdlib Require Import ZArith Lia.
From stdpp Require Import prelude.
From S2P Require Import Prelude JsString.

#[local] Open Scope Z_scope.

(** [Canonicalize] of a regular expression with the [i] flag and without the
    [u] flag, on the code units that can equal the canonical form of an
    ASCII letter: a lower-case ASCII letter becomes its upper-case letter, and
    a code unit from 128 on never maps below 128. *)
Definition canonicalize (c : Z) : Z :=
  if decide (97 ≤ c ≤ 122) then c - 32 else c.

Definition ci_eq (p c : Z) : bool :=
  bool_decide (canonicalize p = canonicalize c).

(** The word [p] matches at the start of [s]. *)
Fixpoint ci_prefix (p s : jsstring) : bool :=
  match p, s with
  | [], _ => true
  | _ :: _, [] => false
  | a :: p', c :: s' => ci_eq a c && ci_prefix p' s'
  end.

(** An alternation of words matches at the start of [s] when one of them
    does. *)
Definition match_at (alts : list jsstring) (s : jsstring) : bool :=
  existsb (λ p, ci_prefix p s) alts.

(** [RegExp.prototype.test] for an alternation of words without the [g] and
    [y] flags: the match is tried at every position from the first on. *)
Fixpoint regexp_test (alts : list jsstring) (s : jsstring) : bool :=
  match_at alts s ||
  match s with
  | [] => false
  | _ :: s' => regexp_test alts s'
  end.

(** The words of [/iPhone|iPad|iPod|Android/i]. *)
Definition mobile_words : list jsstring :=
  [js "iPhone"; js "iPad"; js "iPod"; js "Android"].

(** The left operand of [||] on line 174, or the empty string: a missing
    and an empty user agent are both falsy. *)
Definition or_empty (ua : option jsstring) : jsstring := default [] ua.

(** The value the effect passes to [setIsMobileDevice]. *)
Definition isMobileUA (ua : option jsstring) : bool :=
  regexp_test mobile_words (or_empty ua).

(** Equality of words without regard to ASCII case, as a relation. *)
Definition ci_equal (p s : jsstring) : Prop :=
  Forall2 (λ a c, canonicalize a = canonicalize c) p s.

(** [s] contains a word of [alts], without regard to ASCII case. *)
Definition contains_word (alts : list jsstring) (s : jsstring) : Prop :=
  ∃ p pre mid post, p ∈ alts ∧ s = pre ++ mid ++ post ∧ ci_equal p mid.

(** The lower-case form of an ASCII letter; every other code unit is
    itself. *)
Definition ascii_lower (c : Z) : Z :=
  if decide (65 ≤ c ≤ 90) then c + 32 else c.

(** * Examples *)

Example isMobileUA_android :
  isMobileUA (Some (js "Mozilla/5.0 (Linux; Android 14; Pixel 8) AppleWebKit/537.36")) = true.
Proof. by vm_compute. Qed.

Example isMobileUA_lower_case :
  isMobileUA (Some (js "opera mini; iphone os 16")) = true.
Proof. by vm_compute. Qed.

Example isMobileUA_desktop :
  isMobileUA (Some (js "Mozilla/5.0 (X11; Linux x86_64; rv:128.0) Gecko/20100101 Firefox/128.0")) = false.
Proof. by vm_compute. Qed.

(** A tablet that asks for the desktop site identifies itself as a
    Macintosh, and is given the desktop widget. *)
Example isMobileUA_tablet_desktop_site :
  isMobileUA (Some (js "Mozilla/5.0 (Macintosh; Intel Mac OS X 10_15_6) AppleWebKit/605.1.15 (KHTML, like Gecko) Version/17.0 Safari/605.1.15")) = false.
Proof. by vm_compute. Qed.

(** The dotless i (U+0131) and the Kelvin sign (U+212A) are not the letters
    [i] and [k]. *)
Example isMobileUA_dotless_i :
  isMobileUA (Some ([305] ++ js "Phone")) = false.
Proof. by vm_compute. Qed.

(** * Properties *)

Lemma canonicalize_idemp c : canonicalize (canonicalize c) = canonicalize c.
Proof. unfold canonicalize. repeat case_decide; lia. Qed.

(** A letter of the pattern is matched by itself and by its other case
    only. *)
Lemma canonicalize_eq_letter p c :
  65 ≤ p ≤ 90 ∨ 97 ≤ p ≤ 122 →
  canonicalize p = canonicalize c ↔
  c = p ∨ c = p + 32 ∧ p ≤ 90 ∨ c = p - 32 ∧ 97 ≤ p.
Proof. unfold canonicalize. intros. repeat case_decide; lia. Qed.

Lemma canonicalize_non_ascii p c :
  0 ≤ p < 128 → 128 ≤ c → canonicalize p ≠ canonicalize c.
Proof. unfold canonicalize. intros. repeat case_decide; lia. Qed.

Lemma ci_eq_true p c : ci_eq p c = true ↔ canonicalize p = canonicalize c.
Proof. unfold ci_eq. by rewrite bool_decide_eq_true. Qed.

Lemma ci_equal_length p s : ci_equal p s → length p = length s.
Proof. apply Forall2_length. Qed.

Lemma ci_equal_refl p : ci_equal p p.
Proof. by apply Forall_Forall2_diag, Forall_forall. Qed.

(** [ci_prefix] finds exactly the strings that start with a copy of the
    word. *)
Lemma ci_prefix_spec p s :
  ci_prefix p s = true ↔ ∃ mid post, s = mid ++ post ∧ ci_equal p mid.
Proof.
  revert s. induction p as [|a p IH]; intros s.
  - split; [intros _; by exists [], s; split; [|constructor]|done].
  - destruct s as [|c s]; simpl.
    + split; [done|]. intros (mid & post & Hs & Hm).
      apply Forall2_cons_inv_l in Hm as (? & ? & _ & _ & ->). done.
    + rewrite andb_true_iff, ci_eq_true, IH. split.
      * intros (Hc & mid & post & -> & Hm). exists (c :: mid), post.
        split; [done|by constructor].
      * intros (mid & post & Hs & Hm).
        apply Forall2_cons_inv_l in Hm as (c' & mid' & Hc & Hm & ->).
        simplify_eq/=. eauto.
Qed.

Lemma match_at_spec alts s :
  match_at alts s = true ↔
  ∃ p mid post, p ∈ alts ∧ s = mid ++ post ∧ ci_equal p mid.
Proof.
  unfold match_at. rewrite existsb_exists. setoid_rewrite ci_prefix_spec.
  setoid_rewrite <-list_elem_of_In. naive_solver.
Qed.

Lemma regexp_test_cons alts c s :
  regexp_test alts (c :: s) = match_at alts (c :: s) || regexp_test alts s.
Proof. done. Qed.

Lemma contains_word_cons alts c s :
  contains_word alts (c :: s) ↔
  match_at alts (c :: s) = true ∨ contains_word alts s.
Proof.
  rewrite match_at_spec. unfold contains_word. split.
  - intros (p & [|c' pre] & mid & post & Hp & Hs & Hm); simplify_eq/=.
    + left. exists p, mid, post. by rewrite Hs.
    + right. by exists p, pre, mid, post.
  - intros [(p & mid & post & Hp & Hs & Hm)|(p & pre & mid & post & Hp & -> & Hm)].
    + by exists p, [], mid, post.
    + by exists p, (c :: pre), mid, post.
Qed.

Lemma contains_word_nil alts :
  contains_word alts [] ↔ match_at alts [] = true.
Proof.
  rewrite match_at_spec. unfold contains_word. split.
  - intros (p & pre & mid & post & Hp & Hs & Hm).
    symmetry in Hs. apply app_eq_nil in Hs as [-> [-> ->]%app_eq_nil].
    by exists p, [], [].
  - intros (p & mid & post & Hp & Hs & Hm). by exists p, [], mid, post.
Qed.

Lemma regexp_test_contains alts s :
  regexp_test alts s = true ↔ contains_word alts s.
Proof.
  induction s as [|c s IH].
  - rewrite contains_word_nil. simpl. by rewrite orb_false_r.
  - by rewrite regexp_test_cons, orb_true_iff, IH, contains_word_cons.
Qed.

Lemma contains_word_app alts pre s post :
  contains_word alts s → contains_word alts (pre ++ s ++ post).
Proof.
  intros (p & pre' & mid & post' & Hp & -> & Hm).
  exists p, (pre ++ pre'), mid, (post' ++ post). by rewrite <-!app_assoc.
Qed.

Lemma elem_of_mobile_words p :
  p ∈ mobile_words ↔
  p = js "iPhone" ∨ p = js "iPad" ∨ p = js "iPod" ∨ p = js "Android".
Proof. unfold mobile_words. rewrite !elem_of_cons, elem_of_nil. naive_solver. Qed.

Lemma mobile_words_ascii p : p ∈ mobile_words → Forall (λ a, 0 ≤ a < 128) p ∧ p ≠ [].
Proof.
  rewrite elem_of_mobile_words. intros [?|[?|[?|?]]]; subst p;
    (split; [by apply (bool_decide_unpack _); vm_compute|done]).
Qed.

(** A word of ASCII characters does not match a string that starts outside
    ASCII. *)
Lemma ci_equal_non_ascii p s :
  Forall (λ a, 0 ≤ a < 128) p → Forall (λ c, 128 ≤ c) s → ci_equal p s →
  p = [].
Proof.
  intros Hp Hs Hm. destruct Hm as [|a c p s Hac _]; [done|].
  apply Forall_cons in Hp as [? _]. apply Forall_cons in Hs as [? _].
  by destruct (canonicalize_non_ascii a c).
Qed.

(** C9.  The detector is the specification's test: the page is in mobile
    mode exactly when the user agent string contains one of the words
    iPhone, iPad, iPod and Android, compared without regard to ASCII case;
    a missing user agent is the empty string. *)
Theorem isMobileUA_spec (ua : option jsstring) :
  isMobileUA ua = true ↔ contains_word mobile_words (default [] ua).
Proof. unfold isMobileUA, or_empty. apply regexp_test_contains. Qed.

(** The comparison of the regular expression is the comparison of the
    lower-case forms. *)
Lemma canonicalize_lower a c :
  canonicalize a = canonicalize c ↔ ascii_lower a = ascii_lower c.
Proof. unfold canonicalize, ascii_lower. repeat case_decide; lia. Qed.

Lemma ci_equal_lower p w : ci_equal p w ↔ ascii_lower <$> p = ascii_lower <$> w.
Proof.
  unfold ci_equal. revert w. induction p as [|a p IH]; intros [|c w].
  - split; [done|constructor].
  - split; [by inversion 1|done].
  - split; [by inversion 1|done].
  - rewrite !fmap_cons, Forall2_cons, canonicalize_lower, IH.
    split; [by intros [-> ->]|by intros [= -> ->]].
Qed.

Lemma mobile_words_lower :
  fmap (M := list) (fmap (M := list) ascii_lower) mobile_words
  = [js "iphone"; js "ipad"; js "ipod"; js "android"].
Proof. reflexivity. Qed.

(** C13.  The words and the comparison, spelled out: the page is in mobile
    mode exactly when some stretch of the user agent string, with its ASCII
    capitals put in lower case and every other code unit left as it is,
    reads iphone, ipad, ipod or android.  A code unit outside ASCII is never
    taken for a letter. *)
Theorem isMobileUA_words (ua : option jsstring) :
  isMobileUA ua = true ↔
  ∃ pre w post, default [] ua = pre ++ w ++ post ∧
                ascii_lower <$> w ∈ [js "iphone"; js "ipad"; js "ipod"; js "android"].
Proof.
  unfold isMobileUA, or_empty. rewrite regexp_test_contains, <-mobile_words_lower.
  split.
  - intros (p & pre & mid & post & Hp & Hs & Hm%ci_equal_lower). exists pre, mid, post.
    split; [done|]. rewrite <-Hm. by apply list_elem_of_fmap_2.
  - intros (pre & w & post & Hs & (p & Hw & Hp)%list_elem_of_fmap).
    exists p, pre, w, post. by rewrite ci_equal_lower.
Qed.

(** A user agent that contains one of the four words in any mix of
    upper and lower case, anywhere in the string, is classified as mobile. *)
Theorem isMobileUA_contains (p w pre post : jsstring) :
  p ∈ mobile_words → ci_equal p w →
  isMobileUA (Some (pre ++ w ++ post)) = true.
Proof.
  intros Hp Hw. apply regexp_test_contains. simpl.
  by exists p, pre, w, post.
Qed.

Lemma isMobileUA_contains_witness :
  isMobileUA (Some (js "Mozilla/5.0 (" ++ js "IPAD" ++ js "; CPU OS 17_0)")) = true.
Proof.
  apply (isMobileUA_contains (js "iPad")).
  - apply elem_of_mobile_words. auto.
  - unfold ci_equal. by repeat constructor.
Defined.

(** A missing or empty user agent, and a user agent without any ASCII
    character, is classified as desktop: the case-insensitive comparison
    never identifies a character outside ASCII with a letter of the
    pattern. *)
Theorem isMobileUA_non_ascii (ua : option jsstring) :
  Forall (λ c, 128 ≤ c) (default [] ua) → isMobileUA ua = false.
Proof.
  intros Hs. apply not_true_iff_false. unfold isMobileUA, or_empty.
  rewrite regexp_test_contains.
  intros (p & pre & mid & post & Hp & Heq & Hm). rewrite Heq in Hs.
  apply Forall_app in Hs as [_ [Hmid _]%Forall_app].
  apply mobile_words_ascii in Hp as [Hp ?].
  by apply (ci_equal_non_ascii p mid) in Hm.
Qed.

Lemma isMobileUA_non_ascii_witness : isMobileUA (Some [305; 8490; 1040]) = false.
Proof. apply isMobileUA_non_ascii. by repeat constructor. Defined.
