(* ===== verification/DesktopCamera.v ===== *)
(** [DesktopCamera], lines 110-164 of [src/frontend/app/analyse/page.tsx]:
    the webcam of the desktop layout, which the user opens and closes, and
    the file input beside it.

    The component keeps the React state [showWebcam] and a reference to the
    webcam widget of the [react-webcam] package, which it renders while
    [showWebcam] is true (lines 123-143).  The widget is library code: its
    model in [Module Webcam] follows the package's behaviour (a mounted
    widget requests a stream, keeps it once delivered, and stops it when it
    unmounts; a stream delivered to an unmounted widget is stopped at once;
    a screenshot is available only while a stream is held and the video has a
    height).

    Events: the user opens or closes the webcam, the stream request of a
    widget resolves or rejects, the component unmounts.

    The theorems: in every reachable state, under every interleaving, at
    most one stream is live and none while the webcam is closed; the
    component implements the two-state toggle of the specification; what
    [capturePhoto] and the file input pass to [onCapture]. *)

From Stdlib Require Import ZArith Lia.
From stdpp Require Import prelude gmap.
From S2P Require Import Prelude JsString Base64 Normalizer Upload Machine Canvas Media.

(** * The toggle of the specification *)
Module SnapshotSpec.

Inductive state : Type :=
| Closed
| Open.

#[export] Instance state_eq_dec : EqDecision state.
Proof. solve_decision. Defined.

Inductive op : Type :=
| UserOpens
| UserCloses
| Teardown.

(** Closed to Open when the user opens, Open to Closed when the user
    closes or the component unmounts. *)
Definition step (s : state) (o : op) : option state :=
  match s, o with
  | Closed, UserOpens => Some Open
  | Open, UserCloses => Some Closed
  | _, Teardown => Some Closed
  | _, _ => None
  end.

(** A capture is possible in [Open] only, and leaves the state as it is. *)
Definition can_capture (s : state) : bool :=
  match s with Open => true | Closed => false end.

End SnapshotSpec.

(** * The webcam widget *)
Module Webcam.

(** A widget instance: the stream it holds, whether it has been unmounted,
    and whether its stream request has settled. *)
Record instance : Type := mkInstance {
  w_stream : option nat;
  unmounted : bool;
  w_settled : bool;
}.

#[export] Instance instance_eq_dec : EqDecision instance.
Proof. solve_decision. Defined.

(** A widget that has just mounted: it has requested a stream. *)
Definition componentDidMount : instance :=
  {| w_stream := None; unmounted := false; w_settled := false |}.

(** The stream arrived at a mounted widget. *)
Definition handleUserMedia (sid : nat) (i : instance) : instance :=
  {| w_stream := Some sid; unmounted := unmounted i; w_settled := true |}.

(** The request settled without the widget keeping a stream: it was
    rejected, or the widget was unmounted by then. *)
Definition settle (i : instance) : instance :=
  {| w_stream := w_stream i; unmounted := unmounted i; w_settled := true |}.

Definition componentWillUnmount (i : instance) : instance :=
  {| w_stream := w_stream i; unmounted := true; w_settled := w_settled i |}.

(** The stream that the widget keeps running. *)
Definition stream_of (i : instance) : option nat :=
  if unmounted i then None else w_stream i.

Definition hasUserMedia (i : instance) : bool :=
  match w_stream i with Some _ => true | None => false end.

(** [getScreenshot()]: [null] without a stream or while the video has no
    height; otherwise the data URI of a canvas of the video's size, in the
    format the component asked for (line 128). *)
Definition getScreenshot `{Canvas Frame} (i : instance) (v : video Frame)
    : option jsstring :=
  if negb (hasUserMedia i) then None
  else if decide (videoHeight v = 0%Z) then None
  else
    let canvas := set_height (videoHeight v) (set_width (videoWidth v) createCanvas) in
    Some (canvas_data_url (drawImage (video_frame v) canvas)).

End Webcam.

(** * The component *)
Module Desktop.
Import Webcam.

(** [showWebcam] is the React state; [webcams] are the widget instances in
    the order they were mounted (the last is the one the reference points
    to while the webcam is shown); [live] are the streams whose tracks are
    running. *)
Record state : Type := mkState {
  mounted : bool;
  showWebcam : bool;
  webcams : list instance;
  live : gset nat;
  next_stream : nat;
}.

Inductive event : Type :=
| OpenWebcam
| CloseWebcam
| Resolve (k : nat)
| Reject (k : nat)
| Unmount.

#[export] Instance event_eq_dec : EqDecision event.
Proof. solve_decision. Defined.

(** Line 112: the webcam starts closed. *)
Definition init : state :=
  {| mounted := true; showWebcam := false; webcams := []; live := ∅; next_stream := 0 |}.

(** The widget is rendered. *)
Definition is_open (s : state) : bool := mounted s && showWebcam s.

(** [webcamRef.current] *)
Definition webcamRef (s : state) : option instance :=
  if is_open s then last (webcams s) else None.

(** Line 139: [setShowWebcam(true)]; the widget mounts. *)
Definition openWebcam (s : state) : state :=
  {| mounted := mounted s; showWebcam := true;
     webcams := webcams s ++ [componentDidMount];
     live := live s; next_stream := next_stream s |}.

(** The rendered widget unmounts and stops the stream it holds. *)
Definition unmount_webcam (s : state) : state :=
  match last (webcams s) with
  | Some i =>
      {| mounted := mounted s; showWebcam := showWebcam s;
         webcams := <[pred (length (webcams s)) := componentWillUnmount i]> (webcams s);
         live := stop_stream (w_stream i) (live s); next_stream := next_stream s |}
  | None => s
  end.

(** Line 134: [setShowWebcam(false)]; the widget unmounts. *)
Definition closeWebcam (s : state) : state :=
  let s1 := unmount_webcam s in
  {| mounted := mounted s1; showWebcam := false; webcams := webcams s1;
     live := live s1; next_stream := next_stream s1 |}.

(** The component unmounts, and with it the widget if it is rendered. *)
Definition unmount (s : state) : state :=
  let s1 := if showWebcam s then unmount_webcam s else s in
  {| mounted := false; showWebcam := showWebcam s1; webcams := webcams s1;
     live := live s1; next_stream := next_stream s1 |}.

(** The stream request of widget [k] resolved with a new stream: a mounted
    widget keeps it, an unmounted one stops it at once. *)
Definition on_resolved (s : state) (k : nat) (i : instance) : state :=
  let sid := next_stream s in
  if unmounted i then
    {| mounted := mounted s; showWebcam := showWebcam s;
       webcams := <[k := settle i]> (webcams s);
       live := stop_stream (Some sid) ({[sid]} ∪ live s); next_stream := S sid |}
  else
    {| mounted := mounted s; showWebcam := showWebcam s;
       webcams := <[k := handleUserMedia sid i]> (webcams s);
       live := {[sid]} ∪ live s; next_stream := S sid |}.

Definition on_rejected (s : state) (k : nat) (i : instance) : state :=
  {| mounted := mounted s; showWebcam := showWebcam s;
     webcams := <[k := settle i]> (webcams s);
     live := live s; next_stream := next_stream s |}.

(** The stream request of widget [k] is pending. *)
Definition pending (s : state) (k : nat) : option instance :=
  i ← webcams s !! k; if w_settled i then None else Some i.

(** The open button is rendered while the webcam is closed, the close
    button while it is open (lines 123-143). *)
Definition step (s : state) (ev : event) : option state :=
  match ev with
  | OpenWebcam => if mounted s && negb (showWebcam s) then Some (openWebcam s) else None
  | CloseWebcam => if is_open s then Some (closeWebcam s) else None
  | Resolve k => on_resolved s k <$> pending s k
  | Reject k => on_rejected s k <$> pending s k
  | Unmount => if mounted s then Some (unmount s) else None
  end.

#[export] Instance machine : Machine state event := {| m_init := init; m_step := step |}.

(** Lines 114-119: the argument that [capturePhoto] passes to [onCapture],
    or [None] when it does not call it: the reference is not set, the
    widget has no screenshot, or the screenshot is the empty string. *)
Definition capturePhoto `{Canvas Frame} (s : state) (v : video Frame) : option capture :=
  imageSrc ← webcamRef s ≫= (λ i, getScreenshot i v);
  if decide (imageSrc = []) then None else Some (CapString imageSrc).

(** Lines 151-157: the file input; [files] is [e.target.files], which may
    be [null], and is empty when the user cancels. *)
Definition onFileChange (files : option (list blob)) : option capture :=
  file ← files ≫= head; Some (CapBlob file).

(** The state of the specification that a state of the component stands
    for, and the operation that an event stands for; the settling of a
    stream request is internal to the widget. *)
Definition abs (s : state) : SnapshotSpec.state :=
  if is_open s then SnapshotSpec.Open else SnapshotSpec.Closed.

Definition abs_event (ev : event) : option SnapshotSpec.op :=
  match ev with
  | OpenWebcam => Some SnapshotSpec.UserOpens
  | CloseWebcam => Some SnapshotSpec.UserCloses
  | Unmount => Some SnapshotSpec.Teardown
  | Resolve _ | Reject _ => None
  end.

(** The stream of the rendered widget. *)
Definition current_stream (s : state) : option nat :=
  from_option stream_of None (last (webcams s)).

(** The webcam is opened and closed before its stream arrives, and opened
    again; then both streams arrive. *)
Definition reopened_state : state :=
  default init (run [OpenWebcam; CloseWebcam; OpenWebcam; Resolve 0; Resolve 1] init).

(** The webcam is opened, its stream arrives, and the webcam is closed. *)
Definition closed_state : state :=
  default init (run [OpenWebcam; Resolve 0; CloseWebcam] init).

(** ** Well-formed states *)

(** What holds of every reachable state: the live streams are the stream of
    the rendered widget; only the last widget can be mounted, and it is
    exactly while the webcam is shown; a widget whose request is pending
    holds no stream; stream identifiers are fresh. *)
Record wf (s : state) : Prop := mkWf {
  dwf_live : live s = held (current_stream s);
  dwf_old : ∀ k i, webcams s !! k = Some i → S k < length (webcams s) → unmounted i = true;
  dwf_open : is_open s = from_option (negb ∘ unmounted) false (last (webcams s));
  dwf_pending : ∀ k i, webcams s !! k = Some i → w_settled i = false → w_stream i = None;
  dwf_fresh : ∀ k i sid, webcams s !! k = Some i → w_stream i = Some sid → sid < next_stream s;
}.

(** * Properties *)

Section wf.
Implicit Types (s : state) (i : instance) (k sid : nat).

Lemma desktop_pending_Some s k i :
  pending s k = Some i ↔ webcams s !! k = Some i ∧ w_settled i = false.
Proof.
  unfold pending. destruct (webcams s !! k) as [i'|]; simpl; [|split; [done|by intros [? _]]].
  destruct (w_settled i') eqn:Hi'; split; try done.
  - intros [[= ->] ?]. congruence.
  - by intros [= ->].
  - by intros [[= ->] _].
Qed.

(** The last element after an update in place. *)
Lemma last_insert {A} (l : list A) k (x : A) :
  k < length l →
  last (<[k := x]> l) = if decide (S k = length l) then Some x else last l.
Proof.
  intros Hk. rewrite !last_lookup, length_insert. case_decide as Hl.
  - replace (pred (length l)) with k by lia. by apply list_lookup_insert_eq.
  - apply list_lookup_insert_ne. lia.
Qed.

(** An update in place that leaves [g] as it was is not seen through the
    last element. *)
Lemma last_insert_from_option {A B} (g : A → B) (d : B) (l : list A) k (x y : A) :
  l !! k = Some y → g x = g y →
  from_option g d (last (<[k := x]> l)) = from_option g d (last l).
Proof.
  intros Hk Hg. rewrite last_insert by by eapply lookup_lt_Some.
  case_decide; [|done]. rewrite last_lookup.
  replace (pred (length l)) with k by lia. by rewrite Hk.
Qed.

Lemma desktop_wf_init : wf init.
Proof. split; try done; by intros [|k]. Qed.

Lemma desktop_wf_closed_live s : wf s → is_open s = false → live s = ∅.
Proof.
  intros [Hl _ Ho _ _] Hc. rewrite Hl. unfold current_stream.
  rewrite Hc in Ho. destruct (last (webcams s)) as [i|]; simpl in *; [|done].
  unfold stream_of. by destruct (unmounted i).
Qed.

Lemma desktop_wf_openWebcam s : wf s → is_open s = false → mounted s = true → wf (openWebcam s).
Proof.
  intros Hwf Hc Hm. pose proof (desktop_wf_closed_live s Hwf Hc) as Hlive.
  destruct Hwf as [Hl Hold Ho Hp Hf]. split; simpl.
  - unfold current_stream. simpl. by rewrite last_snoc.
  - intros k i. rewrite lookup_snoc_Some, length_app. simpl.
    intros [[Hlt Hk]|[-> <-]] ?; [|lia].
    destruct (decide (S k < length (webcams s))) as [|Hlast]; [by eapply Hold|].
    rewrite Hc, last_lookup in Ho. replace (pred (length (webcams s))) with k in Ho by lia.
    rewrite Hk in Ho. simpl in Ho. by destruct (unmounted i).
  - unfold is_open. simpl. by rewrite last_snoc, Hm.
  - intros k i. rewrite lookup_snoc_Some. intros [[_ Hk]|[_ <-]]; [by eapply Hp|done].
  - intros k i sid. rewrite lookup_snoc_Some. intros [[_ Hk]|[_ <-]]; [by eapply Hf|done].
Qed.

(** Unmounting the rendered widget leaves no stream live. *)
Lemma desktop_wf_unmount_webcam s :
  wf s →
  let s1 := unmount_webcam s in
  live s1 = ∅ ∧
  (∀ k i, webcams s1 !! k = Some i → unmounted i = true) ∧
  (∀ k i, webcams s1 !! k = Some i → w_settled i = false → w_stream i = None) ∧
  (∀ k i sid, webcams s1 !! k = Some i → w_stream i = Some sid → sid < next_stream s1) ∧
  mounted s1 = mounted s ∧ showWebcam s1 = showWebcam s.
Proof.
  intros [Hl Hold Ho Hp Hf]. unfold unmount_webcam, current_stream in *.
  destruct (last (webcams s)) as [cur|] eqn:Hcur; simpl in *.
  - apply last_Some in Hcur as [l Hs]. rewrite Hs in *. rewrite insert_last.
    split_and!; try done.
    + rewrite Hl. unfold stream_of.
      destruct (unmounted cur); [apply stop_stream_empty|apply stop_stream_held].
    + intros k i. rewrite lookup_snoc_Some. intros [[Hlt Hk]|[_ <-]]; [|done].
      apply (Hold k i); [by apply lookup_app_l_Some|rewrite length_app; simpl; lia].
    + intros k i. rewrite lookup_snoc_Some. intros [[Hlt Hk]|[_ <-]].
      * apply (Hp k i). by apply lookup_app_l_Some.
      * apply (Hp (length l) cur). by rewrite lookup_app_r, Nat.sub_diag by lia.
    + intros k i sid. rewrite lookup_snoc_Some. intros [[Hlt Hk]|[_ <-]].
      * apply (Hf k i). by apply lookup_app_l_Some.
      * apply (Hf (length l) cur). by rewrite lookup_app_r, Nat.sub_diag by lia.
  - apply last_None in Hcur. rewrite Hcur in *. split_and!; try done; by intros [].
Qed.

(** A state in which every widget is unmounted and no stream is live is
    well formed once the webcam is not shown. *)
Lemma desktop_wf_all_unmounted s :
  live s = ∅ → is_open s = false →
  (∀ k i, webcams s !! k = Some i → unmounted i = true) →
  (∀ k i, webcams s !! k = Some i → w_settled i = false → w_stream i = None) →
  (∀ k i sid, webcams s !! k = Some i → w_stream i = Some sid → sid < next_stream s) →
  wf s.
Proof.
  intros Hl Hc Hu Hp Hf. split; [| |rewrite Hc|done..].
  - rewrite Hl. unfold current_stream. rewrite last_lookup.
    destruct (webcams s !! _) as [i|] eqn:Hi; simpl; [|done].
    unfold stream_of. by rewrite (Hu _ _ Hi).
  - intros k i Hk _. by eapply Hu.
  - rewrite last_lookup. destruct (webcams s !! _) as [i|] eqn:Hi; simpl; [|done].
    by rewrite (Hu _ _ Hi).
Qed.

Lemma desktop_wf_closeWebcam s : wf s → wf (closeWebcam s).
Proof.
  intros (Hl & Hu & Hp & Hf & _)%desktop_wf_unmount_webcam.
  apply desktop_wf_all_unmounted; try done. unfold is_open. simpl. apply andb_false_r.
Qed.

Lemma desktop_wf_unmount s : wf s → wf (unmount s).
Proof.
  intros Hwf. apply desktop_wf_all_unmounted; unfold unmount; simpl; try done.
  all: destruct (showWebcam s) eqn:Hshow;
    [by apply (desktop_wf_unmount_webcam s Hwf)|]; try by apply Hwf.
  - apply (desktop_wf_closed_live s Hwf). unfold is_open. rewrite Hshow. apply andb_false_r.
  - intros k i Hk. destruct (decide (S k < length (webcams s))); [by eapply dwf_old|].
    pose proof (dwf_open s Hwf) as Ho. unfold is_open in Ho.
    rewrite Hshow, andb_false_r, last_lookup in Ho.
    apply lookup_lt_Some in Hk as Hlt.
    replace (pred (length (webcams s))) with k in Ho by lia.
    rewrite Hk in Ho. simpl in Ho. by destruct (unmounted i).
Qed.

Lemma desktop_wf_on_rejected s k i : wf s → pending s k = Some i → wf (on_rejected s k i).
Proof.
  intros [Hl Hold Ho Hp Hf] [Hk Hpend]%desktop_pending_Some.
  split; unfold is_open, current_stream in *; simpl.
  - by rewrite (last_insert_from_option stream_of _ _ _ _ i).
  - intros k' i'. rewrite length_insert, list_lookup_insert_Some.
    intros [(<- & <- & _)|[_ Hk']] ?; [by apply (Hold k i)|by apply (Hold k' i')].
  - by rewrite (last_insert_from_option (negb ∘ unmounted) _ _ _ _ i).
  - intros k' i'. rewrite list_lookup_insert_Some.
    intros [(<- & <- & _)|[_ Hk']]; [done|by apply (Hp k' i')].
  - intros k' i' sid. rewrite list_lookup_insert_Some.
    intros [(<- & <- & _)|[_ Hk']]; [by apply (Hf k i)|by apply (Hf k' i')].
Qed.

Lemma desktop_live_fresh s sid : wf s → sid ∈ live s → sid < next_stream s.
Proof.
  intros [Hl _ _ _ Hf]. rewrite Hl. unfold current_stream. rewrite last_lookup.
  destruct (webcams s !! _) as [i|] eqn:Hi; simpl; [|set_solver].
  unfold stream_of. destruct (unmounted i), (w_stream i) as [sid'|] eqn:Hs; simpl; [set_solver..| |set_solver].
  intros ->%elem_of_singleton. by eapply Hf.
Qed.

(** A widget that is still mounted is the last one. *)
Lemma desktop_mounted_last s k i :
  wf s → webcams s !! k = Some i → unmounted i = false → S k = length (webcams s).
Proof.
  intros Hwf Hk Hu. apply lookup_lt_Some in Hk as Hlt.
  destruct (decide (S k < length (webcams s))) as [Hlt'|]; [|lia].
  by rewrite (dwf_old s Hwf k i Hk Hlt') in Hu.
Qed.

Lemma desktop_lookup_insert_inv (l : list instance) k x k' i' :
  <[k := x]> l !! k' = Some i' → k' = k ∧ i' = x ∨ l !! k' = Some i'.
Proof. rewrite list_lookup_insert_Some. naive_solver. Qed.

(** A stream that arrives at an unmounted widget is stopped at once. *)
Lemma desktop_wf_resolved_late s k i :
  wf s → pending s k = Some i → unmounted i = true → wf (on_resolved s k i).
Proof.
  intros Hwf [Hk Hpend]%desktop_pending_Some Hu.
  pose proof (desktop_live_fresh s (next_stream s) Hwf) as Hfresh.
  destruct Hwf as [Hl Hold Ho Hp Hf].
  unfold on_resolved. rewrite Hu.
  split; unfold is_open, current_stream in *; simpl.
  - rewrite (last_insert_from_option stream_of _ _ _ _ i), <-Hl by done.
    apply set_eq. intros sid. rewrite elem_of_difference, elem_of_union, !elem_of_singleton.
    split; [tauto|]. intros Hsid. split; [tauto|]. intros ->. apply Hfresh in Hsid. lia.
  - intros k' i' [[-> ->]|Hk']%desktop_lookup_insert_inv; [done|].
    rewrite length_insert. by apply Hold.
  - by rewrite (last_insert_from_option (negb ∘ unmounted) _ _ _ _ i).
  - intros k' i' [[-> ->]|Hk']%desktop_lookup_insert_inv; [done|by apply (Hp k')].
  - intros k' i' sid [[-> ->]|Hk']%desktop_lookup_insert_inv Hsid; simpl in *.
    + by rewrite (Hp k i) in Hsid.
    + apply (Hf k' i' sid) in Hsid; [lia|done].
Qed.

(** A stream that arrives at the mounted widget becomes the live stream. *)
Lemma desktop_wf_resolved_mounted s k i :
  wf s → pending s k = Some i → unmounted i = false → wf (on_resolved s k i).
Proof.
  intros Hwf [Hk Hpend]%desktop_pending_Some Hu.
  pose proof (desktop_mounted_last s k i Hwf Hk Hu) as Hlast.
  destruct Hwf as [Hl Hold Ho Hp Hf].
  assert (Hcur : last (webcams s) = Some i).
  { rewrite last_lookup. by replace (pred (length (webcams s))) with k by lia. }
  unfold on_resolved. rewrite Hu.
  split; unfold is_open, current_stream in *; simpl.
  - rewrite last_insert, decide_True by (done || lia). simpl. unfold stream_of. simpl.
    rewrite Hu, Hl, Hcur. simpl. unfold stream_of. rewrite Hu, (Hp k i) by done. set_solver.
  - intros k' i' [[-> ->]|Hk']%desktop_lookup_insert_inv; rewrite length_insert; [lia|].
    by apply Hold.
  - by rewrite (last_insert_from_option (negb ∘ unmounted) _ _ _ _ i).
  - intros k' i' [[-> ->]|Hk']%desktop_lookup_insert_inv; [done|by apply (Hp k')].
  - intros k' i' sid [[-> ->]|Hk']%desktop_lookup_insert_inv Hsid; simpl in *.
    + simplify_eq. lia.
    + apply (Hf k' i' sid) in Hsid; [lia|done].
Qed.

Lemma desktop_wf_on_resolved s k i : wf s → pending s k = Some i → wf (on_resolved s k i).
Proof.
  intros. destruct (unmounted i) eqn:Hu;
    [by apply desktop_wf_resolved_late|by apply desktop_wf_resolved_mounted].
Qed.

(** Well-formedness is preserved by every step. *)
Lemma desktop_wf_stable : stable wf.
Proof.
  intros s ev s' Hwf Hstep. destruct ev; simpl in Hstep.
  - destruct (mounted s) eqn:Hm, (showWebcam s) eqn:Hs; simplify_eq/=.
    apply desktop_wf_openWebcam; [done| |done]. unfold is_open. by rewrite Hm, Hs.
  - case_match; simplify_eq. by apply desktop_wf_closeWebcam.
  - apply fmap_Some in Hstep as (i & Hp & ->). by apply desktop_wf_on_resolved.
  - apply fmap_Some in Hstep as (i & Hp & ->). by apply desktop_wf_on_rejected.
  - case_match; simplify_eq. by apply desktop_wf_unmount.
Qed.

Lemma desktop_reachable_wf s : reachable s → wf s.
Proof. apply invariant; [apply desktop_wf_init|apply desktop_wf_stable]. Qed.

Lemma desktop_wf_size s : wf s → size (live s) ≤ 1.
Proof. intros [-> _ _ _ _]. apply size_held. Qed.

(** Every step is a step of the toggle, or internal to the widget. *)
Lemma desktop_abs_step s ev s' :
  step s ev = Some s' →
  match abs_event ev with
  | Some o => SnapshotSpec.step (abs s) o = Some (abs s')
  | None => abs s' = abs s
  end.
Proof.
  unfold abs, is_open. destruct ev; simpl; intros Hstep.
  - destruct (mounted s) eqn:Hm, (showWebcam s) eqn:Hs; simplify_eq/=. by rewrite Hm.
  - unfold is_open in Hstep.
    destruct (mounted s) eqn:Hm, (showWebcam s) eqn:Hs; simplify_eq/=.
    by rewrite andb_false_r.
  - apply fmap_Some in Hstep as (i & _ & ->). unfold on_resolved. by destruct (unmounted i).
  - by apply fmap_Some in Hstep as (i & _ & ->).
  - destruct (mounted s) eqn:Hm; simplify_eq/=. by destruct (showWebcam s).
Qed.

Lemma getScreenshot_Some `{Canvas Frame} i (v : video Frame) uri :
  getScreenshot i v = Some uri ↔
  hasUserMedia i = true ∧ videoHeight v ≠ 0%Z ∧
  uri = canvas_toDataURL (video_frame v) (videoWidth v) (videoHeight v).
Proof.
  unfold getScreenshot. destruct (hasUserMedia i); simpl; [|naive_solver].
  case_decide; naive_solver.
Qed.

(** What [capturePhoto] passes on is a data URI. *)
Lemma desktop_capture_string `{Canvas Frame} s (v : video Frame) c :
  capturePhoto s v = Some c →
  ∃ uri, c = CapString uri ∧ startsWith (js "data:") uri = true.
Proof.
  unfold capturePhoto.
  intros (uri & (i & _ & (_ & _ & ->)%getScreenshot_Some)%bind_Some & Hc)%bind_Some.
  case_decide; simplify_eq. eexists. split; [done|apply canvas_toDataURL_startsWith].
Qed.

(** A capture happens in the state [Open] of the toggle only. *)
Lemma desktop_capture_open `{Canvas Frame} s (v : video Frame) c :
  capturePhoto s v = Some c → SnapshotSpec.can_capture (abs s) = true.
Proof.
  unfold capturePhoto, webcamRef, abs.
  intros (uri & (i & Hi & _)%bind_Some & _)%bind_Some. by destruct (is_open s).
Qed.

(** The upload form of a photo of the webcam. *)
Lemma desktop_capture_form `{Canvas Frame} s (v : video Frame) c :
  capturePhoto s v = Some c → videoWidth v ≠ 0%Z →
  build_form c
  = Ok [(js "image",
         FormFile (mkBlob (encode_jpeg (video_frame v) (videoWidth v) (videoHeight v))
                          (js "image/jpeg") None)
                  (js "captured.jpg"))].
Proof.
  unfold capturePhoto.
  intros (uri & (i & _ & (_ & ? & ->)%getScreenshot_Some)%bind_Some & Hc)%bind_Some ?.
  case_decide; simplify_eq. by apply build_form_canvas_frame.
Qed.

End wf.

(** C5.  Closing the webcam always results in zero live streams: in every
    reachable state in which the widget is not rendered (the webcam is
    closed or the component is unmounted) no stream is live, also when a
    stream request was still pending at the time of closing. *)
Theorem desktop_closed_no_stream (s : state) :
  reachable s → is_open s = false → live s = ∅.
Proof. intros Hr%desktop_reachable_wf. by apply desktop_wf_closed_live. Qed.

Lemma desktop_closed_no_stream_witness : live closed_state = ∅.
Proof.
  apply desktop_closed_no_stream; [|done].
  by exists [OpenWebcam; Resolve 0; CloseWebcam].
Defined.

(** Under every interleaving of the user's clicks with the arrival of
    the streams, at most one stream is live, and a live stream is the one
    that the rendered widget holds. *)
Theorem desktop_one_stream (s : state) :
  reachable s →
  size (live s) ≤ 1 ∧
  ∀ sid, sid ∈ live s → ∃ i, webcamRef s = Some i ∧ w_stream i = Some sid.
Proof.
  intros Hwf%desktop_reachable_wf. split; [by apply desktop_wf_size|].
  intros sid Hsid. unfold webcamRef.
  destruct (is_open s) eqn:Ho; [|by rewrite desktop_wf_closed_live in Hsid].
  rewrite (dwf_live s Hwf) in Hsid. unfold current_stream, stream_of in Hsid.
  destruct (last (webcams s)) as [i|]; simpl in Hsid; [|set_solver].
  exists i. split; [done|]. destruct (unmounted i), (w_stream i); set_solver.
Qed.

Lemma desktop_one_stream_witness :
  size (live reopened_state) ≤ 1 ∧
  ∀ sid, sid ∈ live reopened_state →
         ∃ i, webcamRef reopened_state = Some i ∧ w_stream i = Some sid.
Proof.
  apply desktop_one_stream.
  by exists [OpenWebcam; CloseWebcam; OpenWebcam; Resolve 0; Resolve 1].
Defined.

(** C37.  The component implements the toggle of the specification: opening,
    closing and unmounting are the toggle's transitions on the abstract
    state, and the settling of a stream request leaves the abstract state as
    it is. *)
Theorem desktop_refines_toggle (s s' : state) (ev : event) :
  step s ev = Some s' →
  match abs_event ev with
  | Some o => SnapshotSpec.step (abs s) o = Some (abs s')
  | None => abs s' = abs s
  end.
Proof. apply desktop_abs_step. Qed.

Lemma desktop_refines_toggle_witness :
  SnapshotSpec.step (abs init) SnapshotSpec.UserOpens = Some (abs (openWebcam init)).
Proof. by apply (desktop_refines_toggle init (openWebcam init) OpenWebcam). Defined.

(** [capturePhoto] calls [onCapture] exactly when the widget is
    rendered, holds a stream, and the video has a height; what it passes is
    the data URI of the current frame at the video's size. *)
Theorem desktop_capture_calls `{Canvas Frame} (s : state) (v : video Frame) (c : capture) :
  capturePhoto s v = Some c ↔
  ∃ i, webcamRef s = Some i ∧ hasUserMedia i = true ∧ videoHeight v ≠ 0%Z ∧
       c = CapString (canvas_toDataURL (video_frame v) (videoWidth v) (videoHeight v)).
Proof.
  unfold capturePhoto. rewrite bind_Some. setoid_rewrite bind_Some.
  setoid_rewrite getScreenshot_Some. split.
  - intros (uri & (i & Hi & ? & ? & ->) & Hc). case_decide; simplify_eq. eauto 6.
  - intros (i & Hi & ? & ? & ->). eexists. split; [eauto 6|].
    rewrite decide_False; [done|apply canvas_toDataURL_nonempty].
Qed.

(** The file input passes nothing when the user cancels, and otherwise
    the first chosen file as it is, which is uploaded under the field
    [image] with its own bytes, type and file name. *)
Theorem desktop_file_input (files : option (list blob)) :
  match onFileChange files with
  | None => files = None ∨ files = Some []
  | Some c => ∃ f fs, files = Some (f :: fs) ∧ c = CapBlob f ∧
                      build_form c = Ok [(js "image", FormFile f (default (js "blob") (blob_name f)))]
  end.
Proof. destruct files as [[|f fs]|]; simpl; eauto 6. Qed.

End Desktop.
