(* ===== verification/DesktopProgress.v ===== *)
(** Progress of [DesktopCamera]: what the user gets once the stream
    requests of the webcam widget settle.

    Every widget that mounts requests a stream (lines 126-131 of
    [src/frontend/app/analyse/page.tsx] render the widget, which calls
    [getUserMedia]); the browser owes the settlement of each request.  The
    file proves that an open webcam inevitably comes to rest with the
    rendered widget settled and its stream, if it got one, as the only live
    stream, so that [capturePhoto] then produces a photo; and this under
    every interleaving, because the widget stops a stream that arrives after
    it was unmounted. *)

From Stdlib Require Import ZArith Lia.
From stdpp Require Import prelude gmap.
From S2P Require Import Prelude JsString Base64 Normalizer Upload Machine Progress.
From S2P Require Import Canvas Media MobileCamera Detector DesktopCamera.

Import Webcam Desktop.

(** The events that the browser owes: the stream request of a widget
    settles. *)
Definition desktop_settles (s : state) (ev : event) : Prop :=
  match ev with
  | Resolve k | Reject k => is_Some (pending s k)
  | OpenWebcam | CloseWebcam | Unmount => False
  end.

(** The number of stream requests that have not settled. *)
Definition pending_requests (s : state) : nat :=
  count (λ i, w_settled i = false) (webcams s).

(** The webcam is open and settled: the rendered widget has the only live
    stream, or none after a refusal, and no request is pending. *)
Definition webcam_ready (s : state) : Prop :=
  (∀ k, pending s k = None) ∧
  ∃ i, webcamRef s = Some i ∧ w_settled i = true ∧ live s = held (w_stream i).

(** * Properties *)

Section desktop_progress.
Implicit Types (s : state) (i : instance) (ev : event) (k : nat).

Lemma desktop_settles_inv s ev :
  desktop_settles s ev → ∃ k i, pending s k = Some i ∧ (ev = Resolve k ∨ ev = Reject k).
Proof. destruct ev as [| |k|k|]; simpl; try done; intros [i Hi]; eauto. Qed.

Lemma pending_requests_pos s : 0 < pending_requests s ↔ ∃ k i, pending s k = Some i.
Proof.
  unfold pending_requests. rewrite count_pos. by setoid_rewrite desktop_pending_Some.
Qed.

Lemma desktop_settles_exists s : (∃ ev, desktop_settles s ev) ↔ 0 < pending_requests s.
Proof.
  rewrite pending_requests_pos. split.
  - intros [ev (k & i & Hi & _)%desktop_settles_inv]. eauto.
  - intros (k & i & Hi). exists (Resolve k). simpl. by rewrite Hi.
Qed.

#[export] Instance desktop_settles_exists_dec s : Decision (∃ ev, desktop_settles s ev).
Proof.
  refine (cast_if (decide (0 < pending_requests s))); by rewrite desktop_settles_exists.
Defined.

(** A settlement touches one widget and neither the toggle nor the
    component. *)
Lemma desktop_settle_fields s ev s' :
  desktop_settles s ev → step s ev = Some s' →
  mounted s' = mounted s ∧ showWebcam s' = showWebcam s ∧
  S (pending_requests s') = pending_requests s.
Proof.
  intros (k & i & Hi & [-> | ->])%desktop_settles_inv; simpl; rewrite Hi; simpl;
    intros [= <-]; pose proof Hi as [Hk Hs]%desktop_pending_Some.
  - unfold on_resolved. destruct (unmounted i); simpl; (split_and!; [done..|]);
      by apply (count_insert_settle _ (webcams s) k i).
  - split_and!; [done..|]. by apply (count_insert_settle _ (webcams s) k i).
Qed.

Lemma desktop_settles_step s ev :
  desktop_settles s ev → ∃ s', step s ev = Some s'.
Proof.
  intros (k & i & Hi & [-> | ->])%desktop_settles_inv; simpl; rewrite Hi; by eexists.
Qed.

(** An open webcam in which no request is pending is ready. *)
Lemma webcam_ready_quiescent s :
  wf s → is_open s = true → (∀ k, pending s k = None) → webcam_ready s.
Proof.
  intros [Hl _ Ho _ _] Hopen Hq. split; [done|]. unfold webcamRef, current_stream in *.
  rewrite Hopen in Ho |- *. rewrite last_lookup in *.
  destruct (webcams s !! pred (length (webcams s))) as [i|] eqn:Hi; [|done].
  simpl in *. exists i. split; [done|]. split.
  - destruct (w_settled i) eqn:Hs; [done|].
    specialize (Hq (pred (length (webcams s)))).
    by rewrite (proj2 (desktop_pending_Some s _ i)) in Hq.
  - rewrite Hl. unfold stream_of. by destruct (unmounted i).
Qed.

(** A ready webcam that got a stream takes a photo of every video with a
    height. *)
Lemma webcam_ready_capture `{Canvas Frame} s i (v : video Frame) :
  webcamRef s = Some i → is_Some (w_stream i) → videoHeight v ≠ 0%Z →
  capturePhoto s v
  = Some (CapString (canvas_toDataURL (video_frame v) (videoWidth v) (videoHeight v))).
Proof.
  intros Hi [sid Hsid] Hv. unfold capturePhoto. rewrite Hi. simpl.
  rewrite (proj2 (getScreenshot_Some i v
             (canvas_toDataURL (video_frame v) (videoWidth v) (videoHeight v))));
    [|unfold hasUserMedia; by rewrite Hsid].
  simpl. rewrite decide_False; [done|apply canvas_toDataURL_nonempty].
Qed.

End desktop_progress.

(** * The theorems of the file *)

(** C31.  An open webcam inevitably becomes ready, under every
    interleaving: from every reachable state in which the webcam is open,
    when the pending stream requests settle, in whatever order and each with
    whatever outcome, the rendered widget has settled after finitely many
    of them, the live streams are exactly the stream it holds (none after a
    refusal), and if it holds one, [capturePhoto] produces the photo of
    every video that has a height. *)
Theorem desktop_webcam_starts `{Canvas Frame} (s : state) :
  reachable s → is_open s = true →
  inevitable desktop_settles
    (λ s', webcam_ready s' ∧
           ∀ i (v : video Frame), webcamRef s' = Some i → is_Some (w_stream i) →
             videoHeight v ≠ 0%Z → is_Some (capturePhoto s' v)) s.
Proof.
  intros Hwf%desktop_reachable_wf Hopen.
  set (I := λ s', wf s' ∧ is_open s' = true).
  assert (∀ s0 ev, I s0 → desktop_settles s0 ev →
            ∃ s', m_step s0 ev = Some s' ∧ I s' ∧ pending_requests s' < pending_requests s0)
    as Hstep.
  { intros s0 ev [H0 Ho] Hev. destruct (desktop_settles_step s0 ev Hev) as [s' Hs'].
    destruct (desktop_settle_fields s0 ev s' Hev Hs') as (Hm & Hs & Hn).
    exists s'. split_and!; [done| |lia]. split; [by eapply desktop_wf_stable|].
    unfold is_open in *. by rewrite Hm, Hs. }
  eapply inevitable_mono;
    [|by apply (inevitable_measure desktop_settles pending_requests I); [|intros; apply _|]].
  intros s' [[Hwf' Ho] Hq]. split.
  - apply webcam_ready_quiescent; [done..|]. intros k.
    destruct (pending s' k) as [i|] eqn:Hi; [|done].
    destruct (Hq (Resolve k)). simpl. by rewrite Hi.
  - intros i v Hi Hsid Hv. by rewrite (webcam_ready_capture s' i v).
Qed.

Lemma desktop_webcam_starts_witness :
  inevitable desktop_settles
    (λ s', webcam_ready s' ∧
           ∀ i (v : video (list Z)), webcamRef s' = Some i → is_Some (w_stream i) →
             videoHeight v ≠ 0%Z → is_Some (capturePhoto s' v)) (openWebcam init).
Proof. apply desktop_webcam_starts; [by exists [OpenWebcam]|done]. Defined.
