(* ===== verification/Analyse.v ===== *)
(** [Analyse], lines 169-287 of [src/frontend/app/analyse/page.tsx]: the
    page component.

    The page keeps the React state [isMobileDevice] (unknown until the
    detection effect has run) and [screenshot] (the source of the preview
    image).  It renders one of the two camera components and hands them
    [handleCapture]; the mobile layout has a file input of its own with
    [handleMobileFile].  A capture sets the preview and starts an upload,
    which nobody awaits.

    The model adds what the handlers act on outside the component: the
    store of object URLs that [URL.createObjectURL] fills, the calls of
    [fetch] with what their continuation logged, and the rejections of
    [handleImageUpload] that no handler receives.

    Events: the detection effect runs, a camera component calls
    [onCapture], the mobile file input changes, a call of [fetch] settles.

    The theorems: the mode is decided once and never reverts; the preview
    shows the latest capture and is independent of the uploads; a capture
    starts exactly one request, or none when the data URI is malformed;
    object URLs are never released; the settling of an upload affects that
    upload only; the page implements the specification's capture session
    when the captured strings are data URIs ([System.v] shows that they
    are); and the whole path from a camera's [capturePhoto] to the
    request. *)

From Stdlib Require Import ZArith Lia.
From stdpp Require Import prelude pretty.
From S2P Require Import Prelude JsString Base64 Normalizer Upload Machine Canvas Media.
From S2P Require Import MobileCamera Detector DesktopCamera.

(** The URL that [URL.createObjectURL] returns for the [n]-th object: the
    scheme [blob:] and an identifier that no other object has (a counter in
    place of the UUID of the platform). *)
Definition blob_url (n : nat) : jsstring := js "blob:" ++ js (pretty n).

(** The store of object URLs: the URLs in the order of their creation, each
    with the blob it resolves to. *)
Abbreviation url_store := (list (jsstring * blob)).

Fixpoint resolve (st : url_store) (url : jsstring) : option blob :=
  match st with
  | [] => None
  | (u, b) :: st' => if decide (u = url) then Some b else resolve st' url
  end.

(** * The capture session of the specification *)
Module SessionSpec.

Inductive mode : Type :=
| Unknown
| MobileMode
| DesktopMode.

#[export] Instance mode_eq_dec : EqDecision mode.
Proof. solve_decision. Defined.

Section spec.
Context {J : Type}.

(** The capture mode, the most recent capture (the one the preview
    shows), and the uploads with their outcome once they have one. *)
Record state : Type := mkState {
  capture_mode : mode;
  latest : option capture;
  outcomes : list (capture * option (upload_outcome J));
}.

Inductive op : Type :=
| Detect (mobile : bool)
| Capture (c : capture) (normalizes : bool)
| Finish (k : nat) (o : upload_outcome J).

(** Detection decides an unknown mode and never changes a decided one; a
    capture supersedes the previous one, and starts an upload when it
    normalises; an upload in flight finishes with an outcome. *)
Definition step (s : state) (o : op) : option state :=
  match o with
  | Detect mobile =>
      Some {| capture_mode := match capture_mode s with
                              | Unknown => if mobile then MobileMode else DesktopMode
                              | m => m
                              end;
              latest := latest s; outcomes := outcomes s |}
  | Capture c normalizes =>
      if decide (capture_mode s = Unknown) then None
      else Some {| capture_mode := capture_mode s; latest := Some c;
                   outcomes := if normalizes then outcomes s ++ [(c, None)] else outcomes s |}
  | Finish k oc =>
      match outcomes s !! k with
      | Some (c, None) =>
          Some {| capture_mode := capture_mode s; latest := latest s;
                  outcomes := <[k := (c, Some oc)]> (outcomes s) |}
      | _ => None
      end
  end.

End spec.
Arguments state : clear implicits.
Arguments op : clear implicits.

End SessionSpec.

(** * The page *)
Module Page.

(** What the component returns: the loading text (lines 231-241), or the
    layout with the camera of the mode and, when [screenshot] is truthy, the
    preview image (lines 243-286). *)
Inductive view : Type :=
| LoadingView
| MainView (mobile : bool) (preview : option jsstring).

#[export] Instance view_eq_dec : EqDecision view.
Proof. solve_decision. Defined.

Section page.
Context {J : Type} (JSON_parse : jsstring → option J).
Context (userAgent origin : option jsstring).

(** A call of [fetch]: the image it uploads, the request, and the line its
    continuation logged once the call has settled. *)
Record upload : Type := mkUpload {
  up_image : capture;
  up_request : request;
  up_log : option (log_entry J);
}.

Record state : Type := mkState {
  isMobileDevice : option bool;
  screenshot : option jsstring;
  object_urls : url_store;
  uploads : list upload;
  unhandled : list js_error;
}.

Inductive event : Type :=
| DetectEffect
| OnCapture (data : capture)
| MobileFileChange (files : option (list blob))
| FetchSettled (k : nat) (o : settled).

(** Lines 170-171. *)
Definition init : state :=
  {| isMobileDevice := None; screenshot := None; object_urls := [];
     uploads := []; unhandled := [] |}.

(** Lines 173-176: the effect. *)
Definition detect (s : state) : state :=
  {| isMobileDevice := Some (isMobileUA userAgent); screenshot := screenshot s;
     object_urls := object_urls s; uploads := uploads s; unhandled := unhandled s |}.

Definition setScreenshot (url : jsstring) (s : state) : state :=
  {| isMobileDevice := isMobileDevice s; screenshot := Some url;
     object_urls := object_urls s; uploads := uploads s; unhandled := unhandled s |}.

(** [URL.createObjectURL(blob)]: a new URL is added to the store. *)
Definition createObjectURL (b : blob) (s : state) : jsstring * state :=
  let url := blob_url (length (object_urls s)) in
  (url, {| isMobileDevice := isMobileDevice s; screenshot := screenshot s;
           object_urls := object_urls s ++ [(url, b)];
           uploads := uploads s; unhandled := unhandled s |}).

(** Lines 178-197, as the callers see them: the call returns a promise at
    once; either [fetch] has been called, or the promise is rejected with
    the exception of [base64ToBlob], and no caller handles it. *)
Definition handleImageUpload (image : capture) (s : state) : state :=
  match handleImageUpload_start origin image with
  | Ok req =>
      {| isMobileDevice := isMobileDevice s; screenshot := screenshot s;
         object_urls := object_urls s;
         uploads := uploads s ++ [mkUpload image req None]; unhandled := unhandled s |}
  | Err e =>
      {| isMobileDevice := isMobileDevice s; screenshot := screenshot s;
         object_urls := object_urls s;
         uploads := uploads s; unhandled := unhandled s ++ [e] |}
  end.

(** Lines 211-220. *)
Definition handleCapture (data : capture) (s : state) : state :=
  match data with
  | CapString str => handleImageUpload data (setScreenshot str s)
  | CapBlob b =>
      let '(previewUrl, s1) := createObjectURL b s in
      handleImageUpload data (setScreenshot previewUrl s1)
  end.

(** Lines 222-229. *)
Definition handleMobileFile (files : option (list blob)) (s : state) : state :=
  match files ≫= head with
  | Some file =>
      let '(previewUrl, s1) := createObjectURL file s in
      handleImageUpload (CapBlob file) (setScreenshot previewUrl s1)
  | None => s
  end.

(** Lines 198-207 for the [k]-th call of [fetch]. *)
Definition on_settled (k : nat) (o : settled) (s : state) (u : upload) : state :=
  {| isMobileDevice := isMobileDevice s; screenshot := screenshot s;
     object_urls := object_urls s;
     uploads := <[k := mkUpload (up_image u) (up_request u)
                          (Some (handleImageUpload_settle JSON_parse o))]> (uploads s);
     unhandled := unhandled s |}.

(** The [k]-th call of [fetch] has not settled. *)
Definition in_flight (s : state) (k : nat) : option upload :=
  u ← uploads s !! k; match up_log u with None => Some u | Some _ => None end.

(** The camera components and the mobile file input exist once the mode is
    known (lines 231-273).  The detection effect has no dependencies: it
    runs once after the mount, and a second time under React's strict mode.
    The machine lets it run in any state; this adds runs and no behaviour,
    because the user agent is fixed and a second run changes nothing
    ([detect_again]). *)
Definition step (s : state) (ev : event) : option state :=
  match ev with
  | DetectEffect => Some (detect s)
  | OnCapture data =>
      match isMobileDevice s with Some _ => Some (handleCapture data s) | None => None end
  | MobileFileChange files =>
      match isMobileDevice s with
      | Some true => Some (handleMobileFile files s)
      | _ => None
      end
  | FetchSettled k o => on_settled k o s <$> in_flight s k
  end.

#[export] Instance machine : Machine state event := {| m_init := init; m_step := step |}.

(** Lines 231-286. *)
Definition render (s : state) : view :=
  match isMobileDevice s with
  | None => LoadingView
  | Some mobile =>
      MainView mobile (match screenshot s with
                       | Some [] | None => None
                       | Some url => Some url
                       end)
  end.

(** The image that a preview source shows: the blob of an object URL of
    the store, or the string itself. *)
Definition shown (s : state) (url : jsstring) : capture :=
  match resolve (object_urls s) url with
  | Some b => CapBlob b
  | None => CapString url
  end.

(** ** The page as a capture session *)

Definition abs_mode (s : state) : SessionSpec.mode :=
  match isMobileDevice s with
  | None => SessionSpec.Unknown
  | Some true => SessionSpec.MobileMode
  | Some false => SessionSpec.DesktopMode
  end.

Definition abs (s : state) : SessionSpec.state J :=
  {| SessionSpec.capture_mode := abs_mode s;
     SessionSpec.latest := shown s <$> screenshot s;
     SessionSpec.outcomes :=
       (λ u, (up_image u, outcome_of_log <$> up_log u)) <$> uploads s |}.

(** The operation of the specification that an event stands for; a file
    input that changes to no file is no operation. *)
Definition abs_event (ev : event) : option (SessionSpec.op J) :=
  match ev with
  | DetectEffect => Some (SessionSpec.Detect (isMobileUA userAgent))
  | OnCapture data => Some (SessionSpec.Capture data (is_ok (build_form data)))
  | MobileFileChange files =>
      (λ file, SessionSpec.Capture (CapBlob file) true) <$> (files ≫= head)
  | FetchSettled k o =>
      Some (SessionSpec.Finish k (outcome_of_log (handleImageUpload_settle JSON_parse o)))
  end.

(** The uploads of [s] are still uploads of [s'], with the image and the
    request they had and the line they have logged. *)
Definition keeps_uploads (s s' : state) : Prop :=
  ∀ k u, uploads s !! k = Some u →
         ∃ u', uploads s' !! k = Some u' ∧ up_image u' = up_image u ∧
               up_request u' = up_request u ∧
               ∀ l, up_log u = Some l → up_log u' = Some l.

(** ** Well-formed states *)

(** What holds of every reachable state: the mode, once known, is the
    result of the detection; the [n]-th object URL is [blob_url n]. *)
Record wf (s : state) : Prop := mkWf {
  wf_mode : ∀ m, isMobileDevice s = Some m → m = isMobileUA userAgent;
  wf_urls : ∀ n url b, object_urls s !! n = Some (url, b) → url = blob_url n;
}.

End page.

(** The user agent of a phone, and a session on it: the detection runs, a
    photo of two samples is taken, a file is chosen, the first upload is
    answered with [{"ok":true}] and the second with a status of 500. *)
Definition phone : option jsstring :=
  Some (js "Mozilla/5.0 (iPhone; CPU iPhone OS 17_0 like Mac OS X)").

Definition photo : jsstring := canvas_toDataURL [300; 7]%Z 640 480.

Definition chosen_file : blob := mkBlob [1; 2; 3]%Z (js "image/png") (Some (js "fridge.png")).

Definition session : list event :=
  [DetectEffect; OnCapture (CapString photo); MobileFileChange (Some [chosen_file]);
   FetchSettled 0 (Fulfilled (mkResponse 200 (Some json_ok_true)));
   FetchSettled 1 (Fulfilled (mkResponse 500 (Some (js "server error"))))].

Definition after (evs : list event) : state :=
  default init (@run _ _ (machine parse_ok_true phone None) evs init).

Definition session_state : state := after session.

(** The states after the detection, after the photo, and after the file. *)
Definition detected : state := after (take 1 session).
Definition captured : state := after (take 2 session).
Definition chosen : state := after (take 3 session).

(** The malformed data URI of the specification's test. *)
Definition malformed : jsstring := js "data:image/jpeg;base64,***invalid***".

(** A desktop webcam that is open and has its stream. *)
Definition webcam_on : Desktop.state :=
  default Desktop.init
    (@run _ _ Desktop.machine [Desktop.OpenWebcam; Desktop.Resolve 0] Desktop.init).

(** * Properties *)

Section page_props.
Context {J : Type} (JSON_parse : jsstring → option J).
Context (userAgent origin : option jsstring).
Implicit Types (s : state (J := J)) (ev : event) (st : url_store) (url : jsstring) (b : blob).

#[local] Abbreviation step := (step JSON_parse userAgent origin).
#[local] Abbreviation machine := (machine JSON_parse userAgent origin).
#[local] Abbreviation reachable := (@reachable _ _ machine).
#[local] Abbreviation reachable_from := (@reachable_from _ _ machine).
#[local] Abbreviation stable := (@stable _ _ machine).
#[local] Abbreviation wf := (wf userAgent).
#[local] Abbreviation handleCapture := (handleCapture origin).
#[local] Abbreviation handleImageUpload := (handleImageUpload origin).

(** ** Object URLs *)

Lemma blob_url_inj n m : blob_url n = blob_url m → n = m.
Proof. unfold blob_url. intros H%app_inv_head%js_inj. by apply (inj pretty). Qed.

Lemma blob_url_not_data n : startsWith (js "data:") (blob_url n) = false.
Proof.
  apply bool_decide_eq_false. intros [k Hk]. unfold blob_url in Hk.
  replace (js "blob:") with (98 :: js "lob:")%Z in Hk by done.
  by replace (js "data:") with (100 :: js "ata:")%Z in Hk by done.
Qed.

Lemma resolve_Some st url b :
  resolve st url = Some b → ∃ n, st !! n = Some (url, b).
Proof.
  induction st as [|[u b'] st IH]; simpl; [done|]. case_decide as Hu.
  - intros [= ->]. exists 0. by rewrite Hu.
  - intros [n Hn]%IH. by exists (S n).
Qed.

Lemma resolve_snoc st u b url :
  resolve (st ++ [(u, b)]) url =
  match resolve st url with
  | Some b' => Some b'
  | None => if decide (u = url) then Some b else None
  end.
Proof.
  induction st as [|[u' b'] st IH]; simpl; [done|].
  destruct (decide (u' = url)); [done|apply IH].
Qed.

(** The next URL is not in the store yet. *)
Lemma resolve_fresh st :
  (∀ n url b, st !! n = Some (url, b) → url = blob_url n) →
  resolve st (blob_url (length st)) = None.
Proof.
  intros Hst. destruct (resolve st _) as [b|] eqn:Hr; [|done].
  apply resolve_Some in Hr as [n Hn]. pose proof (lookup_lt_Some _ _ _ Hn).
  apply Hst, blob_url_inj in Hn. lia.
Qed.

(** What is resolvable stays resolvable when the store grows. *)
Lemma resolve_prefix st st' url b :
  st `prefix_of` st' → resolve st url = Some b → resolve st' url = Some b.
Proof.
  intros [r ->]. induction st as [|[u b'] st IH]; simpl; [done|]. case_decide; [done|apply IH].
Qed.

(** ** The handlers *)

Lemma handleImageUpload_fields image s :
  isMobileDevice (handleImageUpload image s) = isMobileDevice s ∧
  screenshot (handleImageUpload image s) = screenshot s ∧
  object_urls (handleImageUpload image s) = object_urls s.
Proof. unfold Page.handleImageUpload. by destruct (handleImageUpload_start _ _). Qed.

(** A call of [handleImageUpload] adds one call of [fetch], or one
    unhandled rejection. *)
Lemma handleImageUpload_uploads image s :
  match build_form image with
  | Ok fd =>
      uploads (handleImageUpload image s)
      = uploads s ++ [mkUpload image (mkRequest (apiEndpoint origin) (js "POST") fd) None]
      ∧ unhandled (handleImageUpload image s) = unhandled s
  | Err e =>
      uploads (handleImageUpload image s) = uploads s
      ∧ unhandled (handleImageUpload image s) = unhandled s ++ [e]
  end.
Proof.
  unfold Page.handleImageUpload, handleImageUpload_start. by destruct (build_form image).
Qed.

Lemma handleImageUpload_prefix image s :
  uploads s `prefix_of` uploads (handleImageUpload image s).
Proof.
  pose proof (handleImageUpload_uploads image s) as Hu.
  destruct (build_form image); destruct Hu as [-> _]; [by apply prefix_app_r|done].
Qed.

Lemma handleCapture_string str s :
  handleCapture (CapString str) s = handleImageUpload (CapString str) (setScreenshot str s).
Proof. done. Qed.

Lemma handleCapture_blob b s :
  handleCapture (CapBlob b) s
  = handleImageUpload (CapBlob b)
      (setScreenshot (blob_url (length (object_urls s))) (createObjectURL b s).2).
Proof. done. Qed.

(** The preview source that a capture is given. *)
Lemma handleCapture_screenshot data s :
  screenshot (handleCapture data s)
  = Some match data with
         | CapString str => str
         | CapBlob _ => blob_url (length (object_urls s))
         end.
Proof.
  destruct data; [rewrite handleCapture_string|rewrite handleCapture_blob];
    by rewrite (proj1 (proj2 (handleImageUpload_fields _ _))).
Qed.

Lemma handleCapture_object_urls data s :
  object_urls (handleCapture data s)
  = match data with
    | CapString _ => object_urls s
    | CapBlob b => object_urls s ++ [(blob_url (length (object_urls s)), b)]
    end.
Proof.
  destruct data; [rewrite handleCapture_string|rewrite handleCapture_blob];
    by rewrite (proj2 (proj2 (handleImageUpload_fields _ _))).
Qed.

Lemma handleCapture_mode data s :
  isMobileDevice (handleCapture data s) = isMobileDevice s.
Proof.
  destruct data; [rewrite handleCapture_string|rewrite handleCapture_blob];
    by rewrite (proj1 (handleImageUpload_fields _ _)).
Qed.

Lemma handleCapture_uploads data s :
  match build_form data with
  | Ok fd =>
      uploads (handleCapture data s)
      = uploads s ++ [mkUpload data (mkRequest (apiEndpoint origin) (js "POST") fd) None]
      ∧ unhandled (handleCapture data s) = unhandled s
  | Err e =>
      uploads (handleCapture data s) = uploads s
      ∧ unhandled (handleCapture data s) = unhandled s ++ [e]
  end.
Proof.
  destruct data as [str|b]; [rewrite handleCapture_string|rewrite handleCapture_blob].
  - exact (handleImageUpload_uploads (CapString str) (setScreenshot str s)).
  - exact (handleImageUpload_uploads (CapBlob b)
             (setScreenshot (blob_url (length (object_urls s))) (createObjectURL b s).2)).
Qed.

(** The mobile file input is [handleCapture] on the first file. *)
Lemma handleMobileFile_head files s :
  handleMobileFile origin files s
  = match files ≫= head with Some file => handleCapture (CapBlob file) s | None => s end.
Proof. unfold handleMobileFile. by destruct (files ≫= head). Qed.

Lemma page_in_flight_Some s k u :
  in_flight s k = Some u ↔ uploads s !! k = Some u ∧ up_log u = None.
Proof.
  unfold in_flight. destruct (uploads s !! k) as [u'|]; simpl; [|split; [done|by intros [? _]]].
  destruct (up_log u') eqn:Hl; split; try done.
  - intros [[= ->] ?]. congruence.
  - by intros [= ->].
  - by intros [[= ->] _].
Qed.

(** Every step is one of the handlers. *)
Lemma page_step_cases s ev s' :
  step s ev = Some s' →
  (ev = DetectEffect ∧ s' = detect userAgent s) ∨
  (∃ data, isMobileDevice s ≠ None ∧ s' = handleCapture data s ∧
           (ev = OnCapture data ∨
            ∃ files file, ev = MobileFileChange files ∧ files ≫= head = Some file ∧
                          data = CapBlob file ∧ isMobileDevice s = Some true)) ∨
  ((∃ files, ev = MobileFileChange files ∧ files ≫= head = None) ∧ s' = s) ∨
  (∃ k o u, ev = FetchSettled k o ∧ in_flight s k = Some u ∧
            s' = on_settled JSON_parse k o s u).
Proof.
  destruct ev as [|data|files|k o]; simpl; intros Hstep.
  - left. by simplify_eq.
  - right; left. destruct (isMobileDevice s) eqn:Hm; simplify_eq. exists data. by eauto.
  - destruct (isMobileDevice s) as [[]|] eqn:Hm; simplify_eq.
    rewrite handleMobileFile_head. destruct (files ≫= head) as [file|] eqn:Hf.
    + right; left. exists (CapBlob file). split_and!; [done..|]. right. eauto 6.
    + right; right; left. eauto.
  - right; right; right. apply fmap_Some in Hstep as (u & Hu & ->). eauto 6.
Qed.

Lemma page_step_capture s data s' :
  step s (OnCapture data) = Some s' ↔ isMobileDevice s ≠ None ∧ s' = handleCapture data s.
Proof. unfold Page.step. destruct (isMobileDevice s); naive_solver. Qed.

Lemma page_step_settled s k o s' :
  step s (FetchSettled k o) = Some s' ↔
  ∃ u, in_flight s k = Some u ∧ s' = on_settled JSON_parse k o s u.
Proof. unfold Page.step. rewrite fmap_Some. naive_solver. Qed.

(** ** Invariants *)

Lemma page_wf_init : wf (@init J).
Proof. by split. Qed.

Lemma page_wf_handleCapture data s : wf s → wf (handleCapture data s).
Proof.
  intros [Hm Hu]. split.
  - by rewrite handleCapture_mode.
  - rewrite handleCapture_object_urls. destruct data as [str|b]; [done|].
    intros n url b'. rewrite lookup_snoc_Some. intros [[_ Hn]|[-> [= <- _]]]; [by eapply Hu|done].
Qed.

Lemma page_wf_stable : stable wf.
Proof.
  intros s ev s' Hwf
    [[_ ->]|[(data & _ & -> & _)|[[_ ->]|(k & o & u & _ & _ & ->)]]]%page_step_cases;
    [|by apply page_wf_handleCapture|done|by destruct Hwf].
  destruct Hwf as [Hm Hu]. split; [|done]. by intros m [= <-].
Qed.

Lemma page_reachable_wf s : reachable s → wf s.
Proof. apply invariant; [apply page_wf_init|apply page_wf_stable]. Qed.

(** A decided mode is kept by every step. *)
Lemma page_step_mode s ev s' m :
  wf s → step s ev = Some s' → isMobileDevice s = Some m → isMobileDevice s' = Some m.
Proof.
  intros Hwf
    [[_ ->]|[(data & _ & -> & _)|[[_ ->]|(k & o & u & _ & _ & ->)]]]%page_step_cases Hm;
    [|by rewrite handleCapture_mode|done..].
  simpl. by rewrite (wf_mode _ s Hwf m Hm).
Qed.

Lemma page_mode_stable m : stable (λ s, wf s ∧ isMobileDevice s = Some m).
Proof.
  intros s ev s' [Hwf Hm] Hstep.
  split; [exact (page_wf_stable s ev s' Hwf Hstep)|exact (page_step_mode s ev s' m Hwf Hstep Hm)].
Qed.

(** The store of object URLs only grows. *)
Lemma page_step_object_urls s ev s' :
  step s ev = Some s' → object_urls s `prefix_of` object_urls s'.
Proof.
  intros [[_ ->]|[(data & _ & -> & _)|[[_ ->]|(k & o & u & _ & _ & ->)]]]%page_step_cases;
    [done| |done..].
  rewrite handleCapture_object_urls. destruct data; [done|by apply prefix_app_r].
Qed.

(** The settling of a call of [fetch] changes the log of that call. *)
Lemma on_settled_lookup s k o u k' :
  uploads s !! k = Some u →
  uploads (on_settled JSON_parse k o s u) !! k'
  = if decide (k' = k)
    then Some (mkUpload (up_image u) (up_request u)
                        (Some (handleImageUpload_settle JSON_parse o)))
    else uploads s !! k'.
Proof.
  intros Hk%lookup_lt_Some. simpl. case_decide as Hkk.
  - subst k'. by apply list_lookup_insert_eq.
  - by apply list_lookup_insert_ne.
Qed.

(** ** The preview *)

(** A data URI is not the URL of an object. *)
Lemma resolve_data_uri s str :
  wf s → startsWith (js "data:") str = true → resolve (object_urls s) str = None.
Proof.
  intros Hwf Hd. destruct (resolve _ str) as [b|] eqn:Hr; [|done].
  apply resolve_Some in Hr as [n ->%(wf_urls _ s Hwf)]. by rewrite blob_url_not_data in Hd.
Qed.

(** The object URL of a captured blob resolves to that blob. *)
Lemma resolve_captured s b :
  wf s →
  resolve (object_urls (handleCapture (CapBlob b) s)) (blob_url (length (object_urls s)))
  = Some b.
Proof.
  intros Hwf. rewrite handleCapture_object_urls, resolve_snoc.
  rewrite resolve_fresh by apply Hwf. by rewrite decide_True.
Qed.

(** After a capture the preview shows the captured image. *)
Lemma shown_captured s data :
  wf s →
  (∀ str, data = CapString str → resolve (object_urls s) str = None) →
  shown (handleCapture data s) <$> screenshot (handleCapture data s) = Some data.
Proof.
  intros Hwf Hs. rewrite handleCapture_screenshot. simpl. f_equal. unfold shown.
  destruct data as [str|b]; [|by rewrite resolve_captured].
  by rewrite handleCapture_object_urls, Hs.
Qed.

(** ** The uploads *)

(** The uploads after a capture, as the specification lists them. *)
Lemma outcomes_captured s data :
  SessionSpec.outcomes (abs (handleCapture data s))
  = if is_ok (build_form data)
    then SessionSpec.outcomes (abs s) ++ [(data, None)]
    else SessionSpec.outcomes (abs s).
Proof.
  pose proof (handleCapture_uploads data s) as Hu. simpl.
  destruct (build_form data); destruct Hu as [-> _]; [|done]. by rewrite fmap_app.
Qed.

Lemma abs_handleCapture s data m :
  wf s → isMobileDevice s = Some m →
  (∀ str, data = CapString str → resolve (object_urls s) str = None) →
  SessionSpec.step (abs s) (SessionSpec.Capture data (is_ok (build_form data)))
  = Some (abs (handleCapture data s)).
Proof.
  intros Hwf Hm Hs. unfold SessionSpec.step.
  rewrite decide_False by (simpl; unfold abs_mode; rewrite Hm; by destruct m).
  f_equal.
  transitivity (SessionSpec.mkState (abs_mode (handleCapture data s))
                  (shown (handleCapture data s) <$> screenshot (handleCapture data s))
                  (SessionSpec.outcomes (abs (handleCapture data s)))); [|done].
  rewrite shown_captured, outcomes_captured by done.
  unfold abs_mode. by rewrite handleCapture_mode.
Qed.

(** The detection sets the mode to the same value whenever it runs. *)
Lemma detect_again s : detect userAgent (detect userAgent s) = detect userAgent s.
Proof. done. Qed.

Lemma abs_detect s :
  wf s →
  SessionSpec.step (abs s) (SessionSpec.Detect (isMobileUA userAgent))
  = Some (abs (detect userAgent s)).
Proof.
  intros Hwf. unfold SessionSpec.step, abs, abs_mode. simpl. do 2 f_equal.
  destruct (isMobileDevice s) as [m|] eqn:Hm; [|done].
  rewrite <-(wf_mode _ s Hwf m Hm). by destruct m.
Qed.

Lemma abs_on_settled s k o u :
  in_flight s k = Some u →
  SessionSpec.step (abs s)
    (SessionSpec.Finish k (outcome_of_log (handleImageUpload_settle JSON_parse o)))
  = Some (abs (on_settled JSON_parse k o s u)).
Proof.
  intros [Hk Hl]%page_in_flight_Some. unfold SessionSpec.step, abs. simpl.
  rewrite list_lookup_fmap, Hk. simpl. rewrite Hl. simpl.
  by rewrite list_fmap_insert.
Qed.

Lemma keeps_uploads_preorder : PreOrder (keeps_uploads (J := J)).
Proof.
  split; [intros s k u Hk; by exists u|].
  intros s1 s2 s3 H12 H23 k u (u2 & Hk2 & Hi2 & Hr2 & Hl2)%H12.
  apply H23 in Hk2 as (u3 & Hk3 & Hi3 & Hr3 & Hl3).
  exists u3. split_and!; [done|congruence..|eauto].
Qed.

Lemma keeps_uploads_prefix s s' :
  uploads s `prefix_of` uploads s' → keeps_uploads s s'.
Proof. intros [r Hr] k u Hk. exists u. rewrite Hr. by split; [apply lookup_app_l_Some|]. Qed.

(** A step that settles no call appends to the uploads, or leaves them as
    they are. *)
Lemma page_step_uploads_prefix s ev s' :
  step s ev = Some s' → (∀ k o, ev ≠ FetchSettled k o) → uploads s `prefix_of` uploads s'.
Proof.
  intros [[_ ->]|[(data & _ & -> & _)|[[_ ->]|(k & o & u & -> & _)]]]%page_step_cases Hev;
    [done| |done|by destruct (Hev k o)].
  pose proof (handleCapture_uploads data s) as Hu.
  destruct (build_form data); destruct Hu as [-> _]; [by apply prefix_app_r|done].
Qed.

Lemma page_step_in_flight s ev s' k u :
  step s ev = Some s' → (∀ k o, ev ≠ FetchSettled k o) →
  in_flight s k = Some u → in_flight s' k = Some u.
Proof.
  intros Hs Hev. destruct (page_step_uploads_prefix s ev s' Hs Hev) as [r Hr].
  rewrite !page_in_flight_Some, Hr. intros [Hk Hl]. split; [by apply lookup_app_l_Some|done].
Qed.

Lemma page_step_keeps_uploads s ev s' : step s ev = Some s' → keeps_uploads s s'.
Proof.
  intros Hstep. destruct ev as [| | |k o];
    [by apply keeps_uploads_prefix, (page_step_uploads_prefix _ _ _ Hstep)..|].
  apply page_step_settled in Hstep as (u & [Hk Hl]%page_in_flight_Some & ->).
  intros k' u' Hk'. rewrite on_settled_lookup by done. case_decide; [|by exists u'].
    simplify_eq. eexists. split_and!; [done..|]. intros l. by rewrite Hl.
Qed.

(** C33.  The capture mode is decided once and never reverts: once the
    detection has set [isMobileDevice], it has the value of the user-agent
    test, and every later state has the same value. *)
Theorem page_mode_never_reverts (s s' : state) (m : bool) :
  reachable s → reachable_from s s' → isMobileDevice s = Some m →
  isMobileDevice s' = Some m ∧ m = isMobileUA userAgent.
Proof.
  intros Hwf%page_reachable_wf [evs Hr] Hm. split; [|by apply (wf_mode _ s Hwf)].
  by apply (@stable_run _ _ machine _ evs s s' (page_mode_stable m) (conj Hwf Hm) Hr).
Qed.

(** While the mode is unknown the page renders the loading text and
    neither camera component nor file input exists: no capture can
    happen. *)
Theorem page_loading_no_capture s data files :
  render s = LoadingView ↔
  isMobileDevice s = None ∧ step s (OnCapture data) = None ∧
  step s (MobileFileChange files) = None.
Proof. unfold render. simpl. destruct (isMobileDevice s) as [[]|]; naive_solver. Qed.

(** The preview shows the latest capture: after a capture the preview
    source is the captured string, or an object URL that resolves to the
    captured blob. *)
Theorem page_preview_latest s data s' :
  reachable s → step s (OnCapture data) = Some s' →
  ∃ url, screenshot s' = Some url ∧
         match data with
         | CapString str => url = str
         | CapBlob b => resolve (object_urls s') url = Some b
         end.
Proof.
  intros Hwf%page_reachable_wf [_ ->]%page_step_capture.
  rewrite handleCapture_screenshot. eexists. split; [done|].
  destruct data; [done|by apply resolve_captured].
Qed.

(** The preview is independent of the uploads: when a call of [fetch]
    settles, however it settles, the page renders what it rendered before,
    and the preview source and the object URLs are unchanged. *)
Theorem page_upload_keeps_preview s k o s' :
  step s (FetchSettled k o) = Some s' →
  render s' = render s ∧ screenshot s' = screenshot s ∧ object_urls s' = object_urls s.
Proof. by intros (u & _ & ->)%page_step_settled. Qed.

(** A capture starts exactly one request, a POST of the one-field form
    of the image to the upload endpoint, or none when the form cannot be
    built; in that case the exception is an unhandled rejection. *)
Theorem page_capture_one_request s data s' :
  step s (OnCapture data) = Some s' →
  match build_form data with
  | Ok fd =>
      uploads s' = uploads s ++ [mkUpload data (mkRequest (apiEndpoint origin) (js "POST") fd) None]
      ∧ unhandled s' = unhandled s
  | Err e => uploads s' = uploads s ∧ unhandled s' = unhandled s ++ [e]
  end.
Proof.
  intros [_ ->]%page_step_capture. apply handleCapture_uploads.
Qed.

(** C35.  A malformed data URI starts no upload; the preview is set to the
    malformed string all the same, and the exception of [base64ToBlob] is
    reported to nobody. *)
Theorem page_malformed_capture s str e s' :
  step s (OnCapture (CapString str)) = Some s' →
  startsWith (js "data:") str = true → base64ToBlob str = Err e →
  uploads s' = uploads s ∧ screenshot s' = Some str ∧ unhandled s' = unhandled s ++ [e].
Proof.
  intros [_ ->]%page_step_capture Hd He.
  pose proof (handleCapture_uploads (CapString str) s) as Hu.
  rewrite build_form_data_uri, He in Hu by done. destruct Hu as [Hu1 Hu2].
  by rewrite handleCapture_screenshot.
Qed.

(** Object URLs are never released: a URL that resolves to a blob
    resolves to it in every later state. *)
Theorem page_object_urls_kept s s' url b :
  reachable_from s s' →
  resolve (object_urls s) url = Some b → resolve (object_urls s') url = Some b.
Proof.
  intros Hr. apply resolve_prefix.
  apply (@reachable_from_preorder _ _ machine
           (λ s1 s2, object_urls s1 `prefix_of` object_urls s2)); [| |done].
  - split; [by intros ?|intros ???; apply transitivity].
  - intros s1 e s2 Hs. exact (page_step_object_urls s1 e s2 Hs).
Qed.

(** C22.  Two file captures in succession leave two object URLs
    resolvable: the preview shows the second, and the first still resolves
    to the first file. *)
Theorem page_two_captures_two_urls s b1 b2 s1 s2 :
  reachable s →
  step s (OnCapture (CapBlob b1)) = Some s1 → step s1 (OnCapture (CapBlob b2)) = Some s2 →
  ∃ u1 u2, u1 ≠ u2 ∧ screenshot s1 = Some u1 ∧ screenshot s2 = Some u2 ∧
           resolve (object_urls s2) u1 = Some b1 ∧ resolve (object_urls s2) u2 = Some b2.
Proof.
  intros Hwf%page_reachable_wf [_ ->]%page_step_capture [_ ->]%page_step_capture.
  pose proof (page_wf_handleCapture (CapBlob b1) s Hwf) as Hwf1.
  exists (blob_url (length (object_urls s))),
    (blob_url (length (object_urls (handleCapture (CapBlob b1) s)))).
  rewrite !handleCapture_screenshot. split_and!; [|done..| |by apply resolve_captured].
  - intros Heq%blob_url_inj. rewrite handleCapture_object_urls, length_app in Heq.
    simpl in Heq. lia.
  - apply (resolve_prefix (object_urls (handleCapture (CapBlob b1) s)));
      [|by apply resolve_captured].
    rewrite (handleCapture_object_urls (CapBlob b2)). by apply prefix_app_r.
Qed.

(** The settling of an upload is scoped to that upload: it logs one
    line for the call that settled, and leaves every other call, the
    unhandled rejections and the number of calls as they were. *)
Theorem page_settle_scoped s k o s' :
  step s (FetchSettled k o) = Some s' →
  ∃ u, uploads s !! k = Some u ∧ up_log u = None ∧
       uploads s' !! k = Some (mkUpload (up_image u) (up_request u)
                                  (Some (handleImageUpload_settle JSON_parse o))) ∧
       (∀ k', k' ≠ k → uploads s' !! k' = uploads s !! k') ∧
       length (uploads s') = length (uploads s) ∧ unhandled s' = unhandled s.
Proof.
  intros (u & [Hk Hl]%page_in_flight_Some & ->)%page_step_settled. exists u.
  split_and!; [done..| | |apply length_insert|done].
  - by rewrite on_settled_lookup, decide_True.
  - intros k' Hk'. by rewrite on_settled_lookup, decide_False.
Qed.

(** C27.  An upload is never cancelled and settles at most once: a call
    of [fetch] stays in every later state with its image and its request;
    once it has logged its line, that line is final, and no further
    settlement of the call is accepted, so no answer is logged twice and
    none overwrites another. *)
Theorem page_upload_final (s s' : state) (k : nat) (u : upload) :
  reachable_from s s' → uploads s !! k = Some u →
  ∃ u', uploads s' !! k = Some u' ∧ up_image u' = up_image u ∧
        up_request u' = up_request u ∧
        ∀ l, up_log u = Some l →
             up_log u' = Some l ∧ ∀ o, step s' (FetchSettled k o) = None.
Proof.
  intros Hr Hk.
  assert (keeps_uploads s s') as Hkeep.
  { apply (@reachable_from_preorder _ _ machine _ keeps_uploads_preorder); [|done].
    intros s1 e s2 Hs. exact (page_step_keeps_uploads s1 e s2 Hs). }
  destruct (Hkeep k u Hk) as (u' & Hk' & Hi & Hq & Hl). exists u'.
  split_and!; [done..|]. intros l Hlog%Hl. split; [done|]. intros o.
  destruct (step s' (FetchSettled k o)) as [s2|] eqn:Hs2; [|done].
  apply page_step_settled in Hs2 as (u2 & [? ?]%page_in_flight_Some & _). congruence.
Qed.

(** The page implements the capture session of the specification:
    detection, a capture and the settling of an upload are the
    specification's operations on the abstract state (mode, latest capture,
    outcomes of the uploads), provided that a captured string is a data
    URI. *)
Lemma page_abs_step s ev s' :
  reachable s → step s ev = Some s' →
  (∀ str, ev = OnCapture (CapString str) → startsWith (js "data:") str = true) →
  match abs_event JSON_parse userAgent ev with
  | Some o => SessionSpec.step (abs s) o = Some (abs s')
  | None => abs s' = abs s
  end.
Proof.
  intros Hwf%page_reachable_wf Hstep Hcam.
  destruct ev as [|data|files|k o]; unfold abs_event.
  - injection Hstep as <-. by apply abs_detect.
  - apply page_step_capture in Hstep as [Hm ->].
    destruct (isMobileDevice s) as [m|] eqn:Hm'; [|done].
    apply (abs_handleCapture s data m); [done..|].
    intros str ->. apply resolve_data_uri; eauto.
  - unfold Page.step in Hstep. destruct (isMobileDevice s) as [[]|] eqn:Hm; simplify_eq.
    rewrite handleMobileFile_head. destruct (files ≫= head) as [file|]; [|done].
    by apply (abs_handleCapture s (CapBlob file) true).
  - apply page_step_settled in Hstep as (u & Hu & ->). by apply abs_on_settled.
Qed.

(** From the shutter of the mobile camera to the request: a photo
    taken while the camera is mounted becomes the preview, and one request
    is issued whose single field [image] carries the JPEG bytes of the frame
    under the name "captured.jpg". *)
Theorem page_mobile_capture_request `{Canvas Frame} (ms : Mobile.state) (v : video Frame) s :
  Mobile.mounted ms = true → isMobileDevice s = Some true →
  ∃ uri s', Mobile.capturePhoto ms v true = Some (CapString uri) ∧
    step s (OnCapture (CapString uri)) = Some s' ∧ screenshot s' = Some uri ∧
    uploads s' = uploads s ++
      [mkUpload (CapString uri)
         (mkRequest (apiEndpoint origin) (js "POST")
            [(js "image",
              FormFile (mkBlob (encode_jpeg (video_frame v) (or_number (videoWidth v) 640)
                                            (or_number (videoHeight v) 480))
                               (js "image/jpeg") None)
                       (js "captured.jpg"))])
         None].
Proof.
  intros Hms Hm. eexists _, _. split_and!.
  - unfold Mobile.capturePhoto. by rewrite Hms.
  - apply page_step_capture. by rewrite Hm.
  - by rewrite handleCapture_screenshot.
  - pose proof (handleCapture_uploads
        (CapString (canvas_toDataURL (video_frame v) (or_number (videoWidth v) 640)
                      (or_number (videoHeight v) 480))) s) as Hu.
    rewrite build_form_canvas_frame in Hu by (apply or_number_nonzero; lia). apply Hu.
Qed.

(** From the capture button of the desktop webcam to the request:
    whatever [capturePhoto] passes on becomes the preview, and, the video
    having a width, one request is issued with the JPEG bytes of the frame
    under the name "captured.jpg". *)
Theorem page_desktop_capture_request `{Canvas Frame} (ds : Desktop.state) (v : video Frame) c s :
  Desktop.capturePhoto ds v = Some c → videoWidth v ≠ 0%Z → isMobileDevice s = Some false →
  ∃ uri s', c = CapString uri ∧
    step s (OnCapture c) = Some s' ∧ screenshot s' = Some uri ∧
    uploads s' = uploads s ++
      [mkUpload c
         (mkRequest (apiEndpoint origin) (js "POST")
            [(js "image",
              FormFile (mkBlob (encode_jpeg (video_frame v) (videoWidth v) (videoHeight v))
                               (js "image/jpeg") None)
                       (js "captured.jpg"))])
         None].
Proof.
  intros Hc Hw Hm. pose proof (Desktop.desktop_capture_form ds v c Hc Hw) as Hf.
  pose proof (handleCapture_uploads c s) as Hu. rewrite Hf in Hu.
  apply Desktop.desktop_capture_string in Hc as (uri & -> & _). eexists uri, _. split_and!; [done| | |apply Hu].
  - apply page_step_capture. by rewrite Hm.
  - by rewrite handleCapture_screenshot.
Qed.

End page_props.

(** ** The theorems on the example session *)

Example session_outcomes :
  SessionSpec.outcomes (abs session_state)
  = [(CapString photo, Some (Success true)); (CapBlob chosen_file, Some Failure)]
  ∧ render session_state = MainView true (Some (blob_url 0))
  ∧ unhandled session_state = [].
Proof. by vm_compute. Qed.

Lemma page_mode_never_reverts_witness :
  isMobileDevice session_state = Some true ∧ true = isMobileUA phone.
Proof.
  apply (page_mode_never_reverts parse_ok_true phone None detected session_state true);
    [by exists (take 1 session)|by exists (drop 1 session)|done].
Defined.

Lemma page_preview_latest_witness :
  ∃ url, screenshot chosen = Some url ∧ resolve (object_urls chosen) url = Some chosen_file.
Proof.
  apply (page_preview_latest parse_ok_true phone None captured (CapBlob chosen_file) chosen);
    [by exists (take 2 session)|done].
Defined.

Lemma page_upload_keeps_preview_witness :
  render (after (take 4 session)) = render chosen ∧
  screenshot (after (take 4 session)) = screenshot chosen ∧
  object_urls (after (take 4 session)) = object_urls chosen.
Proof.
  by apply (page_upload_keeps_preview parse_ok_true phone None chosen 0
              (Fulfilled (mkResponse 200 (Some json_ok_true)))).
Defined.

Lemma page_capture_one_request_witness :
  match build_form (CapString photo) with
  | Ok fd =>
      uploads captured
      = uploads detected ++
          [mkUpload (CapString photo) (mkRequest (apiEndpoint None) (js "POST") fd) None]
      ∧ unhandled captured = unhandled detected
  | Err e => uploads captured = uploads detected ∧ unhandled captured = unhandled detected ++ [e]
  end.
Proof. by apply (page_capture_one_request parse_ok_true phone None detected). Defined.

Lemma page_malformed_capture_witness :
  uploads (handleCapture None (CapString malformed) detected) = uploads detected ∧
  screenshot (handleCapture None (CapString malformed) detected) = Some malformed ∧
  unhandled (handleCapture None (CapString malformed) detected)
  = unhandled detected ++ [InvalidCharacterError].
Proof. by apply (page_malformed_capture parse_ok_true phone None detected malformed). Defined.

Lemma page_object_urls_kept_witness :
  resolve (object_urls session_state) (blob_url 0) = Some chosen_file.
Proof.
  apply (page_object_urls_kept parse_ok_true phone None chosen session_state);
    [by exists (drop 3 session)|done].
Defined.

Lemma page_two_captures_two_urls_witness :
  ∃ u1 u2, u1 ≠ u2 ∧
    screenshot (handleCapture None (CapBlob chosen_file) detected) = Some u1 ∧
    screenshot (handleCapture None (CapBlob (mkBlob [] [] None))
                  (handleCapture None (CapBlob chosen_file) detected)) = Some u2 ∧
    resolve (object_urls (handleCapture None (CapBlob (mkBlob [] [] None))
                            (handleCapture None (CapBlob chosen_file) detected))) u1
    = Some chosen_file ∧
    resolve (object_urls (handleCapture None (CapBlob (mkBlob [] [] None))
                            (handleCapture None (CapBlob chosen_file) detected))) u2
    = Some (mkBlob [] [] None).
Proof.
  apply (page_two_captures_two_urls parse_ok_true phone None detected);
    [by exists (take 1 session)|done..].
Defined.

Lemma page_settle_scoped_witness :
  ∃ u, uploads chosen !! 1 = Some u ∧ up_log u = None ∧
       uploads (after (take 3 session ++ [FetchSettled 1 (Rejected [])])) !! 1
       = Some (mkUpload (up_image u) (up_request u)
                 (Some (handleImageUpload_settle parse_ok_true (Rejected [])))) ∧
       (∀ k', k' ≠ 1 →
              uploads (after (take 3 session ++ [FetchSettled 1 (Rejected [])])) !! k'
              = uploads chosen !! k') ∧
       length (uploads (after (take 3 session ++ [FetchSettled 1 (Rejected [])])))
       = length (uploads chosen) ∧
       unhandled (after (take 3 session ++ [FetchSettled 1 (Rejected [])])) = unhandled chosen.
Proof. by apply (page_settle_scoped parse_ok_true phone None chosen 1 (Rejected [])). Defined.

Lemma page_upload_final_witness :
  ∃ u', uploads session_state !! 0 = Some u' ∧
        up_image u' = CapString photo ∧
        up_request u' = mkRequest (apiEndpoint None) (js "POST")
                          [(js "image",
                            FormFile (mkBlob [44; 7]%Z (js "image/jpeg") None)
                                     (js "captured.jpg"))] ∧
        ∀ l, Some (LogServerResponse true) = Some l →
             up_log u' = Some l ∧
             ∀ o, step parse_ok_true phone None session_state (FetchSettled 0 o) = None.
Proof.
  apply (page_upload_final parse_ok_true phone None (after (take 4 session)) session_state 0
           (mkUpload (CapString photo)
              (mkRequest (apiEndpoint None) (js "POST")
                 [(js "image",
                   FormFile (mkBlob [44; 7]%Z (js "image/jpeg") None) (js "captured.jpg"))])
              (Some (LogServerResponse true))));
    [by exists (drop 4 session)|done].
Defined.

Lemma page_mobile_capture_request_witness :
  ∃ uri s', Mobile.capturePhoto Mobile.init (mkVideo 0 0 [300; 7]%Z) true = Some (CapString uri) ∧
    step parse_ok_true phone None detected (OnCapture (CapString uri)) = Some s' ∧
    screenshot s' = Some uri ∧
    uploads s' = uploads detected ++
      [mkUpload (CapString uri)
         (mkRequest (apiEndpoint None) (js "POST")
            [(js "image",
              FormFile (mkBlob (encode_jpeg [300; 7]%Z (or_number 0 640) (or_number 0 480))
                               (js "image/jpeg") None)
                       (js "captured.jpg"))])
         None].
Proof.
  by apply (page_mobile_capture_request parse_ok_true phone None Mobile.init
              (mkVideo 0 0 [300; 7]%Z) detected).
Defined.

Lemma page_desktop_capture_request_witness :
  ∃ uri s', CapString (canvas_toDataURL [300; 7]%Z 2 1) = CapString uri ∧
    step parse_ok_true None None (detect None init)
      (OnCapture (CapString (canvas_toDataURL [300; 7]%Z 2 1))) = Some s' ∧
    screenshot s' = Some uri ∧
    uploads s' = uploads (detect (J := bool) None init) ++
      [mkUpload (CapString (canvas_toDataURL [300; 7]%Z 2 1))
         (mkRequest (apiEndpoint None) (js "POST")
            [(js "image",
              FormFile (mkBlob (encode_jpeg [300; 7]%Z 2 1) (js "image/jpeg") None)
                       (js "captured.jpg"))])
         None].
Proof.
  by apply (page_desktop_capture_request parse_ok_true None None webcam_on
              (mkVideo 2 1 [300; 7]%Z) _ (detect None init)).
Defined.

End Page.
