(* ===== verification/PageProgress.v ===== *)
(** Progress of the page: what becomes of the uploads, and what the
    console shows.

    Every call of [fetch] (line 194 of [src/frontend/app/analyse/page.tsx])
    is owed a settlement: the promise is fulfilled with a response or
    rejected.  The continuation of [handleImageUpload] (lines 198-207) then
    writes exactly one line to the console.  The console is the output of
    the page: the model computes it from a run as the lines of the
    settlements in the order in which they occur.

    The file proves that the uploads in flight inevitably all log their
    line, in whatever order and with whatever answer the server gives, while
    the preview and the requests stay as they are; and that the console of a
    run holds exactly the lines of the uploads that have settled, one for
    each, in the order of settlement and not of capture. *)

From Stdlib Require Import ZArith Lia.
From stdpp Require Import prelude.
From S2P Require Import Prelude JsString Base64 Normalizer Upload Machine Progress.
From S2P Require Import Canvas Media MobileCamera Detector DesktopCamera Analyse.

Import Page.

Section page_progress.
Context {J : Type} (JSON_parse : jsstring → option J).
Context (userAgent origin : option jsstring).

(** The events that the network owes: a call of [fetch] in flight settles,
    with any outcome. *)
Definition answers (s : state (J := J)) (ev : event) : Prop :=
  match ev with
  | FetchSettled k _ => is_Some (in_flight s k)
  | _ => False
  end.

(** The number of calls of [fetch] in flight. *)
Definition in_flight_count (s : state (J := J)) : nat :=
  count (λ u, up_log u = None) (uploads s).

(** Lines 200, 204 and 206: the line that a step writes to the console. *)
Definition logs (s : state (J := J)) (ev : event) : option (log_entry J) :=
  match ev with
  | FetchSettled k o => (λ _, handleImageUpload_settle JSON_parse o) <$> in_flight s k
  | _ => None
  end.

(** The console after the events of [evs] from [s], oldest line first. *)
Fixpoint console (evs : list event) (s : state (J := J)) : list (log_entry J) :=
  match evs with
  | [] => []
  | ev :: evs' =>
      match step JSON_parse userAgent origin s ev with
      | Some s' => option_list (logs s ev) ++ console evs' s'
      | None => []
      end
  end.

(** The lines that the uploads of a state have logged, in the order of the
    captures. *)
Definition logged (s : state (J := J)) : list (log_entry J) :=
  omap up_log (uploads s).

(** Every upload of [s0] has logged its line in [s], and is the upload of
    the same image with the same request. *)
Definition all_logged (s0 s : state (J := J)) : Prop :=
  ∀ k u, uploads s0 !! k = Some u →
         ∃ u' l, uploads s !! k = Some u' ∧ up_log u' = Some l ∧
                 up_image u' = up_image u ∧ up_request u' = up_request u.

End page_progress.

(** Two photos are taken; the second upload is answered first. *)
Definition overtaking : list (event) :=
  [DetectEffect; OnCapture (CapString photo); OnCapture (CapString photo);
   FetchSettled 1 (Fulfilled (mkResponse 500 (Some (js "server error"))));
   FetchSettled 0 (Fulfilled (mkResponse 200 (Some json_ok_true)))].

(** * Properties *)

Section page_progress_props.
Context {J : Type} (JSON_parse : jsstring → option J).
Context (userAgent origin : option jsstring).
Implicit Types (s : state (J := J)) (ev : event) (u : upload (J := J)) (k : nat) (o : settled).

#[local] Abbreviation step := (step JSON_parse userAgent origin).
#[local] Abbreviation machine := (machine JSON_parse userAgent origin).
#[local] Abbreviation console := (console JSON_parse userAgent origin).
#[local] Abbreviation logs := (logs JSON_parse).
#[local] Abbreviation inevitable := (@inevitable _ _ machine answers).

Lemma answers_inv s ev :
  answers s ev → ∃ k o u, ev = FetchSettled k o ∧ in_flight s k = Some u.
Proof. destruct ev as [| | |k o]; simpl; try done. intros [u Hu]. eauto. Qed.

Lemma in_flight_count_pos s : 0 < in_flight_count s ↔ ∃ k u, in_flight s k = Some u.
Proof.
  unfold in_flight_count. rewrite count_pos. by setoid_rewrite page_in_flight_Some.
Qed.

Lemma answers_exists s : (∃ ev, answers s ev) ↔ 0 < in_flight_count s.
Proof.
  rewrite in_flight_count_pos. split.
  - intros [ev (k & o & u & _ & Hu)%answers_inv]. eauto.
  - intros (k & u & Hu). exists (FetchSettled k (Rejected [])). simpl. by rewrite Hu.
Qed.

#[export] Instance answers_exists_dec s : Decision (∃ ev, answers s ev).
Proof. refine (cast_if (decide (0 < in_flight_count s))); by rewrite answers_exists. Defined.

(** Every owed settlement can be delivered, and leaves one upload less in
    flight. *)
Lemma answers_step s ev :
  answers s ev →
  ∃ s', step s ev = Some s' ∧ S (in_flight_count s') = in_flight_count s.
Proof.
  intros (k & o & u & -> & Hu)%answers_inv. exists (on_settled JSON_parse k o s u).
  split; [by apply page_step_settled; exists u|].
  apply page_in_flight_Some in Hu as [Hk Hl].
  by apply (count_insert_settle _ (uploads s) k u).
Qed.

(** An upload that is not in flight in a state that keeps the uploads of
    [s0] has logged its line. *)
Lemma all_logged_quiescent s0 s :
  keeps_uploads s0 s → (∀ k, in_flight s k = None) → all_logged s0 s.
Proof.
  intros Hkeep Hq k u (u' & Hk' & Hi & Hr & _)%Hkeep.
  destruct (up_log u') as [l|] eqn:Hl; [by exists u', l|].
  specialize (Hq k). by rewrite (proj2 (page_in_flight_Some s k u')) in Hq.
Qed.

(** ** The console *)

Lemma console_cons s ev s' evs :
  step s ev = Some s' → console (ev :: evs) s = option_list (logs s ev) ++ console evs s'.
Proof. intros Hs. simpl. by rewrite Hs. Qed.

(** A settlement adds its line to the lines that are logged. *)
Lemma logged_on_settled s k o u :
  in_flight s k = Some u →
  logged (on_settled JSON_parse k o s u) ≡ₚ handleImageUpload_settle JSON_parse o :: logged s.
Proof.
  intros [Hk Hl]%page_in_flight_Some. unfold logged. simpl.
  rewrite <-(take_drop_middle (uploads s) k u Hk) at 2.
  rewrite insert_take_drop by by eapply lookup_lt_Some.
  rewrite !omap_app. simpl. rewrite Hl. by rewrite Permutation_middle.
Qed.

(** A step that is not a settlement logs nothing. *)
Lemma logged_step s ev s' :
  step s ev = Some s' → logged s' ≡ₚ option_list (logs s ev) ++ logged s.
Proof.
  intros Hstep. pose proof Hstep as Hc. apply page_step_cases in Hc
    as [[-> ->]|[(data & _ & -> & Hev)|[[(files & -> & _) ->]|(k & o & u & -> & Hu & ->)]]].
  - done.
  - assert (logs s ev = None) as -> by (destruct Hev as [->|(? & ? & -> & _)]; done).
    unfold logged. pose proof (handleCapture_uploads origin data s) as Hup.
    destruct (build_form data); destruct Hup as [-> _]; [|done].
    by rewrite omap_app, app_nil_r.
  - done.
  - simpl. rewrite Hu. simpl. by apply logged_on_settled.
Qed.

End page_progress_props.

(** * The theorems of the file *)

Section page_progress_theorems.
Context {J : Type} (JSON_parse : jsstring → option J).
Context (userAgent origin : option jsstring).

#[local] Abbreviation machine := (machine JSON_parse userAgent origin).

(** Every upload is inevitably logged: when the calls of [fetch] that
    are in flight settle, in whatever order and each with whatever outcome,
    every settlement can be delivered, and after finitely many of them
    every upload has logged its line: it is still the upload of the same
    image with the same request, and the preview is the one that was
    shown.  No sequence of settlements is longer than the number of uploads
    in flight. *)
Theorem page_uploads_settle (s : state (J := J)) :
  @inevitable _ _ machine answers
    (λ s', all_logged s s' ∧ screenshot s' = screenshot s ∧ unhandled s' = unhandled s) s ∧
  ∀ evs, @owed_run _ _ machine answers evs s → length evs ≤ in_flight_count s.
Proof.
  set (I := λ s', keeps_uploads s s' ∧ screenshot s' = screenshot s ∧
                  unhandled s' = unhandled s).
  assert (∀ s0 ev, I s0 → answers s0 ev →
            ∃ s', @m_step _ _ machine s0 ev = Some s' ∧ I s' ∧
                  in_flight_count s' < in_flight_count s0) as Hstep.
  { intros s0 ev (Hk & Hs & Hu) Hev.
    destruct (answers_step JSON_parse userAgent origin s0 ev Hev) as (s' & Hs' & Hn).
    exists s'. split; [done|]. split; [|lia].
    pose proof (page_step_keeps_uploads JSON_parse userAgent origin s0 ev s' Hs') as Hk'.
    apply answers_inv in Hev as (k & o & u & -> & Hin).
    apply page_step_settled in Hs' as (u' & ? & ->). simplify_eq.
    split; [|done]. by eapply (@PreOrder_Transitive _ _ keeps_uploads_preorder). }
  assert (I s) as HI by (split; [apply keeps_uploads_preorder|done]).
  split.
  - eapply inevitable_mono;
      [|by apply (inevitable_measure (Machine0 := machine) answers in_flight_count I); [|apply _|]].
    intros s' [(Hk & Hs & Hu) Hq]. split; [|done].
    apply all_logged_quiescent; [done|]. intros k.
    destruct (in_flight s' k) as [u|] eqn:Hin; [|done].
    destruct (Hq (FetchSettled k (Rejected []))). simpl. by rewrite Hin.
  - intros evs. by apply (owed_run_length (Machine0 := machine) answers in_flight_count I).
Qed.

(** The console of a run holds exactly the lines of the uploads that
    have settled, one line for each: it is a permutation of the lines that
    the uploads of the final state have logged, added to those that were
    logged before. *)
Theorem page_console_lines (evs : list event) (s s' : state (J := J)) :
  @run _ _ machine evs s = Some s' →
  logged s' ≡ₚ logged s ++ console JSON_parse userAgent origin evs s.
Proof.
  revert s. induction evs as [|ev evs IH]; intros s Hr.
  - simplify_eq/=. by rewrite app_nil_r.
  - apply run_cons_Some in Hr as (s1 & Hs1 & Hr).
    rewrite (console_cons JSON_parse userAgent origin s ev s1) by done.
    rewrite (IH s1 Hr), (logged_step JSON_parse userAgent origin s ev s1 Hs1).
    rewrite !app_assoc. f_equiv. apply Permutation_app_comm.
Qed.

End page_progress_theorems.

Lemma page_console_lines_witness :
  logged (after session) ≡ₚ
  logged Page.init ++ console parse_ok_true phone None session Page.init.
Proof. apply page_console_lines. by vm_compute. Defined.

(** The console is in the order of settlement, not of capture: when
    the second upload is answered before the first, its line comes first on
    the console, while the lines of the uploads are in the order of the
    captures. *)
Example page_console_order :
  console parse_ok_true phone None overtaking Page.init
    = [LogUploadError 500 (js "server error"); LogServerResponse true] ∧
  logged (after overtaking)
    = [LogServerResponse true; LogUploadError 500 (js "server error")].
Proof. split; by vm_compute. Qed.
