(* ===== verification/Fetch.v ===== *)
(** [handleImageUpload] one [await] at a time: lines 193-207 of
    [src/frontend/app/analyse/page.tsx].

    The continuation of [handleImageUpload] suspends three times: at
    [await fetch(...)] (line 194), and then at [await response.text()]
    (line 199) when the response is not ok, or at [await response.json()]
    (line 203) when it is.  [Upload.v] and [Analyse.v] take the settling of a
    call and the reading of its body as one step.  This file models each
    [await] as a step of its own: a call is a coroutine that is suspended at
    one of the three points and holds the response it has received;
    [resume] is the code between two suspensions; the events of the page can
    occur between the arrival of a response and the reading of its body.

    The theorems: running the continuation one [await] at a time logs the
    line that [handleImageUpload_settle] computes in one step; the detailed
    page is embedded in [Module Page], so every run of it is a run of the
    page with the same states and the same console, which justifies the
    coarser model of the other files; the console follows the order in which
    the bodies are read, not the order in which the responses arrive; every
    call that is suspended inevitably logs its line. *)

From Stdlib Require Import ZArith Lia.
From stdpp Require Import prelude gmap.
From S2P Require Import Prelude JsString Base64 Normalizer Upload Machine Embedding Progress.
From S2P Require Import Canvas Media MobileCamera Detector DesktopCamera Analyse PageProgress.

Module Fetch.
Import Page.

(** [response.ok] (line 198) of a response with this status. *)
Definition status_ok (status : Z) : bool := bool_decide (200 ≤ status ≤ 299)%Z.

(** How a promise that the continuation awaits settles: the promise of
    [fetch] with a response, of which the status is known and the body is
    not read yet, or with a rejection; the promise of [text()] or [json()]
    with the text of the body, or with a rejection when the body cannot be
    read. *)
Inductive settlement : Type :=
| Responded (status : Z)
| FetchFailed (reason : jsstring)
| BodyRead (text : jsstring)
| BodyFailed.

(** The [await] at which a call is suspended: at line 194, or holding the
    response at line 199 or at line 203. *)
Inductive suspended : Type :=
| AtFetch
| AtText (status : Z)
| AtJson (status : Z).

#[export] Instance suspended_eq_dec : EqDecision suspended.
Proof. solve_decision. Defined.

(** A call after it was resumed: suspended again, or returned after
    logging a line. *)
Inductive phase (J : Type) : Type :=
| Suspended (a : suspended)
| Returned (l : log_entry J).
Arguments Suspended {J} a.
Arguments Returned {J} l.

Section fetch.
Context {J : Type} (JSON_parse : jsstring → option J).
Context (userAgent origin : option jsstring).

(** Lines 194-207, from one suspension to the next: the code that runs
    when the awaited promise settles with [o]; [None] when [o] is not a
    settlement of the promise that is awaited.  A rejection at any of the
    three points is caught at line 205. *)
Definition resume (a : suspended) (o : settlement) : option (phase J) :=
  match a, o with
  | AtFetch, Responded status =>
      if negb (status_ok status) then Some (Suspended (AtText status))
      else Some (Suspended (AtJson status))
  | AtFetch, FetchFailed reason => Some (Returned (LogUploadException (NetworkError reason)))
  | AtText status, BodyRead errorText => Some (Returned (LogUploadError status errorText))
  | AtJson _, BodyRead text =>
      match JSON_parse text with
      | Some data => Some (Returned (LogServerResponse data))
      | None => Some (Returned (LogUploadException JsonSyntaxError))
      end
  | AtText _, BodyFailed | AtJson _, BodyFailed =>
      Some (Returned (LogUploadException BodyReadError))
  | _, _ => None
  end.

(** The settlement of the promise of [text()] or [json()] for a body. *)
Definition read_body (body : option jsstring) : settlement :=
  match body with Some text => BodyRead text | None => BodyFailed end.

(** The continuation run one [await] at a time on the settlement [o] of
    [Upload.v], which holds a response together with its body. *)
Definition settle_by_steps (o : settled) : option (log_entry J) :=
  match o with
  | Rejected reason =>
      match resume AtFetch (FetchFailed reason) with
      | Some (Returned l) => Some l
      | _ => None
      end
  | Fulfilled r =>
      match resume AtFetch (Responded (resp_status r)) with
      | Some (Suspended a) =>
          match resume a (read_body (resp_body r)) with
          | Some (Returned l) => Some l
          | _ => None
          end
      | _ => None
      end
  end.

(** The page, and for each call of [fetch] that has received its response
    the point at which it is suspended; a call in flight that is not in
    [reading] is suspended at line 194. *)
Record state : Type := mkState {
  page : Page.state (J := J);
  reading : gmap nat suspended;
}.

Inductive event : Type :=
| PageEvent (ev : Page.event)
| Settle (k : nat) (o : settlement).

Definition init : state := {| page := Page.init; reading := ∅ |}.

(** The point at which call [k] is suspended. *)
Definition point (s : state) (k : nat) : suspended := default AtFetch (reading s !! k).

(** Call [k] returns after logging [l]. *)
Definition log_line (k : nat) (l : log_entry J) (p : Page.state (J := J))
    (u : upload (J := J)) : Page.state (J := J) :=
  {| isMobileDevice := isMobileDevice p; screenshot := screenshot p;
     object_urls := object_urls p;
     uploads := <[k := mkUpload (up_image u) (up_request u) (Some l)]> (uploads p);
     unhandled := unhandled p |}.

(** The promise that call [k] awaits settles with [o]: the call is
    resumed, and is suspended again or returns. *)
Definition on_settlement (k : nat) (o : settlement) (s : state)
    (u : upload (J := J)) : option state :=
  ph ← resume (point s k) o;
  Some match ph with
       | Suspended a => {| page := page s; reading := <[k := a]> (reading s) |}
       | Returned l => {| page := log_line k l (page s) u; reading := delete k (reading s) |}
       end.

(** The events of the page other than the settling of a call are those of
    [Page.step]; a settlement resumes a call that is in flight. *)
Definition step (s : state) (ev : event) : option state :=
  match ev with
  | PageEvent (FetchSettled _ _) => None
  | PageEvent ev =>
      p ← Page.step JSON_parse userAgent origin (page s) ev;
      Some {| page := p; reading := reading s |}
  | Settle k o => in_flight (page s) k ≫= on_settlement k o s
  end.

#[export] Instance machine : Machine state event := {| m_init := init; m_step := step |}.

(** The line that a step writes to the console. *)
Definition written (s : state) (ev : event) : list (log_entry J) :=
  match ev with
  | Settle k o =>
      match resume (point s k) o with
      | Some (Returned l) => [l]
      | _ => []
      end
  | PageEvent _ => []
  end.

(** The settlements that resume call [k] until it returns, when the
    request settles as [o]: the rejection of [fetch]; or the response and
    then its body. *)
Definition settle_events (k : nat) (o : settled) : list event :=
  match o with
  | Rejected reason => [Settle k (FetchFailed reason)]
  | Fulfilled r => [Settle k (Responded (resp_status r)); Settle k (read_body (resp_body r))]
  end.

(** ** The embedding in the page *)

(** The settlement of [Upload.v] that completes a call suspended at [a]:
    the rejection of [fetch], or the response that the call holds together
    with the body that was read. *)
Definition merged (a : suspended) (o : settlement) : option settled :=
  match a, o with
  | AtFetch, FetchFailed reason => Some (Rejected reason)
  | AtText status, BodyRead text | AtJson status, BodyRead text =>
      Some (Fulfilled (mkResponse status (Some text)))
  | AtText status, BodyFailed | AtJson status, BodyFailed =>
      Some (Fulfilled (mkResponse status None))
  | _, _ => None
  end.

(** The events of the page that an event stands for: the arrival of a
    response is not seen by the page. *)
Definition event_project (s : state) (ev : event) : list Page.event :=
  match ev with
  | PageEvent ev => [ev]
  | Settle k o => option_list (FetchSettled k <$> merged (point s k) o)
  end.

(** A call suspended at line 199 holds a response that is not ok, a call
    suspended at line 203 one that is. *)
Definition holds_response (a : suspended) : Prop :=
  match a with
  | AtFetch => False
  | AtText status => status_ok status = false
  | AtJson status => status_ok status = true
  end.

Definition inv (s : state) : Prop := ∀ k a, reading s !! k = Some a → holds_response a.

(** Only calls in flight hold a response. *)
Definition held_in_flight (s : state) : Prop :=
  ∀ k a, reading s !! k = Some a → is_Some (in_flight (page s) k).

(** ** Progress *)

(** The events that the network owes: the promise that a call in flight
    awaits settles. *)
Definition owed (s : state) (ev : event) : Prop :=
  match ev with
  | Settle k o => is_Some (in_flight (page s) k) ∧ is_Some (resume (point s k) o)
  | PageEvent _ => False
  end.

(** The number of settlements that call [k], with upload [u], still
    awaits. *)
Definition awaits (s : state) (k : nat) (u : upload (J := J)) : nat :=
  match up_log u with
  | Some _ => 0
  | None => match reading s !! k with Some _ => 1 | None => 2 end
  end.

Definition work (s : state) : nat := sum_list (imap (awaits s) (uploads (page s))).

End fetch.

(** Two photos are taken and both responses arrive, the first before the
    second; the body of the second is read before the body of the first. *)
Definition overtaking_bodies : list event :=
  [PageEvent DetectEffect; PageEvent (OnCapture (CapString photo));
   PageEvent (OnCapture (CapString photo));
   Settle 0 (Responded 200); Settle 1 (Responded 500);
   Settle 1 (BodyRead (js "server error")); Settle 0 (BodyRead json_ok_true)].

Definition after_events (evs : list event) : state (J := bool) :=
  default init (@run _ _ (machine parse_ok_true phone None) evs init).

(** * Properties *)

Section fetch_props.
Context {J : Type} (JSON_parse : jsstring → option J).
Context (userAgent origin : option jsstring).
Implicit Types (s : state (J := J)) (ev : event) (k : nat) (a : suspended) (o : settlement).
Implicit Types (u : upload (J := J)).

#[local] Abbreviation step := (step JSON_parse userAgent origin).
#[local] Abbreviation machine := (machine JSON_parse userAgent origin).
#[local] Abbreviation page_machine := (Page.machine JSON_parse userAgent origin).
#[local] Abbreviation resume := (resume JSON_parse).
#[local] Abbreviation written := (written JSON_parse).

Lemma fetch_response_ok status body :
  response_ok (mkResponse status body) = status_ok status.
Proof. done. Qed.

(** The line that a call logs when it returns is the line of the merged
    continuation. *)
Lemma fetch_resume_returned a o l :
  holds_response a → resume a o = Some (Returned l) →
  ∃ m, merged a o = Some m ∧ handleImageUpload_settle JSON_parse m = l.
Proof.
  destruct a as [|st|st], o as [st'|reason|text|]; simpl; try done; intros Ha Hr;
    (eexists; split; [done|]); simpl; rewrite fetch_response_ok, Ha; simpl;
    try destruct (JSON_parse text); by simplify_eq.
Qed.

(** A call that is suspended again had no response yet, and the page does
    not see the step. *)
Lemma fetch_resume_suspended a o a' :
  resume a o = Some (Suspended a') → a = AtFetch ∧ merged a o = None ∧ holds_response a'.
Proof.
  destruct a as [|st|st], o as [st'|reason|text|]; simpl; try done.
  - destruct (status_ok st') eqn:Hst; simpl; intros [= <-]; done.
  - destruct (JSON_parse text); done.
Qed.

Lemma fetch_step_settle s k o s' :
  step s (Settle k o) = Some s' ↔
  ∃ u ph, in_flight (page s) k = Some u ∧ resume (point s k) o = Some ph ∧
          s' = match ph with
               | Suspended a => {| page := page s; reading := <[k := a]> (reading s) |}
               | Returned l =>
                   {| page := log_line k l (page s) u; reading := delete k (reading s) |}
               end.
Proof.
  simpl. rewrite bind_Some. unfold on_settlement. setoid_rewrite bind_Some.
  split; [intros (u & Hu & ph & Hph & [= <-])|intros (u & ph & Hu & Hph & ->)]; eauto 6.
Qed.

Lemma fetch_step_page_event s (pev : Page.event) s' :
  step s (PageEvent pev) = Some s' →
  Page.step JSON_parse userAgent origin (page s) pev = Some (page s') ∧
  reading s' = reading s.
Proof.
  destruct pev; [..|done]; by intros (p & -> & [= <-])%bind_Some.
Qed.

Lemma fetch_page_event_step s (pev : Page.event) p :
  (∀ k m, pev ≠ FetchSettled k m) →
  Page.step JSON_parse userAgent origin (page s) pev = Some p →
  step s (PageEvent pev) = Some {| page := p; reading := reading s |}.
Proof.
  intros Hne Hp. destruct pev as [| | |k m]; [..|by destruct (Hne k m)];
    unfold Fetch.step; by rewrite Hp.
Qed.

(** ** The invariant *)

Lemma fetch_inv_init : inv (init (J := J)).
Proof. intros k a. unfold init. simpl. by rewrite lookup_empty. Qed.

Lemma fetch_inv_step s ev s' : inv s → step s ev = Some s' → inv s'.
Proof.
  intros Hinv. destruct ev as [ev|k o].
  - intros [_ Hr]%fetch_step_page_event k a. rewrite Hr. apply Hinv.
  - intros (u & [a'|l] & Hu & Hph & ->)%fetch_step_settle k' a; simpl.
    + apply fetch_resume_suspended in Hph as (_ & _ & Ha').
      intros [[<- <-]|[_ Hk]]%lookup_insert_Some; [done|by eapply Hinv].
    + intros [_ Hk]%lookup_delete_Some. by eapply Hinv.
Qed.

Lemma fetch_inv_point s k : inv s → is_Some (reading s !! k) → holds_response (point s k).
Proof. unfold point. intros Hinv [a Ha]. rewrite Ha. by eapply Hinv. Qed.

(** A call that returns was holding a response, or is resumed by the
    rejection of [fetch]. *)
Lemma fetch_returned_merged s k o l :
  inv s → resume (point s k) o = Some (Returned l) →
  ∃ m, merged (point s k) o = Some m ∧ handleImageUpload_settle JSON_parse m = l.
Proof.
  intros Hinv Hr. destruct (reading s !! k) as [a|] eqn:Ha.
  - apply fetch_resume_returned; [|done]. apply fetch_inv_point; [done|by rewrite Ha].
  - unfold point in *. rewrite Ha in *. simpl in *.
    destruct o as [st|reason| |]; try done; [by destruct (status_ok st)|].
    eexists. split; [done|]. by simplify_eq.
Qed.

Lemma fetch_held_init : held_in_flight (init (J := J)).
Proof. intros k a. unfold init. simpl. by rewrite lookup_empty. Qed.

Lemma fetch_held_step s ev s' : held_in_flight s → step s ev = Some s' → held_in_flight s'.
Proof.
  intros Hh. destruct ev as [pev|k o].
  - intros Hstep k a. pose proof Hstep as [Hp Hr]%fetch_step_page_event.
    rewrite Hr. intros [u Hu]%Hh. exists u.
    apply (page_step_in_flight JSON_parse userAgent origin (page s) pev); [done| |done].
    intros k' o' ->. done.
  - intros (u & [a'|l] & Hu & Hph & ->)%fetch_step_settle k' a; simpl.
    + intros [[<- <-]|[_ Hk]]%lookup_insert_Some; [eauto|by eapply Hh].
    + intros [Hne Hk]%lookup_delete_Some. unfold in_flight. simpl.
      rewrite list_lookup_insert_ne by done. by eapply Hh.
Qed.

(** ** The embedding *)

Lemma fetch_embeds_step s ev s' :
  inv s → step s ev = Some s' →
  @run _ _ page_machine (event_project s ev) (page s) = Some (page s').
Proof.
  intros Hinv. destruct ev as [ev|k o].
  - intros [Hp _]%fetch_step_page_event. simpl. by rewrite Hp.
  - intros (u & [a'|l] & Hu & Hph & ->)%fetch_step_settle; simpl.
    + apply fetch_resume_suspended in Hph as (_ & -> & _). done.
    + apply fetch_returned_merged in Hph as (m & -> & <-); [|done]. simpl. by rewrite Hu.
Qed.

Lemma fetch_embedding :
  embedding machine page_machine inv page event_project.
Proof. split; [done|apply fetch_inv_init|apply fetch_inv_step|apply fetch_embeds_step]. Qed.

Lemma fetch_reachable_held s : @reachable _ _ machine s → held_in_flight s.
Proof. apply (invariant (Machine0 := machine)); [apply fetch_held_init|]. exact fetch_held_step. Qed.

(** ** A call from its request to its line *)

(** The line of the merged continuation goes to the upload as
    [Page.on_settled] writes it. *)
Lemma fetch_log_line_settled k (m : settled) (p : Page.state (J := J)) u :
  log_line k (handleImageUpload_settle JSON_parse m) p u = on_settled JSON_parse k m p u.
Proof. done. Qed.

(** A call in flight that has no response yet, resumed by the settlements
    of [settle_events]: it returns, its upload holds the line that the
    one-step continuation computes for the settled request, the console
    holds that line, and no other call is touched. *)
Lemma fetch_call_completes s k u (m : settled) :
  in_flight (page s) k = Some u → reading s !! k = None →
  @run _ _ machine (settle_events k m) s
  = Some {| page := on_settled JSON_parse k m (page s) u; reading := reading s |} ∧
  @outputs _ _ _ machine written (settle_events k m) s
  = [handleImageUpload_settle JSON_parse m].
Proof.
  intros Hu Hk. unfold settle_events.
  destruct m as [[status body]|reason]; simpl; unfold on_settlement, point;
    rewrite Hu, ?Hk; simpl.
  2: { rewrite delete_id by done. split; reflexivity. }
  rewrite <-fetch_log_line_settled. simpl. rewrite fetch_response_ok.
  destruct (status_ok status), body as [text|]; simpl;
    unfold on_settlement, point; simpl; rewrite Hu, lookup_insert_eq; simpl;
    try destruct (JSON_parse text); simpl; rewrite delete_insert_id by done;
    split; reflexivity.
Qed.

(** The console of the page is the output of its runs. *)
Lemma fetch_console_outputs (pevs : list Page.event) (p : Page.state (J := J)) :
  console JSON_parse userAgent origin pevs p
  = @outputs _ _ _ page_machine (λ p pev, option_list (logs JSON_parse p pev)) pevs p.
Proof.
  revert p. induction pevs as [|ev pevs IH]; intros p; simpl; [done|].
  destruct (Page.step _ _ _ p ev); [by rewrite IH|done].
Qed.

Lemma fetch_preserves_outputs :
  preserves_outputs machine page_machine inv page event_project written
    (λ p pev, option_list (logs JSON_parse p pev)).
Proof.
  intros s ev s' Hinv. destruct ev as [ev|k o].
  - intros Hstep. pose proof Hstep as [Hp _]%fetch_step_page_event.
    simpl. rewrite Hp, app_nil_r. by destruct ev.
  - intros (u & [a'|l] & Hu & Hph & ->)%fetch_step_settle; simpl; rewrite Hph.
    + by apply fetch_resume_suspended in Hph as (_ & -> & _).
    + apply fetch_returned_merged in Hph as (m & -> & <-); [|done]. simpl. by rewrite Hu.
Qed.

(** ** Progress *)

Lemma fetch_owed_inv s ev :
  owed JSON_parse s ev →
  ∃ k o u ph, ev = Settle k o ∧ in_flight (page s) k = Some u ∧
              resume (point s k) o = Some ph.
Proof. destruct ev as [pev|k o]; [done|]. intros [[u Hu] [ph Hph]]. eauto 8. Qed.

(** Whatever a call awaits, the awaited promise can be rejected. *)
Lemma fetch_owed_exists s : (∃ ev, owed JSON_parse s ev) ↔ 0 < in_flight_count (page s).
Proof.
  rewrite in_flight_count_pos. split.
  - intros [ev (k & o & u & ph & _ & Hu & _)%fetch_owed_inv]. eauto.
  - intros (k & u & Hu).
    exists (Settle k (match point s k with AtFetch => FetchFailed [] | _ => BodyFailed end)).
    split; [by rewrite Hu|]. by destruct (point s k).
Qed.

#[export] Instance fetch_owed_exists_dec s : Decision (∃ ev, owed JSON_parse s ev).
Proof.
  refine (cast_if (decide (0 < in_flight_count (page s)))); by rewrite fetch_owed_exists.
Defined.

Lemma fetch_awaits_in_flight s k u :
  in_flight (page s) k = Some u →
  imap (awaits s) (uploads (page s)) !! k
  = Some (match reading s !! k with Some _ => 1 | None => 2 end)%nat.
Proof.
  intros [Hk Hl]%page_in_flight_Some. rewrite list_lookup_imap, Hk. simpl.
  unfold awaits. by rewrite Hl.
Qed.

(** A call that is suspended again has one settlement less to await. *)
Lemma fetch_work_suspended s k u a :
  inv s → in_flight (page s) k = Some u → point s k = AtFetch →
  (work {| page := page s; reading := <[k := a]> (reading s) |} < work s)%nat.
Proof.
  intros Hinv Hu Hp. unfold work. simpl.
  rewrite (imap_insert_update (awaits s) _ (uploads (page s)) _ k 1%nat); [|done|].
  - apply (sum_list_insert_lt _ k 2%nat); [|lia].
    rewrite (fetch_awaits_in_flight s k u Hu).
    destruct (reading s !! k) as [a0|] eqn:Ha; [|done].
    pose proof (Hinv k a0 Ha) as H0. unfold point in Hp. rewrite Ha in Hp.
    simpl in Hp. by subst.
  - intros i y Hy. unfold awaits. simpl. case_decide as Hi.
    + subst. apply page_in_flight_Some in Hu as [Hk Hl].
      rewrite Hk in Hy. simplify_eq. by rewrite Hl, lookup_insert_eq.
    + exists y. by rewrite lookup_insert_ne.
Qed.

(** A call that returns awaits nothing. *)
Lemma fetch_work_returned s k u l :
  in_flight (page s) k = Some u →
  (work {| page := log_line k l (page s) u; reading := delete k (reading s) |} < work s)%nat.
Proof.
  intros Hu. unfold work. simpl.
  rewrite (imap_insert_update (awaits s) _ (uploads (page s)) _ k 0%nat).
  - eapply sum_list_insert_lt; [by apply (fetch_awaits_in_flight s k u)|].
    destruct (reading s !! k); lia.
  - by rewrite length_insert.
  - intros i y Hy. unfold awaits. simpl. case_decide as Hi.
    + subst. apply list_lookup_insert_Some in Hy as [(_ & <- & _)|[? _]]; done.
    + rewrite list_lookup_insert_ne in Hy by done. exists y. by rewrite lookup_delete_ne.
Qed.

(** Every owed settlement can be delivered; it keeps the uploads and the
    preview, and leaves less to await. *)
Lemma fetch_owed_step s ev :
  inv s → owed JSON_parse s ev →
  ∃ s', step s ev = Some s' ∧ inv s' ∧ keeps_uploads (page s) (page s') ∧
        screenshot (page s') = screenshot (page s) ∧ (work s' < work s)%nat.
Proof.
  intros Hinv (k & o & u & ph & -> & Hu & Hph)%fetch_owed_inv.
  assert (∃ s', step s (Settle k o) = Some s') as [s' Hs'].
  { eexists. apply fetch_step_settle. by exists u, ph. }
  exists s'. split; [done|]. split; [by eapply fetch_inv_step|].
  pose proof (fetch_embeds_step s _ s' Hinv Hs') as Hrun.
  apply fetch_step_settle in Hs' as (u' & ph' & ? & ? & ->). simplify_eq.
  destruct ph as [a|l]; simpl.
  - apply fetch_resume_suspended in Hph as (Hp & _ & _).
    split_and!; [apply keeps_uploads_preorder|done|by eapply fetch_work_suspended].
  - split_and!; [|done|by apply fetch_work_returned].
    apply fetch_returned_merged in Hph as (m & Hm & _); [|done].
    simpl in Hrun. rewrite Hm in Hrun. simpl in Hrun.
    apply bind_Some in Hrun as (p & Hp & [= <-]).
    exact (page_step_keeps_uploads JSON_parse userAgent origin (page s) (FetchSettled k m) p Hp).
Qed.

(** A call awaits at most two settlements. *)
Lemma fetch_work_bound s : (work s ≤ 2 * in_flight_count (page s))%nat.
Proof.
  assert (∀ (f : nat → upload (J := J) → nat) l,
            (∀ i u, f i u ≤ match up_log u with Some _ => 0 | None => 2 end) →
            sum_list (imap f l) ≤ 2 * count (λ u, up_log u = None) l) as Hsum.
  { intros f l. revert f. induction l as [|u l IH]; intros f Hf; simpl; [lia|].
    rewrite count_cons. specialize (IH (f ∘ S) (λ i, Hf (S i))). specialize (Hf 0 u).
    case_decide as Hl; [rewrite Hl in Hf|destruct (up_log u); [|done]]; lia. }
  apply Hsum. intros i u. unfold awaits. destruct (up_log u); [done|].
  destruct (reading s !! i); lia.
Qed.

End fetch_props.

(** * The theorems of the file *)

Section fetch_theorems.
Context {J : Type} (JSON_parse : jsstring → option J).
Context (userAgent origin : option jsstring).

#[local] Abbreviation machine := (machine JSON_parse userAgent origin).
#[local] Abbreviation page_machine := (Page.machine JSON_parse userAgent origin).

(** Run one [await] at a time, the continuation of [handleImageUpload]
    logs the line that the one-step continuation computes, for every way in
    which the request can settle: rejected, answered with any status, with
    a body that can or cannot be read, that is or is not JSON. *)
Theorem fetch_settle_by_steps (o : settled) :
  settle_by_steps JSON_parse o = Some (handleImageUpload_settle JSON_parse o).
Proof.
  destruct o as [[status body]|reason]; [|done].
  unfold settle_by_steps. simpl. rewrite fetch_response_ok.
  destruct (status_ok status), body as [text|]; simpl; [|done..].
  by destruct (JSON_parse text).
Qed.

(** C11.  The page with one step per [await] implements the page with one
    step per call: every run of the detailed page projects to a run of
    [Page.machine] that ends in the same state of the page, in which the
    arrival of a response is no step and the reading of a body is the
    settling of the call; and the console of the projected run is, line for
    line, what the detailed run wrote. *)
Theorem fetch_refines_page (evs : list event) (s : state (J := J)) :
  @run _ _ machine evs init = Some s →
  @run _ _ page_machine (trace_project machine event_project evs init) Page.init
    = Some (page s) ∧
  console JSON_parse userAgent origin (trace_project machine event_project evs init) Page.init
    = @outputs _ _ _ machine (written JSON_parse) evs init.
Proof.
  intros Hr. pose proof (fetch_embedding JSON_parse userAgent origin) as Hemb. split.
  - by apply (embedding_run machine page_machine inv page event_project Hemb evs init s).
  - rewrite fetch_console_outputs.
    by apply (embedding_outputs machine page_machine inv page event_project Hemb
                (written JSON_parse) _ evs init s (fetch_preserves_outputs _ _ _)).
Qed.

(** Every call of [fetch] inevitably logs its line, one [await] at a
    time: from every reachable state, when the promises that the calls in
    flight await settle, in whatever order and with whatever outcome, every
    settlement resumes its call, and after finitely many of them every
    upload has logged its line, while the uploads and the preview stay as
    they were.  A call awaits at most two settlements. *)
Theorem fetch_uploads_logged (s : state (J := J)) :
  @reachable _ _ machine s →
  @inevitable _ _ machine (owed JSON_parse)
    (λ s', all_logged (page s) (page s') ∧ screenshot (page s') = screenshot (page s)) s ∧
  ∀ evs, @owed_run _ _ machine (owed JSON_parse) evs s →
         length evs ≤ 2 * in_flight_count (page s).
Proof.
  intros Hinv%(embedding_inv _ _ _ _ _ (fetch_embedding JSON_parse userAgent origin)).
  set (I := λ s', inv s' ∧ keeps_uploads (page s) (page s') ∧
                  screenshot (page s') = screenshot (page s)).
  assert (∀ s0 ev, I s0 → owed JSON_parse s0 ev →
            ∃ s', @m_step _ _ machine s0 ev = Some s' ∧ I s' ∧ work s' < work s0) as Hstep.
  { intros s0 ev (H0 & Hk & Hs) Hev.
    destruct (fetch_owed_step JSON_parse userAgent origin s0 ev H0 Hev)
      as (s' & Hs' & ? & Hk' & Hs1 & ?).
    exists s'. split_and!; [done| |lia]. split_and!; [done| |congruence].
    by eapply (@PreOrder_Transitive _ _ keeps_uploads_preorder). }
  assert (I s) as HI by (split_and!; [done|apply keeps_uploads_preorder|done]).
  split.
  - eapply inevitable_mono;
      [|by apply (inevitable_measure (Machine0 := machine) (owed JSON_parse) work I);
           [|intros; apply _|]].
    intros s' [(_ & Hk & Hs) Hq]. split; [|done].
    apply all_logged_quiescent; [done|]. intros k.
    destruct (in_flight (page s') k) as [u|] eqn:Hu; [|done].
    destruct (proj2 (fetch_owed_exists JSON_parse s')) as [ev Hev]; [|by destruct (Hq ev)].
    apply in_flight_count_pos. eauto.
  - intros evs Hevs. etrans; [|apply fetch_work_bound].
    by apply (owed_run_length (Machine0 := machine) (owed JSON_parse) work I).
Qed.

End fetch_theorems.

Lemma fetch_uploads_logged_witness :
  @inevitable _ _ (machine parse_ok_true phone None) (owed parse_ok_true)
    (λ s', all_logged (page (after_events (take 4 overtaking_bodies))) (page s') ∧
           screenshot (page s')
           = screenshot (page (after_events (take 4 overtaking_bodies))))
    (after_events (take 4 overtaking_bodies)) ∧
  ∀ evs, @owed_run _ _ (machine parse_ok_true phone None) (owed parse_ok_true) evs
           (after_events (take 4 overtaking_bodies)) →
         length evs ≤ 2 * in_flight_count (page (after_events (take 4 overtaking_bodies))).
Proof.
  apply (fetch_uploads_logged parse_ok_true phone None).
  exists (take 4 overtaking_bodies). by vm_compute.
Defined.

Lemma fetch_refines_page_witness :
  @run _ _ (Page.machine parse_ok_true phone None)
    (trace_project (machine parse_ok_true phone None) event_project overtaking_bodies init)
    Page.init
  = Some (page (after_events overtaking_bodies)) ∧
  console parse_ok_true phone None
    (trace_project (machine parse_ok_true phone None) event_project overtaking_bodies init)
    Page.init
  = @outputs _ _ _ (machine parse_ok_true phone None) (written parse_ok_true)
      overtaking_bodies init.
Proof.
  apply (fetch_refines_page parse_ok_true phone None overtaking_bodies). by vm_compute.
Defined.

(** The console follows the order in which the bodies are read: when
    the response of the first upload arrives first and the body of the
    second is read first, the line of the second upload comes first. *)
Example fetch_console_order :
  @outputs _ _ _ (machine parse_ok_true phone None) (written parse_ok_true)
    overtaking_bodies init
  = [LogUploadError 500 (js "server error"); LogServerResponse true].
Proof. by vm_compute. Qed.

End Fetch.
