(* ===== verification/UploadTree.v ===== *)
(** [handleImageUpload] in direct style: lines 178-208 of
    [src/frontend/app/analyse/page.tsx] as an interaction tree.

    [Upload.v] models the function as a prefix and a continuation, and
    [Fetch.v] as a coroutine with three suspension points and the code
    between them ([Fetch.resume]).  Both are state machines that were
    derived from the source by hand.  This file translates the source
    statement by statement instead: the function is a tree whose nodes are
    what it does to its environment (it awaits a promise, it writes to the
    console) and whose leaves are its returns.  An [await] hands back the
    value of the promise or throws the reason of its rejection; the three
    awaits are inside one [try], so a rejection continues in the [catch]
    clause.  The JSON parser is not part of the function: it runs inside
    [response.json()], and is part of the way the promise settles.

    The tree is run against the settlements of [Fetch.v]: [trace] gives the
    lines written and the point at which the call is suspended after a
    sequence of settlements, or nothing if a settlement is not one of the
    promise that is awaited.

    The theorem: for every request and every sequence of settlements the
    tree and the coroutine of [Fetch.v] agree, on the lines, on the
    suspension point and on the settlements they refuse; the first await of
    the tree is [fetch] with the request of [handleImageUpload_start], and
    the function returns the exception of [base64ToBlob] without awaiting
    anything when there is one.  So the machines of the other files are the
    operational reading of the source.

    The trees have no silent steps; the fuel of [to_await] counts the
    console lines between two awaits, and two is enough. *)

From Stdlib Require Import ZArith Lia.
From stdpp Require Import prelude gmap.
From ITree Require Import ITree.
From S2P Require Import Prelude JsString Base64 Normalizer Upload Machine.
From S2P Require Import Canvas Media MobileCamera Detector DesktopCamera Analyse Fetch.

Module Tree.
Import Fetch.

(** What the promise of the function settles with: it resolves, or it
    rejects with the exception that was thrown outside the [try]. *)
Abbreviation returns := (result js_error unit).

Section upload_tree.
Context {J : Type}.

(** The promises that the function awaits, indexed by the type of their
    values: [fetch(apiEndpoint, {method, body})] (line 194) resolves to a
    response, of which the function reads [ok] and [status];
    [response.text()] (line 199) to the text of the body;
    [response.json()] (line 203) to the parsed body. *)
Variant promise : Type → Type :=
| fetch (req : request) : promise Z
| response_text (response : Z) : promise jsstring
| response_json (response : Z) : promise J.

(** What the function does to its environment: [await p] returns the
    value of [p] or throws; [console.error] and [console.log] write a
    line. *)
Variant uploadE : Type → Type :=
| Await {X} (p : promise X) : uploadE (upload_exn + X)
| Console (l : log_entry J) : uploadE unit.

(** [console.error(...)] or [console.log(...)], and the rest of the
    function. *)
Definition console (l : log_entry J) (k : itree uploadE returns) : itree uploadE returns :=
  ITree.bind (ITree.trigger (Console l)) (λ _, k).

(** Lines 205-207: the [catch] clause, after which the function returns. *)
Definition catch_clause (error : upload_exn) : itree uploadE returns :=
  console (LogUploadException error) (Ret (Ok tt)).

(** [const x = await p; k] inside the [try] block of lines 193-205. *)
Definition await {X} (p : promise X) (k : X → itree uploadE returns)
    : itree uploadE returns :=
  ITree.bind (ITree.trigger (Await p))
    (λ r, match r with inl error => catch_clause error | inr x => k x end).

(** Lines 193-207. *)
Definition try_block (req : request) : itree uploadE returns :=
  await (fetch req) (λ response,
    if negb (status_ok response) then
      await (response_text response) (λ errorText,
        console (LogUploadError response errorText) (Ret (Ok tt)))
    else
      await (response_json response) (λ data,
        console (LogServerResponse data) (Ret (Ok tt)))).

(** Lines 178-208: an exception of [base64ToBlob] is thrown before the
    [try]. *)
Definition handleImageUpload (origin : option jsstring) (image : capture)
    : itree uploadE returns :=
  match build_form image with
  | Err e => Ret (Err e)
  | Ok formData =>
      try_block {| req_url := apiEndpoint origin; req_method := js "POST";
                   req_body := formData |}
  end.

(** ** The environment *)

Context (JSON_parse : jsstring → option J).

(** How a promise settles on a settlement of [Fetch.v]: with a value, or
    with the exception that the await throws; [None] when the settlement is
    not one of this promise.  The body of [response.json()] is read and
    parsed. *)
Definition settle {X} (p : promise X) (o : settlement) : option (upload_exn + X) :=
  match p in promise X return option (upload_exn + X) with
  | fetch _ =>
      match o with
      | Responded status => Some (inr status)
      | FetchFailed reason => Some (inl (NetworkError reason))
      | _ => None
      end
  | response_text _ =>
      match o with
      | BodyRead text => Some (inr text)
      | BodyFailed => Some (inl BodyReadError)
      | _ => None
      end
  | response_json _ =>
      match o with
      | BodyRead text =>
          Some (match JSON_parse text with
                | Some data => inr data
                | None => inl JsonSyntaxError
                end)
      | BodyFailed => Some (inl BodyReadError)
      | _ => None
      end
  end.

Definition answer {X} (e : uploadE X) (o : settlement) : option X :=
  match e in uploadE X return option X with
  | Await p => settle p o
  | Console _ => None
  end.

(** The suspension point of [Fetch.v] at which a promise is awaited. *)
Definition point_of {X} (p : promise X) : suspended :=
  match p with
  | fetch _ => AtFetch
  | response_text response => AtText response
  | response_json response => AtJson response
  end.

Definition written {X} (e : uploadE X) : option (log_entry J * X) :=
  match e in uploadE X return option (log_entry J * X) with
  | Console l => Some (l, tt)
  | Await _ => None
  end.

(** The function runs up to its next await or its return: the lines it
    writes, and the tree that awaits or the value returned. *)
Fixpoint to_await {R} (fuel : nat) (t : itree uploadE R)
    : option (list (log_entry J) * (itree uploadE R + R)) :=
  match fuel with
  | 0 => None
  | S fuel =>
      match observe t with
      | RetF r => Some ([], inr r)
      | TauF t' => to_await fuel t'
      | VisF e k =>
          match written e with
          | Some (l, x) => '(ls, st) ← to_await fuel (k x); Some (l :: ls, st)
          | None => Some ([], inl (Vis e k))
          end
      end
  end.

(** The promise that a tree awaits settles. *)
Definition feed {R} (t : itree uploadE R) (o : settlement) : option (itree uploadE R) :=
  match observe t with
  | VisF e k => k <$> answer e o
  | _ => None
  end.

Definition awaiting {R} (st : itree uploadE R + R) : option suspended :=
  match st with
  | inl t => match observe t with VisF (Await p) _ => Some (point_of p) | _ => None end
  | inr _ => None
  end.

(** The request of the call of [fetch] that a tree awaits. *)
Definition awaits_fetch {R} (t : itree uploadE R) : option request :=
  match observe t with
  | VisF (Await (fetch req)) _ => Some req
  | _ => None
  end.

(** The call while the promises settle as [os]: the lines it writes, and
    the tree that awaits in the end or the value returned. *)
Fixpoint run {R} (fuel : nat) (t : itree uploadE R) (os : list settlement)
    : option (list (log_entry J) * (itree uploadE R + R)) :=
  '(ls, st) ← to_await fuel t;
  match os with
  | [] => Some (ls, st)
  | o :: os' =>
      match st with
      | inl t' =>
          t'' ← feed t' o;
          '(ls', st') ← run fuel t'' os';
          Some (ls ++ ls', st')
      | inr _ => None
      end
  end.

(** What [Fetch.v] sees of it: the lines, and the point at which the call
    is suspended in the end, [None] once it has returned. *)
Definition trace {R} (fuel : nat) (t : itree uploadE R) (os : list settlement)
    : option (list (log_entry J) * option suspended) :=
  '(ls, st) ← run fuel t os; Some (ls, awaiting st).

(** The same for the coroutine of [Fetch.v], from the point [a]. *)
Fixpoint resume_all (a : option suspended) (os : list settlement)
    : option (list (log_entry J) * option suspended) :=
  match os with
  | [] => Some ([], a)
  | o :: os' =>
      a ← a;
      ph ← resume JSON_parse a o;
      match ph with
      | Suspended a' => resume_all (Some a') os'
      | Returned l => '(ls, a') ← resume_all None os'; Some (l :: ls, a')
      end
  end.

(** The settlements of a request that settles as [o], for [Upload.v] one
    event. *)
Definition settlements_of (o : settled) : list settlement :=
  match o with
  | Rejected reason => [FetchFailed reason]
  | Fulfilled r => [Responded (resp_status r); read_body (resp_body r)]
  end.

End upload_tree.

(** A data URI is uploaded and the server answers with status 500. *)
Definition upload_refused : itree (uploadE (J := bool)) returns :=
  handleImageUpload None (CapString (js "data:image/jpeg;base64,/9j/4AAQSkZJRgABAQ==")).

(** * Properties *)

Section upload_tree_props.
Context {J : Type} (JSON_parse : jsstring → option J).
Implicit Types (os : list settlement) (o : settlement) (l : log_entry J).

(** ** Unfolding *)

Lemma to_await_bind_ret {R X} fuel (x : X) (k : X → itree uploadE R) :
  to_await fuel (ITree.bind (Ret x) k) = to_await (J := J) fuel (k x).
Proof. destruct fuel; reflexivity. Qed.

Lemma run_bind_ret {R X} fuel (x : X) (k : X → itree uploadE R) os :
  run JSON_parse fuel (ITree.bind (Ret x) k) os = run JSON_parse fuel (k x) os.
Proof. destruct os; simpl; by rewrite to_await_bind_ret. Qed.

Lemma to_await_await {X} fuel (p : promise X) k :
  to_await (J := J) (S fuel) (await p k)
  = Some ([], inl (Vis (Await p) (λ r, ITree.bind (Ret r)
                     (λ r, match r with inl error => catch_clause error | inr x => k x end)))).
Proof. reflexivity. Qed.

Lemma feed_vis {R X} (p : promise X) (k : upload_exn + X → itree uploadE R) o :
  feed JSON_parse (Vis (Await p) k) o = k <$> settle JSON_parse p o.
Proof. reflexivity. Qed.

(** An await: the call is suspended; when the promise settles it goes on
    in the [try] block, or in the [catch] clause. *)
Lemma run_await {X} fuel (p : promise X) k o os :
  run JSON_parse (S fuel) (await p k) (o :: os)
  = r ← settle JSON_parse p o;
    run JSON_parse (S fuel)
      (match r with inl error => catch_clause error | inr x => k x end) os.
Proof.
  cbn [run]. rewrite to_await_await. cbn [mbind option_bind]. rewrite feed_vis.
  destruct (settle JSON_parse p o) as [r|]; [|done].
  cbn [fmap option_fmap option_map mbind option_bind].
  rewrite run_bind_ret. by destruct (run _ _ _ os) as [[ls st]|].
Qed.

Lemma trace_await {X} fuel (p : promise X) k os :
  trace JSON_parse (S fuel) (await p k) os
  = match os with
    | [] => Some ([], Some (point_of p))
    | o :: os' =>
        r ← settle JSON_parse p o;
        trace JSON_parse (S fuel)
          (match r with inl error => catch_clause error | inr x => k x end) os'
    end.
Proof.
  destruct os as [|o os]; [reflexivity|]. unfold trace. rewrite run_await.
  by destruct (settle JSON_parse p o).
Qed.

(** The last statement of every path: a line is written and the function
    returns; no promise is awaited afterwards. *)
Lemma run_console_return fuel l (r : returns) os :
  run JSON_parse (S (S fuel)) (console l (Ret r)) os
  = match os with [] => Some ([l], inr r) | _ => None end.
Proof. by destruct os. Qed.

Lemma trace_console_return fuel l (r : returns) os :
  trace JSON_parse (S (S fuel)) (console l (Ret r)) os
  = match os with [] => Some ([l], None) | _ => None end.
Proof. unfold trace. rewrite run_console_return. by destruct os. Qed.

Lemma trace_catch fuel error os :
  trace JSON_parse (S (S fuel)) (catch_clause error) os
  = match os with [] => Some ([LogUploadException error], None) | _ => None end.
Proof. apply trace_console_return. Qed.

(** ** The coroutine *)

Lemma resume_all_returned os :
  resume_all JSON_parse None os = match os with [] => Some ([], None) | _ => None end.
Proof. by destruct os. Qed.

(** A call writes one line, when it returns; it returns after one
    settlement or two. *)
Lemma resume_all_one_line os ls a :
  resume_all JSON_parse (Some AtFetch) os = Some (ls, a) →
  match a with
  | Some _ => ls = [] ∧ length os ≤ 1
  | None => length ls = 1 ∧ 1 ≤ length os ≤ 2
  end.
Proof.
  destruct os as [|[status|reason|text|] [|[status2|reason2|text2|] os]]; simpl;
    repeat case_match; rewrite ?resume_all_returned; intros; simplify_eq/=;
    repeat case_match; simplify_eq/=; (split; [done|lia]).
Qed.

(** What [handleImageUpload_start] says of the tree. *)
Lemma handleImageUpload_unfold origin image :
  handleImageUpload (J := J) origin image
  = match handleImageUpload_start origin image with
    | Ok req => try_block req
    | Err e => Ret (Err e)
    end.
Proof.
  unfold handleImageUpload, handleImageUpload_start. by destruct (build_form image).
Qed.

(** The [try] block and the coroutine agree on every sequence of
    settlements. *)
Lemma try_block_trace fuel req os :
  trace JSON_parse (S (S fuel)) (try_block req) os = resume_all JSON_parse (Some AtFetch) os.
Proof.
  unfold try_block. rewrite trace_await.
  destruct os as [|[status|reason|text|] os]; try reflexivity; cbn [settle mbind option_bind].
  - cbn [resume_all mbind option_bind resume].
    destruct (status_ok status); cbn [negb]; rewrite trace_await;
      (destruct os as [|[status2|reason2|text2|] os]; try reflexivity);
      cbn [settle mbind option_bind resume_all resume];
      try destruct (JSON_parse text2);
      rewrite ?trace_catch, ?trace_console_return; by destruct os.
  - rewrite trace_catch. by destruct os.
Qed.

(** However the request settles, the [try] block writes the line of the
    one-step continuation of [Upload.v] and the function returns
    [undefined]. *)
Lemma try_block_settled fuel req (o : settled) :
  run JSON_parse (S (S fuel)) (try_block req) (settlements_of o)
  = Some ([handleImageUpload_settle JSON_parse o], inr (Ok tt)).
Proof.
  unfold try_block. destruct o as [[status body]|reason]; cbn [settlements_of];
    rewrite run_await; cbn [settle mbind option_bind resp_status resp_body];
    [|apply run_console_return].
  unfold handleImageUpload_settle. rewrite fetch_response_ok.
  destruct (status_ok status), body as [text|]; cbn [negb read_body resp_status resp_body];
    rewrite run_await; cbn [settle mbind option_bind];
    try destruct (JSON_parse text); apply run_console_return.
Qed.

End upload_tree_props.

(** * The theorems of the file *)

Section upload_tree_theorems.
Context {J : Type} (JSON_parse : jsstring → option J).

(** C12.  The direct-style translation of [handleImageUpload], the
    coroutine of [Fetch.v] and the continuation of [Upload.v] are the same
    program.  When the form data can be built, the function first awaits
    [fetch] with the request of [handleImageUpload_start]; for every
    sequence of settlements, the tree and [Fetch.resume] write the same
    lines, are suspended at the same await afterwards or have both returned,
    and refuse the same settlements; and however the request settles, the
    tree writes the one line of [handleImageUpload_settle] and returns
    [undefined]: the outcome of the upload reaches the console only, never
    the caller.
    When [base64ToBlob] throws, the function returns that exception at once:
    it awaits nothing and writes nothing. *)
Theorem handleImageUpload_tree_machine (origin : option jsstring) (image : capture)
    (fuel : nat) :
  match handleImageUpload_start origin image with
  | Ok req =>
      awaits_fetch (handleImageUpload (J := J) origin image) = Some req ∧
      (∀ os, trace JSON_parse (S (S fuel)) (handleImageUpload origin image) os
             = resume_all JSON_parse (Some AtFetch) os) ∧
      (∀ o, run JSON_parse (S (S fuel)) (handleImageUpload origin image) (settlements_of o)
            = Some ([handleImageUpload_settle JSON_parse o], inr (Ok tt)))
  | Err e => observe (handleImageUpload (J := J) origin image) = RetF (Err e)
  end.
Proof.
  rewrite handleImageUpload_unfold.
  destruct (handleImageUpload_start origin image) as [req|e]; [|done].
  split_and!; [done|apply try_block_trace|apply try_block_settled].
Qed.

End upload_tree_theorems.

(** The request of the example is refused with status 500: the call is
    suspended at [fetch], then at [response.text()], and writes the upload
    error; a body that arrives before the response is refused. *)
Example upload_refused_trace :
  trace parse_ok_true 2 upload_refused [] = Some ([], Some AtFetch) ∧
  trace parse_ok_true 2 upload_refused [Responded 500] = Some ([], Some (AtText 500)) ∧
  trace parse_ok_true 2 upload_refused [Responded 500; BodyRead (js "server error")]
  = Some ([LogUploadError 500 (js "server error")], None) ∧
  trace parse_ok_true 2 upload_refused [BodyRead (js "server error")] = None.
Proof. by vm_compute. Qed.

End Tree.
