(* ===== verification/System.v ===== *)
(** The page with the camera component it renders: the whole of
    [src/frontend/app/analyse/page.tsx] as one machine.

    [Analyse] renders nothing but the loading text until the detection has
    run, and then [MobileCamera] with the mobile file input, or
    [DesktopCamera] (lines 231-273).  Both cameras get [handleCapture] as
    [onCapture].  The state of the system is the state of the page, the
    state of the camera that is mounted, and whether the page itself is
    still mounted.

    Events: the detection effect; an event of the mounted camera (a stream
    request settles, the user switches the camera or opens and closes the
    webcam); the shutter of either camera, which computes the argument of
    [onCapture] and hands it to the page in the same step; the two file
    inputs; the settling of a call of [fetch]; the user leaves the page,
    which unmounts the camera with it.  Stream requests and uploads that are
    pending when the user leaves settle afterwards.

    The theorems: the page and the camera of a reachable state are
    reachable states of their own machines, and the camera is the one of the
    detected mode; every string that reaches [handleCapture] is a data URI,
    so every request carries the single field [image] and the branch for
    other strings is never taken; the system implements the capture session
    of the specification; on a phone no capture is ever rejected; on a
    desktop at most one stream is live and none once the user has left. *)

From Stdlib Require Import ZArith Lia.
From stdpp Require Import prelude gmap.
From S2P Require Import Prelude JsString Base64 Normalizer Upload Machine Canvas Media.
From S2P Require Import MobileCamera MobileProgress Detector DesktopCamera Analyse.

Module System.
Import Page.

(** The camera component in the tree. *)
Inductive camera : Type :=
| NoCamera
| MobileCam (c : Mobile.state)
| DesktopCam (c : Desktop.state).

(** Lines 255-273: the camera that the page renders for a mode. *)
Definition mount_camera (mobile : bool) : camera :=
  if mobile then MobileCam Mobile.init else DesktopCam Desktop.init.

Definition unmount_camera (c : camera) : camera :=
  match c with
  | NoCamera => NoCamera
  | MobileCam c => MobileCam (Mobile.unmount c)
  | DesktopCam c => DesktopCam (Desktop.unmount c)
  end.

(** The streams whose tracks are running. *)
Definition live_streams (c : camera) : gset nat :=
  match c with
  | NoCamera => ∅
  | MobileCam c => Mobile.live c
  | DesktopCam c => Desktop.live c
  end.

(** An argument of [onCapture] that a component of the page can produce: a
    data URI or a file. *)
Definition from_camera (data : capture) : Prop :=
  match data with
  | CapString str => startsWith (js "data:") str = true
  | CapBlob _ => True
  end.

Section system.
Context {J : Type} (JSON_parse : jsstring → option J).
Context (userAgent origin : option jsstring).
Context `{Canvas Frame}.

Record state : Type := mkState {
  page : Page.state (J := J);
  cam : camera;
  page_mounted : bool;
}.

Inductive event : Type :=
| Detect
| MobileEvent (e : Mobile.event)
| DesktopEvent (e : Desktop.event)
| ShutterMobile (v : video Frame) (ctx : bool)
| ShutterDesktop (v : video Frame)
| FileDesktop (files : option (list blob))
| FileMobile (files : option (list blob))
| Settled (k : nat) (o : settled)
| Leave.

Definition init : state :=
  {| page := Page.init; cam := NoCamera; page_mounted := true |}.

Definition set_page (p : Page.state) (s : state) : state :=
  {| page := p; cam := cam s; page_mounted := page_mounted s |}.

Definition set_cam (c : camera) (s : state) : state :=
  {| page := page s; cam := c; page_mounted := page_mounted s |}.

(** The page handles an event of its own. *)
Definition page_step (ev : Page.event) (s : state) : option state :=
  p ← Page.step JSON_parse userAgent origin (page s) ev; Some (set_page p s).

(** Lines 173-176 and 231-273: the detection; the first time the mode
    becomes known the camera of the mode mounts. *)
Definition detect (s : state) : state :=
  {| page := Page.detect userAgent (page s);
     cam := match cam s with
            | NoCamera => mount_camera (isMobileUA userAgent)
            | c => c
            end;
     page_mounted := page_mounted s |}.

(** A camera component calls [onCapture] with [data], or does not call
    it. *)
Definition deliver (data : option capture) (s : state) : option state :=
  match data with
  | Some data => page_step (OnCapture data) s
  | None => Some s
  end.

(** The user leaves: the page unmounts, and the camera with it. *)
Definition leave (s : state) : state :=
  {| page := page s; cam := unmount_camera (cam s); page_mounted := false |}.

Definition step (s : state) (ev : event) : option state :=
  match ev, cam s with
  | Detect, _ => if page_mounted s then Some (detect s) else None
  | MobileEvent Mobile.Unmount, _ => None
  | MobileEvent e, MobileCam c => c' ← Mobile.step c e; Some (set_cam (MobileCam c') s)
  | DesktopEvent Desktop.Unmount, _ => None
  | DesktopEvent e, DesktopCam c => c' ← Desktop.step c e; Some (set_cam (DesktopCam c') s)
  | ShutterMobile v ctx, MobileCam c =>
      if page_mounted s then deliver (Mobile.capturePhoto c v ctx) s else None
  | ShutterDesktop v, DesktopCam c =>
      if page_mounted s then deliver (Desktop.capturePhoto c v) s else None
  | FileDesktop files, DesktopCam c =>
      if page_mounted s then deliver (Desktop.onFileChange files) s else None
  | FileMobile files, MobileCam c =>
      if page_mounted s then page_step (MobileFileChange files) s else None
  | Settled k o, _ => page_step (FetchSettled k o) s
  | Leave, _ => if page_mounted s then Some (leave s) else None
  | _, _ => None
  end.

#[export] Instance machine : Machine state event := {| m_init := init; m_step := step |}.

(** The state of the specification's capture session that a state of the
    system stands for, and the operation that an event stands for: the
    events of the camera and the user's leaving are internal. *)
Definition abs (s : state) : SessionSpec.state J := Page.abs (page s).

Definition abs_capture (data : option capture) : option (SessionSpec.op J) :=
  (λ d, SessionSpec.Capture d (is_ok (build_form d))) <$> data.

Definition abs_event (s : state) (ev : event) : option (SessionSpec.op J) :=
  match ev, cam s with
  | Detect, _ => Some (SessionSpec.Detect (isMobileUA userAgent))
  | ShutterMobile v ctx, MobileCam c => abs_capture (Mobile.capturePhoto c v ctx)
  | ShutterDesktop v, DesktopCam c => abs_capture (Desktop.capturePhoto c v)
  | FileDesktop files, _ => abs_capture (Desktop.onFileChange files)
  | FileMobile files, _ => abs_capture (CapBlob <$> (files ≫= head))
  | Settled k o, _ =>
      Some (SessionSpec.Finish k (outcome_of_log (handleImageUpload_settle JSON_parse o)))
  | _, _ => None
  end.

(** The event of the page that an event of the system is: the detection,
    the call of [onCapture] by a camera or a file input, the change of the
    mobile file input, the settling of a call of [fetch]; the other events
    do not reach the page. *)
Definition page_event_of (s : state) (ev : event) : option Page.event :=
  match ev, cam s with
  | Detect, _ => Some DetectEffect
  | ShutterMobile v ctx, MobileCam c => OnCapture <$> Mobile.capturePhoto c v ctx
  | ShutterDesktop v, DesktopCam c => OnCapture <$> Desktop.capturePhoto c v
  | FileDesktop files, DesktopCam _ => OnCapture <$> Desktop.onFileChange files
  | FileMobile files, MobileCam _ => Some (MobileFileChange files)
  | Settled k o, _ => Some (FetchSettled k o)
  | _, _ => None
  end.

(** The streams that an event adds to the camera of a phone: a call of
    [getUserMedia] resolves. *)
Definition arrival (ev : event) : nat :=
  match ev with MobileEvent e => Mobile.arrives e | _ => 0 end.

Definition arrivals (evs : list event) : nat := sum_list_with arrival evs.

(** ** The invariant *)

(** What holds of every reachable state: the page is a reachable state of
    the page machine; the camera is the one of the mode, is a reachable
    state of its own machine, and is mounted exactly while the page is;
    every upload is of a data URI or a file, with the request that
    [handleImageUpload] builds for it; outside the desktop layout no
    capture has been rejected. *)
Record inv (s : state) : Prop := mkInv {
  inv_page : @reachable _ _ (Page.machine JSON_parse userAgent origin) (page s);
  inv_cam :
    match cam s with
    | NoCamera => isMobileDevice (page s) = None
    | MobileCam c =>
        isMobileDevice (page s) = Some true ∧ @reachable _ _ Mobile.machine c ∧
        Mobile.mounted c = page_mounted s
    | DesktopCam c =>
        isMobileDevice (page s) = Some false ∧ @reachable _ _ Desktop.machine c ∧
        Desktop.mounted c = page_mounted s
    end;
  inv_uploads : ∀ k u,
      uploads (page s) !! k = Some u →
      from_camera (up_image u) ∧
      handleImageUpload_start origin (up_image u) = Ok (up_request u);
  inv_unhandled : isMobileDevice (page s) ≠ Some false → unhandled (page s) = [];
}.

End system.

(** A session on a phone: the detection, a photo before the video has a
    size, a switch of the camera while the first stream is still requested,
    the arrival of both streams, and the user leaving. *)
Definition phone_session : list (event (Frame := list Z)) :=
  [Detect; ShutterMobile (mkVideo 0 0 [300; 7]%Z) true; MobileEvent Mobile.Toggle;
   MobileEvent (Mobile.Resolve 0); MobileEvent (Mobile.Resolve 1); Leave].

(** A session on a desktop: the detection, the webcam opened and closed
    before its stream arrives, a file chosen, the user leaving, and the
    stream arriving afterwards. *)
Definition desktop_session : list (event (Frame := list Z)) :=
  [Detect; DesktopEvent Desktop.OpenWebcam; FileDesktop (Some [chosen_file]);
   Leave; DesktopEvent (Desktop.Resolve 0)].

Definition after (ua : option jsstring) (evs : list (event (Frame := list Z)))
    : state (J := bool) :=
  default init (@run _ _ (machine parse_ok_true ua None) evs init).

(** * Properties *)

Section system_props.
Context {J : Type} (JSON_parse : jsstring → option J).
Context (userAgent origin : option jsstring).
Context `{Canvas Frame}.
Implicit Types (s : state (J := J)) (ev : event (Frame := Frame)).
Implicit Types (p : Page.state (J := J)) (data : capture).

#[local] Abbreviation step := (step JSON_parse userAgent origin).
#[local] Abbreviation page_step := (page_step JSON_parse userAgent origin).
#[local] Abbreviation deliver := (deliver JSON_parse userAgent origin).
#[local] Abbreviation machine := (machine JSON_parse userAgent origin).
#[local] Abbreviation inv := (inv JSON_parse userAgent origin).
#[local] Abbreviation reachable := (@reachable _ _ machine).
#[local] Abbreviation page_machine := (Page.machine JSON_parse userAgent origin).
#[local] Abbreviation reachable_page := (@Machine.reachable _ _ page_machine).

(** ** The cameras inside the system *)

Lemma mobile_step_mounted c e c' :
  Mobile.step c e = Some c' → e ≠ Mobile.Unmount → Mobile.mounted c' = Mobile.mounted c.
Proof.
  destruct e as [k|k| |]; simpl; intros Hs ?; [..|done].
  - by apply fmap_Some in Hs as (? & _ & ->).
  - by apply fmap_Some in Hs as (? & _ & ->).
  - destruct (Mobile.mounted c) eqn:Hm; simplify_eq.
    unfold Mobile.toggleCamera, Mobile.cleanup. by destruct (Mobile.current c); simpl.
Qed.

Lemma desktop_step_mounted c e c' :
  Desktop.step c e = Some c' → e ≠ Desktop.Unmount → Desktop.mounted c' = Desktop.mounted c.
Proof.
  destruct e as [| |k|k|]; simpl; intros Hs ?; [..|done].
  - by destruct (Desktop.mounted c) eqn:Hm, (Desktop.showWebcam c); simplify_eq/=.
  - unfold Desktop.is_open in Hs.
    destruct (Desktop.mounted c) eqn:Hm, (Desktop.showWebcam c); simplify_eq/=.
    unfold Desktop.closeWebcam, Desktop.unmount_webcam.
    by destruct (last (Desktop.webcams c)); simpl.
  - apply fmap_Some in Hs as (i & _ & ->). unfold Desktop.on_resolved.
    by destruct (Webcam.unmounted i).
  - by apply fmap_Some in Hs as (? & _ & ->).
Qed.

(** What the desktop components pass on is a data URI or a file. *)
Lemma desktop_capture_from_camera c (v : video Frame) data :
  Desktop.capturePhoto c v = Some data → from_camera data.
Proof.
  by intros (uri & -> & ?)%Desktop.desktop_capture_string.
Qed.

Lemma file_from_camera files data : Desktop.onFileChange files = Some data → from_camera data.
Proof. unfold Desktop.onFileChange. intros (? & _ & [= <-])%bind_Some. done. Qed.

(** What the mobile camera passes on is a data URI that normalises. *)
Lemma mobile_capture_normalizes c (v : video Frame) ctx data :
  Mobile.capturePhoto c v ctx = Some data →
  from_camera data ∧ is_ok (build_form data) = true.
Proof.
  intros (_ & _ & ->)%Mobile.mobile_capture_Some. split.
  - apply canvas_toDataURL_startsWith.
  - by rewrite build_form_canvas_frame by (apply or_number_nonzero; lia).
Qed.

(** Every step of the system is a step of the page, or leaves the page as
    it is. *)
Lemma system_step_page s ev s' :
  step s ev = Some s' →
  match page_event_of s ev with
  | Some pev => Page.step JSON_parse userAgent origin (page s) pev = Some (page s')
  | None => page s' = page s
  end.
Proof.
  unfold System.step, page_event_of, System.deliver, System.page_step.
  destruct ev as [|e|e|v ctx|v|files|files|k o|]; destruct (cam s) as [|c|c]; try done;
    try (destruct (page_mounted s); [|done]).
  all: try by intros [= <-].
  all: try (by destruct e; try done; intros (c' & _ & [= <-])%bind_Some).
  all: try by intros (p' & Hp' & [= <-])%bind_Some.
  - destruct (Mobile.capturePhoto c v ctx); [|by intros [= <-]].
    by intros (p' & Hp' & [= <-])%bind_Some.
  - destruct (Desktop.capturePhoto c v); [|by intros [= <-]].
    by intros (p' & Hp' & [= <-])%bind_Some.
  - destruct (Desktop.onFileChange files); [|by intros [= <-]].
    by intros (p' & Hp' & [= <-])%bind_Some.
Qed.

(** The settling of a call is handled by the page, whatever the camera. *)
Lemma system_step_settled s k o :
  step s (Settled k o) = page_step (FetchSettled k o) s.
Proof. unfold System.step. by destruct (cam s). Qed.

(** ** The invariant is preserved *)

Lemma inv_init : inv init.
Proof.
  split; [exact (reachable_init (Machine0 := page_machine))|done|by intros []|done].
Qed.

Lemma inv_detect s : inv s → page_mounted s = true → inv (detect userAgent s).
Proof.
  intros [Hp Hc Hu Hun] Hm.
  pose proof (page_reachable_wf _ _ _ _ Hp) as Hwf.
  split; simpl; [by eapply (reachable_step (Machine0 := page_machine) _ DetectEffect)| |done|].
  - destruct (cam s) as [|c|c].
    + unfold mount_camera. destruct (isMobileUA userAgent);
        (split_and!; [done|by exists []|by rewrite Hm]).
    + destruct Hc as (Hmode & ? & ?). by rewrite <-(wf_mode _ _ Hwf _ Hmode).
    + destruct Hc as (Hmode & ? & ?). by rewrite <-(wf_mode _ _ Hwf _ Hmode).
  - intros Hne. apply Hun. intros Hmode. by rewrite <-(wf_mode _ _ Hwf _ Hmode) in Hne.
Qed.

(** A capture that a component of the page produced is handled. *)
Lemma inv_capture s data :
  inv s → from_camera data →
  (isMobileDevice (page s) ≠ Some false → is_ok (build_form data) = true) →
  reachable_page (Page.handleCapture origin data (page s)) →
  inv (set_page (Page.handleCapture origin data (page s)) s).
Proof.
  intros [Hp Hc Hu Hun] Hdata Hok Hp'.
  pose proof (handleCapture_uploads origin data (page s)) as Hup.
  split; simpl; [done|by rewrite handleCapture_mode| |].
  - intros k u. revert Hup. destruct (build_form data) as [fd|e] eqn:Hf; intros [-> _];
      [|by apply Hu].
    rewrite lookup_snoc_Some. intros [[_ Hk]|[_ <-]]; [by eapply Hu|].
    split; [done|]. simpl. unfold handleImageUpload_start. by rewrite Hf.
  - rewrite handleCapture_mode. intros Hne.
    revert Hup Hok. destruct (build_form data) eqn:Hf; intros [_ ->] Hok; [by apply Hun|].
    by specialize (Hok Hne).
Qed.

Lemma inv_deliver s (od : option capture) s' :
  inv s → (∀ d, od = Some d → from_camera d) →
  (∀ d, od = Some d → isMobileDevice (page s) ≠ Some false → is_ok (build_form d) = true) →
  deliver od s = Some s' → inv s'.
Proof.
  intros Hinv Hdata Hok. destruct od as [d|]; simpl; [|by intros [= <-]].
  intros (p' & Hstep & [= <-])%bind_Some.
  pose proof (reachable_step (Machine0 := page_machine) _ _ _ (inv_page _ _ _ _ Hinv) Hstep) as Hp'.
  apply page_step_capture in Hstep as [_ ->]. apply inv_capture; eauto.
Qed.

Lemma inv_file_mobile s files s' :
  inv s → page_step (MobileFileChange files) s = Some s' → inv s'.
Proof.
  intros Hinv (p' & Hstep & [= <-])%bind_Some.
  pose proof (reachable_step (Machine0 := page_machine) _ _ _ (inv_page _ _ _ _ Hinv) Hstep) as Hp'.
  unfold Page.step in Hstep. destruct (isMobileDevice (page s)) as [[]|]; simplify_eq.
  rewrite handleMobileFile_head in Hp' |- *.
  destruct (files ≫= head) as [file|]; [by apply inv_capture|by destruct Hinv].
Qed.

Lemma inv_settled s k o s' :
  inv s → page_step (FetchSettled k o) s = Some s' → inv s'.
Proof.
  intros Hinv (p' & Hstep & [= <-])%bind_Some.
  pose proof (reachable_step (Machine0 := page_machine) _ _ _ (inv_page _ _ _ _ Hinv) Hstep) as Hp'.
  destruct Hinv as [Hp Hc Hu Hun].
  apply page_step_settled in Hstep as (u & [Hk Hl]%page_in_flight_Some & ->).
  split; [done..| |done].
  intros k' u'. unfold set_page, page. rewrite on_settled_lookup by done.
  case_decide; [intros [= <-]; exact (Hu k u Hk)|apply Hu].
Qed.

Lemma inv_mobile_event s c e c' :
  inv s → cam s = MobileCam c → Mobile.step c e = Some c' → e ≠ Mobile.Unmount →
  inv (set_cam (MobileCam c') s).
Proof.
  intros [Hp Hc Hu Hun] Hcam Hstep He. split; simpl; [done| |done..].
  rewrite Hcam in Hc. destruct Hc as (? & Hr & Hm). split_and!; [done| |].
  - by eapply (reachable_step (Machine0 := Mobile.machine)).
  - by rewrite (mobile_step_mounted c e c').
Qed.

Lemma inv_desktop_event s c e c' :
  inv s → cam s = DesktopCam c → Desktop.step c e = Some c' → e ≠ Desktop.Unmount →
  inv (set_cam (DesktopCam c') s).
Proof.
  intros [Hp Hc Hu Hun] Hcam Hstep He. split; simpl; [done| |done..].
  rewrite Hcam in Hc. destruct Hc as (? & Hr & Hm). split_and!; [done| |].
  - by eapply (reachable_step (Machine0 := Desktop.machine)).
  - by rewrite (desktop_step_mounted c e c').
Qed.

Lemma inv_leave s : inv s → page_mounted s = true → inv (leave s).
Proof.
  intros [Hp Hc Hu Hun] Hm. split; simpl; [done| |done..].
  destruct (cam s) as [|c|c]; simpl; [done|..]; destruct Hc as (? & Hr & Hmc);
    rewrite Hm in Hmc; (split_and!; [done| |done]).
  - apply (reachable_step (Machine0 := Mobile.machine) c Mobile.Unmount); [done|].
    simpl. by rewrite Hmc.
  - apply (reachable_step (Machine0 := Desktop.machine) c Desktop.Unmount); [done|].
    simpl. by rewrite Hmc.
Qed.

Lemma inv_shutter_mobile s c (v : video Frame) ctx s' :
  inv s → deliver (Mobile.capturePhoto c v ctx) s = Some s' → inv s'.
Proof.
  intros Hinv. apply inv_deliver; [done|..]; intros d Hd; intros;
    by apply (mobile_capture_normalizes c v ctx).
Qed.

Lemma inv_desktop_capture s c (od : option capture) s' :
  inv s → cam s = DesktopCam c → (∀ d, od = Some d → from_camera d) →
  deliver od s = Some s' → inv s'.
Proof.
  intros Hinv Hcam Hd. apply inv_deliver; [done..|].
  intros d _ Hne. pose proof (inv_cam _ _ _ _ Hinv) as Hc. rewrite Hcam in Hc.
  by destruct Hc as [? _].
Qed.

Lemma inv_stable : stable (Machine0 := machine) inv.
Proof.
  intros s ev s' Hinv Hstep. change (step s ev = Some s') in Hstep.
  unfold System.step in Hstep.
  destruct ev as [|e|e|v ctx|v|files|files|k o|].
  - destruct (page_mounted s) eqn:Hm; simplify_eq. by apply inv_detect.
  - destruct e, (cam s) as [|c|c] eqn:Hcam; try done;
      apply bind_Some in Hstep as (c' & Hc' & [= <-]); by eapply inv_mobile_event.
  - destruct e, (cam s) as [|c|c] eqn:Hcam; try done;
      apply bind_Some in Hstep as (c' & Hc' & [= <-]); by eapply inv_desktop_event.
  - destruct (cam s) as [|c|c]; try done. destruct (page_mounted s); [|done].
    by eapply inv_shutter_mobile.
  - destruct (cam s) as [|c|c] eqn:Hcam; try done. destruct (page_mounted s); [|done].
    eapply inv_desktop_capture; [done..| |done]. intros d. apply desktop_capture_from_camera.
  - destruct (cam s) as [|c|c] eqn:Hcam; try done. destruct (page_mounted s); [|done].
    eapply inv_desktop_capture; [done..| |done]. intros d. apply file_from_camera.
  - destruct (cam s) as [|c|c]; try done. destruct (page_mounted s); [|done].
    by eapply inv_file_mobile.
  - destruct (cam s); by eapply inv_settled.
  - destruct (page_mounted s) eqn:Hm; [|by destruct (cam s)].
    assert (s' = leave s) as -> by (by destruct (cam s); simplify_eq). by apply inv_leave.
Qed.

Lemma system_reachable_inv s : reachable s → inv s.
Proof. apply (invariant (Machine0 := machine)); [apply inv_init|apply inv_stable]. Qed.

(** ** The consequences *)

(** A request built for a data URI or a file has the single field
    [image]. *)
Lemma from_camera_request data req :
  from_camera data → handleImageUpload_start origin data = Ok req →
  ∃ b name, req = mkRequest (apiEndpoint origin) (js "POST") [(js "image", FormFile b name)].
Proof.
  unfold handleImageUpload_start. intros Hd (fd & Hf & [= <-])%bind_Ok.
  destruct data as [str|b]; simpl in Hd.
  - rewrite build_form_data_uri in Hf by done.
    apply bind_Ok in Hf as (b & _ & [= <-]). eauto.
  - rewrite build_form_blob in Hf. injection Hf as <-. eauto.
Qed.

(** The refinement, event by event. *)
Lemma abs_deliver s (od : option capture) s' :
  inv s → (∀ d, od = Some d → from_camera d) → deliver od s = Some s' →
  match abs_capture od with
  | Some o => SessionSpec.step (abs s) o = Some (abs s')
  | None => abs s' = abs s
  end.
Proof.
  intros Hinv Hd. destruct od as [d|]; simpl; [|by intros [= <-]].
  intros (p' & Hstep & [= <-])%bind_Some.
  apply (page_abs_step JSON_parse userAgent origin (page s) (OnCapture d) p');
    [apply Hinv|done|].
  intros str [= ->]. by apply (Hd (CapString str)).
Qed.

(** On a desktop the camera is the desktop camera. *)
Lemma inv_desktop_cam s :
  inv s → isMobileUA userAgent = false →
  match cam s with
  | NoCamera => True
  | MobileCam _ => False
  | DesktopCam c => Desktop.wf c ∧ Desktop.mounted c = page_mounted s
  end.
Proof.
  intros [Hp Hc _ _] Hua. pose proof (page_reachable_wf _ _ _ _ Hp) as Hwf.
  destruct (cam s) as [|c|c]; [done|..]; destruct Hc as (Hm & Hr & ?).
  - apply (wf_mode _ _ Hwf) in Hm. congruence.
  - split; [by apply Desktop.desktop_reachable_wf|done].
Qed.

(** C24.  The page and the camera of a reachable state of the system are
    reachable states of their own machines, so that every invariant of a
    component holds inside the system; the camera in the tree is the one of
    the detected mode, none before the detection, and it is mounted exactly
    while the page is. *)
Theorem system_components_reachable s :
  reachable s →
  reachable_page (page s) ∧
  match cam s with
  | NoCamera => render (page s) = LoadingView
  | MobileCam c =>
      isMobileUA userAgent = true ∧ @Machine.reachable _ _ Mobile.machine c ∧
      Mobile.mounted c = page_mounted s
  | DesktopCam c =>
      isMobileUA userAgent = false ∧ @Machine.reachable _ _ Desktop.machine c ∧
      Desktop.mounted c = page_mounted s
  end.
Proof.
  intros [Hp Hc _ _]%system_reachable_inv. split; [done|].
  pose proof (page_reachable_wf _ _ _ _ Hp) as Hwf.
  destruct (cam s) as [|c|c].
  - unfold render. by rewrite Hc.
  - destruct Hc as (Hm & ? & ?). by rewrite <-(wf_mode _ _ Hwf _ Hm).
  - destruct Hc as (Hm & ? & ?). by rewrite <-(wf_mode _ _ Hwf _ Hm).
Qed.

(** C8.  Every request that the system issues is a POST to the upload
    endpoint with the single field [image]: the strings that reach
    [handleCapture] are data URIs, so the branch of [handleImageUpload] that
    sends [imageUrl] is never taken. *)
Theorem system_requests_image_field (s : state) (k : nat) (u : upload) :
  reachable s → uploads (page s) !! k = Some u →
  ∃ b name,
    up_request u = mkRequest (apiEndpoint origin) (js "POST") [(js "image", FormFile b name)].
Proof.
  intros Hinv%system_reachable_inv Hk.
  destruct (inv_uploads _ _ _ _ Hinv k u Hk) as [Hd Hreq].
  by apply (from_camera_request (up_image u)).
Qed.

(** C4.  The system implements the capture session of the specification,
    with no condition on the captures: detection, a capture by either
    camera or file input and the settling of an upload are the
    specification's operations on the mode, the latest capture and the
    outcomes; the events of the cameras and the user's leaving do not change
    the abstract state. *)
Theorem system_refines_session s ev s' :
  reachable s → step s ev = Some s' →
  match abs_event JSON_parse userAgent s ev with
  | Some o => SessionSpec.step (abs s) o = Some (abs s')
  | None => abs s' = abs s
  end.
Proof.
  intros Hinv%system_reachable_inv Hstep. unfold System.step in Hstep. unfold abs_event.
  pose proof (inv_page _ _ _ _ Hinv) as Hp.
  destruct ev as [|e|e|v ctx|v|files|files|k o|].
  - destruct (page_mounted s); simplify_eq. apply abs_detect. by eapply page_reachable_wf.
  - destruct e, (cam s); try done; by apply bind_Some in Hstep as (c' & _ & [= <-]).
  - destruct e, (cam s); try done; by apply bind_Some in Hstep as (c' & _ & [= <-]).
  - destruct (cam s) as [|c|c]; try done. destruct (page_mounted s); [|done].
    apply abs_deliver; [done| |done]. intros d Hd. by apply (mobile_capture_normalizes c v ctx).
  - destruct (cam s) as [|c|c]; try done. destruct (page_mounted s); [|done].
    apply abs_deliver; [done| |done]. intros d. apply desktop_capture_from_camera.
  - destruct (cam s) as [|c|c]; try done. destruct (page_mounted s); [|done].
    apply abs_deliver; [done| |done]. intros d. apply file_from_camera.
  - destruct (cam s) as [|c|c]; try done. destruct (page_mounted s); [|done].
    apply bind_Some in Hstep as (p' & Hstep & [= <-]).
    pose proof (page_abs_step JSON_parse userAgent origin (page s) _ p' Hp Hstep) as Ha.
    unfold Page.abs_event in Ha. destruct (files ≫= head); by apply Ha.
  - assert (page_step (FetchSettled k o) s = Some s') as (p' & Hs & [= <-])%bind_Some
      by by destruct (cam s).
    by apply (page_abs_step JSON_parse userAgent origin (page s) (FetchSettled k o) p').
  - destruct (page_mounted s); [|by destruct (cam s)].
    by assert (s' = leave s) as -> by (by destruct (cam s); simplify_eq).
Qed.

(** C28.  On a phone no capture is ever rejected: the photo of the mobile
    camera always normalises, because its canvas is never empty, and a file
    needs no normalisation, so [handleImageUpload] never throws. *)
Theorem system_mobile_no_rejection (s : state) :
  reachable s → isMobileUA userAgent = true → unhandled (page s) = [].
Proof.
  intros [Hp _ _ Hun]%system_reachable_inv Hua. apply Hun. intros Hm.
  apply (wf_mode _ _ (page_reachable_wf _ _ _ _ Hp)) in Hm. congruence.
Qed.

(** C29.  On a desktop the system has at most one live stream, under every
    interleaving, and none once the user has left the page. *)
Theorem system_desktop_streams s :
  reachable s → isMobileUA userAgent = false →
  size (live_streams (cam s)) ≤ 1 ∧ (page_mounted s = false → live_streams (cam s) = ∅).
Proof.
  intros Hinv%system_reachable_inv Hua. pose proof (inv_desktop_cam s Hinv Hua) as Hc.
  destruct (cam s) as [|c|c]; cbn [live_streams]; [|done|].
  { rewrite size_empty. split; [lia|done]. }
  destruct Hc as [Hwf Hm]. split; [by apply Desktop.desktop_wf_size|].
  intros Hpm. apply Desktop.desktop_wf_closed_live; [done|].
  unfold Desktop.is_open. by rewrite Hm, Hpm.
Qed.

(** ** After the user has left *)

Lemma inv_mobile_wf s c : inv s → cam s = MobileCam c → Mobile.wf c ∧ Mobile.mounted c = page_mounted s.
Proof.
  intros Hinv Hcam. pose proof (inv_cam _ _ _ _ Hinv) as Hc. rewrite Hcam in Hc.
  destruct Hc as (_ & Hr & Hm). split; [|done].
  by apply (invariant (Machine0 := Mobile.machine) Mobile.wf);
    [apply Mobile.wf_init|apply Mobile.wf_stable|].
Qed.

(** Once the page is gone the only events are settlements: of a stream
    request, which reaches the unmounted camera, and of an upload, which
    reaches the page.  Neither stops a stream. *)
Lemma left_step s c ev s' :
  inv s → page_mounted s = false → cam s = MobileCam c → step s ev = Some s' →
  ∃ c', cam s' = MobileCam c' ∧ page_mounted s' = false ∧ Mobile.live c ⊆ Mobile.live c' ∧
        size (Mobile.live c') = size (Mobile.live c) + arrival ev.
Proof.
  intros Hinv Hpm Hcam Hstep. change (System.step JSON_parse userAgent origin s ev = Some s') in Hstep.
  destruct (inv_mobile_wf s c Hinv Hcam) as [Hwf Hm]. rewrite Hpm in Hm.
  unfold System.step in Hstep. rewrite Hcam, Hpm in Hstep.
  destruct ev as [|e|e|v ctx|v|files|files|k o|]; try done.
  - assert (Mobile.step c e ≫= (λ c', Some (set_cam (MobileCam c') s)) = Some s') as Hs
      by by destruct e.
    apply bind_Some in Hs as (c' & Hc' & [= <-]). exists c'.
    destruct (Mobile.unmounted_step c e c' Hwf Hm Hc') as (_ & ? & ?). by simpl.
  - by destruct e.
  - apply bind_Some in Hstep as (p & _ & [= <-]). exists c. simpl. split_and!; [done..|lia].
Qed.

Lemma left_run evs s c s' :
  inv s → page_mounted s = false → cam s = MobileCam c →
  run (Machine0 := machine) evs s = Some s' →
  live_streams (cam s) ⊆ live_streams (cam s') ∧
  size (live_streams (cam s')) = size (live_streams (cam s)) + arrivals evs.
Proof.
  revert s c. induction evs as [|ev evs IH]; intros s c Hinv Hpm Hcam.
  { intros [= <-]. split; [done|]. unfold arrivals. simpl. lia. }
  intros (s1 & Hs1 & Hr)%run_cons_Some.
  destruct (left_step s c ev s1 Hinv Hpm Hcam Hs1) as (c1 & Hcam1 & Hpm1 & Hsub & Hsz).
  destruct (IH s1 c1 (inv_stable s ev s1 Hinv Hs1) Hpm1 Hcam1 Hr) as [Hsub' Hsz'].
  rewrite Hcam, Hcam1 in *. cbn [live_streams] in *. split; [by etrans|].
  rewrite Hsz', Hsz. unfold arrivals. simpl. lia.
Qed.

(** The user leaves while a stream request is pending, and the stream
    arrives. *)
Lemma leave_resolve s c k e :
  page_mounted s = true → cam s = MobileCam c → Mobile.pending c k = Some e →
  ∃ e', run (Machine0 := machine) [Leave; MobileEvent (Mobile.Resolve k)] s
        = Some (set_cam (MobileCam (Mobile.on_resolved (Mobile.unmount c) k e')) (leave s)).
Proof.
  intros Hpm Hcam Hp. destruct (pending_cleanup c k e Hp) as (e' & He' & _). exists e'.
  assert (step s Leave = Some (leave s)) as H1
    by (unfold System.step; rewrite Hpm; by destruct (cam s)).
  assert (step (leave s) (MobileEvent (Mobile.Resolve k))
          = Some (set_cam (MobileCam (Mobile.on_resolved (Mobile.unmount c) k e')) (leave s)))
    as H2.
  { unfold System.step, leave. simpl. rewrite Hcam. simpl.
    by assert (Mobile.pending (Mobile.unmount c) k = Some e') as -> by done. }
  apply run_cons_Some. exists (leave s). split; [exact H1|].
  apply run_cons_Some. eexists. split; [exact H2|done].
Qed.

(** C30.  On a phone the camera stays on after the user has left the page.
    In every reachable state in which [MobileCamera] is mounted and a call
    of [getUserMedia] is pending, the user can leave and the promise can
    resolve afterwards; the stream it delivers is then live, and from then on
    nothing stops a stream: along every further run the live streams only
    grow, by one for every call of [getUserMedia] that resolves. *)
Theorem system_mobile_leave_leaks s c k e :
  reachable s → page_mounted s = true → cam s = MobileCam c →
  Mobile.pending c k = Some e →
  ∃ s1, run (Machine0 := machine) [Leave; MobileEvent (Mobile.Resolve k)] s = Some s1 ∧
        page_mounted s1 = false ∧ Mobile.next_stream c ∈ live_streams (cam s1) ∧
        ∀ evs s', run (Machine0 := machine) evs s1 = Some s' →
          live_streams (cam s1) ⊆ live_streams (cam s') ∧
          size (live_streams (cam s')) = size (live_streams (cam s1)) + arrivals evs.
Proof.
  intros Hr Hpm Hcam Hp. destruct (leave_resolve s c k e Hpm Hcam Hp) as (e' & Hrun).
  eexists. split; [exact Hrun|]. split; [done|]. split.
  - simpl. destruct (Mobile.cleanup_fields c) as (_ & _ & _ & _ & -> & _). set_solver.
  - intros evs s'. eapply left_run; [|done..].
    apply system_reachable_inv. eapply reachable_trans; [exact Hr|]. by eexists.
Qed.

End system_props.

(** ** The theorems on the example sessions *)

Example phone_session_state :
  live_streams (cam (after phone phone_session)) = {[0]} ∧
  length (uploads (page (after phone phone_session))) = 1 ∧
  page_mounted (after phone phone_session) = false.
Proof. split; [by vm_compute|done]. Qed.

Lemma system_components_reachable_witness :
  @Machine.reachable _ _ (Page.machine parse_ok_true phone None)
    (page (after phone phone_session)) ∧
  match cam (after phone phone_session) with
  | NoCamera => render (page (after phone phone_session)) = LoadingView
  | MobileCam c =>
      isMobileUA phone = true ∧ @Machine.reachable _ _ Mobile.machine c ∧
      Mobile.mounted c = page_mounted (after phone phone_session)
  | DesktopCam c =>
      isMobileUA phone = false ∧ @Machine.reachable _ _ Desktop.machine c ∧
      Desktop.mounted c = page_mounted (after phone phone_session)
  end.
Proof.
  apply (system_components_reachable parse_ok_true phone None (after phone phone_session)).
  by exists phone_session.
Defined.

Lemma system_requests_image_field_witness :
  ∃ b name,
    mkRequest (apiEndpoint None) (js "POST")
      [(js "image", FormFile (mkBlob [44; 7]%Z (js "image/jpeg") None) (js "captured.jpg"))]
    = mkRequest (apiEndpoint None) (js "POST") [(js "image", FormFile b name)].
Proof.
  apply (system_requests_image_field parse_ok_true phone None (after phone phone_session) 0
           (mkUpload (CapString photo)
              (mkRequest (apiEndpoint None) (js "POST")
                 [(js "image",
                   FormFile (mkBlob [44; 7]%Z (js "image/jpeg") None) (js "captured.jpg"))])
              None));
    [by exists phone_session|done].
Defined.

Lemma system_refines_session_witness :
  match abs_event parse_ok_true phone (after phone [Detect])
          (ShutterMobile (mkVideo 0 0 [300; 7]%Z) true) with
  | Some o =>
      SessionSpec.step (abs (after phone [Detect])) o
      = Some (abs (after phone (take 2 phone_session)))
  | None => abs (after phone (take 2 phone_session)) = abs (after phone [Detect])
  end.
Proof.
  apply (system_refines_session parse_ok_true phone None (after phone [Detect])
           (ShutterMobile (mkVideo 0 0 [300; 7]%Z) true) (after phone (take 2 phone_session)));
    [by exists [Detect]|by vm_compute].
Defined.

Lemma system_mobile_no_rejection_witness :
  unhandled (page (after phone phone_session)) = [].
Proof.
  apply (system_mobile_no_rejection parse_ok_true phone None (after phone phone_session));
    [by exists phone_session|done].
Defined.

Lemma system_mobile_leave_leaks_witness :
  ∃ s1, run (Machine0 := machine parse_ok_true phone None)
          [Leave; MobileEvent (Frame := list Z) (Mobile.Resolve 0)] (after phone [Detect]) = Some s1 ∧
        page_mounted s1 = false ∧ Mobile.next_stream Mobile.init ∈ live_streams (cam s1) ∧
        ∀ evs s', run (Machine0 := machine parse_ok_true phone None) evs s1 = Some s' →
          live_streams (cam s1) ⊆ live_streams (cam s') ∧
          size (live_streams (cam s')) = size (live_streams (cam s1)) + arrivals evs.
Proof.
  apply (system_mobile_leave_leaks parse_ok_true phone None (after phone [Detect])
           Mobile.init 0 (Mobile.start_effect Environment));
    [by exists [Detect]|done..].
Defined.

Lemma system_desktop_streams_witness :
  size (live_streams (cam (after None desktop_session))) ≤ 1 ∧
  (page_mounted (after None desktop_session) = false →
   live_streams (cam (after None desktop_session)) = ∅).
Proof.
  apply (system_desktop_streams parse_ok_true None None (after None desktop_session));
    [by exists desktop_session|done].
Defined.

End System.
