(* ===== verification/SystemView.v ===== *)
(** The whole page with the video element of the mobile camera: the
    machine of [System.v] in which the shutter of [MobileCamera] reads the
    element that the component feeds (lines 46-51, 67-78 and 85-98 of
    [src/frontend/app/analyse/page.tsx]).

    In [System.v] the video that [capturePhoto] reads is an input of the
    shutter event.  Here it is the element of the component: the
    continuation of [startCamera] binds the stream to it, the browser
    delivers [loadedmetadata], and the shutter reads the size the element
    has at that moment and the frame that the camera shows.  The steps on
    the element are those of [Module View]; the other steps are those of
    [Module System].

    The theorems: the machine is embedded in [System.machine] (forgetting
    the element) and in [View.machine] (forgetting the page), so the
    invariants of both hold of its reachable states; a photo that the user
    takes is the current frame at the size of the stream, it becomes the
    preview, and exactly one request carries its JPEG bytes; a photo taken
    before the metadata of the stream has loaded is the blank image of 640
    by 480, and it is uploaded like any other. *)

From Stdlib Require Import ZArith Lia.
From stdpp Require Import prelude gmap.
From S2P Require Import Prelude JsString Base64 Normalizer Upload Machine Embedding Progress.
From S2P Require Import Canvas Media MobileCamera MobileProgress MobileView Detector.
From S2P Require Import DesktopCamera Analyse System.

#[local] Open Scope Z_scope.

Module Full.
Import Page System.

Section full.
Context {J : Type} (JSON_parse : jsstring → option J).
Context (userAgent origin : option jsstring).
Context `{Canvas Frame}.

(** The system, and the video element that [MobileCamera] renders. *)
Record state : Type := mkState {
  sys : System.state (J := J);
  video_el : playback;
}.

(** The events of the system; the shutter of the mobile camera, which
    reads the element while the camera shows [current]; the
    [loadedmetadata] event of the element. *)
Inductive event : Type :=
| Sys (ev : System.event (Frame := Frame))
| Shutter (current : Frame) (ctx : bool)
| LoadedMetadata (w h : Z).

Definition init : state := {| sys := System.init; video_el := new_video |}.

(** The mobile camera with its element, while it is in the tree. *)
Definition view (s : state) : option View.state :=
  match cam (sys s) with
  | MobileCam c => Some (View.mkState c (video_el s))
  | _ => None
  end.

(** A step of the mobile camera with its element. *)
Definition view_step (vev : View.event) (s : state) : option state :=
  v ← view s;
  v' ← View.step v vev;
  Some {| sys := set_cam (MobileCam (View.camera v')) (sys s); video_el := View.video_el v' |}.

(** A step of the system that does not touch the element. *)
Definition sys_step (ev : System.event (Frame := Frame)) (s : state) : option state :=
  s' ← System.step JSON_parse userAgent origin (sys s) ev;
  Some {| sys := s'; video_el := video_el s |}.

Definition step (s : state) (ev : event) : option state :=
  match ev with
  | Sys (ShutterMobile _ _) | Sys (MobileEvent Mobile.Unmount) => None
  | Sys (MobileEvent e) => view_step (View.Camera e) s
  | Sys ev => sys_step ev s
  | Shutter current ctx => sys_step (ShutterMobile (snapshot (video_el s) current) ctx) s
  | LoadedMetadata w h => view_step (View.LoadedMetadata w h) s
  end.

#[export] Instance machine : Machine state event := {| m_init := init; m_step := step |}.

(** ** The two embeddings *)

(** The event of the system that an event stands for: the shutter passes
    what the element shows; the system does not see the metadata load. *)
Definition sys_event (s : state) (ev : event) : list (System.event (Frame := Frame)) :=
  match ev with
  | Sys ev => [ev]
  | Shutter current ctx => [ShutterMobile (snapshot (video_el s) current) ctx]
  | LoadedMetadata _ _ => []
  end.

(** The camera with its element; before the camera mounts, and in the
    desktop layout, the component that would mount. *)
Definition view_of (s : state) : View.state := default View.init (view s).

(** The event of the camera that an event stands for: leaving the page
    unmounts the camera. *)
Definition view_event (s : state) (ev : event) : list View.event :=
  match ev, cam (sys s) with
  | Sys (MobileEvent e), MobileCam _ => [View.Camera e]
  | Sys Leave, MobileCam _ => [View.Camera Mobile.Unmount]
  | LoadedMetadata w h, MobileCam _ => [View.LoadedMetadata w h]
  | _, _ => []
  end.

(** The system is a reachable state of [System.machine], and the element
    is untouched until the camera mounts. *)
Definition inv (s : state) : Prop :=
  @reachable _ _ (System.machine JSON_parse userAgent origin) (sys s) ∧
  (cam (sys s) = NoCamera → video_el s = new_video).

(** The photo that the shutter takes of [current]: at the size of the
    stream once its metadata has loaded, and of nothing at 640 by 480
    before. *)
Definition photo_of (p : playback) (current : Frame) : Frame * Z * Z :=
  match metadata p with
  | Some (w, h) => (current, w, h)
  | None => (blank, 640, 480)
  end.

(** The data URI of a photo. *)
Definition photo_uri (ph : Frame * Z * Z) : jsstring :=
  let '(frame, w, h) := ph in canvas_toDataURL frame w h.

(** The upload of a photo: the data URI, and the request with the JPEG
    bytes in the field [image]. *)
Definition photo_upload (ph : Frame * Z * Z) : upload (J := J) :=
  let '(frame, w, h) := ph in
  mkUpload (CapString (canvas_toDataURL frame w h))
    (mkRequest (apiEndpoint origin) (js "POST")
       [(js "image",
         FormFile (mkBlob (encode_jpeg frame w h) (js "image/jpeg") None) (js "captured.jpg"))])
    None.

End full.

(** A session on a phone: the detection, a photo before the camera has
    started, the arrival of the stream and of its metadata, and a second
    photo. *)
Definition two_photos : list (event (Frame := list Z)) :=
  [Sys Detect; Shutter [300; 7] true; Sys (MobileEvent (Mobile.Resolve 0));
   LoadedMetadata 1280 720; Shutter [300; 7] true].

Definition after_events (evs : list (event (Frame := list Z))) : state (J := bool) :=
  default init (@run _ _ (machine parse_ok_true phone None) evs init).

(** * Properties *)

Section full_props.
Context {J : Type} (JSON_parse : jsstring → option J).
Context (userAgent origin : option jsstring).
Context `{Canvas Frame}.
Implicit Types (s : state (J := J)) (ev : event (Frame := Frame)).
Implicit Types (sev : System.event (Frame := Frame)) (vev : View.event).

#[local] Abbreviation step := (step JSON_parse userAgent origin).
#[local] Abbreviation machine := (machine JSON_parse userAgent origin).
#[local] Abbreviation sys_machine := (System.machine JSON_parse userAgent origin).
#[local] Abbreviation sys_step := (sys_step JSON_parse userAgent origin).
#[local] Abbreviation inv := (inv JSON_parse userAgent origin).

Lemma full_sys_step sev s s' :
  sys_step sev s = Some s' ↔
  System.step JSON_parse userAgent origin (sys s) sev = Some (sys s') ∧
  video_el s' = video_el s.
Proof.
  unfold Full.sys_step. rewrite bind_Some. split.
  - by intros (y & -> & [= <-]).
  - intros [Hs He]. exists (sys s'). split; [done|]. destruct s'. simpl in *. by subst.
Qed.

Lemma full_view_step vev s s' :
  view_step vev s = Some s' ↔
  ∃ c v', cam (sys s) = MobileCam c ∧ View.step (View.mkState c (video_el s)) vev = Some v' ∧
          s' = {| sys := set_cam (MobileCam (View.camera v')) (sys s);
                  video_el := View.video_el v' |}.
Proof.
  unfold view_step, view. rewrite bind_Some. setoid_rewrite bind_Some. split.
  - intros (v & Hv & v' & Hv' & [= <-]). destruct (cam (sys s)) as [|c|c]; simplify_eq. eauto.
  - intros (c & v' & -> & Hv' & ->). eauto.
Qed.

(** A step of the camera with its element is the step of the camera in
    the system. *)
Lemma full_view_step_sys e s s' :
  e ≠ Mobile.Unmount → view_step (View.Camera e) s = Some s' →
  System.step JSON_parse userAgent origin (sys s) (MobileEvent e) = Some (sys s').
Proof.
  intros He (c & v' & Hc & (c' & Hc' & ->)%View.step_camera & ->)%full_view_step.
  unfold System.step. rewrite Hc. simpl in *. rewrite Hc'. by destruct e.
Qed.

(** ** The camera in the tree *)

Lemma full_deliver_cam (od : option capture) (s0 s1 : System.state (J := J)) :
  System.deliver JSON_parse userAgent origin od s0 = Some s1 → cam s1 = cam s0.
Proof. destruct od; simpl; [|by intros [= <-]]. by intros (p & _ & [= <-])%bind_Some. Qed.

(** What a step of the system does to the camera in the tree: the
    detection puts it there, the events of a camera act on it, the leaving
    unmounts it, and the other events leave it as it is. *)
Lemma full_step_cam sev (s0 s1 : System.state (J := J)) :
  System.step JSON_parse userAgent origin s0 sev = Some s1 →
  match sev with
  | Detect =>
      cam s1 = match cam s0 with
               | NoCamera => mount_camera (isMobileUA userAgent)
               | c => c
               end
  | MobileEvent e =>
      ∃ c c', cam s0 = MobileCam c ∧ Mobile.step c e = Some c' ∧ cam s1 = MobileCam c'
  | DesktopEvent e => ∃ c c', cam s0 = DesktopCam c ∧ cam s1 = DesktopCam c'
  | Leave => page_mounted s0 = true ∧ cam s1 = unmount_camera (cam s0)
  | _ => cam s1 = cam s0
  end.
Proof.
  unfold System.step. destruct (cam s0) as [|c|c] eqn:Hc, sev as [|e|e|v ctx|v|files|files|k o|];
    try done; try (destruct e; try done); try (destruct (page_mounted s0); [|done]);
    try (intros Hs%full_deliver_cam; by rewrite Hs, Hc);
    try (intros (? & Hs & [= <-])%bind_Some; simpl; rewrite ?Hc; by eauto);
    try (intros [= <-]; simpl; rewrite Hc; by eauto).
Qed.

(** A step is a step of the camera with its element, or a step of the
    system that is no event of the mobile camera. *)
Lemma full_step_cases s ev s' :
  step s ev = Some s' →
  (∃ vev, view_step vev s = Some s' ∧
          match vev with
          | View.Camera e => e ≠ Mobile.Unmount ∧ ev = Sys (MobileEvent e)
          | View.LoadedMetadata w h => ev = LoadedMetadata w h
          end) ∨
  (∃ sev, sys_step sev s = Some s' ∧ sys_event s ev = [sev] ∧ ∀ e, sev ≠ MobileEvent e).
Proof.
  destruct ev as [sev|current ctx|w h].
  - destruct sev as [|[]| | | | | | |]; try done;
      try (intros Hs; left; eexists (View.Camera _); by split_and!);
      intros Hs; right; eexists; by split_and!.
  - intros Hs. right. eexists. by split_and!.
  - intros Hs. left. by exists (View.LoadedMetadata w h).
Qed.

(** ** The embedding in the system *)

Lemma full_embeds_sys s ev s' :
  step s ev = Some s' →
  @run _ _ sys_machine (sys_event s ev) (sys s) = Some (sys s').
Proof.
  intros [(vev & Hs & Hvev)|(sev & [Hs _]%full_sys_step & -> & _)]%full_step_cases.
  - destruct vev as [e|w h]; [destruct Hvev as [He ->]|subst ev].
    + apply run_cons_Some. exists (sys s').
      split; [exact (full_view_step_sys e s s' He Hs)|done].
    + apply full_view_step in Hs as (c & v' & Hc & [_ ->]%View.step_metadata & ->).
      simpl. destruct (sys s). simpl in *. by subst.
  - apply run_cons_Some. by exists (sys s').
Qed.

Lemma full_sys_embedding : embedding machine sys_machine (λ _, True) sys sys_event.
Proof. split; [done..|]. intros s ev s' _. apply full_embeds_sys. Qed.

Lemma full_reachable_sys s : @reachable _ _ machine s → @reachable _ _ sys_machine (sys s).
Proof. apply (embedding_reachable _ _ _ _ _ full_sys_embedding). Qed.

(** ** The embedding in the camera with its element *)

Lemma full_inv_init : inv init.
Proof. split; [exact (reachable_init (Machine0 := sys_machine))|done]. Qed.

Lemma full_inv_step s ev s' : inv s → step s ev = Some s' → inv s'.
Proof.
  intros [Hr Hel] Hstep. split.
  - eapply (reachable_trans (Machine0 := sys_machine)); [done|].
    eexists. by apply full_embeds_sys.
  - intros Hn. apply full_step_cases in Hstep
      as [(vev & (c & v' & _ & _ & ->)%full_view_step & _)|
          (sev & [Hs He]%full_sys_step & _ & Hsev)]; [done|].
    rewrite He. apply Hel. apply full_step_cam in Hs.
    destruct sev as [|e|e| | | | | |]; [|by destruct (Hsev e)|..];
      (destruct (cam (sys s)) eqn:Hc; [done|exfalso..]); simpl in *;
      naive_solver congruence.
Qed.

(** The camera of a reachable system is mounted while the page is. *)
Lemma full_camera_mounted s c :
  inv s → cam (sys s) = MobileCam c →
  isMobileDevice (page (sys s)) = Some true ∧ Mobile.mounted c = page_mounted (sys s).
Proof.
  intros [Hinv%system_reachable_inv _] Hc.
  pose proof (inv_cam _ _ _ _ Hinv) as Hcam. rewrite Hc in Hcam. naive_solver.
Qed.

Lemma full_embeds_view s ev s' :
  inv s → step s ev = Some s' →
  @run _ _ View.machine (view_event s ev) (view_of s) = Some (view_of s').
Proof.
  intros Hinv [(vev & (c & v' & Hc & Hv & ->)%full_view_step & Hvev)|
               (sev & [Hs He]%full_sys_step & Hev & Hsev)]%full_step_cases.
  - unfold view_of, view, view_event. simpl. rewrite Hc. simpl.
    destruct vev as [e|w h]; [destruct Hvev as [_ ->]|subst ev];
      apply run_cons_Some; exists v'; by destruct v'.
  - pose proof (full_step_cam sev _ _ Hs) as Hcam.
    unfold view_of, view, view_event. rewrite He.
    destruct ev as [sev'|current ctx|w h]; simplify_eq/=; [|by rewrite Hcam].
    destruct sev as [|e|e| | | | | |]; try (by rewrite Hcam); [..|by destruct (Hsev e)| |].
    + rewrite Hcam. destruct (cam (sys s)) eqn:Hc; [|done..].
      rewrite (proj2 Hinv Hc). unfold mount_camera. by destruct (isMobileUA userAgent).
    + by destruct Hcam as (c & c' & -> & ->).
    + destruct Hcam as [Hm ->]. destruct (cam (sys s)) as [|c|c] eqn:Hc; [done| |done].
      destruct (full_camera_mounted s c Hinv Hc) as [_ Hmc]. simpl.
      unfold View.step. simpl. by rewrite Hmc, Hm.
Qed.

Lemma full_view_embedding : embedding machine View.machine inv view_of view_event.
Proof. split; [done|apply full_inv_init|apply full_inv_step|apply full_embeds_view]. Qed.

Lemma full_reachable_inv s : @reachable _ _ machine s → inv s.
Proof. apply (embedding_inv _ _ _ _ _ full_view_embedding). Qed.

(** The invariant of the element holds in the whole page. *)
Lemma full_view_inv s c :
  @reachable _ _ machine s → cam (sys s) = MobileCam c →
  View.inv (View.mkState c (video_el s)).
Proof.
  intros Hs Hc.
  pose proof (embedding_invariant _ _ _ _ _ full_view_embedding View.inv s
                View.reachable_inv Hs) as Hv.
  unfold view_of, view in Hv. by rewrite Hc in Hv.
Qed.

(** ** The shutter *)

(** What a click on the shutter passes to [onCapture]. *)
Lemma full_shutter_capture s c (current : Frame) :
  @reachable _ _ machine s → cam (sys s) = MobileCam c → page_mounted (sys s) = true →
  Mobile.capturePhoto c (snapshot (video_el s) current) true
  = Some (CapString (photo_uri (photo_of (video_el s) current))) ∧
  build_form (CapString (photo_uri (photo_of (video_el s) current)))
  = Ok (req_body (up_request (photo_upload (J := J) origin (photo_of (video_el s) current)))).
Proof.
  intros Hs Hc Hm. pose proof (full_view_inv s c Hs Hc) as Hv.
  destruct (full_camera_mounted s c (full_reachable_inv s Hs) Hc) as [_ Hmc].
  split.
  - apply (View.capturePhoto_Some (View.mkState c (video_el s)) current true); [done|].
    split_and!; [simpl; congruence|done|]. unfold photo_of. simpl.
    by destruct (metadata (video_el s)) as [[w h]|].
  - unfold photo_of. destruct (metadata (video_el s)) as [[w h]|] eqn:Hmeta.
    + destruct (View.inv_size _ Hv w h Hmeta). apply (build_form_canvas_frame current w h); lia.
    + by apply (build_form_canvas_frame blank 640 480).
Qed.

(** The step of the shutter: the page handles the photo. *)
Lemma full_shutter_step s c (current : Frame) :
  @reachable _ _ machine s → cam (sys s) = MobileCam c → page_mounted (sys s) = true →
  step s (Shutter current true)
  = Some {| sys := set_page (handleCapture origin
                      (CapString (photo_uri (photo_of (video_el s) current))) (page (sys s)))
                     (sys s);
            video_el := video_el s |} ∧
  uploads (handleCapture origin (CapString (photo_uri (photo_of (video_el s) current)))
             (page (sys s)))
  = uploads (page (sys s)) ++ [photo_upload origin (photo_of (video_el s) current)].
Proof.
  intros Hs Hc Hm. destruct (full_shutter_capture s c current Hs Hc Hm) as [Hcap Hform].
  destruct (full_camera_mounted s c (full_reachable_inv s Hs) Hc) as [Hmode _].
  set (data := CapString (photo_uri (photo_of (video_el s) current))) in *. split.
  - unfold Full.step, Full.sys_step, System.step. rewrite Hc, Hm, Hcap. simpl.
    unfold System.page_step, Page.step. by rewrite Hmode.
  - pose proof (handleCapture_uploads origin data (page (sys s))) as Hu.
    rewrite Hform in Hu. destruct Hu as [Hu _].
    rewrite Hu. unfold data, photo_upload, photo_uri.
    by destruct (photo_of (video_el s) current) as [[frame w] h].
Qed.

End full_props.

(** * The theorems of the file *)

Section full_theorems.
Context {J : Type} (JSON_parse : jsstring → option J).
Context (userAgent origin : option jsstring).
Context `{Canvas Frame}.

#[local] Abbreviation machine := (machine JSON_parse userAgent origin).

(** From the shutter to the request, in the whole page: in every
    reachable state in which the mobile camera is mounted, a click on the
    shutter takes a photo of what the video element shows, at the size of
    the stream once its metadata has loaded and of the blank frame at 640 by
    480 before; the photo becomes the preview; exactly one call of [fetch]
    is added, whose request posts the JPEG bytes of the photo in the single
    field [image] under the name "captured.jpg"; the camera and the element
    are as they were. *)
Theorem full_photo_uploaded (s : state (J := J)) (c : Mobile.state) (current : Frame) :
  @reachable _ _ machine s → cam (sys s) = MobileCam c → page_mounted (sys s) = true →
  ∃ s', step JSON_parse userAgent origin s (Shutter current true) = Some s' ∧
        screenshot (page (sys s')) = Some (photo_uri (photo_of (video_el s) current)) ∧
        uploads (page (sys s'))
        = uploads (page (sys s)) ++ [photo_upload origin (photo_of (video_el s) current)] ∧
        cam (sys s') = cam (sys s) ∧ video_el s' = video_el s.
Proof.
  intros Hs Hc Hm.
  destruct (full_shutter_step JSON_parse userAgent origin s c current Hs Hc Hm)
    as [Hstep Hu].
  eexists. split; [exact Hstep|]. cbn [sys page set_page video_el cam].
  split_and!; [|exact Hu|done..].
  exact (handleCapture_screenshot origin _ (page (sys s))).
Qed.

End full_theorems.

Lemma full_photo_uploaded_witness :
  ∃ s', step parse_ok_true phone None (after_events (take 4 two_photos))
          (Shutter [300; 7] true) = Some s' ∧
        screenshot (page (sys s'))
        = Some (photo_uri (photo_of (video_el (after_events (take 4 two_photos))) [300; 7])) ∧
        uploads (page (sys s'))
        = uploads (page (sys (after_events (take 4 two_photos)))) ++
          [photo_upload None (photo_of (video_el (after_events (take 4 two_photos))) [300; 7])] ∧
        cam (sys s') = cam (sys (after_events (take 4 two_photos))) ∧
        video_el s' = video_el (after_events (take 4 two_photos)).
Proof.
  eapply (full_photo_uploaded parse_ok_true phone None (after_events (take 4 two_photos)));
    [exists (take 4 two_photos)|..]; by vm_compute.
Defined.

(** The two photos of the session [two_photos]: the one taken before
    the camera had started is the blank image of 640 by 480, the one taken
    after the metadata had loaded is the frame at 1280 by 720; both are
    uploaded. *)
Example full_blank_photo_uploaded :
  up_request <$> uploads (page (sys (after_events two_photos)))
  = [up_request (photo_upload (J := bool) None ([], 640, 480));
     up_request (photo_upload (J := bool) None ([300; 7], 1280, 720))].
Proof. by vm_compute. Qed.

End Full.
