(* ===== verification/Whole.v ===== *)
(** The whole program: the page [Analyse] with the camera it renders, the
    video element of [MobileCamera], and every call of [handleImageUpload]
    one [await] at a time (all of [src/frontend/app/analyse/page.tsx]).

    [SystemView.v] has the page with its camera and the video element, and
    takes the settling of a call of [fetch] as one step.  [Fetch.v] has the
    page alone, with one step per [await].  This file puts the two together:
    the state is the state of [Module Full] and, for every call that has
    received its response, the [await] at which it is suspended; a
    settlement resumes a call by [Fetch.step] on the page inside.

    The theorems: the machine is embedded in [Full.machine] (the arrival of
    a response is no step there, the reading of a body settles the call),
    and so in [System.machine], and it is embedded in [Fetch.machine]
    (forgetting the camera), with the same console; from a click on the
    shutter to the line on the console: the photo of what the element shows
    becomes the preview, one request is issued, and when the request settles,
    in whichever way, the upload of the photo holds the line that
    [handleImageUpload_settle] computes and the console shows it. *)

From Stdlib Require Import ZArith Lia.
From stdpp Require Import prelude gmap.
From S2P Require Import Prelude JsString Base64 Normalizer Upload Machine Embedding Progress.
From S2P Require Import Canvas Media MobileCamera MobileProgress MobileView Detector.
From S2P Require Import DesktopCamera Analyse PageProgress Fetch System SystemView.

Module Whole.
Import Page System.

Section whole.
Context {J : Type} (JSON_parse : jsstring → option J).
Context (userAgent origin : option jsstring).
Context `{Canvas Frame}.

(** The page with its camera and the video element, and for each call of
    [fetch] that has received its response the [await] at which it is
    suspended. *)
Record state : Type := mkState {
  full : Full.state (J := J);
  reading : gmap nat Fetch.suspended;
}.

(** The events of [Module Full] other than the settling of a call, and the
    settlements of the promises that the calls await. *)
Inductive event : Type :=
| FullEvent (ev : Full.event (Frame := Frame))
| Settle (k : nat) (o : Fetch.settlement).

Definition init : state := {| full := Full.init; reading := ∅ |}.

Definition page_of (s : state) : Page.state (J := J) := page (Full.sys (full s)).

(** The calls of [handleImageUpload] in progress. *)
Definition fetch_of (s : state) : Fetch.state (J := J) :=
  {| Fetch.page := page_of s; Fetch.reading := reading s |}.

(** A call was resumed: the page and the suspended calls are updated. *)
Definition set_fetch (f : Fetch.state (J := J)) (s : state) : state :=
  {| full := {| Full.sys := set_page (Fetch.page f) (Full.sys (full s));
                Full.video_el := Full.video_el (full s) |};
     reading := Fetch.reading f |}.

Definition step (s : state) (ev : event) : option state :=
  match ev with
  | FullEvent (Full.Sys (Settled _ _)) => None
  | FullEvent ev =>
      fs ← Full.step JSON_parse userAgent origin (full s) ev;
      Some {| full := fs; reading := reading s |}
  | Settle k o =>
      f ← Fetch.step JSON_parse userAgent origin (fetch_of s) (Fetch.Settle k o);
      Some (set_fetch f s)
  end.

#[export] Instance machine : Machine state event := {| m_init := init; m_step := step |}.

(** The line that a step writes to the console. *)
Definition written (s : state) (ev : event) : list (log_entry J) :=
  match ev with
  | Settle k o => Fetch.written JSON_parse (fetch_of s) (Fetch.Settle k o)
  | FullEvent _ => []
  end.

(** The settlements among the events of the detailed page, as events of
    the whole page. *)
Definition settlements (fevs : list Fetch.event) : list event :=
  omap (λ fev, match fev with
               | Fetch.Settle k o => Some (Settle k o)
               | Fetch.PageEvent _ => None
               end) fevs.

(** ** The embeddings *)

(** The events of [Module Full] that an event stands for: the arrival of
    a response is not seen, the settlement that makes a call return is the
    settling of the call. *)
Definition full_event (s : state) (ev : event) : list (Full.event (Frame := Frame)) :=
  match ev with
  | FullEvent ev => [ev]
  | Settle k o =>
      option_list ((λ m, Full.Sys (Settled k m)) <$> Fetch.merged (Fetch.point (fetch_of s) k) o)
  end.

(** The events of the system that an event stands for. *)
Definition sys_events (s : state) (ev : event) : list (System.event (Frame := Frame)) :=
  trace_project (Full.machine JSON_parse userAgent origin) Full.sys_event
    (full_event s ev) (full s).

(** The events of the page that an event of [Module Full] stands for. *)
Definition page_events (fs : Full.state (J := J)) (ev : Full.event (Frame := Frame))
    : list Page.event :=
  sev ← Full.sys_event fs ev; option_list (page_event_of (Full.sys fs) sev).

(** The events of the detailed page that an event stands for. *)
Definition fetch_event (s : state) (ev : event) : list Fetch.event :=
  match ev with
  | FullEvent ev => Fetch.PageEvent <$> page_events (full s) ev
  | Settle k o => [Fetch.Settle k o]
  end.

Definition inv (s : state) : Prop := Fetch.inv (fetch_of s).

(** The upload of a photo once its call has returned after logging [l]. *)
Definition answered (u : upload (J := J)) (l : log_entry J) : upload (J := J) :=
  mkUpload (up_image u) (up_request u) (Some l).

End whole.

(** A session on a phone: the detection, the arrival of the stream and of
    its metadata, a photo, the response of the server and its body. *)
Definition photo_session : list (event (Frame := list Z)) :=
  [FullEvent (Full.Sys Detect); FullEvent (Full.Sys (MobileEvent (Mobile.Resolve 0)));
   FullEvent (Full.LoadedMetadata 1280 720); FullEvent (Full.Shutter [300; 7]%Z true);
   Settle 0 (Fetch.Responded 200); Settle 0 (Fetch.BodyRead json_ok_true)].

Definition after_events (evs : list (event (Frame := list Z))) : state (J := bool) :=
  default init (@run _ _ (machine parse_ok_true phone None) evs init).

(** * Properties *)

Section whole_props.
Context {J : Type} (JSON_parse : jsstring → option J).
Context (userAgent origin : option jsstring).
Context `{Canvas Frame}.
Implicit Types (s : state (J := J)) (ev : event (Frame := Frame)).
Implicit Types (f : Fetch.state (J := J)) (fs : Full.state (J := J)).

#[local] Abbreviation step := (step JSON_parse userAgent origin).
#[local] Abbreviation machine := (machine JSON_parse userAgent origin).
#[local] Abbreviation full_machine := (Full.machine JSON_parse userAgent origin).
#[local] Abbreviation sys_machine := (System.machine JSON_parse userAgent origin).
#[local] Abbreviation fetch_machine := (Fetch.machine JSON_parse userAgent origin).
#[local] Abbreviation fetch_step := (Fetch.step JSON_parse userAgent origin).
#[local] Abbreviation written := (written JSON_parse).

(** ** The steps *)

Lemma whole_step_full s (fev : Full.event (Frame := Frame)) s' :
  step s (FullEvent fev) = Some s' ↔
  (∀ k m, fev ≠ Full.Sys (Settled k m)) ∧
  Full.step JSON_parse userAgent origin (full s) fev = Some (full s') ∧
  reading s' = reading s.
Proof.
  split.
  - intros Hs. assert (∀ k m, fev ≠ Full.Sys (Settled k m)) as Hne by (by intros k m ->).
    assert (Full.step JSON_parse userAgent origin (full s) fev ≫=
              (λ fs, Some {| full := fs; reading := reading s |}) = Some s') as Hs'
      by (by destruct fev as [[]| |]).
    by apply bind_Some in Hs' as (fs & Hfs & [= <-]).
  - intros (Hne & Hfs & Hr).
    assert (step s (FullEvent fev)
            = Full.step JSON_parse userAgent origin (full s) fev ≫=
                (λ fs, Some {| full := fs; reading := reading s |})) as ->.
    { destruct fev as [[]| |]; try done. by destruct (Hne k o). }
    rewrite Hfs. simpl. destruct s'. simpl in *. by subst.
Qed.

Lemma whole_step_settle s k o s' :
  step s (Settle k o) = Some s' ↔
  ∃ f, fetch_step (fetch_of s) (Fetch.Settle k o) = Some f ∧ s' = set_fetch f s.
Proof.
  unfold Whole.step. rewrite bind_Some.
  split; [intros (f & Hf & [= <-])|intros (f & Hf & ->)]; eauto.
Qed.

Lemma fetch_of_set_fetch f s : fetch_of (set_fetch f s) = f.
Proof. by destruct f. Qed.

Lemma set_fetch_set_fetch f f' s : set_fetch f (set_fetch f' s) = set_fetch f s.
Proof. done. Qed.

(** A call that is resumed and suspended again leaves the page with its
    camera and the element as it is. *)
Lemma full_set_fetch f s : Fetch.page f = page_of s → full (set_fetch f s) = full s.
Proof.
  unfold page_of, set_fetch. destruct s as [[[p c m] v] r]. simpl. by intros ->.
Qed.

(** The settling of a call, in [Module Full]. *)
Lemma full_step_settled fs k m p :
  Page.step JSON_parse userAgent origin (page (Full.sys fs)) (FetchSettled k m) = Some p →
  Full.step JSON_parse userAgent origin fs (Full.Sys (Settled k m))
  = Some {| Full.sys := set_page p (Full.sys fs); Full.video_el := Full.video_el fs |}.
Proof.
  intros Hp. unfold Full.step, Full.sys_step.
  rewrite system_step_settled. unfold page_step. by rewrite Hp.
Qed.

(** ** The embedding in the page with its camera and element *)

Lemma whole_inv_init : inv (init (J := J)).
Proof. intros k a. unfold fetch_of, init. simpl. by rewrite lookup_empty. Qed.

Lemma whole_inv_step s ev s' : inv s → step s ev = Some s' → inv s'.
Proof.
  intros Hinv. destruct ev as [fev|k o].
  - intros (_ & _ & Hr)%whole_step_full k a. unfold fetch_of. simpl. rewrite Hr. apply Hinv.
  - intros (f & Hf & ->)%whole_step_settle. unfold inv. rewrite fetch_of_set_fetch.
    by eapply Fetch.fetch_inv_step.
Qed.

Lemma whole_embeds_full s ev s' :
  inv s → step s ev = Some s' →
  @run _ _ full_machine (full_event s ev) (full s) = Some (full s').
Proof.
  intros Hinv. destruct ev as [fev|k o].
  - intros (_ & Hfs & _)%whole_step_full. apply run_cons_Some. by exists (full s').
  - intros (f & Hf & ->)%whole_step_settle.
    pose proof (Fetch.fetch_embeds_step _ _ _ _ _ _ Hinv Hf) as Hp.
    unfold full_event. unfold Fetch.event_project in Hp.
    destruct (Fetch.merged (Fetch.point (fetch_of s) k) o) as [m|];
      cbn [fmap option_fmap option_map option_list] in *.
    + apply run_cons_Some in Hp as (p & Hp & [= ->]).
      apply run_cons_Some. eexists. split; [exact (full_step_settled (full s) k m _ Hp)|done].
    + assert (Fetch.page f = page_of s) as Hpf by (by simplify_eq/=).
      by rewrite (full_set_fetch f s Hpf).
Qed.

Lemma whole_full_embedding : embedding machine full_machine inv full full_event.
Proof. split; [done|apply whole_inv_init|apply whole_inv_step|apply whole_embeds_full]. Qed.

(** The embedding in the system: the composition with the embedding of
    [Module Full]. *)
Lemma whole_sys_embedding :
  embedding machine sys_machine inv (Full.sys ∘ full) (sys_events JSON_parse userAgent origin).
Proof.
  apply (embedding_compose machine full_machine sys_machine inv full full_event
           (λ _, True) Full.sys Full.sys_event); [done|apply whole_full_embedding|].
  apply Full.full_sys_embedding.
Qed.

Lemma whole_reachable_full s : @reachable _ _ machine s → @reachable _ _ full_machine (full s).
Proof. apply (embedding_reachable _ _ _ _ _ whole_full_embedding). Qed.

(** ** The embedding in the detailed page *)

(** Only the settling of a call is a settling of a call for the page. *)
Lemma page_event_of_settled (s0 : System.state (J := J)) (sev : System.event (Frame := Frame)) k m :
  page_event_of s0 sev = Some (FetchSettled k m) → sev = Settled k m.
Proof.
  unfold page_event_of. destruct sev, (cam s0); try done;
    try (by intros (? & _ & [=])%fmap_Some); by intros [= -> ->].
Qed.

Lemma full_sys_event_settled fs (fev : Full.event (Frame := Frame)) k m :
  Full.sys_event fs fev = [Settled k m] → fev = Full.Sys (Settled k m).
Proof. destruct fev; simpl; [|done..]. by intros [= ->]. Qed.

(** A step of [Module Full] that settles no call is a run of the detailed
    page on the events of the page that it stands for. *)
Lemma full_step_fetch fs (fev : Full.event (Frame := Frame)) fs' r :
  (∀ k m, fev ≠ Full.Sys (Settled k m)) →
  Full.step JSON_parse userAgent origin fs fev = Some fs' →
  @run _ _ fetch_machine (Fetch.PageEvent <$> page_events fs fev)
    {| Fetch.page := page (Full.sys fs); Fetch.reading := r |}
  = Some {| Fetch.page := page (Full.sys fs'); Fetch.reading := r |}.
Proof.
  intros Hne Hs. pose proof (Full.full_embeds_sys _ _ _ _ _ _ Hs) as Hr.
  unfold page_events. destruct (Full.sys_event fs fev) as [|sev [|??]] eqn:Hsev.
  - by assert (Full.sys fs' = Full.sys fs) as -> by (by simplify_eq/=).
  - apply run_cons_Some in Hr as (s1 & Hs1 & [= ->]).
    pose proof (system_step_page _ _ _ _ _ _ Hs1) as Hp.
    change ([sev] ≫= λ sev, option_list (page_event_of (Full.sys fs) sev))
      with (option_list (page_event_of (Full.sys fs) sev) ++ []).
    rewrite app_nil_r.
    destruct (page_event_of (Full.sys fs) sev) as [pev|] eqn:Hpev.
    2: { change (Some {| Fetch.page := page (Full.sys fs); Fetch.reading := r |}
                 = Some {| Fetch.page := page (Full.sys fs'); Fetch.reading := r |}).
         by rewrite Hp. }
    assert (∀ k m, pev ≠ FetchSettled k m) as Hpne.
    { intros k m ->. apply page_event_of_settled in Hpev as ->.
      apply full_sys_event_settled in Hsev. by destruct (Hne k m). }
    change (@run _ _ fetch_machine [Fetch.PageEvent pev]
              {| Fetch.page := page (Full.sys fs); Fetch.reading := r |}
            = Some {| Fetch.page := page (Full.sys fs'); Fetch.reading := r |}).
    apply run_cons_Some. eexists. split; [|done].
    exact (Fetch.fetch_page_event_step JSON_parse userAgent origin
             {| Fetch.page := page (Full.sys fs); Fetch.reading := r |} pev _ Hpne Hp).
  - by destruct fev.
Qed.

Lemma whole_embeds_fetch s ev s' :
  step s ev = Some s' →
  @run _ _ fetch_machine (fetch_event s ev) (fetch_of s) = Some (fetch_of s').
Proof.
  destruct ev as [fev|k o].
  - intros (Hne & Hfs & Hr)%whole_step_full. unfold fetch_of at 2. rewrite Hr.
    by apply full_step_fetch.
  - intros (f & Hf & ->)%whole_step_settle. rewrite fetch_of_set_fetch.
    apply run_cons_Some. by exists f.
Qed.

Lemma whole_fetch_embedding :
  embedding machine fetch_machine (λ _, True) fetch_of fetch_event.
Proof. split; [done..|]. intros s ev s' _. apply whole_embeds_fetch. Qed.

Lemma whole_reachable_fetch s :
  @reachable _ _ machine s → @reachable _ _ fetch_machine (fetch_of s).
Proof. apply (embedding_reachable _ _ _ _ _ whole_fetch_embedding). Qed.

(** The events of the page write nothing. *)
Lemma fetch_page_events_silent (pevs : list Page.event) f :
  @outputs _ _ _ fetch_machine (Fetch.written JSON_parse) (Fetch.PageEvent <$> pevs) f = [].
Proof.
  revert f. induction pevs as [|pev pevs IH]; intros f; [done|]. rewrite fmap_cons.
  destruct (fetch_step f (Fetch.PageEvent pev)) as [f'|] eqn:Hf.
  - by rewrite (@outputs_cons _ _ _ fetch_machine (Fetch.written JSON_parse) _ _ f f' Hf), IH.
  - by rewrite (@outputs_cons_None _ _ _ fetch_machine (Fetch.written JSON_parse) _ _ f Hf).
Qed.

Lemma whole_preserves_outputs :
  preserves_outputs machine fetch_machine (λ _, True) fetch_of fetch_event written
    (Fetch.written JSON_parse).
Proof.
  intros s ev s' _ Hstep. destruct ev as [fev|k o]; simpl.
  - apply fetch_page_events_silent.
  - apply whole_step_settle in Hstep as (f & Hf & _). simpl in Hf. rewrite Hf.
    by rewrite app_nil_r.
Qed.

(** ** Runs of settlements *)

(** A run of settlements of the detailed page is a run of the whole page,
    with the same console. *)
Lemma whole_run_settlements (fevs : list Fetch.event) s f :
  Forall (λ fev, ∃ k o, fev = Fetch.Settle k o) fevs →
  @run _ _ fetch_machine fevs (fetch_of s) = Some f →
  @run _ _ machine (settlements fevs) s = Some (set_fetch f s) ∧
  @outputs _ _ _ machine written (settlements fevs) s
  = @outputs _ _ _ fetch_machine (Fetch.written JSON_parse) fevs (fetch_of s).
Proof.
  intros Hfevs. revert s. induction Hfevs as [|fev fevs (k & o & ->) _ IH]; intros s Hr.
  - simpl in *. simplify_eq. split; [|done]. f_equal. by destruct s as [[[p c m] v] r].
  - apply run_cons_Some in Hr as (f1 & Hf1 & Hr).
    assert (step s (Settle k o) = Some (set_fetch f1 s)) as Hs1
      by (apply whole_step_settle; eauto).
    rewrite <-(fetch_of_set_fetch f1 s) in Hr. destruct (IH _ Hr) as [Hrun Hout].
    change (settlements (Frame := Frame) (Fetch.Settle k o :: fevs))
      with (Settle (Frame := Frame) k o :: settlements fevs).
    split.
    + apply run_cons_Some. eexists. by split.
    + rewrite (@outputs_cons _ _ _ machine written _ _ s _ Hs1), Hout, fetch_of_set_fetch.
      by rewrite (@outputs_cons _ _ _ fetch_machine (Fetch.written JSON_parse) _ _ (fetch_of s) f1 Hf1).
Qed.

(** A call in flight that has no response yet runs to its line. *)
Lemma whole_call_completes s k u (m : settled) :
  in_flight (page_of s) k = Some u → reading s !! k = None →
  @run _ _ machine (settlements (Fetch.settle_events k m)) s
  = Some (set_fetch {| Fetch.page := on_settled JSON_parse k m (page_of s) u;
                       Fetch.reading := reading s |} s) ∧
  @outputs _ _ _ machine written (settlements (Fetch.settle_events k m)) s
  = [handleImageUpload_settle JSON_parse m].
Proof.
  intros Hu Hk.
  destruct (Fetch.fetch_call_completes JSON_parse userAgent origin (fetch_of s) k u m Hu Hk)
    as [Hrun Hout].
  rewrite <-Hout. apply whole_run_settlements; [|done].
  destruct m as [r|reason]; repeat constructor; eauto.
Qed.

(** No call that is still to be made holds a response. *)
Lemma whole_reading_fresh s k :
  @reachable _ _ machine s → length (uploads (page_of s)) ≤ k → reading s !! k = None.
Proof.
  intros Hs%whole_reachable_fetch%Fetch.fetch_reachable_held Hk.
  destruct (reading s !! k) as [a|] eqn:Ha; [|done].
  destruct (Hs k a Ha) as [u [Hu%lookup_lt_Some _]%page_in_flight_Some]. simpl in Hu. lia.
Qed.

End whole_props.

(** * The theorems of the file *)

Section whole_theorems.
Context {J : Type} (JSON_parse : jsstring → option J).
Context (userAgent origin : option jsstring).
Context `{Canvas Frame}.

#[local] Abbreviation machine := (machine JSON_parse userAgent origin).

(** The whole program implements the coarser models.  Every run of
    the whole page (with the video element, and one step per [await])
    projects to a run of [System.machine] that ends in the same state of the
    page and of the camera, and to a run of [Fetch.machine] that ends in the
    same state of the page and of the suspended calls and writes the same
    lines to the console. *)
Theorem whole_refines (evs : list (event (Frame := Frame))) (s : state (J := J)) :
  @run _ _ machine evs init = Some s →
  @run _ _ (System.machine JSON_parse userAgent origin)
    (trace_project machine (sys_events JSON_parse userAgent origin) evs init) System.init
  = Some (Full.sys (full s)) ∧
  @run _ _ (Fetch.machine JSON_parse userAgent origin)
    (trace_project machine fetch_event evs init) Fetch.init
  = Some (fetch_of s) ∧
  @outputs _ _ _ (Fetch.machine JSON_parse userAgent origin) (Fetch.written JSON_parse)
    (trace_project machine fetch_event evs init) Fetch.init
  = @outputs _ _ _ machine (written JSON_parse) evs init.
Proof.
  intros Hr. split_and!.
  - exact (embedding_run _ _ _ _ _ (whole_sys_embedding JSON_parse userAgent origin)
             evs init s (whole_inv_init) Hr).
  - exact (embedding_run _ _ _ _ _ (whole_fetch_embedding JSON_parse userAgent origin)
             evs init s I Hr).
  - exact (embedding_outputs _ _ _ _ _ (whole_fetch_embedding JSON_parse userAgent origin)
             _ _ evs init s (whole_preserves_outputs JSON_parse userAgent origin) I Hr).
Qed.

(** C10.  From the shutter to the console.  In every reachable state of the
    whole page in which the mobile camera is mounted: the user clicks the
    shutter, and the request settles in whichever way (rejected, or answered
    with any status and a body that can or cannot be read).  These events
    can occur; afterwards the preview is the photo of what the element
    showed, exactly one upload has been added, with the request that posts
    the JPEG bytes of the photo, and it holds the line that
    [handleImageUpload_settle] computes for the settled request; the console
    shows that line and nothing else; the camera, the element and the other
    calls are as they were. *)
Theorem whole_photo_answered (s : state (J := J)) (c : Mobile.state) (current : Frame)
    (m : settled) :
  @reachable _ _ machine s →
  cam (Full.sys (full s)) = MobileCam c → page_mounted (Full.sys (full s)) = true →
  ∃ s', @run _ _ machine
          (FullEvent (Full.Shutter current true)
           :: settlements (Fetch.settle_events (length (uploads (page_of s))) m)) s
        = Some s' ∧
        screenshot (page_of s')
        = Some (Full.photo_uri (Full.photo_of (Full.video_el (full s)) current)) ∧
        uploads (page_of s')
        = uploads (page_of s) ++
          [answered (Full.photo_upload origin (Full.photo_of (Full.video_el (full s)) current))
             (handleImageUpload_settle JSON_parse m)] ∧
        @outputs _ _ _ machine (written JSON_parse)
          (FullEvent (Full.Shutter current true)
           :: settlements (Fetch.settle_events (length (uploads (page_of s))) m)) s
        = [handleImageUpload_settle JSON_parse m] ∧
        cam (Full.sys (full s')) = cam (Full.sys (full s)) ∧
        Full.video_el (full s') = Full.video_el (full s) ∧ reading s' = reading s.
Proof.
  intros Hs Hc Hm. set (k := length (uploads (page_of s))).
  set (ph := Full.photo_of (Full.video_el (full s)) current).
  destruct (Full.full_shutter_step JSON_parse userAgent origin (full s) c current
              (whole_reachable_full _ _ _ s Hs) Hc Hm) as [Hshut Hup].
  fold ph in Hshut, Hup.
  set (p1 := handleCapture origin (CapString (Full.photo_uri ph)) (page (Full.sys (full s))))
    in *.
  set (s1 := {| full := {| Full.sys := set_page p1 (Full.sys (full s));
                           Full.video_el := Full.video_el (full s) |};
                reading := reading s |}).
  assert (step JSON_parse userAgent origin s (FullEvent (Full.Shutter current true)) = Some s1)
    as Hs1 by (by apply whole_step_full).
  assert (in_flight (page_of s1) k = Some (Full.photo_upload origin ph)) as Hu.
  { apply page_in_flight_Some. split; [|by destruct ph as [[??]?]].
    change (uploads p1 !! k = Some (Full.photo_upload origin ph)).
    rewrite Hup. by apply list_lookup_middle. }
  destruct (whole_call_completes JSON_parse userAgent origin s1 k _ m Hu
              (whole_reading_fresh JSON_parse userAgent origin s k Hs (Nat.le_refl _)))
    as [Hrun Hout].
  eexists. split_and!.
  - apply run_cons_Some. exists s1. by split.
  - exact (handleCapture_screenshot origin _ (page (Full.sys (full s)))).
  - change (<[k := answered (Full.photo_upload origin ph) (handleImageUpload_settle JSON_parse m)]>
              (uploads p1) = uploads (page_of s) ++ [answered (Full.photo_upload origin ph)
                                                       (handleImageUpload_settle JSON_parse m)]).
    rewrite Hup, insert_app_r_alt by done. unfold k. by rewrite Nat.sub_diag.
  - by rewrite (@outputs_cons _ _ _ machine (written JSON_parse) _ _ s s1 Hs1), Hout.
  - done.
  - done.
  - done.
Qed.

End whole_theorems.

Lemma whole_refines_witness :
  @run _ _ (System.machine parse_ok_true phone None)
    (trace_project (machine parse_ok_true phone None) (sys_events parse_ok_true phone None)
       photo_session init) System.init
  = Some (Full.sys (full (after_events photo_session))) ∧
  @run _ _ (Fetch.machine parse_ok_true phone None)
    (trace_project (machine parse_ok_true phone None) fetch_event photo_session init)
    Fetch.init
  = Some (fetch_of (after_events photo_session)) ∧
  @outputs _ _ _ (Fetch.machine parse_ok_true phone None) (Fetch.written parse_ok_true)
    (trace_project (machine parse_ok_true phone None) fetch_event photo_session init)
    Fetch.init
  = @outputs _ _ _ (machine parse_ok_true phone None) (written parse_ok_true)
      photo_session init.
Proof.
  apply (whole_refines parse_ok_true phone None photo_session). by vm_compute.
Defined.

Lemma whole_photo_answered_witness :
  ∃ s', @run _ _ (machine parse_ok_true phone None)
          (FullEvent (Full.Shutter [300; 7]%Z true)
           :: settlements (Fetch.settle_events
                (length (uploads (page_of (after_events (take 3 photo_session)))))
                (Fulfilled (mkResponse 500 (Some (js "server error"))))))
          (after_events (take 3 photo_session))
        = Some s' ∧
        screenshot (page_of s')
        = Some (Full.photo_uri
                  (Full.photo_of (Full.video_el (full (after_events (take 3 photo_session))))
                     [300; 7]%Z)) ∧
        uploads (page_of s')
        = uploads (page_of (after_events (take 3 photo_session))) ++
          [answered
             (Full.photo_upload None
                (Full.photo_of (Full.video_el (full (after_events (take 3 photo_session))))
                   [300; 7]%Z))
             (handleImageUpload_settle parse_ok_true
                (Fulfilled (mkResponse 500 (Some (js "server error")))))] ∧
        @outputs _ _ _ (machine parse_ok_true phone None) (written parse_ok_true)
          (FullEvent (Full.Shutter [300; 7]%Z true)
           :: settlements (Fetch.settle_events
                (length (uploads (page_of (after_events (take 3 photo_session)))))
                (Fulfilled (mkResponse 500 (Some (js "server error"))))))
          (after_events (take 3 photo_session))
        = [handleImageUpload_settle parse_ok_true
             (Fulfilled (mkResponse 500 (Some (js "server error"))))] ∧
        cam (Full.sys (full s')) = cam (Full.sys (full (after_events (take 3 photo_session)))) ∧
        Full.video_el (full s') = Full.video_el (full (after_events (take 3 photo_session))) ∧
        reading s' = reading (after_events (take 3 photo_session)).
Proof.
  assert (@reachable _ _ (machine parse_ok_true phone None)
            (after_events (take 3 photo_session))) as Hs
    by (exists (take 3 photo_session); by vm_compute).
  assert (∃ c, cam (Full.sys (full (after_events (take 3 photo_session)))) = MobileCam c)
    as [c Hc] by (eexists; vm_compute; reflexivity).
  assert (page_mounted (Full.sys (full (after_events (take 3 photo_session)))) = true) as Hm
    by (by vm_compute).
  exact (whole_photo_answered parse_ok_true phone None (after_events (take 3 photo_session))
           c [300; 7]%Z (Fulfilled (mkResponse 500 (Some (js "server error")))) Hs Hc Hm).
Defined.

(** The session [photo_session]: the console holds the answer of the
    server, and the upload of the photo at the size of the stream holds
    it. *)
Example whole_photo_session :
  @outputs _ _ _ (machine parse_ok_true phone None) (written parse_ok_true)
    photo_session init
  = [LogServerResponse true] ∧
  uploads (page_of (after_events photo_session))
  = [answered (Full.photo_upload None ([300; 7]%Z, 1280, 720)%Z) (LogServerResponse true)].
Proof. split; by vm_compute. Qed.

End Whole.
