(* ===== verification/Interleaving.v ===== *)
(** The order in which promises settle.

    [src/frontend/app/analyse/page.tsx] starts a call of [fetch] for every
    capture (line 194) and cancels none.  Several calls can be in flight;
    the browser decides in which order their responses arrive and their
    bodies are read, and also how these events fall between the events of
    the camera.  This file shows which of these orders do not matter.

    - In the page ([Analyse.v]), the settlements of two different calls are
      independent.
    - In the page with one step per [await] ([Fetch.v]), the settlements of
      the promises of two different calls are independent, and neither
      changes the line that the other writes: two runs that differ in the
      order of such settlements end in the same state, and their consoles
      hold the same lines in a different order.
    - In the page with its camera ([System.v]), a settlement is also
      independent of every event of the camera and of the user's leaving:
      the camera and the uploads do not interfere.
    - In the whole program ([Whole.v]) both hold together, also for the
      [loadedmetadata] event of the video element: two runs that differ in
      how the settlements fall between each other and between the events
      of the camera end in the same state, with the same lines on the
      console in a different order.

    The events that are left out are dependent: a capture starts the call
    that a later settlement resumes, the response of a call comes before
    its body, and of two streams that arrive the video element of
    [MobileCamera] keeps the one that arrives last. *)

From Stdlib Require Import ZArith Lia.
From stdpp Require Import prelude gmap.
From S2P Require Import Prelude JsString Base64 Normalizer Upload Machine Embedding.
From S2P Require Import Independence Progress Canvas Media MobileCamera MobileProgress.
From S2P Require Import MobileView Detector DesktopCamera Analyse PageProgress Fetch System.
From S2P Require Import SystemView Whole.

Module Interleaving.
Import Page.

(** Two events of the page that settle different calls of [fetch]. *)
Definition page_apart (e1 e2 : Page.event) : Prop :=
  match e1, e2 with
  | FetchSettled k1 _, FetchSettled k2 _ => k1 ≠ k2
  | _, _ => False
  end.

(** Two events of the detailed page that settle promises of different
    calls. *)
Definition fetch_apart (e1 e2 : Fetch.event) : Prop :=
  match e1, e2 with
  | Fetch.Settle k1 _, Fetch.Settle k2 _ => k1 ≠ k2
  | _, _ => False
  end.

Section system.
Context {Frame : Type}.

(** The events of the system that do not reach the page: those of the
    camera, and the user's leaving. *)
Definition beside_page (e : System.event (Frame := Frame)) : bool :=
  match e with
  | System.MobileEvent _ | System.DesktopEvent _ | System.Leave => true
  | _ => false
  end.

(** Two settlements of different calls, or a settlement and an event that
    does not reach the page. *)
Definition system_apart (e1 e2 : System.event (Frame := Frame)) : Prop :=
  match e1, e2 with
  | System.Settled k1 _, System.Settled k2 _ => k1 ≠ k2
  | System.Settled _ _, e | e, System.Settled _ _ => beside_page e = true
  | _, _ => False
  end.

(** The events of the page with the video element that do not reach the
    page: those of [beside_page], and the [loadedmetadata] event. *)
Definition beside_page_full (fev : Full.event (Frame := Frame)) : bool :=
  match fev with
  | Full.Sys e => beside_page e
  | Full.LoadedMetadata _ _ => true
  | Full.Shutter _ _ => false
  end.

(** Two settlements for different calls, or a settlement and an event
    that does not reach the page. *)
Definition whole_apart (e1 e2 : Whole.event (Frame := Frame)) : Prop :=
  match e1, e2 with
  | Whole.Settle k1 _, Whole.Settle k2 _ => k1 ≠ k2
  | Whole.Settle _ _, Whole.FullEvent fev | Whole.FullEvent fev, Whole.Settle _ _ =>
      beside_page_full fev = true
  | _, _ => False
  end.

(** The page with its camera and element, with another state of the
    page. *)
Definition with_page {J : Type} (p : Page.state (J := J)) (fs : Full.state (J := J))
    : Full.state (J := J) :=
  {| Full.sys := System.set_page p (Full.sys fs); Full.video_el := Full.video_el fs |}.

End system.

#[export] Instance page_apart_dec e1 e2 : Decision (page_apart e1 e2).
Proof. destruct e1, e2; simpl; apply _. Defined.

#[export] Instance fetch_apart_dec e1 e2 : Decision (fetch_apart e1 e2).
Proof. destruct e1, e2; simpl; apply _. Defined.

#[export] Instance system_apart_dec {Frame} (e1 e2 : System.event (Frame := Frame)) :
  Decision (system_apart e1 e2).
Proof. destruct e1, e2; simpl; apply _. Defined.

#[export] Instance whole_apart_dec {Frame} (e1 e2 : Whole.event (Frame := Frame)) :
  Decision (whole_apart e1 e2).
Proof. destruct e1, e2; simpl; apply _. Defined.

(** A session on a phone: two photos; the responses arrive in the order
    of the requests, the user switches the camera, the body of the second
    response is read, the first stream arrives, the body of the first
    response is read, and the user leaves. *)
Definition two_answers : list (Whole.event (Frame := list Z)) :=
  [Whole.FullEvent (Full.Sys System.Detect);
   Whole.FullEvent (Full.Shutter [300; 7]%Z true);
   Whole.FullEvent (Full.Shutter [300; 7]%Z true);
   Whole.Settle 0 (Fetch.Responded 200); Whole.Settle 1 (Fetch.Responded 500);
   Whole.FullEvent (Full.Sys (System.MobileEvent Mobile.Toggle));
   Whole.Settle 1 (Fetch.BodyRead (js "server error"));
   Whole.FullEvent (Full.Sys (System.MobileEvent (Mobile.Resolve 0)));
   Whole.Settle 0 (Fetch.BodyRead json_ok_true);
   Whole.FullEvent (Full.Sys System.Leave)].

(** The same session with every answer after the user has left, one call
    after the other. *)
Definition two_answers_late : list (Whole.event (Frame := list Z)) :=
  [Whole.FullEvent (Full.Sys System.Detect);
   Whole.FullEvent (Full.Shutter [300; 7]%Z true);
   Whole.FullEvent (Full.Shutter [300; 7]%Z true);
   Whole.FullEvent (Full.Sys (System.MobileEvent Mobile.Toggle));
   Whole.FullEvent (Full.Sys (System.MobileEvent (Mobile.Resolve 0)));
   Whole.FullEvent (Full.Sys System.Leave);
   Whole.Settle 0 (Fetch.Responded 200); Whole.Settle 0 (Fetch.BodyRead json_ok_true);
   Whole.Settle 1 (Fetch.Responded 500);
   Whole.Settle 1 (Fetch.BodyRead (js "server error"))].

(** The run of the effect of [MobileCamera] whose stream the video element
    holds. *)
Definition shown_run (s : Mobile.state) : option nat :=
  sid ← Mobile.srcObject s;
  fst <$> list_find (λ e, Mobile.activeStream e = Some sid) (Mobile.effects s).

(** * Properties *)

#[export] Instance page_apart_sym : Symmetric page_apart.
Proof. intros [] []; simpl; auto. Qed.

#[export] Instance fetch_apart_sym : Symmetric fetch_apart.
Proof. intros [] []; simpl; auto. Qed.

#[export] Instance system_apart_sym {Frame} : Symmetric (system_apart (Frame := Frame)).
Proof. intros [] []; simpl; auto. Qed.

#[export] Instance whole_apart_sym {Frame} : Symmetric (whole_apart (Frame := Frame)).
Proof. intros [] []; simpl; auto. Qed.

(** ** The page *)

Section page.
Context {J : Type} (JSON_parse : jsstring → option J).
Context (userAgent origin : option jsstring).
Implicit Types (s : Page.state (J := J)) (u : upload (J := J)).

#[local] Abbreviation page_machine := (Page.machine JSON_parse userAgent origin).

(** The settling of call [k1] leaves the other calls as they are. *)
Lemma on_settled_in_flight k1 k2 o s u :
  k1 ≠ k2 → in_flight (on_settled JSON_parse k1 o s u) k2 = in_flight s k2.
Proof. intros Hk. unfold in_flight. simpl. by rewrite list_lookup_insert_ne. Qed.

Lemma on_settled_comm k1 k2 o1 o2 s u1 u2 :
  k1 ≠ k2 →
  on_settled JSON_parse k2 o2 (on_settled JSON_parse k1 o1 s u1) u2
  = on_settled JSON_parse k1 o1 (on_settled JSON_parse k2 o2 s u2) u1.
Proof. intros Hk. unfold on_settled. simpl. f_equal. by apply list_insert_insert_ne. Qed.

Lemma page_settled_independent k1 k2 o1 o2 :
  k1 ≠ k2 →
  @independent _ _ page_machine (FetchSettled k1 o1) (FetchSettled k2 o2).
Proof.
  intros Hk s. simpl.
  destruct (in_flight s k1) as [u1|] eqn:H1, (in_flight s k2) as [u2|] eqn:H2; simpl;
    rewrite ?on_settled_in_flight, ?H1, ?H2 by done; simpl; [|done..].
  by rewrite on_settled_comm.
Qed.

Lemma page_apart_independent e1 e2 :
  page_apart e1 e2 → @independent _ _ page_machine e1 e2.
Proof. destruct e1, e2; try done. apply page_settled_independent. Qed.

End page.

(** ** The page, one [await] at a time *)

Section fetch.
Context {J : Type} (JSON_parse : jsstring → option J).
Context (userAgent origin : option jsstring).
Implicit Types (s : Fetch.state (J := J)) (u : upload (J := J)).

#[local] Abbreviation fetch_machine := (Fetch.machine JSON_parse userAgent origin).
#[local] Abbreviation fetch_step := (Fetch.step JSON_parse userAgent origin).

(** A settlement for call [k1] leaves the other calls as they are: in
    flight or not, and suspended where they were. *)
Lemma fetch_settle_frame k1 k2 o s s1 :
  k1 ≠ k2 → fetch_step s (Fetch.Settle k1 o) = Some s1 →
  in_flight (Fetch.page s1) k2 = in_flight (Fetch.page s) k2 ∧
  Fetch.point s1 k2 = Fetch.point s k2.
Proof.
  intros Hk (u & [a|l] & _ & _ & ->)%Fetch.fetch_step_settle; unfold Fetch.point, in_flight; simpl.
  - by rewrite lookup_insert_ne.
  - by rewrite list_lookup_insert_ne, lookup_delete_ne.
Qed.

Lemma fetch_settle_enabled k o s :
  is_Some (fetch_step s (Fetch.Settle k o)) ↔
  is_Some (in_flight (Fetch.page s) k) ∧ is_Some (Fetch.resume JSON_parse (Fetch.point s k) o).
Proof.
  split.
  - intros [s' (u & ph & -> & -> & _)%Fetch.fetch_step_settle]. eauto.
  - intros [[u Hu] [ph Hph]]. eexists. apply Fetch.fetch_step_settle. eauto.
Qed.

Lemma fetch_settle_enabled_frame k1 k2 o1 o2 s s1 :
  k1 ≠ k2 → fetch_step s (Fetch.Settle k1 o1) = Some s1 →
  is_Some (fetch_step s1 (Fetch.Settle k2 o2)) ↔ is_Some (fetch_step s (Fetch.Settle k2 o2)).
Proof.
  intros Hk [Hu Hp]%(fetch_settle_frame k1 k2); [|done].
  by rewrite !fetch_settle_enabled, Hu, Hp.
Qed.

(** The line that call [k] logs goes to its own upload. *)
Lemma log_line_comm k1 k2 l1 l2 (p : Page.state (J := J)) u1 u2 :
  k1 ≠ k2 →
  Fetch.log_line k2 l2 (Fetch.log_line k1 l1 p u1) u2
  = Fetch.log_line k1 l1 (Fetch.log_line k2 l2 p u2) u1.
Proof. intros Hk. unfold Fetch.log_line. simpl. f_equal. by apply list_insert_insert_ne. Qed.

Lemma fetch_settle_diamond k1 k2 o1 o2 s s1 s2 s12 s21 :
  k1 ≠ k2 →
  fetch_step s (Fetch.Settle k1 o1) = Some s1 → fetch_step s (Fetch.Settle k2 o2) = Some s2 →
  fetch_step s1 (Fetch.Settle k2 o2) = Some s12 → fetch_step s2 (Fetch.Settle k1 o1) = Some s21 →
  s12 = s21.
Proof.
  intros Hk H1 H2 H12 H21.
  destruct (fetch_settle_frame k1 k2 o1 s s1 Hk H1) as [Hu2 Hp2].
  destruct (fetch_settle_frame k2 k1 o2 s s2 (not_eq_sym Hk) H2) as [Hu1 Hp1].
  apply Fetch.fetch_step_settle in H12 as (u2' & ph2' & Hu2' & Hph2' & ->).
  apply Fetch.fetch_step_settle in H21 as (u1' & ph1' & Hu1' & Hph1' & ->).
  rewrite Hu2 in Hu2'. rewrite Hu1 in Hu1'. rewrite Hp2 in Hph2'. rewrite Hp1 in Hph1'.
  apply Fetch.fetch_step_settle in H1 as (u1 & ph1 & Hu1'' & Hph1 & ->).
  apply Fetch.fetch_step_settle in H2 as (u2 & ph2 & Hu2'' & Hph2 & ->).
  assert (u1' = u1 ∧ ph1' = ph1 ∧ u2' = u2 ∧ ph2' = ph2) as (-> & -> & -> & ->)
    by (split_and!; congruence).
  destruct ph1, ph2; simpl; f_equal;
    first [by apply insert_insert_ne|by apply delete_insert_ne
          |by symmetry; apply delete_insert_ne|by apply log_line_comm|apply delete_delete].
Qed.

Lemma fetch_settle_independent k1 k2 o1 o2 :
  k1 ≠ k2 →
  @independent _ _ fetch_machine (Fetch.Settle k1 o1) (Fetch.Settle k2 o2).
Proof.
  intros Hk. apply independent_intro.
  - intros s s1. by apply fetch_settle_enabled_frame.
  - intros s s2. by apply fetch_settle_enabled_frame.
  - intros s s1 s2 s12 s21. by apply fetch_settle_diamond.
Qed.

Lemma fetch_apart_independent e1 e2 :
  fetch_apart e1 e2 → @independent _ _ fetch_machine e1 e2.
Proof. destruct e1, e2; try done. apply fetch_settle_independent. Qed.

(** A settlement for one call does not change the line that the
    continuation of another writes. *)
Lemma fetch_apart_silent e1 e2 :
  fetch_apart e1 e2 →
  @silent_to _ _ fetch_machine _ (Fetch.written JSON_parse) e1 e2.
Proof.
  destruct e1 as [|k1 o1], e2 as [|k2 o2]; try done. intros Hk s s1 Hs. simpl.
  by destruct (fetch_settle_frame k1 k2 o1 s s1 Hk Hs) as [_ ->].
Qed.

End fetch.

(** ** The whole page *)

Section system.
Context {J : Type} (JSON_parse : jsstring → option J).
Context (userAgent origin : option jsstring).
Context `{Canvas Frame}.
Implicit Types (s : System.state (J := J)) (e : System.event (Frame := Frame)).

#[local] Abbreviation system_machine := (System.machine JSON_parse userAgent origin).
#[local] Abbreviation system_step := (System.step JSON_parse userAgent origin).
#[local] Abbreviation page_step := (System.page_step JSON_parse userAgent origin).

(** An event that does not reach the page neither reads nor writes the
    state of the page. *)
Lemma system_beside_page e s p :
  beside_page e = true →
  system_step (System.set_page p s) e = System.set_page p <$> system_step s e.
Proof.
  destruct e as [|e|e| | | | | |]; try done; intros _; unfold System.step;
    cbn [System.cam System.set_page System.page_mounted].
  - destruct e, (System.cam s) as [|c|c]; try done.
    all: match goal with |- context [Mobile.step ?c ?e] => destruct (Mobile.step c e) end.
    all: done.
  - destruct e, (System.cam s) as [|c|c]; try done.
    all: match goal with |- context [Desktop.step ?c ?e] => destruct (Desktop.step c e) end.
    all: done.
  - by destruct (System.cam s), (System.page_mounted s).
Qed.

Lemma system_beside_page_keeps e s s' :
  beside_page e = true → system_step s e = Some s' → System.page s' = System.page s.
Proof.
  intros He Hs. pose proof (System.system_step_page JSON_parse userAgent origin s e s' Hs) as Hp.
  by destruct e, (System.cam s).
Qed.

Lemma system_settled_beside k o e :
  beside_page e = true →
  @independent _ _ system_machine (System.Settled k o) e.
Proof.
  intros He. apply independent_steps. intros s.
  change (system_step s (System.Settled k o) ≫= (λ s1, system_step s1 e)
          = system_step s e ≫= (λ s2, system_step s2 (System.Settled k o))).
  rewrite System.system_step_settled. unfold System.page_step at 1.
  destruct (Page.step _ _ _ (System.page s) (FetchSettled k o)) as [p|] eqn:Hp;
    cbn [mbind option_bind].
  - rewrite (system_beside_page e s p He).
    destruct (system_step s e) as [s2|] eqn:Hs2; cbn [mbind option_bind fmap option_fmap option_map]; [|done].
    rewrite System.system_step_settled. unfold System.page_step.
    by rewrite (system_beside_page_keeps e s s2 He Hs2), Hp.
  - destruct (system_step s e) as [s2|] eqn:Hs2; cbn [mbind option_bind]; [|done].
    rewrite System.system_step_settled. unfold System.page_step.
    by rewrite (system_beside_page_keeps e s s2 He Hs2), Hp.
Qed.

Lemma system_settled_independent k1 k2 o1 o2 :
  k1 ≠ k2 →
  @independent _ _ system_machine (System.Settled k1 o1) (System.Settled k2 o2).
Proof.
  intros Hk. apply independent_steps. intros s.
  pose proof (proj1 (independent_steps _ _)
    (page_settled_independent JSON_parse userAgent origin k1 k2 o1 o2 Hk) (System.page s)) as Hi.
  change (system_step s (System.Settled k1 o1) ≫= (λ s1, system_step s1 (System.Settled k2 o2))
          = system_step s (System.Settled k2 o2)
            ≫= (λ s2, system_step s2 (System.Settled k1 o1))).
  change (Page.step JSON_parse userAgent origin (System.page s) (FetchSettled k1 o1)
            ≫= (λ p, Page.step JSON_parse userAgent origin p (FetchSettled k2 o2))
          = Page.step JSON_parse userAgent origin (System.page s) (FetchSettled k2 o2)
            ≫= (λ p, Page.step JSON_parse userAgent origin p (FetchSettled k1 o1))) in Hi.
  rewrite !System.system_step_settled. unfold System.page_step.
  destruct (Page.step _ _ _ (System.page s) (FetchSettled k1 o1)) as [p1|],
    (Page.step _ _ _ (System.page s) (FetchSettled k2 o2)) as [p2|];
    cbn [mbind option_bind] in *; rewrite ?System.system_step_settled; unfold System.page_step;
    cbn [System.page System.set_page].
  - destruct (Page.step _ _ _ p1 _), (Page.step _ _ _ p2 _); by simplify_eq/=.
  - by destruct (Page.step _ _ _ p1 _).
  - by destruct (Page.step _ _ _ p2 _).
  - done.
Qed.

Lemma system_apart_independent e1 e2 :
  system_apart e1 e2 → @independent _ _ system_machine e1 e2.
Proof.
  destruct e1, e2; try done; simpl; intros He;
    try (by apply system_settled_beside); try (by symmetry; apply system_settled_beside).
  by apply system_settled_independent.
Qed.

End system.

(** ** The mobile camera: an order that matters *)

(** The settlements of two calls of [getUserMedia] are not independent:
    the continuation of [startCamera] assigns its stream to the video element
    whatever run it belongs to (lines 46-51), so the element holds the
    stream of the run that resolves last.  After a switch of the camera
    during the acquisition that is the stream of the current run in one
    order and the stream of the superseded run in the other. *)
Lemma mobile_resolves_dependent :
  shown_run <$> @run _ _ Mobile.machine [Mobile.Resolve 0; Mobile.Resolve 1] (Mobile.toggleCamera Mobile.init)
  = Some (Some 1) ∧
  shown_run <$> @run _ _ Mobile.machine [Mobile.Resolve 1; Mobile.Resolve 0] (Mobile.toggleCamera Mobile.init)
  = Some (Some 0) ∧
  ¬ @independent _ _ Mobile.machine (Mobile.Resolve 0) (Mobile.Resolve 1).
Proof.
  split_and!; [by vm_compute..|]. intros Hi.
  specialize (Hi (Mobile.toggleCamera Mobile.init)).
  apply (f_equal (fmap shown_run)) in Hi. by vm_compute in Hi.
Qed.

(** ** The whole program *)

Section whole.
Context {J : Type} (JSON_parse : jsstring → option J).
Context (userAgent origin : option jsstring).
Context `{Canvas Frame}.
Implicit Types (s : Whole.state (J := J)) (fs : Full.state (J := J)).
Implicit Types (fev : Full.event (Frame := Frame)) (p : Page.state (J := J)).

#[local] Abbreviation whole_machine := (Whole.machine JSON_parse userAgent origin).
#[local] Abbreviation whole_step := (Whole.step JSON_parse userAgent origin).
#[local] Abbreviation full_step := (Full.step JSON_parse userAgent origin).
#[local] Abbreviation fetch_step' := (Fetch.step JSON_parse userAgent origin).

Lemma whole_step_settle_fmap s k o :
  whole_step s (Whole.Settle k o)
  = (λ f, Whole.set_fetch f s) <$> fetch_step' (Whole.fetch_of s) (Fetch.Settle k o).
Proof. unfold Whole.step. by destruct (fetch_step' _ _). Qed.

Lemma whole_step_beside_fmap s fev :
  beside_page_full fev = true →
  whole_step s (Whole.FullEvent fev)
  = (λ fs, Whole.mkState fs (Whole.reading s)) <$> full_step (Whole.full s) fev.
Proof.
  intros Hb. unfold Whole.step.
  destruct fev as [[]| |]; try done; by destruct (full_step _ _).
Qed.

(** An event that does not reach the page neither reads nor writes the
    state of the page. *)
Lemma full_view_step_with_page vev fs p :
  Full.view_step vev (with_page p fs) = with_page p <$> Full.view_step vev fs.
Proof.
  unfold Full.view_step. change (Full.view (with_page p fs)) with (Full.view fs).
  destruct (Full.view fs) as [v|]; [|done]. simpl. by destruct (View.step v vev).
Qed.

Lemma full_beside_page_step fev fs p :
  beside_page_full fev = true →
  full_step (with_page p fs) fev = with_page p <$> full_step fs fev.
Proof.
  destruct fev as [sev|current ctx|w h]; [|done|]; intros Hb.
  - destruct sev as [|e|e| | | | | |]; try done.
    + destruct e; try done; apply full_view_step_with_page.
    + unfold Full.step, Full.sys_step. cbn [Full.sys with_page].
      rewrite (system_beside_page JSON_parse userAgent origin _ (Full.sys fs) p Hb).
      by destruct (System.step _ _ _ (Full.sys fs) (System.DesktopEvent e)).
    + unfold Full.step, Full.sys_step. cbn [Full.sys with_page].
      rewrite (system_beside_page JSON_parse userAgent origin _ (Full.sys fs) p Hb).
      by destruct (System.step _ _ _ (Full.sys fs) System.Leave).
  - apply full_view_step_with_page.
Qed.

Lemma full_beside_page_keeps fev fs fs' :
  beside_page_full fev = true → full_step fs fev = Some fs' →
  System.page (Full.sys fs') = System.page (Full.sys fs).
Proof.
  intros Hb Hs. pose proof (Full.full_embeds_sys _ _ _ _ _ _ Hs) as Hr.
  destruct fev as [sev|current ctx|w h]; [|done|].
  - apply run_cons_Some in Hr as (s1 & Hs1 & [= ->]).
    by apply (system_beside_page_keeps JSON_parse userAgent origin sev).
  - by assert (Full.sys fs' = Full.sys fs) as -> by (by simplify_eq/=).
Qed.

Lemma whole_fetch_of_beside s fev fs' :
  beside_page_full fev = true → full_step (Whole.full s) fev = Some fs' →
  Whole.fetch_of (Whole.mkState fs' (Whole.reading s)) = Whole.fetch_of s.
Proof.
  intros Hb Hs. unfold Whole.fetch_of, Whole.page_of. simpl.
  by rewrite (full_beside_page_keeps fev _ _ Hb Hs).
Qed.

Lemma whole_settle_independent k1 k2 o1 o2 :
  k1 ≠ k2 →
  @independent _ _ whole_machine (Whole.Settle k1 o1) (Whole.Settle k2 o2).
Proof.
  intros Hk. apply independent_steps. intros s.
  pose proof (proj1 (independent_steps _ _)
    (fetch_settle_independent JSON_parse userAgent origin k1 k2 o1 o2 Hk)
    (Whole.fetch_of s)) as Hi.
  change (whole_step s (Whole.Settle k1 o1) ≫= (λ s1, whole_step s1 (Whole.Settle k2 o2))
          = whole_step s (Whole.Settle k2 o2) ≫= (λ s2, whole_step s2 (Whole.Settle k1 o1))).
  change (fetch_step' (Whole.fetch_of s) (Fetch.Settle k1 o1)
            ≫= (λ f, fetch_step' f (Fetch.Settle k2 o2))
          = fetch_step' (Whole.fetch_of s) (Fetch.Settle k2 o2)
            ≫= (λ f, fetch_step' f (Fetch.Settle k1 o1))) in Hi.
  rewrite !whole_step_settle_fmap.
  destruct (fetch_step' (Whole.fetch_of s) (Fetch.Settle k1 o1)) as [f1|],
    (fetch_step' (Whole.fetch_of s) (Fetch.Settle k2 o2)) as [f2|];
    cbn [fmap option_fmap option_map mbind option_bind] in *;
    rewrite ?whole_step_settle_fmap, ?Whole.fetch_of_set_fetch.
  - destruct (fetch_step' f1 _), (fetch_step' f2 _); by simplify_eq/=.
  - by destruct (fetch_step' f1 _).
  - by destruct (fetch_step' f2 _).
  - done.
Qed.

Lemma whole_settle_beside k o fev :
  beside_page_full fev = true →
  @independent _ _ whole_machine (Whole.Settle k o) (Whole.FullEvent fev).
Proof.
  intros Hb. apply independent_steps. intros s.
  change (whole_step s (Whole.Settle k o) ≫= (λ s1, whole_step s1 (Whole.FullEvent fev))
          = whole_step s (Whole.FullEvent fev) ≫= (λ s2, whole_step s2 (Whole.Settle k o))).
  rewrite whole_step_settle_fmap, (whole_step_beside_fmap s fev Hb).
  destruct (fetch_step' (Whole.fetch_of s) (Fetch.Settle k o)) as [f|] eqn:Hf;
    destruct (full_step (Whole.full s) fev) as [fs2|] eqn:Hfs;
    cbn [fmap option_fmap option_map mbind option_bind];
    rewrite ?(whole_step_beside_fmap _ fev Hb), ?whole_step_settle_fmap;
    rewrite ?(whole_fetch_of_beside s fev fs2 Hb Hfs), ?Hf; try done.
  all: change (Whole.full (Whole.set_fetch f s)) with (with_page (Fetch.page f) (Whole.full s)).
  all: by rewrite (full_beside_page_step fev _ _ Hb), Hfs.
Qed.

Lemma whole_apart_independent (e1 e2 : Whole.event (Frame := Frame)) :
  whole_apart e1 e2 → @independent _ _ whole_machine e1 e2.
Proof.
  destruct e1 as [fev1|k1 o1], e2 as [fev2|k2 o2]; [done|..]; simpl; intros He.
  - symmetry. by apply whole_settle_beside.
  - by apply whole_settle_beside.
  - by apply whole_settle_independent.
Qed.

(** An event does not change the line that a settlement apart from it
    writes. *)
Lemma whole_apart_silent (e1 e2 : Whole.event (Frame := Frame)) :
  whole_apart e1 e2 →
  @silent_to _ _ whole_machine _ (Whole.written JSON_parse) e1 e2.
Proof.
  destruct e1 as [fev1|k1 o1], e2 as [fev2|k2 o2]; [done|..]; simpl; intros He s s1 Hs;
    [|done|].
  - apply (Whole.whole_step_full JSON_parse userAgent origin) in Hs as (_ & _ & Hr).
    unfold Whole.written, Fetch.written, Fetch.point, Whole.fetch_of. simpl. by rewrite Hr.
  - apply (Whole.whole_step_settle JSON_parse userAgent origin) in Hs as (f & Hf & ->).
    unfold Whole.written, Fetch.written. rewrite Whole.fetch_of_set_fetch.
    by destruct (fetch_settle_frame JSON_parse userAgent origin k1 k2 o1 _ f He Hf) as [_ ->].
Qed.

End whole.

(** ** The theorems *)

Section theorems.
Context {J : Type} (JSON_parse : jsstring → option J).
Context (userAgent origin : option jsstring).
Context `{Canvas Frame}.

(** C21.  The order in which the promises settle does not matter.  In the
    whole program a settlement for a call of [handleImageUpload] (the arrival
    of its response, the reading of its body, the rejection of [fetch]) is
    independent of the settlements for every other call, of every event of
    the camera (a stream that arrives or is refused, a switch of the camera,
    the opening and closing of the webcam, the [loadedmetadata] event) and of
    the user's leaving the page.  Two runs that differ only in how the
    settlements fall between each other and between these events can occur
    from the same states and end in the same state: the same preview, the
    same uploads with the same lines, the same camera; and their consoles
    hold the same lines, in a different order.  In particular an answer
    that arrives after the user has left is handled as if it had arrived
    before. *)
Theorem whole_order_irrelevant (evs evs' : list (Whole.event (Frame := Frame)))
    (s : Whole.state (J := J)) :
  reorder whole_apart evs evs' →
  @run _ _ (Whole.machine JSON_parse userAgent origin) evs s
  = @run _ _ (Whole.machine JSON_parse userAgent origin) evs' s ∧
  (is_Some (@run _ _ (Whole.machine JSON_parse userAgent origin) evs s) →
   @outputs _ _ _ (Whole.machine JSON_parse userAgent origin) (Whole.written JSON_parse) evs s
   ≡ₚ @outputs _ _ _ (Whole.machine JSON_parse userAgent origin) (Whole.written JSON_parse)
        evs' s).
Proof.
  intros Hr. split.
  - apply (run_reorder whole_apart); [apply whole_apart_independent|done].
  - apply (outputs_reorder _ whole_apart); [apply whole_apart_independent| |done].
    intros e1 e2 He. split; apply whole_apart_silent; [done|by symmetry].
Qed.

End theorems.

Lemma two_answers_reorder : reorder whole_apart two_answers two_answers_late.
Proof.
  etrans; [apply (reorder_move whole_apart [_; _; _] _ [_; _] _); by repeat constructor|].
  etrans; [apply (reorder_move whole_apart [_; _; _; _] _ [_; _; _] _); by repeat constructor|].
  etrans; [apply (reorder_move whole_apart [_; _; _; _; _] _ [_; _; _; _] _);
           by repeat constructor|].
  apply (reorder_move whole_apart [_; _; _; _; _; _; _] _ [_; _] []).
  repeat constructor; simpl; lia.
Qed.

Lemma whole_order_irrelevant_witness :
  Whole.after_events two_answers = Whole.after_events two_answers_late ∧
  is_Some (@run _ _ (Whole.machine parse_ok_true phone None) two_answers Whole.init) ∧
  @outputs _ _ _ (Whole.machine parse_ok_true phone None) (Whole.written parse_ok_true)
    two_answers Whole.init
  ≡ₚ @outputs _ _ _ (Whole.machine parse_ok_true phone None) (Whole.written parse_ok_true)
       two_answers_late Whole.init.
Proof.
  assert (is_Some (@run _ _ (Whole.machine parse_ok_true phone None) two_answers Whole.init))
    as Hsome by (vm_compute; eauto).
  destruct (whole_order_irrelevant parse_ok_true phone None _ _ Whole.init
              two_answers_reorder) as [Hrun Hout].
  split_and!; [|done|by apply Hout]. unfold Whole.after_events. by rewrite Hrun.
Defined.

(** The consoles of the two sessions: the lines are in the order in
    which the bodies are read. *)
Lemma two_answers_consoles :
  @outputs _ _ _ (Whole.machine parse_ok_true phone None) (Whole.written parse_ok_true)
    two_answers Whole.init
  = [LogUploadError 500 (js "server error"); LogServerResponse true] ∧
  @outputs _ _ _ (Whole.machine parse_ok_true phone None) (Whole.written parse_ok_true)
    two_answers_late Whole.init
  = [LogServerResponse true; LogUploadError 500 (js "server error")].
Proof. split; by vm_compute. Qed.

End Interleaving.
