(* ===== verification/Render.v ===== *)
(** What the components render: the element trees that [MobileCamera]
    (lines 84-104), [DesktopCamera] (lines 121-163) and [Analyse]
    (lines 231-286) of [src/frontend/app/analyse/page.tsx] return.

    A tree is modelled with its structure, its texts and the handlers of
    its controls; class names and styles are left out.  A component that is
    rendered inside another one contributes its own tree, with its handlers
    tagged by the component.  The tree of the whole page is computed from a
    state of [System.v].

    The machines of the other files decide by guards which user events can
    occur in a state.  The theorems of this file tie the guards to the
    trees: a user event can occur exactly when the control that triggers it
    is in the tree (or it changes nothing), so the machines accept no click
    on a button that is not on the screen and refuse none that is.  They
    also show what the user sees: nothing but the loading text before the
    detection, the controls of exactly one camera afterwards, and the
    preview image exactly when a capture was made, whatever became of its
    upload. *)

From Stdlib Require Import ZArith Lia.
From stdpp Require Import prelude gmap.
From S2P Require Import Prelude JsString Base64 Normalizer Upload Machine Canvas Media.
From S2P Require Import MobileCamera Detector DesktopCamera Analyse System.

Module Render.

(** The containers of the trees. *)
Inductive tag : Type :=
| Div
| Section_
| Heading2
| Heading3
| Paragraph
| Span
| Label
| Fragment
| AnimatedGroup.

(** An element: a text, a container, a button (one rendered as its child,
    [asChild], has no handler), a file input, the video element, the webcam
    widget, an icon, an image.  [H] is the type of the handlers. *)
#[warnings="-register-all"]
Inductive element (H : Type) : Type :=
| Text (s : jsstring)
| Tag (t : tag) (children : list (element H))
| Button (onClick : option H) (children : list (element H))
| FileInput (accept : jsstring) (onChange : H)
| Video (autoPlay playsInline : bool)
| WebcamEl (audio : bool) (screenshotFormat : jsstring)
| Icon (name : jsstring)
| Img (src alt : jsstring).
Arguments Text {H} s.
Arguments Tag {H} t children.
Arguments Button {H} onClick children.
Arguments FileInput {H} accept onChange.
Arguments Video {H} autoPlay playsInline.
Arguments WebcamEl {H} audio screenshotFormat.
Arguments Icon {H} name.
Arguments Img {H} src alt.

(** What the user can do to a tree: click a button, change a file input. *)
Inductive control (H : Type) : Type :=
| Click (h : H)
| Change (h : H).
Arguments Click {H} h.
Arguments Change {H} h.

#[export] Instance control_eq_dec `{EqDecision H} : EqDecision (control H).
Proof. solve_decision. Defined.

(** The controls of a tree, in document order. *)
Fixpoint controls {H} (e : element H) : list (control H) :=
  match e with
  | Tag _ children => concat (controls <$> children)
  | Button onClick children =>
      option_list (Click <$> onClick) ++ concat (controls <$> children)
  | FileInput _ onChange => [Change onChange]
  | Text _ | Video _ _ | WebcamEl _ _ | Icon _ | Img _ _ => []
  end.

(** The sources of the images of a tree. *)
Fixpoint images {H} (e : element H) : list jsstring :=
  match e with
  | Tag _ children | Button _ children => concat (images <$> children)
  | Img src _ => [src]
  | Text _ | FileInput _ _ | Video _ _ | WebcamEl _ _ | Icon _ => []
  end.

(** The texts of a tree. *)
Fixpoint texts {H} (e : element H) : list jsstring :=
  match e with
  | Text s => [s]
  | Tag _ children | Button _ children => concat (texts <$> children)
  | FileInput _ _ | Video _ _ | WebcamEl _ _ | Icon _ | Img _ _ => []
  end.

(** The tree of a component inside the tree of its parent: the handlers are
    tagged by [f]. *)
Fixpoint emap {H K} (f : H → K) (e : element H) : element K :=
  match e with
  | Text s => Text s
  | Tag t children => Tag t (emap f <$> children)
  | Button onClick children => Button (f <$> onClick) (emap f <$> children)
  | FileInput accept onChange => FileInput accept (f onChange)
  | Video a p => Video a p
  | WebcamEl a fmt => WebcamEl a fmt
  | Icon name => Icon name
  | Img src alt => Img src alt
  end.

Definition cmap {H K} (f : H → K) (c : control H) : control K :=
  match c with Click h => Click (f h) | Change h => Change (f h) end.

(** ** The three components *)

(** The handlers of [MobileCamera] (lines 67 and 80). *)
Inductive mobile_handler : Type :=
| OnCapturePhoto
| OnToggleCamera.

(** The handlers of [DesktopCamera] (lines 114, 134, 139 and 151). *)
Inductive desktop_handler : Type :=
| OnWebcamCapture
| OnCloseWebcam
| OnOpenWebcam
| OnFileChange.

(** The handlers of the page: those of the camera it renders, and
    [handleMobileFile] (line 265). *)
Inductive handler : Type :=
| InMobile (h : mobile_handler)
| InDesktop (h : desktop_handler)
| OnMobileFile.

#[export] Instance mobile_handler_eq_dec : EqDecision mobile_handler.
Proof. solve_decision. Defined.
#[export] Instance desktop_handler_eq_dec : EqDecision desktop_handler.
Proof. solve_decision. Defined.
#[export] Instance handler_eq_dec : EqDecision handler.
Proof. solve_decision. Defined.

(** Lines 84-104: the video element and the two buttons, whatever the
    state of the camera. *)
Definition MobileCamera : element mobile_handler :=
  Tag Div
    [Video true true;
     Tag Div
       [Button (Some OnCapturePhoto) [Text (js "Capture Photo")];
        Button (Some OnToggleCamera) [Text (js "Switch Camera")]]].

(** Lines 121-163: the webcam with its two buttons while [showWebcam], the
    button that opens it otherwise, and the file input. *)
Definition DesktopCamera (showWebcam : bool) : element desktop_handler :=
  Tag Div
    [(if showWebcam then
        Tag Fragment
          [WebcamEl false (js "image/jpeg");
           Button (Some OnWebcamCapture) [Text (js "Capture Photo")];
           Button (Some OnCloseWebcam) [Text (js "Close Webcam")]]
      else
        Button (Some OnOpenWebcam) [Icon (js "Camera"); Tag Span [Text (js "Open Webcam")]]);
     Button None
       [Tag Label
          [Icon (js "Folder"); Tag Span [Text (js "Upload a photo")];
           FileInput (js "image/*") OnFileChange]]].

(** Lines 275-280: [screenshot && (...)]: the preview, when [screenshot]
    is a string that is not empty. *)
Definition Preview {H} (screenshot : option jsstring) : list (element H) :=
  match screenshot with
  | None | Some [] => []
  | Some url =>
      [Tag Div [Tag Heading3 [Text (js "Captured Image:")]; Img url (js "Captured")]]
  end.

(** Lines 231-286: the loading text while the mode is unknown; otherwise
    the heading, the camera of the mode ([mobile] and [desktop] are the
    trees of the two components) with the file input of the mobile layout,
    and the preview. *)
Definition Analyse (isMobileDevice : option bool) (screenshot : option jsstring)
    (mobile desktop : element handler) : element handler :=
  match isMobileDevice with
  | None =>
      Tag AnimatedGroup
        [Tag Section_ [Tag Div [Tag Div [Text (js "Loading camera...")]]]]
  | Some isMobile =>
      Tag AnimatedGroup
        [Tag Section_
           [Tag Div
              [Tag Div
                 ([Tag Heading2 [Text (js "It's time to get cookin'")];
                   Tag Paragraph
                     [Text (js "Please provide us with a photo of your fridge so we can start our analysis.")];
                   Tag Div
                     [if isMobile then
                        Tag Fragment
                          [mobile;
                           Button None
                             [Tag Label
                                [Icon (js "Folder"); Tag Span [Text (js "Or Upload a photo")];
                                 FileInput (js "image/*") OnMobileFile]]]
                      else desktop]]
                  ++ Preview screenshot)]]]
  end.

Section render.
Context {J : Type}.

(** [showWebcam] of the desktop camera in the tree. *)
Definition shows_webcam (c : System.camera) : bool :=
  match c with
  | System.DesktopCam c => Desktop.showWebcam c
  | _ => false
  end.

(** The tree of the whole page, while the page is mounted. *)
Definition render (s : System.state (J := J)) : option (element handler) :=
  if System.page_mounted s then
    Some (Analyse (Page.isMobileDevice (System.page s)) (Page.screenshot (System.page s))
            (emap InMobile MobileCamera)
            (emap InDesktop (DesktopCamera (shows_webcam (System.cam s)))))
  else None.

(** The controls on the screen. *)
Definition on_screen (s : System.state (J := J)) : list (control handler) :=
  from_option controls [] (render s).

(** Whether a control is on the screen, read off the state. *)
Definition enabled (s : System.state (J := J)) (ctl : control handler) : bool :=
  System.page_mounted s &&
  match ctl, Page.isMobileDevice (System.page s) with
  | Click (InMobile _), Some true | Change OnMobileFile, Some true => true
  | Click (InDesktop OnOpenWebcam), Some false => negb (shows_webcam (System.cam s))
  | Click (InDesktop OnWebcamCapture), Some false
  | Click (InDesktop OnCloseWebcam), Some false => shows_webcam (System.cam s)
  | Change (InDesktop OnFileChange), Some false => true
  | _, _ => false
  end.

(** The view of [Analyse.v] that a tree amounts to: the loading view when
    it has no control and no image, the main view otherwise, mobile when the
    switch of the camera is among the controls. *)
Definition summary (e : element handler) : Page.view :=
  match controls e with
  | [] => Page.LoadingView
  | cs => Page.MainView (bool_decide (Click (InMobile OnToggleCamera) ∈ cs)) (head (images e))
  end.

Context `{Canvas Frame}.

(** The control that triggers an event of the system, for the events that
    the user triggers on the page. *)
Definition control_of (ev : System.event (Frame := Frame)) : option (control handler) :=
  match ev with
  | System.ShutterMobile _ _ => Some (Click (InMobile OnCapturePhoto))
  | System.MobileEvent Mobile.Toggle => Some (Click (InMobile OnToggleCamera))
  | System.ShutterDesktop _ => Some (Click (InDesktop OnWebcamCapture))
  | System.DesktopEvent Desktop.OpenWebcam => Some (Click (InDesktop OnOpenWebcam))
  | System.DesktopEvent Desktop.CloseWebcam => Some (Click (InDesktop OnCloseWebcam))
  | System.FileDesktop _ => Some (Change (InDesktop OnFileChange))
  | System.FileMobile _ => Some (Change OnMobileFile)
  | _ => None
  end.

End render.

(** A phone on which the detection has run and a photo was taken. *)
Definition photo_taken : System.state (J := bool) :=
  System.after Page.phone (take 2 System.phone_session).

(** * Properties *)

(** ** Induction on trees *)

Section element_ind.
Context {H : Type} (P : element H → Prop).
Context (Htext : ∀ s, P (Text s)).
Context (Htag : ∀ t children, Forall P children → P (Tag t children)).
Context (Hbutton : ∀ onClick children, Forall P children → P (Button onClick children)).
Context (Hinput : ∀ accept onChange, P (FileInput accept onChange)).
Context (Hvideo : ∀ a p, P (Video a p)).
Context (Hwebcam : ∀ a fmt, P (WebcamEl a fmt)).
Context (Hicon : ∀ name, P (Icon name)).
Context (Himg : ∀ src alt, P (Img src alt)).

(** The induction principle of trees: the hypothesis holds of every
    child. *)
Lemma element_forall_ind (e : element H) : P e.
Proof.
  revert e. fix IH 1. intros [s|t children|onClick children|? ?|? ?|? ?|?|? ?];
    [apply Htext|apply Htag|apply Hbutton|apply Hinput|apply Hvideo|apply Hwebcam|
     apply Hicon|apply Himg].
  - induction children as [|c children IHc]; constructor; [apply IH|apply IHc].
  - induction children as [|c children IHc]; constructor; [apply IH|apply IHc].
Qed.

End element_ind.

Lemma fmap_concat {A B} (f : A → B) (ls : list (list A)) :
  f <$> concat ls = concat ((λ l : list A, f <$> l) <$> ls).
Proof. induction ls as [|l ls IH]; simpl; [done|]. by rewrite fmap_app, IH. Qed.

(** The controls of a component inside its parent are its own controls,
    tagged. *)
Lemma controls_emap {H K} (f : H → K) (e : element H) :
  controls (emap f e) = cmap f <$> controls e.
Proof.
  induction e as [s|t children IH|onClick children IH| | | | |] using element_forall_ind;
    simpl; try done.
  - rewrite fmap_concat. f_equal. rewrite <-!list_fmap_compose.
    by apply Forall_fmap_ext_1.
  - rewrite fmap_app, fmap_concat. f_equal; [by destruct onClick|].
    f_equal. rewrite <-!list_fmap_compose. by apply Forall_fmap_ext_1.
Qed.

(** The preview has no control. *)
Lemma controls_preview {H} (screenshot : option jsstring) :
  concat (controls (H := H) <$> Preview screenshot) = [].
Proof. by destruct screenshot as [[]|]. Qed.

Section render_props.
Context {J : Type} (JSON_parse : jsstring → option J).
Context (userAgent origin : option jsstring).
Context `{Canvas Frame}.
Implicit Types (s : System.state (J := J)) (ev : System.event (Frame := Frame)).

#[local] Abbreviation step := (System.step JSON_parse userAgent origin).
#[local] Abbreviation machine := (System.machine JSON_parse userAgent origin).

(** The controls of the page, by the state: none before the detection,
    then those of the camera of the mode, tagged, with the file input of the
    mobile layout. *)
Lemma on_screen_spec s :
  on_screen s =
  if System.page_mounted s then
    match Page.isMobileDevice (System.page s) with
    | None => []
    | Some true => (cmap InMobile <$> controls MobileCamera) ++ [Change OnMobileFile]
    | Some false => cmap InDesktop <$> controls (DesktopCamera (shows_webcam (System.cam s)))
    end
  else [].
Proof.
  unfold on_screen, render. destruct (System.page_mounted s); [|done].
  destruct (Page.isMobileDevice (System.page s)) as [[]|]; [..|done]; cbn -[emap Preview];
    rewrite controls_preview, !app_nil_r, controls_emap; [done|].
  by destruct (shows_webcam (System.cam s)).
Qed.

(** The images of the page: the preview. *)
Lemma images_spec s e :
  render s = Some e →
  images e = match Page.isMobileDevice (System.page s), Page.screenshot (System.page s) with
             | Some _, Some (c :: url) => [c :: url]
             | _, _ => []
             end.
Proof.
  unfold render. destruct (System.page_mounted s); [|done]. intros [= <-].
  destruct (Page.isMobileDevice (System.page s)) as [[]|]; simpl; [| |done].
  - by destruct (Page.screenshot _) as [[]|].
  - destruct (shows_webcam (System.cam s)), (Page.screenshot _) as [[]|]; done.
Qed.

(** The view of [Analyse.v] is the summary of the tree. *)
Lemma summary_render s e : render s = Some e → summary e = Page.render (System.page s).
Proof.
  intros He. pose proof (images_spec s e He) as Hi. unfold summary. rewrite Hi.
  assert (controls e = on_screen s) as -> by (unfold on_screen; by rewrite He).
  rewrite on_screen_spec. unfold render in He. unfold Page.render.
  destruct (System.page_mounted s); [|done].
  destruct (Page.isMobileDevice (System.page s)) as [[]|]; [| |done].
  - by destruct (Page.screenshot (System.page s)) as [[]|].
  - by destruct (shows_webcam (System.cam s)), (Page.screenshot (System.page s)) as [[]|].
Qed.

(** ** The events that the controls trigger *)

(** A call of [onCapture], or none, is a step of the page once the mode is
    known. *)
Lemma deliver_is_Some (od : option capture) s :
  Page.isMobileDevice (System.page s) ≠ None →
  is_Some (System.deliver JSON_parse userAgent origin od s).
Proof.
  intros Hm. destruct od as [data|]; [|by eexists]. unfold System.deliver, System.page_step.
  simpl. by destruct (Page.isMobileDevice (System.page s)).
Qed.

(** What the invariant says of the camera in the tree. *)
Lemma camera_in_tree s :
  @reachable _ _ machine s →
  match System.cam s with
  | System.NoCamera => Page.isMobileDevice (System.page s) = None
  | System.MobileCam c =>
      Page.isMobileDevice (System.page s) = Some true ∧
      Mobile.mounted c = System.page_mounted s
  | System.DesktopCam c =>
      Page.isMobileDevice (System.page s) = Some false ∧
      Desktop.mounted c = System.page_mounted s
  end.
Proof.
  intros Hinv%System.system_reachable_inv. pose proof (System.inv_cam _ _ _ _ Hinv) as Hc.
  destruct (System.cam s); naive_solver.
Qed.

(** A control is on the screen exactly when [enabled] says so. *)
Lemma on_screen_enabled s (ctl : control handler) : ctl ∈ on_screen s ↔ enabled s ctl = true.
Proof.
  rewrite on_screen_spec. unfold enabled.
  destruct (System.page_mounted s); [|by rewrite elem_of_nil].
  destruct (Page.isMobileDevice (System.page s)) as [[]|]; simpl;
    [| |rewrite elem_of_nil; by destruct ctl as [[[]|[]|]|[[]|[]|]]];
    [|destruct (shows_webcam (System.cam s))]; simpl;
    rewrite !elem_of_cons, elem_of_nil; destruct ctl as [[[]|[]|]|[[]|[]|]]; naive_solver.
Qed.

(** The cases of a proof about a user event: the camera in the tree, with
    what the invariant says of it, and whether the page is mounted. *)
Ltac camera_cases s Hcam :=
  let Hmode := fresh "Hmode" in
  let Hmc := fresh "Hmc" in
  destruct (System.cam s) as [|?c|?c]; simpl in Hcam;
  [rewrite ?Hcam|destruct Hcam as [Hmode Hmc]; rewrite ?Hmode, ?Hmc..];
  simpl; rewrite ?andb_false_r; try done;
  destruct (System.page_mounted s); simpl; try done.

(** A control on the screen can be used. *)
Lemma enabled_step s ev (ctl : control handler) :
  @reachable _ _ machine s → control_of ev = Some ctl → enabled s ctl = true →
  is_Some (step s ev).
Proof.
  intros Hr Hctl. pose proof (camera_in_tree s Hr) as Hcam.
  unfold enabled, System.step.
  destruct ev as [|[]|[]|v ctx|v|files|files|k o|]; simplify_eq/=; camera_cases s Hcam;
    try (intros _; apply deliver_is_Some; by rewrite Hmode); try (by eexists).
  - by intros ->%negb_true_iff.
  - unfold Desktop.is_open. rewrite Hmc. by intros ->.
  - intros _. unfold System.page_step, Page.step. by rewrite Hmode.
Qed.

(** A user event that occurs used a control on the screen, or changed
    nothing. *)
Lemma step_enabled s ev (ctl : control handler) s' :
  @reachable _ _ machine s → control_of ev = Some ctl → step s ev = Some s' →
  enabled s ctl = true ∨ s' = s.
Proof.
  intros Hr Hctl. pose proof (camera_in_tree s Hr) as Hcam.
  unfold enabled, System.step.
  destruct ev as [|[]|[]|v ctx|v|files|files|k o|]; simplify_eq/=; camera_cases s Hcam;
    try (by left).
  - destruct (Desktop.showWebcam c); [done|by left].
  - unfold Desktop.is_open. rewrite Hmc. destruct (Desktop.showWebcam c); [by left|done].
  - unfold Desktop.is_open. by rewrite Hmc.
  - destruct (Desktop.showWebcam c) eqn:Hs; [by left|]. right.
    unfold Desktop.capturePhoto, Desktop.webcamRef, Desktop.is_open in *.
    rewrite Hs, andb_false_r in *. by simplify_eq/=.
Qed.

End render_props.

(** * The theorems of the file *)

Section render_theorems.
Context {J : Type} (JSON_parse : jsstring → option J).
Context (userAgent origin : option jsstring).
Context `{Canvas Frame}.

#[local] Abbreviation machine := (System.machine JSON_parse userAgent origin).

(** C20.  The guards of the machine are the conditions of the rendering: in
    every reachable state, the event of a control that is in the tree of
    the page can occur; and an event of the user that does occur is
    triggered by a control that is in the tree, or changes nothing (the
    shutter of a webcam that is closed). *)
Theorem render_controls (s : System.state (J := J)) (ev : System.event (Frame := Frame))
    (ctl : control handler) :
  @reachable _ _ machine s → control_of ev = Some ctl →
  (ctl ∈ on_screen s → is_Some (System.step JSON_parse userAgent origin s ev)) ∧
  (∀ s', System.step JSON_parse userAgent origin s ev = Some s' → ctl ∈ on_screen s ∨ s' = s).
Proof.
  intros Hr Hctl. split.
  - intros Hon%on_screen_enabled. by eapply enabled_step.
  - intros s' Hstep. rewrite on_screen_enabled. by eapply step_enabled.
Qed.

(** C32.  What the user sees.  Before the detection the tree holds the
    loading text and no control; afterwards it holds the controls of the
    camera of the mode and of no other, namely, in document order, the
    shutter, the switch and the file input on a phone, and on a desktop the
    shutter and the close button while the webcam is shown, the open button
    otherwise, and the file input; the preview image is in the tree
    exactly when [screenshot] is a string that is not empty, with that
    string as its source, whatever the uploads have become. *)
Theorem render_shows (s : System.state (J := J)) (e : element handler) :
  render s = Some e →
  match Page.isMobileDevice (System.page s) with
  | None => texts e = [js "Loading camera..."] ∧ controls e = [] ∧ images e = []
  | Some mobile =>
      (∀ h, Click (InMobile h) ∈ controls e → mobile = true) ∧
      (∀ h, Click (InDesktop h) ∈ controls e → mobile = false) ∧
      controls e
      = (if mobile then
           [Click (InMobile OnCapturePhoto); Click (InMobile OnToggleCamera); Change OnMobileFile]
         else if shows_webcam (System.cam s) then
           [Click (InDesktop OnWebcamCapture); Click (InDesktop OnCloseWebcam);
            Change (InDesktop OnFileChange)]
         else [Click (InDesktop OnOpenWebcam); Change (InDesktop OnFileChange)]) ∧
      images e = match Page.screenshot (System.page s) with
                 | Some (c :: url) => [c :: url]
                 | _ => []
                 end
  end.
Proof.
  intros He. pose proof (images_spec s e He) as Hi.
  assert (controls e = on_screen s) as -> by (unfold on_screen; by rewrite He).
  rewrite on_screen_spec. unfold render in He.
  destruct (System.page_mounted s); [|done]. simplify_eq.
  destruct (Page.isMobileDevice (System.page s)) as [[]|]; [| |done];
    (split_and!; [| | |done]); try (intros h; try done).
  - simpl. rewrite !elem_of_cons, elem_of_nil. naive_solver.
  - done.
  - destruct (shows_webcam (System.cam s)); simpl; rewrite !elem_of_cons, elem_of_nil;
      naive_solver.
  - by destruct (shows_webcam (System.cam s)).
Qed.

End render_theorems.

Lemma render_controls_witness :
  (Click (InDesktop OnOpenWebcam) ∈ on_screen (System.after None (take 1 System.desktop_session)) →
   is_Some (System.step parse_ok_true None None
              (System.after None (take 1 System.desktop_session))
              (System.DesktopEvent Desktop.OpenWebcam))) ∧
  (∀ s', System.step parse_ok_true None None
           (System.after None (take 1 System.desktop_session))
           (System.DesktopEvent Desktop.OpenWebcam) = Some s' →
         Click (InDesktop OnOpenWebcam) ∈ on_screen (System.after None (take 1 System.desktop_session))
         ∨ s' = System.after None (take 1 System.desktop_session)).
Proof.
  apply (render_controls parse_ok_true None None
           (System.after None (take 1 System.desktop_session))
           (System.DesktopEvent Desktop.OpenWebcam)); [|done].
  exists (take 1 System.desktop_session). by vm_compute.
Defined.

Lemma render_shows_witness :
  match Page.isMobileDevice (System.page photo_taken) with
  | None =>
      texts (default (Text []) (render photo_taken)) = [js "Loading camera..."] ∧
      controls (default (Text []) (render photo_taken)) = [] ∧
      images (default (Text []) (render photo_taken)) = []
  | Some mobile =>
      (∀ h, Click (InMobile h) ∈ controls (default (Text []) (render photo_taken)) →
            mobile = true) ∧
      (∀ h, Click (InDesktop h) ∈ controls (default (Text []) (render photo_taken)) →
            mobile = false) ∧
      controls (default (Text []) (render photo_taken))
      = (if mobile then
           [Click (InMobile OnCapturePhoto); Click (InMobile OnToggleCamera); Change OnMobileFile]
         else if shows_webcam (System.cam photo_taken) then
           [Click (InDesktop OnWebcamCapture); Click (InDesktop OnCloseWebcam);
            Change (InDesktop OnFileChange)]
         else [Click (InDesktop OnOpenWebcam); Change (InDesktop OnFileChange)]) ∧
      images (default (Text []) (render photo_taken))
      = match Page.screenshot (System.page photo_taken) with
        | Some (c :: url) => [c :: url]
        | _ => []
        end
  end.
Proof. apply (render_shows photo_taken (default (Text []) (render photo_taken))). by vm_compute. Defined.

End Render.
