(* ===== verification/Typing.v ===== *)
(** The types of the values that the page handles.

    The TypeScript types of [src/frontend/app/analyse/page.tsx] are erased
    in the model: a string is a list of integers and the bytes of a blob are
    integers.  This file states what the types promise (a string holds
    UTF-16 code units, a blob holds bytes, its type is a string) and proves
    that every operation of the pipeline returns well-typed values and that
    every step of the page and of the system preserves the typing of the
    state, when the events bring well-typed values in: the files that the
    user chooses and the responses of the server.  The photos need no such
    assumption, because the encoder returns bytes. *)

From Stdlib Require Import ZArith Lia.
From stdpp Require Import prelude pretty gmap.
From S2P Require Import Prelude JsString Base64 Normalizer Upload Machine Canvas Media.
From S2P Require Import MobileCamera Detector DesktopCamera Analyse System.

#[local] Open Scope Z_scope.

(** [Blob]: bytes, a type and, for a [File], a name. *)
Definition blob_typed (b : blob) : Prop :=
  is_binary (blob_bytes b) ∧ is_string (blob_type b) ∧
  from_option is_string True (blob_name b).

(** [Blob | string] *)
Definition capture_typed (c : capture) : Prop :=
  match c with
  | CapString s => is_string s
  | CapBlob b => blob_typed b
  end.

(** [FormData] *)
Definition form_value_typed (v : form_value) : Prop :=
  match v with
  | FormFile b filename => blob_typed b ∧ is_string filename
  | FormString s => is_string s
  end.

Definition form_typed (fd : form_data) : Prop :=
  Forall (λ nv, is_string nv.1 ∧ form_value_typed nv.2) fd.

(** The arguments of [fetch]. *)
Definition request_typed (r : request) : Prop :=
  is_string (req_url r) ∧ is_string (req_method r) ∧ form_typed (req_body r).

(** What the network brings in. *)
Definition settled_typed (o : settled) : Prop :=
  match o with
  | Fulfilled r => from_option is_string True (resp_body r)
  | Rejected reason => is_string reason
  end.

Section typing.
Context {J : Type}.

(** The strings of a console line. *)
Definition log_typed (l : log_entry J) : Prop :=
  match l with
  | LogUploadError _ errorText => is_string errorText
  | LogUploadException (NetworkError reason) => is_string reason
  | _ => True
  end.

Definition upload_typed (u : Page.upload (J := J)) : Prop :=
  capture_typed (Page.up_image u) ∧ request_typed (Page.up_request u) ∧
  from_option log_typed True (Page.up_log u).

(** The state of the page: [screenshot] is [string | null], the object
    URLs are strings that stand for blobs, the uploads are well typed. *)
Record page_typed (s : Page.state (J := J)) : Prop := mkPageTyped {
  typed_screenshot : from_option is_string True (Page.screenshot s);
  typed_object_urls : Forall (λ ub, is_string ub.1 ∧ blob_typed ub.2) (Page.object_urls s);
  typed_uploads : Forall upload_typed (Page.uploads s);
}.

(** The values that an event of the page brings in. *)
Definition page_event_typed (ev : Page.event) : Prop :=
  match ev with
  | Page.DetectEffect => True
  | Page.OnCapture data => capture_typed data
  | Page.MobileFileChange files => from_option (Forall blob_typed) True files
  | Page.FetchSettled _ o => settled_typed o
  end.

(** The values that an event of the system brings in: the photos are
    computed by the cameras, so only the files and the responses count. *)
Definition event_typed {Frame} (ev : System.event (Frame := Frame)) : Prop :=
  match ev with
  | System.FileDesktop files | System.FileMobile files =>
      from_option (Forall blob_typed) True files
  | System.Settled _ o => settled_typed o
  | _ => True
  end.

End typing.

(** * Properties *)

Section typing_values.
Implicit Types (s t : jsstring) (b : blob) (c : capture) (bs : list Z).

Lemma is_string_app s t : is_string (s ++ t) ↔ is_string s ∧ is_string t.
Proof. apply in_range_app. Qed.

Lemma is_binary_string bs : is_binary bs → is_string bs.
Proof. by apply in_range_weaken. Qed.

(** The type that the [Blob] constructor stores is a string, whatever it
    is given. *)
Lemma normalize_type_string t : is_string (normalize_type t).
Proof.
  unfold normalize_type. case_decide as Ht; [|constructor].
  unfold is_string, in_range. apply Forall_fmap. eapply Forall_impl; [exact Ht|].
  intros c Hc. unfold ascii_lowercase. simpl in *. case_decide; lia.
Qed.

Lemma b64_encode_string bs : is_binary bs → is_string (b64_encode bs).
Proof.
  intros Hbs. unfold b64_encode. apply is_string_app. split.
  - unfold is_string, in_range. apply Forall_fmap.
    eapply Forall_impl; [exact (encode_sextets_range bs Hbs)|].
    intros v Hv. simpl in *. pose proof (b64_char_range v Hv). lia.
  - unfold b64_padding, is_string, in_range. by apply Forall_replicate.
Qed.

Lemma toDataURL_string type bs : is_binary bs → is_string (toDataURL type bs).
Proof.
  intros Hbs. unfold toDataURL. rewrite !is_string_app.
  split_and!; auto using js_is_string, b64_encode_string.
Qed.

(** The data URI of a canvas is a string. *)
Lemma canvas_toDataURL_string `{Canvas Frame} (frame : Frame) w h :
  is_string (canvas_toDataURL frame w h).
Proof.
  unfold canvas_toDataURL. case_decide; [apply js_is_string|].
  apply toDataURL_string, encode_jpeg_bytes.
Qed.

Lemma blob_url_string n : is_string (blob_url n).
Proof. unfold blob_url. apply is_string_app. split; apply js_is_string. Qed.

Lemma apiEndpoint_string origin :
  from_option is_string True origin → is_string (apiEndpoint origin).
Proof.
  destruct origin as [o|]; simpl; [|intros _; apply js_is_string].
  intros Ho. apply is_string_app. split; [done|apply js_is_string].
Qed.

Lemma blob_typed_file_name b :
  blob_typed b → is_string (default (js "blob") (blob_name b)).
Proof.
  intros (_ & _ & Hn). destruct (blob_name b); [done|apply js_is_string].
Qed.

(** The blob of [base64ToBlob] is well typed, whatever the argument. *)
Lemma base64ToBlob_blob_typed s b : base64ToBlob s = Ok b → blob_typed b.
Proof.
  intros (bs & g & Hbs & _ & ->)%base64ToBlob_Ok. split_and!; simpl; [| |done].
  - by eapply atob_binary.
  - apply normalize_type_string.
Qed.

Lemma build_form_form_typed c fd : capture_typed c → build_form c = Ok fd → form_typed fd.
Proof.
  intros Hc (name & v & -> & Hv)%build_form_field. constructor; [|constructor].
  destruct c as [s|b]; simpl in *.
  - destruct (startsWith (js "data:") s).
    + destruct Hv as (-> & blob & Hb%base64ToBlob_blob_typed & ->).
      simpl. split_and!; auto using js_is_string.
    + destruct Hv as [-> ->]. split; [apply js_is_string|done].
  - destruct Hv as [-> ->]. simpl. split_and!; auto using js_is_string, blob_typed_file_name.
Qed.

Lemma handleImageUpload_start_typed origin c req :
  from_option is_string True origin → capture_typed c →
  handleImageUpload_start origin c = Ok req → request_typed req.
Proof.
  intros Ho Hc (fd & Hfd & [= <-])%bind_Ok. split_and!; simpl.
  - by apply apiEndpoint_string.
  - apply js_is_string.
  - by eapply build_form_form_typed.
Qed.

Lemma handleImageUpload_settle_typed {J} (JSON_parse : jsstring → option J) o :
  settled_typed o → log_typed (handleImageUpload_settle JSON_parse o).
Proof.
  destruct o as [r|reason]; simpl; [|done]. intros Hr.
  destruct (response_ok r), (resp_body r) as [text|]; simpl; try done.
  by destruct (JSON_parse text).
Qed.

(** What the cameras hand over is well typed. *)
Lemma mobile_capture_typed `{Canvas Frame} ms (v : video Frame) ctx c :
  Mobile.capturePhoto ms v ctx = Some c → capture_typed c.
Proof. intros (_ & _ & ->)%Mobile.mobile_capture_Some. apply canvas_toDataURL_string. Qed.

Lemma desktop_capture_typed `{Canvas Frame} ds (v : video Frame) c :
  Desktop.capturePhoto ds v = Some c → capture_typed c.
Proof.
  unfold Desktop.capturePhoto. intros (uri & (i & _ & Hi)%bind_Some & Hc)%bind_Some.
  apply Desktop.getScreenshot_Some in Hi as (_ & _ & ->).
  case_decide; simplify_eq. apply canvas_toDataURL_string.
Qed.

Lemma file_capture_typed files c :
  from_option (Forall blob_typed) True files → Desktop.onFileChange files = Some c →
  capture_typed c.
Proof.
  unfold Desktop.onFileChange. intros Hf (file & Hfile & [= <-])%bind_Some.
  destruct files as [[|f fs]|]; simplify_eq/=. by apply Forall_cons in Hf as [? _].
Qed.

(** The event that reaches the page is well typed when the event of the
    system is. *)
Lemma page_event_of_typed {J} `{Canvas Frame} (s : System.state (J := J))
    (ev : System.event (Frame := Frame)) pev :
  event_typed ev → System.page_event_of s ev = Some pev → page_event_typed pev.
Proof.
  unfold System.page_event_of.
  destruct ev as [|e|e|v ctx|v|files|files|k o|]; destruct (System.cam s) as [|c0|c0];
    try done; intros Hev; try (by intros [= <-]); intros (d & Hd & ->)%fmap_Some; simpl.
  - by eapply mobile_capture_typed.
  - by eapply desktop_capture_typed.
  - by eapply file_capture_typed.
Qed.

End typing_values.

Section typing_page.
Context {J : Type} (JSON_parse : jsstring → option J).
Context (userAgent origin : option jsstring).
Context (Horigin : from_option is_string True origin).
Implicit Types (s : Page.state (J := J)) (ev : Page.event).

Lemma page_typed_init : page_typed (Page.init (J := J)).
Proof. by split. Qed.

Lemma page_typed_handleImageUpload c s :
  capture_typed c → page_typed s → page_typed (Page.handleImageUpload origin c s).
Proof.
  intros Hc [Hs Hu Hup]. unfold Page.handleImageUpload.
  destruct (handleImageUpload_start origin c) as [req|e] eqn:Hreq; split; simpl; try done.
  apply Forall_app. split; [done|]. constructor; [|done].
  unfold upload_typed. simpl. split_and!; [done| |done].
  exact (handleImageUpload_start_typed origin c req Horigin Hc Hreq).
Qed.

Lemma page_typed_handleCapture c s :
  capture_typed c → page_typed s → page_typed (Page.handleCapture origin c s).
Proof.
  intros Hc [Hs Hu Hup]. destruct c as [str|b]; simpl;
    apply page_typed_handleImageUpload; try done; split; simpl; try done.
  - apply blob_url_string.
  - apply Forall_app. split; [done|]. constructor; [|done]. split; [apply blob_url_string|done].
Qed.

(** Every step of the page preserves the typing of its state. *)
Lemma page_typed_step s ev s' :
  page_typed s → page_event_typed ev → Page.step JSON_parse userAgent origin s ev = Some s' →
  page_typed s'.
Proof.
  intros Hs Hev [[_ ->]|[(c & _ & -> & Hc)|[[_ ->]|(k & o & u & -> & Hu & ->)]]]%Page.page_step_cases;
    [by destruct Hs| |done|].
  - apply page_typed_handleCapture; [|done].
    destruct Hc as [->|(files & file & -> & Hf & -> & _)]; [done|].
    destruct files as [[|f fs]|]; simplify_eq/=. by apply Forall_cons in Hev as [? _].
  - destruct Hs as [Hs Hurl Hup]. apply Page.page_in_flight_Some in Hu as [Hk _].
    split; simpl; [done..|]. apply Forall_insert; [done|].
    destruct (Forall_lookup_1 _ _ _ _ Hup Hk) as (? & ? & _).
    unfold upload_typed. simpl. split_and!; [done..|]. by apply handleImageUpload_settle_typed.
Qed.

End typing_page.

(** * The theorems of the file *)

(** [base64ToBlob] returns a well-typed blob for every argument that
    it accepts: the bytes are bytes, so that the copy into the [Uint8Array]
    truncates nothing, and the type is a string of printable ASCII
    characters in lower case, or the empty string. *)
Theorem base64ToBlob_typed (s : jsstring) (b : blob) :
  base64ToBlob s = Ok b →
  blob_typed b ∧ Forall (λ c, 32 ≤ c ≤ 126 ∧ ¬ (65 ≤ c ≤ 90)) (blob_type b).
Proof.
  intros Hb. split; [by eapply base64ToBlob_blob_typed|].
  apply base64ToBlob_Ok in Hb as (bs & g & _ & _ & ->). simpl.
  unfold normalize_type. case_decide as Hg; [|constructor].
  apply Forall_fmap. eapply Forall_impl; [exact Hg|].
  intros c Hc. unfold ascii_lowercase. simpl in *. case_decide; lia.
Qed.

Lemma base64ToBlob_typed_witness :
  blob_typed (mkBlob [137; 80; 78; 71; 13; 10; 26; 10] (js "image/png") None) ∧
  Forall (λ c, 32 ≤ c ≤ 126 ∧ ¬ (65 ≤ c ≤ 90))
    (blob_type (mkBlob [137; 80; 78; 71; 13; 10; 26; 10] (js "image/png") None)).
Proof.
  apply (base64ToBlob_typed (js "data:IMAGE/PNG;base64,iVBORw0KGgo=")). by vm_compute.
Defined.

Section typing_theorems.
Context {J : Type} (JSON_parse : jsstring → option J).
Context (userAgent origin : option jsstring).
Context `{Canvas Frame}.

(** Typing is preserved by the whole system: when the origin of the
    page is a string and the events bring well-typed values in (the files
    that the user chooses and the responses of the server), every state
    that a run reaches is well typed: the preview source is a string, every
    object URL is a string that stands for a well-typed blob, and every
    upload has a well-typed image, a request whose URL, method and form
    fields are strings and whose files are well-typed blobs, and a
    well-typed console line. *)
Theorem system_typed (evs : list (System.event (Frame := Frame))) (s : System.state (J := J)) :
  from_option is_string True origin → Forall event_typed evs →
  run (Machine0 := System.machine JSON_parse userAgent origin) evs System.init = Some s →
  page_typed (System.page s).
Proof.
  intros Ho. apply (guarded_run (Machine0 := System.machine JSON_parse userAgent origin)
                      event_typed (λ s, page_typed (System.page s))); [|apply page_typed_init].
  intros s1 ev s2 Hs Hev Hstep%System.system_step_page.
  destruct (System.page_event_of s1 ev) as [pev|] eqn:Hpev; [|by rewrite Hstep].
  apply (page_typed_step JSON_parse userAgent origin Ho (System.page s1) pev); [done| |done].
  by eapply page_event_of_typed.
Qed.

End typing_theorems.

Lemma system_typed_witness :
  page_typed (System.page (System.after Page.phone System.phone_session)).
Proof.
  apply (system_typed parse_ok_true Page.phone None System.phone_session);
    [done| |by vm_compute].
  by repeat constructor.
Defined.
