(* ===== verification/WholeTyping.v ===== *)
(** The types of the values in the whole program.

    [Typing.v] states what the TypeScript types of
    [src/frontend/app/analyse/page.tsx] promise and proves that the system
    of [System.v] preserves them.  This file does the same for the whole
    program of [Whole.v], in which a call of [handleImageUpload] receives its
    response and the body of the response in two steps (lines 194, 199 and
    203): the values that come in are the files that the user chooses, the
    reason of a rejected [fetch] and the text of a body.  The typing of the
    state follows from that of the system through the embedding of
    [Whole.v]; the lines on the console are typed step by step. *)

From Stdlib Require Import ZArith Lia.
From stdpp Require Import prelude gmap.
From S2P Require Import Prelude JsString Base64 Normalizer Upload Machine Embedding Canvas Media.
From S2P Require Import MobileCamera MobileView Detector DesktopCamera Analyse Fetch System.
From S2P Require Import SystemView Whole Typing.

Import Page System.

(** What a settlement of a promise of [handleImageUpload] brings in: the
    reason of a rejection and the text of a body are strings; the status of
    a response is a number. *)
Definition settlement_typed (o : Fetch.settlement) : Prop :=
  match o with
  | Fetch.FetchFailed reason => is_string reason
  | Fetch.BodyRead text => is_string text
  | Fetch.Responded _ | Fetch.BodyFailed => True
  end.

#[export] Instance settlement_typed_dec o : Decision (settlement_typed o).
Proof. destruct o; apply _. Defined.

Section whole_typing.
Context {J : Type} {Frame : Type}.

(** The values that an event of the page with its video element brings
    in: the frame of the shutter and the size of the stream are read from
    the element. *)
Definition full_event_typed (fev : Full.event (Frame := Frame)) : Prop :=
  match fev with
  | Full.Sys ev => event_typed ev
  | Full.Shutter _ _ | Full.LoadedMetadata _ _ => True
  end.

(** The values that an event of the whole program brings in. *)
Definition whole_event_typed (ev : Whole.event (Frame := Frame)) : Prop :=
  match ev with
  | Whole.FullEvent fev => full_event_typed fev
  | Whole.Settle _ o => settlement_typed o
  end.

End whole_typing.

(** * Properties *)

Section whole_typing_props.
Context {J : Type} (JSON_parse : jsstring → option J).
Context (userAgent origin : option jsstring).
Context `{Canvas Frame}.
Implicit Types (s : Whole.state (J := J)) (ev : Whole.event (Frame := Frame)).
Implicit Types (a : Fetch.suspended) (o : Fetch.settlement).

(** The response with its body is well typed when the body is. *)
Lemma merged_typed a o m : settlement_typed o → Fetch.merged a o = Some m → settled_typed m.
Proof. destruct a, o; intros Ho Hm; by simplify_eq/=. Qed.

(** The line that a call logs when it returns is well typed. *)
Lemma resume_typed a o (l : log_entry J) :
  settlement_typed o → Fetch.resume JSON_parse a o = Some (Fetch.Returned l) → log_typed l.
Proof.
  destruct a, o; simpl; intros Ho Hl; repeat case_match; by simplify_eq/=.
Qed.

Lemma whole_written_typed s ev :
  whole_event_typed ev → Forall log_typed (Whole.written JSON_parse s ev).
Proof.
  destruct ev as [fev|k o]; simpl; [done|]. intros Ho. unfold Fetch.written.
  destruct (Fetch.resume _ _ o) as [[a|l]|] eqn:Hl; [done| |done].
  apply Forall_singleton. by eapply resume_typed.
Qed.

Lemma full_sys_event_typed (fs : Full.state (J := J)) (fev : Full.event (Frame := Frame)) :
  full_event_typed fev → Forall event_typed (Full.sys_event fs fev).
Proof. destruct fev; simpl; by repeat constructor. Qed.

Lemma whole_full_event_typed s ev :
  whole_event_typed ev → Forall full_event_typed (Whole.full_event s ev).
Proof.
  destruct ev as [fev|k o]; simpl; [by repeat constructor|]. intros Ho.
  destruct (Fetch.merged _ o) as [m|] eqn:Hm; simpl; [|done].
  apply Forall_singleton. by eapply merged_typed.
Qed.

(** The events of the system that a well-typed event stands for are well
    typed. *)
Lemma whole_sys_events_typed s ev :
  whole_event_typed ev →
  Forall event_typed (Whole.sys_events JSON_parse userAgent origin s ev).
Proof.
  intros Hev. unfold Whole.sys_events.
  apply (trace_project_Forall _ _ full_event_typed); [apply full_sys_event_typed|].
  by apply whole_full_event_typed.
Qed.

End whole_typing_props.

(** * The theorems of the file *)

Section whole_typing_theorems.
Context {J : Type} (JSON_parse : jsstring → option J).
Context (userAgent origin : option jsstring).
Context `{Canvas Frame}.

(** C18.  Typing is preserved by the whole program, one await at a time:
    when the origin of the page is a string and the events bring well-typed
    values in (the files that the user chooses, the reason of a rejected
    request, the text of a body), every state that a run reaches is well
    typed (the preview source is a string, every object URL is a string that
    stands for a well-typed blob, every upload has a well-typed image, a
    request whose URL, method and form fields are strings and whose files
    are well-typed blobs, and a well-typed console line), and every line
    that the run writes to the console is well typed. *)
Theorem whole_typed (evs : list (Whole.event (Frame := Frame))) (s : Whole.state (J := J)) :
  from_option is_string True origin → Forall whole_event_typed evs →
  run (Machine0 := Whole.machine JSON_parse userAgent origin) evs Whole.init = Some s →
  page_typed (Whole.page_of s) ∧
  Forall log_typed
    (outputs (Machine0 := Whole.machine JSON_parse userAgent origin)
       (Whole.written JSON_parse) evs Whole.init).
Proof.
  intros Ho Hevs Hr. split.
  - apply (embedding_guarded _ _ _ _ _ (Whole.whole_sys_embedding JSON_parse userAgent origin)
             whole_event_typed event_typed (λ y, page_typed (System.page y)) evs s);
      [apply whole_sys_events_typed| |done..].
    intros ys y Hys Hy. by apply (system_typed JSON_parse userAgent origin ys).
  - apply (outputs_Forall whole_event_typed); [|done].
    intros s0 ev. apply whole_written_typed.
Qed.

End whole_typing_theorems.

Lemma whole_typed_witness :
  page_typed (Whole.page_of (Whole.after_events Whole.photo_session)) ∧
  Forall log_typed
    (outputs (Machine0 := Whole.machine parse_ok_true phone None)
       (Whole.written parse_ok_true) Whole.photo_session Whole.init).
Proof.
  apply (whole_typed parse_ok_true phone None Whole.photo_session); [done| |by vm_compute].
  repeat (apply Forall_cons; split; [first [exact I|by apply (bool_decide_unpack _)]|]).
  by apply Forall_nil_2.
Defined.
