(* ===== verification/SystemProgress.v ===== *)
(** Progress of the whole page: every promise that the program awaits is
    settled by the environment, and the program comes to rest.

    The program of [src/frontend/app/analyse/page.tsx] awaits two kinds of
    promise: [getUserMedia] in the camera components (line 39, and inside
    the webcam widget) and [fetch] in [handleImageUpload] (line 194).  The
    environment owes the settlement of each.  No handler cancels a promise
    or waits for another one, so every settlement can be delivered in every
    state, and each leaves one promise less.

    The file proves that the system inevitably comes to rest from every
    state, with every upload logged and the preview untouched, after at most
    as many events as there are promises pending; and that every capture
    that starts an upload is inevitably answered on the console, whatever the
    cameras and the other uploads do in between. *)

From Stdlib Require Import ZArith Lia.
From stdpp Require Import prelude gmap.
From S2P Require Import Prelude JsString Base64 Normalizer Upload Machine Progress.
From S2P Require Import Canvas Media MobileCamera MobileProgress Detector DesktopCamera.
From S2P Require Import DesktopProgress Analyse PageProgress System.

Import Page System.

Section system_progress.
Context {J : Type} (JSON_parse : jsstring → option J).
Context (userAgent origin : option jsstring).
Context `{Canvas Frame}.

(** The events that the environment owes: a stream request of the mounted
    camera settles, or a call of [fetch] in flight settles. *)
Definition system_owed (s : state (J := J)) (ev : event (Frame := Frame)) : Prop :=
  match ev with
  | MobileEvent e => match cam s with MobileCam c => settles c e | _ => False end
  | DesktopEvent e => match cam s with DesktopCam c => desktop_settles c e | _ => False end
  | Settled k _ => is_Some (in_flight (page s) k)
  | _ => False
  end.

(** The stream requests of the camera that have not settled. *)
Definition camera_pending (c : camera) : nat :=
  match c with
  | NoCamera => 0
  | MobileCam c => pending_runs c
  | DesktopCam c => pending_requests c
  end.

(** The promises that are pending. *)
Definition pending_work (s : state (J := J)) : nat :=
  camera_pending (cam s) + in_flight_count (page s).

(** No stream request of the camera is pending. *)
Definition camera_quiet (c : camera) : Prop :=
  match c with
  | NoCamera => True
  | MobileCam c => ∀ k, Mobile.pending c k = None
  | DesktopCam c => ∀ k, Desktop.pending c k = None
  end.

(** What the settlements leave as it was: the uploads with their images
    and requests, the preview, the rejections, and whether the page is
    mounted. *)
Definition settled_from (s s' : state (J := J)) : Prop :=
  keeps_uploads (page s) (page s') ∧ screenshot (page s') = screenshot (page s) ∧
  unhandled (page s') = unhandled (page s) ∧ page_mounted s' = page_mounted s.

(** The system has come to rest from [s]. *)
Definition rest_from (s s' : state (J := J)) : Prop :=
  settled_from s s' ∧ all_logged (page s) (page s') ∧ camera_quiet (cam s').

End system_progress.

(** * Properties *)

Section system_progress_props.
Context {J : Type} (JSON_parse : jsstring → option J).
Context (userAgent origin : option jsstring).
Context `{Canvas Frame}.
Implicit Types (s : state (J := J)) (ev : event (Frame := Frame)) (data : capture).

#[local] Abbreviation step := (step JSON_parse userAgent origin).
#[local] Abbreviation machine := (System.machine JSON_parse userAgent origin).
#[local] Abbreviation owed := (system_owed (J := J) (Frame := Frame)).
#[local] Abbreviation abs_event := (System.abs_event JSON_parse userAgent).

Lemma settled_from_refl s : settled_from s s.
Proof. split; [apply keeps_uploads_preorder|done]. Qed.

Lemma settled_from_set_cam s c : settled_from s (set_cam c s).
Proof. exact (settled_from_refl s). Qed.

Lemma settled_from_trans s1 s2 s3 :
  settled_from s1 s2 → settled_from s2 s3 → settled_from s1 s3.
Proof.
  intros (Hk1 & Hs1 & Hu1 & Hm1) (Hk2 & Hs2 & Hu2 & Hm2).
  split; [by eapply (@PreOrder_Transitive _ _ keeps_uploads_preorder)|].
  split_and!; congruence.
Qed.

Lemma system_owed_exists s : (∃ ev, owed s ev) ↔ 0 < pending_work s.
Proof.
  unfold pending_work, camera_pending. split.
  - intros [[|e|e| | | | |k o|] Hev]; simpl in Hev; try done.
    + destruct (cam s) as [|c|c]; try done.
      assert (0 < pending_runs c) by (apply settles_exists; eauto). lia.
    + destruct (cam s) as [|c|c]; try done.
      assert (0 < pending_requests c) by (apply desktop_settles_exists; eauto). lia.
    + assert (0 < in_flight_count (page s)); [|lia].
      apply in_flight_count_pos. destruct Hev as [u Hu]. eauto.
  - intros Hw. destruct (decide (0 < in_flight_count (page s))) as [Hp|Hp].
    { apply in_flight_count_pos in Hp as (k & u & Hu).
      exists (Settled k (Rejected [])). simpl. by rewrite Hu. }
    destruct (cam s) as [|c|c] eqn:Hcam; [lia|..].
    + assert (0 < pending_runs c) as [e He]%settles_exists by lia.
      exists (MobileEvent e). simpl. by rewrite Hcam.
    + assert (0 < pending_requests c) as [e He]%desktop_settles_exists by lia.
      exists (DesktopEvent e). simpl. by rewrite Hcam.
Qed.

#[export] Instance system_owed_exists_dec s : Decision (∃ ev, owed s ev).
Proof. refine (cast_if (decide (0 < pending_work s))); by rewrite system_owed_exists. Defined.

(** Every owed event can be delivered; it leaves one promise less and
    changes neither the uploads nor the preview. *)
Lemma system_owed_step s ev :
  owed s ev →
  ∃ s', step s ev = Some s' ∧ S (pending_work s') = pending_work s ∧ settled_from s s'.
Proof.
  unfold pending_work. destruct ev as [|e|e| | | | |k o|]; simpl; try done.
  - destruct (cam s) as [|c|c] eqn:Hcam; try done. intros He.
    destruct (settles_step c e He) as (c' & Hc' & Hn).
    exists (set_cam (MobileCam c') s). unfold System.step.
    apply settles_inv in He as (k & e0 & _ & [-> | ->]); rewrite Hc'; simpl;
      (split_and!; [done|lia|apply settled_from_set_cam]).
  - destruct (cam s) as [|c|c] eqn:Hcam; try done. intros He.
    destruct (desktop_settles_step c e He) as [c' Hc'].
    destruct (desktop_settle_fields c e c' He Hc') as (_ & _ & Hn).
    exists (set_cam (DesktopCam c') s). unfold System.step.
    apply desktop_settles_inv in He as (k & i & _ & [-> | ->]); rewrite Hc'; simpl;
      (split_and!; [done|lia|apply settled_from_set_cam]).
  - intros Hu.
    destruct (answers_step JSON_parse userAgent origin (page s) (FetchSettled k o) Hu)
      as (p' & Hp' & Hn).
    exists (set_page p' s). unfold System.step, page_step. rewrite Hp'. simpl.
    split; [by destruct (cam s)|]. split; [lia|].
    pose proof (page_step_keeps_uploads JSON_parse userAgent origin _ _ _ Hp') as Hk.
    apply page_step_settled in Hp' as (u & _ & ->). by split.
Qed.

Lemma camera_quiet_quiescent s : quiescent owed s → camera_quiet (cam s).
Proof.
  intros Hq. destruct (cam s) as [|c|c] eqn:Hcam; simpl; [done|..]; intros k.
  - destruct (Mobile.pending c k) as [e|] eqn:He; [|done].
    destruct (Hq (MobileEvent (Mobile.Resolve k))). simpl. by rewrite Hcam, He.
  - destruct (Desktop.pending c k) as [i|] eqn:Hi; [|done].
    destruct (Hq (DesktopEvent (Desktop.Resolve k))). simpl. by rewrite Hcam, Hi.
Qed.

Lemma rest_from_quiescent s s' : settled_from s s' → quiescent owed s' → rest_from s s'.
Proof.
  intros Hs Hq. split; [done|]. split; [|by apply camera_quiet_quiescent].
  apply all_logged_quiescent; [apply Hs|]. intros k.
  destruct (in_flight (page s') k) as [u|] eqn:Hu; [|done].
  destruct (Hq (Settled k (Rejected []))). simpl. by rewrite Hu.
Qed.

(** The system comes to rest from every state. *)
Lemma system_settles s :
  inevitable (Machine0 := machine) owed (rest_from s) s.
Proof.
  eapply inevitable_mono;
    [|apply (inevitable_measure (Machine0 := machine) owed pending_work (settled_from s));
      [|intros; apply _|apply settled_from_refl]].
  - intros s' [Hs Hq]. by apply rest_from_quiescent.
  - intros s0 ev H0 (s' & Hs' & Hn & Hk)%system_owed_step.
    exists s'. split_and!; [done|by eapply settled_from_trans|lia].
Qed.

(** A capture that the specification counts: the page handles it, and the
    camera is left as it is. *)
Lemma capture_event_page s ev s1 data n :
  step s ev = Some s1 → abs_event s ev = Some (SessionSpec.Capture data n) →
  page s1 = handleCapture origin data (page s) ∧ n = is_ok (build_form data).
Proof.
  unfold System.step, System.abs_event, abs_capture, deliver, page_step.
  destruct ev as [|e|e|v ctx|v|files|files|k o|]; destruct (cam s) as [|c|c]; try done;
    try (by destruct e); (destruct (page_mounted s); [|done]).
  - destruct (Mobile.capturePhoto c v ctx) as [d|]; [|done].
    intros (p' & [_ ->]%page_step_capture & [= <-])%bind_Some Ha. by simplify_eq/=.
  - destruct (Desktop.capturePhoto c v) as [d|]; [|done].
    intros (p' & [_ ->]%page_step_capture & [= <-])%bind_Some Ha. by simplify_eq/=.
  - destruct (Desktop.onFileChange files) as [d|]; [|done].
    intros (p' & [_ ->]%page_step_capture & [= <-])%bind_Some Ha. by simplify_eq/=.
  - intros (p' & Hp' & [= <-])%bind_Some. simpl in *.
    destruct (isMobileDevice (page s)) as [[]|]; simplify_eq.
    rewrite handleMobileFile_head. destruct (files ≫= head); by intros [= <- <-].
Qed.

(** The upload that such a capture starts. *)
Lemma capture_event_upload s ev s1 data :
  step s ev = Some s1 → abs_event s ev = Some (SessionSpec.Capture data true) →
  ∃ req, handleImageUpload_start origin data = Ok req ∧
         uploads (page s1) !! length (uploads (page s)) = Some (mkUpload data req None).
Proof.
  intros Hstep Habs. destruct (capture_event_page s ev s1 data true Hstep Habs) as [Hp Hok].
  pose proof (handleCapture_uploads origin data (page s)) as Hup. rewrite <-Hp in Hup.
  unfold handleImageUpload_start. destruct (build_form data) as [fd|] eqn:Hfd; [|done].
  destruct Hup as [Hup _]. eexists. split; [done|].
  by rewrite Hup, lookup_app_r, Nat.sub_diag by lia.
Qed.

End system_progress_props.

(** * The theorems of the file *)

Section system_progress_theorems.
Context {J : Type} (JSON_parse : jsstring → option J).
Context (userAgent origin : option jsstring).
Context `{Canvas Frame}.

#[local] Abbreviation machine := (System.machine JSON_parse userAgent origin).

(** The system comes to rest: from every state, when the promises
    that are pending settle (the stream requests of the camera and the calls
    of [fetch] in flight, in whatever order and each with whatever outcome),
    every settlement can be delivered, and after finitely many of them no
    stream request is pending and every upload has logged its line, with the
    image and the request it had; the preview, the rejections and the page
    are as they were.  No sequence of settlements is longer than the number
    of pending promises. *)
Theorem system_comes_to_rest (s : state (J := J)) :
  inevitable (Machine0 := machine) (system_owed (Frame := Frame)) (rest_from s) s ∧
  ∀ evs, owed_run (Machine0 := machine) (system_owed (Frame := Frame)) evs s →
         length evs ≤ pending_work s.
Proof.
  split; [apply system_settles|]. intros evs.
  apply (owed_run_length (Machine0 := machine) system_owed pending_work (λ _, True)); [|done].
  intros s0 ev _ Hev.
  destruct (system_owed_step JSON_parse userAgent origin s0 ev Hev) as (s' & Hs' & Hn & _).
  exists s'. split_and!; [done..|lia].
Qed.

(** Every capture is inevitably answered on the console: when a
    camera or a file input hands over an image that normalises, the upload
    that the step starts is in flight, and whatever settlements follow, of
    stream requests and of other uploads, in whatever order, that upload has
    logged its line after finitely many of them; it is the upload of the
    captured image, and the preview still shows the capture. *)
Theorem system_capture_logged (s s1 : state (J := J)) (ev : event (Frame := Frame))
    (data : capture) :
  step JSON_parse userAgent origin s ev = Some s1 →
  abs_event JSON_parse userAgent s ev = Some (SessionSpec.Capture data true) →
  inevitable (Machine0 := machine) system_owed
    (λ s', ∃ u l, uploads (page s') !! length (uploads (page s)) = Some u ∧
                  up_image u = data ∧
                  handleImageUpload_start origin data = Ok (up_request u) ∧
                  up_log u = Some l ∧ screenshot (page s') = screenshot (page s1)) s1.
Proof.
  intros Hstep Habs.
  destruct (capture_event_upload JSON_parse userAgent origin s ev s1 data Hstep Habs)
    as (req & Hreq & Hu).
  eapply inevitable_mono; [|apply system_settles].
  intros s' ((_ & Hs & _) & Hlog & _).
  destruct (Hlog _ _ Hu) as (u & l & Hu' & Hl & Hi & Hr).
  exists u, l. simpl in *. by rewrite Hr.
Qed.

End system_progress_theorems.

Lemma system_capture_logged_witness :
  inevitable (Machine0 := System.machine parse_ok_true phone None) system_owed
    (λ s', ∃ u l, uploads (page s') !! length (uploads (page (after phone [Detect]))) = Some u ∧
                  up_image u = CapString photo ∧
                  handleImageUpload_start None (CapString photo) = Ok (up_request u) ∧
                  up_log u = Some l ∧
                  screenshot (page s') = screenshot (page (after phone (take 2 phone_session))))
    (after phone (take 2 phone_session)).
Proof.
  apply (system_capture_logged parse_ok_true phone None (after phone [Detect])
           (after phone (take 2 phone_session))
           (ShutterMobile (mkVideo 0 0 [300; 7]%Z) true) (CapString photo)); by vm_compute.
Defined.
