(* ===== verification/WholeProgress.v ===== *)
(** Progress of the whole program: everything that
    [src/frontend/app/analyse/page.tsx] awaits arrives, and the program
    comes to rest.

    The program awaits the promise of [getUserMedia] in the camera
    components (line 39, and inside the webcam widget), the [loadedmetadata]
    event of the video element (line 49), the promise of [fetch] (line 194)
    and the promise of [response.text()] or [response.json()] (lines 199 and
    203).  The browser owes each of them.  No handler cancels one or waits
    for another, so every owed event can be delivered in every reachable
    state, in any order; each leaves less to await.

    The measure of [Module Whole] is the sum of the measures of its parts:
    of the camera with its element ([View.work]) or of the webcam widget
    ([pending_requests]), and of the calls of [handleImageUpload]
    ([Fetch.work]).  The theorem: from every reachable state the program
    inevitably comes to rest, with every upload logged, the camera settled
    and the video playing, the preview untouched; no sequence of owed events
    is longer than the measure.  In particular every capture that starts an
    upload is inevitably answered on the console. *)

From Stdlib Require Import ZArith Lia.
From stdpp Require Import prelude gmap.
From S2P Require Import Prelude JsString Base64 Normalizer Upload Machine Embedding Progress.
From S2P Require Import Canvas Media MobileCamera MobileProgress MobileView Detector.
From S2P Require Import DesktopCamera DesktopProgress Analyse PageProgress Fetch System.
From S2P Require Import SystemView Whole SystemProgress.

Import Page System.

Section whole_progress.
Context {J : Type} (JSON_parse : jsstring → option J).
Context (userAgent origin : option jsstring).
Context `{Canvas Frame}.

(** What the browser owes the camera in the tree: the settlement of a call
    of [getUserMedia], and for the mobile camera the metadata of the stream
    in its element. *)
Definition full_owed (fs : Full.state (J := J)) (fev : Full.event (Frame := Frame)) : Prop :=
  match fev with
  | Full.Sys (MobileEvent e) =>
      match Full.view fs with Some v => View.owed v (View.Camera e) | None => False end
  | Full.LoadedMetadata w h =>
      match Full.view fs with Some v => View.owed v (View.LoadedMetadata w h) | None => False end
  | Full.Sys (DesktopEvent e) =>
      match cam (Full.sys fs) with DesktopCam c => desktop_settles c e | _ => False end
  | _ => False
  end.

(** What the browser owes the program: an event of [full_owed], or the
    settlement of the promise that a call in flight awaits. *)
Definition whole_owed (s : Whole.state (J := J)) (ev : Whole.event (Frame := Frame)) : Prop :=
  match ev with
  | Whole.FullEvent fev => full_owed (Whole.full s) fev
  | Whole.Settle k o => Fetch.owed JSON_parse (Whole.fetch_of s) (Fetch.Settle k o)
  end.

(** The events that the camera in the tree still awaits, at most. *)
Definition camera_work (fs : Full.state (J := J)) : nat :=
  match Full.view fs with
  | Some v => View.work v
  | None => match cam (Full.sys fs) with DesktopCam c => pending_requests c | _ => 0 end
  end.

Definition whole_work (s : Whole.state (J := J)) : nat :=
  camera_work (Whole.full s) + Fetch.work (Whole.fetch_of s).

(** The camera in the tree awaits nothing: no call of [getUserMedia] is
    pending, and a live stream in the element has its size and plays. *)
Definition camera_rest (fs : Full.state (J := J)) : Prop :=
  match Full.view fs with
  | Some v => View.at_rest v
  | None =>
      match cam (Full.sys fs) with
      | DesktopCam c => ∀ k, Desktop.pending c k = None
      | _ => True
      end
  end.

(** The program has come to rest from [s]: every upload of [s] has logged
    its line, no call holds a response, the camera awaits nothing, and the
    preview is as it was. *)
Definition whole_rest (s s' : Whole.state (J := J)) : Prop :=
  all_logged (Whole.page_of s) (Whole.page_of s') ∧
  screenshot (Whole.page_of s') = screenshot (Whole.page_of s) ∧
  camera_rest (Whole.full s') ∧ Whole.reading s' = ∅.

(** What the owed events keep. *)
Definition whole_kept (s s' : Whole.state (J := J)) : Prop :=
  @reachable _ _ (Whole.machine JSON_parse userAgent origin) s' ∧
  keeps_uploads (Whole.page_of s) (Whole.page_of s') ∧
  screenshot (Whole.page_of s') = screenshot (Whole.page_of s).

End whole_progress.

(** * Properties *)

Section whole_progress_props.
Context {J : Type} (JSON_parse : jsstring → option J).
Context (userAgent origin : option jsstring).
Context `{Canvas Frame}.
Implicit Types (s : Whole.state (J := J)) (fs : Full.state (J := J)).
Implicit Types (ev : Whole.event (Frame := Frame)) (fev : Full.event (Frame := Frame)).
Implicit Types (v : View.state).

#[local] Abbreviation machine := (Whole.machine JSON_parse userAgent origin).
#[local] Abbreviation step := (Whole.step JSON_parse userAgent origin).
#[local] Abbreviation full_step := (Full.step JSON_parse userAgent origin).
#[local] Abbreviation owed := (whole_owed JSON_parse (Frame := Frame)).
#[local] Abbreviation kept := (whole_kept JSON_parse userAgent origin).

(** ** The camera *)

Lemma full_view_Some fs v :
  Full.view fs = Some v ↔
  cam (Full.sys fs) = MobileCam (View.camera v) ∧ Full.video_el fs = View.video_el v.
Proof.
  unfold Full.view. destruct (cam (Full.sys fs)) as [|c|c], v as [c' p]; simpl;
    (split; [intros ?|intros [??]]); by simplify_eq.
Qed.

(** A step of the camera with its element, in the page. *)
Lemma full_step_view fs v vev v' :
  Full.view fs = Some v → View.step v vev = Some v' →
  Full.view_step vev fs
  = Some {| Full.sys := set_cam (MobileCam (View.camera v')) (Full.sys fs);
            Full.video_el := View.video_el v' |}.
Proof. intros Hv Hv'. unfold Full.view_step. rewrite Hv. simpl. by rewrite Hv'. Qed.

Lemma camera_work_view fs v v' :
  Full.view fs = Some v →
  camera_work {| Full.sys := set_cam (MobileCam (View.camera v')) (Full.sys fs);
                 Full.video_el := View.video_el v' |} = View.work v' ∧
  camera_work fs = View.work v.
Proof. intros Hv. unfold camera_work. rewrite Hv. by destruct v'. Qed.

(** Every event that the camera is owed can be delivered; the page is left
    as it is and the camera awaits less. *)
Lemma full_owed_step fs fev :
  full_owed fs fev →
  ∃ fs', full_step fs fev = Some fs' ∧ page (Full.sys fs') = page (Full.sys fs) ∧
         camera_work fs' < camera_work fs ∧ ∀ k m, fev ≠ Full.Sys (Settled k m).
Proof.
  destruct fev as [[|e|e| | | | | |]|current ctx|w h]; simpl; try done.
  - destruct (Full.view fs) as [v|] eqn:Hv; [|done]. intros Ho.
    destruct (View.owed_step v (View.Camera e) Ho) as (v' & Hv' & Hw).
    destruct (camera_work_view fs v v' Hv) as [Hw' Hw0].
    exists {| Full.sys := set_cam (MobileCam (View.camera v')) (Full.sys fs);
              Full.video_el := View.video_el v' |}.
    split_and!; [|done|by rewrite Hw', Hw0|done].
    apply settles_inv in Ho as (k & e0 & _ & [-> | ->]);
      exact (full_step_view fs v _ v' Hv Hv').
  - destruct (cam (Full.sys fs)) as [|c|c] eqn:Hc; try done. intros Ho.
    destruct (desktop_settles_step c e Ho) as [c' Hc'].
    destruct (desktop_settle_fields c e c' Ho Hc') as (_ & _ & Hn).
    exists {| Full.sys := set_cam (DesktopCam c') (Full.sys fs);
              Full.video_el := Full.video_el fs |}.
    split_and!; [|done| |done].
    + unfold Full.step, Full.sys_step, System.step. rewrite Hc.
      apply desktop_settles_inv in Ho as (k & i & _ & [-> | ->]); by rewrite Hc'.
    + unfold camera_work, Full.view. simpl. rewrite Hc. lia.
  - destruct (Full.view fs) as [v|] eqn:Hv; [|done]. intros Ho.
    destruct (View.owed_step v (View.LoadedMetadata w h) Ho) as (v' & Hv' & Hw).
    destruct (camera_work_view fs v v' Hv) as [Hw' Hw0].
    exists {| Full.sys := set_cam (MobileCam (View.camera v')) (Full.sys fs);
              Full.video_el := View.video_el v' |}.
    split_and!; [exact (full_step_view fs v _ v' Hv Hv')|done|by rewrite Hw', Hw0|done].
Qed.

Lemma full_owed_exists fs : (∃ fev, full_owed fs fev) ↔ 0 < camera_work fs.
Proof.
  split.
  - intros [fev (fs' & _ & _ & Hw & _)%full_owed_step]. lia.
  - unfold camera_work. destruct (Full.view fs) as [v|] eqn:Hv.
    + intros [[e|w h] Hev]%View.owed_exists.
      * exists (Full.Sys (MobileEvent e)). simpl. by rewrite Hv.
      * exists (Full.LoadedMetadata w h). simpl. by rewrite Hv.
    + destruct (cam (Full.sys fs)) as [|c|c] eqn:Hc; [lia..|].
      intros [e He]%desktop_settles_exists.
      exists (Full.Sys (DesktopEvent e)). simpl. by rewrite Hc.
Qed.

(** ** The whole program *)

Lemma whole_owed_exists s :
  (∃ ev, owed s ev) ↔ 0 < camera_work (Whole.full s) ∨ 0 < in_flight_count (Whole.page_of s).
Proof.
  rewrite <-full_owed_exists.
  rewrite <-(Fetch.fetch_owed_exists JSON_parse (Whole.fetch_of s)). split.
  - intros [[fev|k o] Hev]; [left; by exists fev|right; by exists (Fetch.Settle k o)].
  - intros [[fev Hev]|[fev Hev]].
    + by exists (Whole.FullEvent fev).
    + apply Fetch.fetch_owed_inv in Hev as Hinv. destruct Hinv as (k & o & _ & _ & -> & _).
      by exists (Whole.Settle k o).
Qed.

#[export] Instance whole_owed_exists_dec s : Decision (∃ ev, owed s ev).
Proof.
  refine (cast_if (decide (0 < camera_work (Whole.full s) ∨
                           0 < in_flight_count (Whole.page_of s))));
    by rewrite whole_owed_exists.
Defined.

(** Every owed event can be delivered in a reachable state; it keeps the
    uploads and the preview, and leaves less to await. *)
Lemma whole_owed_step s0 s ev :
  kept s0 s → owed s ev →
  ∃ s', step s ev = Some s' ∧ kept s0 s' ∧ whole_work s' < whole_work s.
Proof.
  intros (Hr & Hk & Hs) Hev.
  assert (∀ s', step s ev = Some s' →
            keeps_uploads (Whole.page_of s) (Whole.page_of s') →
            screenshot (Whole.page_of s') = screenshot (Whole.page_of s) → kept s0 s') as Hkept.
  { intros s' Hs' Hk' Hsc. split_and!; [by eapply (reachable_step (Machine0 := machine))| |].
    - by eapply (@PreOrder_Transitive _ _ keeps_uploads_preorder).
    - congruence. }
  destruct ev as [fev|k o]; cbn [whole_owed] in Hev.
  - destruct (full_owed_step _ _ Hev) as (fs' & Hfs & Hp & Hw & Hne).
    set (s' := Whole.mkState fs' (Whole.reading s)).
    assert (step s (Whole.FullEvent fev) = Some s') as Hs' by (by apply Whole.whole_step_full).
    assert (Whole.fetch_of s' = Whole.fetch_of s) as Hf
      by (unfold Whole.fetch_of, Whole.page_of; simpl; by rewrite Hp).
    exists s'. split; [done|]. split.
    + apply Hkept; [done|..]; unfold Whole.page_of; simpl; rewrite Hp;
        [apply keeps_uploads_preorder|done].
    + unfold whole_work. rewrite Hf. simpl. lia.
  - pose proof (embedding_inv _ _ _ _ _ (Whole.whole_full_embedding JSON_parse userAgent origin)
                  s Hr) as Hinv.
    destruct (Fetch.fetch_owed_step JSON_parse userAgent origin _ _ Hinv Hev)
      as (f & Hf & _ & Hk' & Hsc & Hw).
    assert (step s (Whole.Settle k o) = Some (Whole.set_fetch f s)) as Hs'
      by (apply Whole.whole_step_settle; eauto).
    exists (Whole.set_fetch f s). split; [done|]. split; [by apply Hkept|].
    unfold whole_work. rewrite Whole.fetch_of_set_fetch.
    change (camera_work (Whole.full (Whole.set_fetch f s))) with (camera_work (Whole.full s)).
    lia.
Qed.

(** When nothing is owed the program is at rest. *)
Lemma whole_rest_quiescent s0 s : kept s0 s → quiescent owed s → whole_rest s0 s.
Proof.
  intros (Hr & Hk & Hs) Hq.
  assert (∀ k, in_flight (Whole.page_of s) k = None) as Hnone.
  { intros k. destruct (in_flight (Whole.page_of s) k) as [u|] eqn:Hu; [|done].
    destruct (proj2 (Fetch.fetch_owed_exists JSON_parse (Whole.fetch_of s))) as [fev Hev].
    { apply in_flight_count_pos. eauto. }
    apply Fetch.fetch_owed_inv in Hev as Hinv. destruct Hinv as (k' & o & _ & _ & -> & _).
    by destruct (Hq (Whole.Settle k' o)). }
  split_and!; [by apply all_logged_quiescent|done| |].
  - unfold camera_rest. destruct (Full.view (Whole.full s)) as [v|] eqn:Hv.
    + apply View.at_rest_quiescent.
      * apply full_view_Some in Hv as [Hc Hel]. destruct v as [c p]. simpl in *. subst p.
        by apply (Full.full_view_inv JSON_parse userAgent origin (Whole.full s) c);
          [apply (Whole.whole_reachable_full JSON_parse userAgent origin)|].
      * intros [e|w h] Hev.
        -- destruct (Hq (Whole.FullEvent (Full.Sys (MobileEvent e)))). simpl. by rewrite Hv.
        -- destruct (Hq (Whole.FullEvent (Full.LoadedMetadata w h))). simpl. by rewrite Hv.
    + destruct (cam (Full.sys (Whole.full s))) as [|c|c] eqn:Hc; [done..|]. intros k.
      destruct (Desktop.pending c k) as [i|] eqn:Hi; [|done].
      destruct (Hq (Whole.FullEvent (Full.Sys (DesktopEvent (Desktop.Resolve k))))).
      simpl. by rewrite Hc, Hi.
  - apply map_empty. intros k. destruct (Whole.reading s !! k) as [a|] eqn:Ha; [|done].
    destruct (Fetch.fetch_reachable_held JSON_parse userAgent origin (Whole.fetch_of s)
                (Whole.whole_reachable_fetch JSON_parse userAgent origin s Hr) k a Ha)
      as [u Hu].
    specialize (Hnone k). unfold Whole.fetch_of in Hu. simpl in Hu. congruence.
Qed.

(** The program comes to rest from every reachable state. *)
Lemma whole_settles s :
  @reachable _ _ machine s → inevitable (Machine0 := machine) owed (whole_rest s) s.
Proof.
  intros Hr. assert (kept s s) as Hk by (split_and!; [done|apply keeps_uploads_preorder|done]).
  eapply inevitable_mono;
    [|by apply (inevitable_measure (Machine0 := machine) owed whole_work (kept s));
         [apply whole_owed_step|intros s0 _; apply whole_owed_exists_dec|]].
  intros s' [Hk' Hq]. by apply whole_rest_quiescent.
Qed.

(** A step of the page with its camera, seen from the system. *)
Lemma whole_step_sys s fev s1 sev :
  step s (Whole.FullEvent fev) = Some s1 → Full.sys_event (Whole.full s) fev = [sev] →
  System.step JSON_parse userAgent origin (Full.sys (Whole.full s)) sev
  = Some (Full.sys (Whole.full s1)).
Proof.
  intros (_ & Hfs & _)%Whole.whole_step_full Hsev.
  pose proof (embed_step _ _ _ _ _ (Full.full_sys_embedding JSON_parse userAgent origin)
                _ _ _ I Hfs) as Hrun.
  rewrite Hsev in Hrun. by apply run_cons_Some in Hrun as (y & Hy & [= <-]).
Qed.

(** Nothing is owed when the measure is zero. *)
Lemma whole_work_zero_rest s0 s : kept s0 s → whole_work s = 0 → whole_rest s0 s.
Proof.
  intros Hk Hw. apply whole_rest_quiescent; [done|]. intros ev Hev.
  destruct (whole_owed_step s0 s ev Hk Hev) as (s' & _ & _ & ?). lia.
Qed.

(** The measure is at most twice the promises that are pending, and one
    for the metadata. *)
Lemma whole_work_bound s :
  whole_work s
  ≤ 2 * camera_pending (cam (Full.sys (Whole.full s))) + 1
    + 2 * in_flight_count (Whole.page_of s).
Proof.
  unfold whole_work. pose proof (Fetch.fetch_work_bound (Whole.fetch_of s)) as Hf.
  change (Fetch.page (Whole.fetch_of s)) with (Whole.page_of s) in Hf.
  assert (camera_work (Whole.full s)
          ≤ 2 * camera_pending (cam (Full.sys (Whole.full s))) + 1); [|lia].
  unfold camera_work, Full.view, camera_pending.
  destruct (cam (Full.sys (Whole.full s))) as [|c|c]; [lia| |lia].
  unfold View.work. simpl. destruct (View.awaiting_metadata _); lia.
Qed.

End whole_progress_props.

(** * The theorems of the file *)

Section whole_progress_theorems.
Context {J : Type} (JSON_parse : jsstring → option J).
Context (userAgent origin : option jsstring).
Context `{Canvas Frame}.

#[local] Abbreviation machine := (Whole.machine JSON_parse userAgent origin).

(** C14.  The whole program comes to rest.  From every reachable state,
    when what the program awaits arrives (the streams of the camera or their
    refusal, the metadata of the stream in the video element, the responses
    of the server or the failure of the requests, the bodies of the
    responses), in whatever order and with whatever outcome, every such
    event can be delivered, and after finitely many of them every upload has
    logged its line, no call holds a response, no call of [getUserMedia] is
    pending, a live stream in the element has its size and plays, and the
    preview is as it was.  No sequence of such events is longer than twice
    the number of pending promises plus one. *)
Theorem whole_comes_to_rest (s : Whole.state (J := J)) :
  @reachable _ _ machine s →
  @inevitable _ _ machine (whole_owed JSON_parse (Frame := Frame))
    (whole_rest s) s ∧
  ∀ evs, @owed_run _ _ machine (whole_owed JSON_parse (Frame := Frame)) evs s →
         length evs ≤ 2 * camera_pending (cam (Full.sys (Whole.full s))) + 1
                      + 2 * in_flight_count (Whole.page_of s).
Proof.
  intros Hr. split; [by apply (whole_settles JSON_parse userAgent origin)|].
  intros evs Hevs. etrans; [|apply whole_work_bound].
  by apply (owed_run_length (Machine0 := machine) (whole_owed JSON_parse) whole_work
              (whole_kept JSON_parse userAgent origin s));
    [apply whole_owed_step|split_and!; [done|apply keeps_uploads_preorder|done]|].
Qed.

(** C15.  Every capture is inevitably answered on the console, in the whole
    program: when a camera or a file input hands over an image that
    normalises, in a reachable state, the upload that the step starts is in
    flight, and whatever follows of what the program awaits (streams,
    metadata, responses and bodies, of this upload and of the others, in
    whatever order), after finitely many of these events that upload has
    logged its line; it is the upload of the captured image with the request
    of [handleImageUpload], the preview still shows the capture, no call
    holds a response and the camera awaits nothing. *)
Theorem whole_capture_logged (s s1 : Whole.state (J := J)) (fev : Full.event (Frame := Frame))
    (sev : System.event (Frame := Frame)) (data : capture) :
  @reachable _ _ machine s →
  Whole.step JSON_parse userAgent origin s (Whole.FullEvent fev) = Some s1 →
  Full.sys_event (Whole.full s) fev = [sev] →
  System.abs_event JSON_parse userAgent (Full.sys (Whole.full s)) sev
  = Some (SessionSpec.Capture data true) →
  @inevitable _ _ machine (whole_owed JSON_parse (Frame := Frame))
    (λ s', (∃ u l, uploads (Whole.page_of s') !! length (uploads (Whole.page_of s)) = Some u ∧
                   up_image u = data ∧
                   handleImageUpload_start origin data = Ok (up_request u) ∧
                   up_log u = Some l) ∧
           screenshot (Whole.page_of s') = screenshot (Whole.page_of s1) ∧
           camera_rest (Whole.full s') ∧ Whole.reading s' = ∅) s1.
Proof.
  intros Hr Hstep Hsev Habs.
  destruct (capture_event_upload JSON_parse userAgent origin _ sev _ data
              (whole_step_sys JSON_parse userAgent origin s fev s1 sev Hstep Hsev) Habs)
    as (req & Hreq & Hu).
  eapply inevitable_mono;
    [|apply (whole_settles JSON_parse userAgent origin), (reachable_step _ _ _ Hr Hstep)].
  intros s' (Hlog & Hs & Hc & Hrd). destruct (Hlog _ _ Hu) as (u & l & Hu' & Hl & Hi & Hq).
  split_and!; [|done..]. exists u, l. simpl in *. by rewrite Hq.
Qed.

End whole_progress_theorems.

#[local] Ltac by_parts :=
  repeat match goal with
         | |- _ ∧ _ => split
         | |- ∃ _, _ => eexists
         | |- _ => done
         end.

(** The measure is reached: after the shutter of the example session the
    call awaits its response and then the body; both are owed in turn, and
    nothing is awaited after them. *)
Example whole_photo_session_rests :
  @owed_run _ _ (Whole.machine parse_ok_true phone None) (whole_owed parse_ok_true)
    (drop 4 Whole.photo_session) (Whole.after_events (take 4 Whole.photo_session)) ∧
  whole_work (Whole.after_events (take 4 Whole.photo_session)) = 2 ∧
  whole_work (Whole.after_events Whole.photo_session) = 0.
Proof. split_and!; [|by vm_compute..]. vm_compute. by_parts. Qed.

Lemma whole_comes_to_rest_witness :
  @inevitable _ _ (Whole.machine parse_ok_true phone None) (whole_owed parse_ok_true)
    (whole_rest (Whole.after_events (take 4 Whole.photo_session)))
    (Whole.after_events (take 4 Whole.photo_session)) ∧
  ∀ evs, @owed_run _ _ (Whole.machine parse_ok_true phone None) (whole_owed parse_ok_true)
           evs (Whole.after_events (take 4 Whole.photo_session)) →
         length evs
         ≤ 2 * camera_pending
                 (cam (Full.sys (Whole.full (Whole.after_events (take 4 Whole.photo_session)))))
           + 1
           + 2 * in_flight_count
                   (Whole.page_of (Whole.after_events (take 4 Whole.photo_session))).
Proof.
  apply (whole_comes_to_rest parse_ok_true phone None).
  exists (take 4 Whole.photo_session). by vm_compute.
Defined.

Lemma whole_capture_logged_witness :
  @inevitable _ _ (Whole.machine parse_ok_true phone None) (whole_owed parse_ok_true)
    (λ s', (∃ u l, uploads (Whole.page_of s')
                   !! length (uploads (Whole.page_of
                                (Whole.after_events (take 3 Whole.photo_session)))) = Some u ∧
                   up_image u
                   = CapString (Full.photo_uri
                       (Full.photo_of
                          (Full.video_el
                             (Whole.full (Whole.after_events (take 3 Whole.photo_session))))
                          [300; 7]%Z)) ∧
                   handleImageUpload_start None
                     (CapString (Full.photo_uri
                        (Full.photo_of
                           (Full.video_el
                              (Whole.full (Whole.after_events (take 3 Whole.photo_session))))
                           [300; 7]%Z)))
                   = Ok (up_request u) ∧
                   up_log u = Some l) ∧
           screenshot (Whole.page_of s')
           = screenshot (Whole.page_of (Whole.after_events (take 4 Whole.photo_session))) ∧
           camera_rest (Whole.full s') ∧ Whole.reading s' = ∅)
    (Whole.after_events (take 4 Whole.photo_session)).
Proof.
  assert (@reachable _ _ (Whole.machine parse_ok_true phone None)
            (Whole.after_events (take 3 Whole.photo_session))) as Hs
    by (exists (take 3 Whole.photo_session); by vm_compute).
  exact (whole_capture_logged parse_ok_true phone None
           (Whole.after_events (take 3 Whole.photo_session))
           (Whole.after_events (take 4 Whole.photo_session))
           (Full.Shutter [300; 7]%Z true)
           (ShutterMobile
              (snapshot (Full.video_el
                           (Whole.full (Whole.after_events (take 3 Whole.photo_session))))
                 [300; 7]%Z) true)
           _ Hs eq_refl eq_refl eq_refl).
Defined.
